(** * OpenProject work-log extension: the work-log processing pipeline

    A shallow embedding of the three JavaScript modules of the extension:
    - [apiClient.js]  (class [OpenProjectTimeLogger]): duplicate lookup with
      pagination, work-package and time-entry creation, the client-side
      processing loop;
    - [parser.js]     (class [WorkLogParser]): date tokens, the first pass
      over a date's entries;
    - [workLogService.js] (class [WorkLogService]): categorisation, time
      chaining and the processing loop of the service.

    Conventions of the embedding.
    - JavaScript strings are [string]; the functions on them ([trim],
      [toLowerCase], [parseInt], the regular expressions) are written for
      the ASCII fragment, bytes above 127 are left as they are.
    - JavaScript numbers that hold identifiers and counters are [Z] or
      [nat].  Hours are doubles, written by their exact value in [Q]; the
      arithmetic that turns them into minutes is the arithmetic of doubles
      ([JsNumber]), which reads a decimal that is no double as the double
      nearest to it.
    - A [Date] that stands for an instant is its time value in [Z], or
      [None] for [Invalid Date]; the arithmetic on time values is that of
      doubles too.  What the local time zone and the clock decide
      ([setHours], the day that [new Date(year, month, day)] falls on, the
      time of [new Date()]) is a parameter ([LocalZone], [now]).
    - An object with optional fields is a record of [option]s; truthiness
      ([x || y], [if (x)]) is written out with [truthyZ], [truthyQ] and
      [truthyS].  A table of the configuration is a [gmap]; where the code
      reads it with [in] or with [object[key]], the members that every
      object inherits are taken in ([hasProperty], [getProperty]).
    - The remote server, the console and the request log form the [World];
      code that awaits requests lives in the monad [M] of state and
      exceptions over it. *)

From Stdlib Require Import ZArith QArith Qround Qabs Qpower Qreduction Lqa.
From Stdlib Require Import List String Ascii Bool Lia.
From stdpp Require Import base option list strings gmap sorting.

Local Open Scope string_scope.
Local Open Scope Z_scope.

(** ** JavaScript strings *)

Module JsString.
Definition code (c : ascii) : nat := nat_of_ascii c.

(** White space of [String.prototype.trim] and of [parseInt], ASCII part:
    TAB, LF, VT, FF, CR and SPACE. *)
Definition isWhiteSpace (c : ascii) : bool :=
  ((9 <=? code c)%nat && (code c <=? 13)%nat) || (code c =? 32)%nat.

Definition isDigit (c : ascii) : bool :=
  (48 <=? code c)%nat && (code c <=? 57)%nat.

Definition isUpper (c : ascii) : bool :=
  (65 <=? code c)%nat && (code c <=? 90)%nat.

Definition isLower (c : ascii) : bool :=
  (97 <=? code c)%nat && (code c <=? 122)%nat.

(** The class [\w] of a regular expression. *)
Definition isWordChar (c : ascii) : bool :=
  isDigit c || isUpper c || isLower c || (code c =? 95)%nat.

Definition lowerChar (c : ascii) : ascii :=
  if isUpper c then ascii_of_nat (code c + 32) else c.

Fixpoint toLowerCase (s : string) : string :=
  match s with
  | EmptyString => EmptyString
  | String c s' => String (lowerChar c) (toLowerCase s')
  end.

Fixpoint trimStart (s : string) : string :=
  match s with
  | EmptyString => EmptyString
  | String c s' => if isWhiteSpace c then trimStart s' else s
  end.

Fixpoint reverse (acc s : string) : string :=
  match s with
  | EmptyString => acc
  | String c s' => reverse (String c acc) s'
  end.

Definition trimEnd (s : string) : string :=
  reverse EmptyString (trimStart (reverse EmptyString s)).

Definition trim (s : string) : string := trimEnd (trimStart s).

(** [s.includes(t)] *)
Fixpoint includes (s t : string) : bool :=
  String.prefix t s ||
  match s with
  | EmptyString => false
  | String _ s' => includes s' t
  end.

(** [s.split(sep)] for a one-character separator. *)
Fixpoint split (sep : ascii) (s : string) : list string :=
  match s with
  | EmptyString => [EmptyString]
  | String c s' =>
      if Ascii.eqb c sep then EmptyString :: split sep s'
      else match split sep s' with
           | [] => [String c EmptyString]
           | x :: xs => String c x :: xs
           end
  end.

Fixpoint forallChars (p : ascii -> bool) (s : string) : bool :=
  match s with
  | EmptyString => true
  | String c s' => p c && forallChars p s'
  end.

(** The longest prefix of characters in the class [p], and the rest. *)
Fixpoint span (p : ascii -> bool) (s : string) : string * string :=
  match s with
  | EmptyString => (EmptyString, EmptyString)
  | String c s' =>
      if p c then let '(a, b) := span p s' in (String c a, b)
      else (EmptyString, s)
  end.

Fixpoint repeatChar (c : ascii) (n : nat) : string :=
  match n with
  | O => EmptyString
  | S n' => String c (repeatChar c n')
  end.

(** [s.padStart(n, c)] for a one-character filler. *)
Definition padStart (n : nat) (c : ascii) (s : string) : string :=
  repeatChar c (n - String.length s) ++ s.

Definition digitChar (d : Z) : ascii := ascii_of_nat (48 + Z.to_nat d).

Fixpoint digitsOfPos (fuel : nat) (n : Z) (acc : string) : string :=
  match fuel with
  | O => acc
  | S fuel' =>
      let acc' := String (digitChar (n mod 10)) acc in
      if n <? 10 then acc' else digitsOfPos fuel' (n / 10) acc'
  end.

(** [String(n)] for an integer [n]. *)
Definition ofInt (n : Z) : string :=
  if n <? 0 then String "-" (digitsOfPos (S (Z.to_nat (Z.log2 (- n)))) (- n) EmptyString)
  else digitsOfPos (S (Z.to_nat (Z.log2 n))) n EmptyString.

Definition digitValue (c : ascii) : option Z :=
  if isDigit c then Some (Z.of_nat (code c) - 48)
  else if ((97 <=? code c)%nat && (code c <=? 102)%nat) then Some (Z.of_nat (code c) - 87)
  else if ((65 <=? code c)%nat && (code c <=? 70)%nat) then Some (Z.of_nat (code c) - 55)
  else None.

(** The digits of radix [radix] at the head of [s], read left to right;
    [None] when there is none. *)
Fixpoint readDigits (radix : Z) (s : string) (acc : option Z) : option Z :=
  match s with
  | EmptyString => acc
  | String c s' =>
      match digitValue c with
      | Some d =>
          if d <? radix
          then readDigits radix s' (Some (default 0 acc * radix + d))
          else acc
      | None => acc
      end
  end.

Definition stripHexPrefix (s : string) : option string :=
  match s with
  | String "0" (String "x" r) => Some r
  | String "0" (String "X" r) => Some r
  | _ => None
  end.

(** [parseInt(s)] without a radix: leading white space, an optional sign,
    an optional [0x] prefix, then digits; [None] stands for [NaN]. *)
Definition parseInt (s : string) : option Z :=
  let s1 := trimStart s in
  let '(sign, s2) :=
    match s1 with
    | String "-" r => (-1, r)
    | String "+" r => (1, r)
    | _ => (1, s1)
    end in
  let magnitude :=
    match stripHexPrefix s2 with
    | Some r => readDigits 16 r None
    | None => readDigits 10 s2 None
    end in
  (fun m => sign * m) <$> magnitude.

End JsString.

(** ** JavaScript numbers and truthiness *)

(** [Math.round] of a finite number: the nearest integer, a half rounds
    up. *)
Definition mathRound (x : Q) : Z := Qfloor (x + (1 # 2)).

(** *** Doubles

    The arithmetic of the engine on the hours of a task: every operation
    gives the double nearest to its exact result. *)

Module JsNumber.

(** A number of the engine: a double of IEEE 754, written by its exact
    value when it is finite.  The sign of zero is left out: nothing in
    the code modelled tells the two zeros apart. *)
Inductive number :=
| Finite (value : Q)
| Infinity (negative : bool)
| NaN.

Definition pow2 (k : Z) : Q := (2 ^ k)%Q.

(** The exponent of the power of two at or below [|x|], for [x] other than
    zero. *)
Definition binade (x : Q) : Z :=
  let e := Z.log2 (Z.abs (Qnum x)) - Z.log2 (Zpos (Qden x)) in
  if Qle_bool (pow2 e) (Qabs x) then e else e - 1.

(** The nearest whole number, a half going to the even one. *)
Definition roundHalfEven (x : Q) : Z :=
  let f := Qfloor x in
  match Qcompare (x - inject_Z f) (1 # 2) with
  | Lt => f
  | Gt => f + 1
  | Eq => if Z.even f then f else f + 1
  end.

(** The exponent of the last place of the doubles around [x]: 53 bits, and
    no place below [2^-1074]. *)
Definition ulpExponent (x : Q) : Z := Z.max (binade x - 52) (-1074).

(** The double nearest to [x], a tie going to the even mantissa, were the
    exponent unbounded above. *)
Definition nearest (x : Q) : Q :=
  let x := Qred x in
  if Qeq_bool x 0 then 0%Q
  else Qred (inject_Z (roundHalfEven (x / pow2 (ulpExponent x))) * pow2 (ulpExponent x)).

(** The number the engine holds for the exact result [x] of an operation:
    the nearest double, or an infinity from [2^1024] on. *)
Definition round64 (x : Q) : number :=
  let v := nearest x in
  if Qle_bool (pow2 1024) (Qabs v) then Infinity (negb (Qle_bool 0 v)) else Finite v.

(** *** Arithmetic *)

(** A number read from a record: a double is itself, and a decimal that
    is no double is the double nearest to it, as [JSON.parse] reads it. *)
Definition ofQ (x : Q) : number := round64 x.

Definition ofZ (n : Z) : number := round64 (inject_Z n).

Definition negative (x : Q) : bool := negb (Qle_bool 0 x).

(** [a * b] *)
Definition mul (a b : number) : number :=
  match a, b with
  | Finite x, Finite y => round64 (x * y)
  | Finite x, Infinity s | Infinity s, Finite x =>
      if Qeq_bool x 0 then NaN else Infinity (xorb s (negative x))
  | Infinity s, Infinity t => Infinity (xorb s t)
  | _, _ => NaN
  end.

(** [a + b] *)
Definition add (a b : number) : number :=
  match a, b with
  | Finite x, Finite y => round64 (x + y)
  | Finite _, Infinity s | Infinity s, Finite _ => Infinity s
  | Infinity s, Infinity t => if Bool.eqb s t then Infinity s else NaN
  | _, _ => NaN
  end.

(** [a / d] for a whole number [d] above zero. *)
Definition div (a : number) (d : Z) : number :=
  match a with
  | Finite x => round64 (x / inject_Z d)
  | _ => a
  end.

(** [Math.round] *)
Definition round (a : number) : number :=
  match a with
  | Finite x => Finite (inject_Z (mathRound x))
  | _ => a
  end.

(** [Math.floor] *)
Definition floor (a : number) : number :=
  match a with
  | Finite x => Finite (inject_Z (Qfloor x))
  | _ => a
  end.

(** The whole part of a rational, towards zero. *)
Definition trunc (x : Q) : Z := if Qle_bool 0 x then Qfloor x else - Qfloor (- x).

(** [a % d] for a whole number [d] above zero: the remainder has the sign
    of [a] and is exact. *)
Definition rem (a : number) (d : Z) : number :=
  match a with
  | Finite x => Finite (x - inject_Z d * inject_Z (trunc (x / inject_Z d)))
  | _ => NaN
  end.

End JsNumber.

Definition truthyZ (x : option Z) : bool :=
  match x with Some n => negb (n =? 0) | None => false end.

Definition truthyQ (x : option Q) : bool :=
  match x with Some q => negb (Qeq_bool q 0) | None => false end.

Definition truthyS (x : option string) : bool :=
  match x with Some s => negb (String.eqb s "") | None => false end.

(** [a || b] on optional values. *)
Definition orElse {A} (truthy : option A -> bool) (a b : option A) : option A :=
  if truthy a then a else b.

(** The names that every object inherits from [Object.prototype]: under
    these [key in object] holds and [object[key]] is a function or an
    object, whatever the keys of the object itself. *)
Definition inheritedNames : list string :=
  ["constructor"; "__defineGetter__"; "__defineSetter__"; "hasOwnProperty";
   "__lookupGetter__"; "__lookupSetter__"; "isPrototypeOf"; "propertyIsEnumerable";
   "toString"; "valueOf"; "__proto__"; "toLocaleString"].

Definition isInherited (key : string) : bool := existsb (String.eqb key) inheritedNames.

(** [key in object], for an object that was read from JSON or written as a
    literal. *)
Definition hasProperty {A} (object : gmap string A) (key : string) : bool :=
  bool_decide (is_Some (object !! key)) || isInherited key.

(** [object[key]] for an object of numbers: the number under a key of the
    object's own, a member that the object inherits, or [undefined]. *)
Inductive Property :=
| Own (value : Z)
| Inherits
| Absent.

Definition getProperty (object : gmap string Z) (key : string) : Property :=
  match object !! key with
  | Some value => Own value
  | None => if isInherited key then Inherits else Absent
  end.

(** A member that is inherited is a function or an object, and so is
    truthy. *)
Definition truthyProperty (p : Property) : bool :=
  match p with
  | Own value => negb (value =? 0)
  | Inherits => true
  | Absent => false
  end.

(** The project that a request names when it is handed the property: a
    number is itself; what is no number names no project of the server,
    as [undefined] does. *)
Definition numberOf (p : Property) : option Z :=
  match p with
  | Own value => Some value
  | Inherits | Absent => None
  end.

(** ** The calendar behind [Date]

    Day numbers count from 1970-01-01, as ECMAScript's [Day(t)]; the
    functions below are its [DayFromYear], [MakeDay], [YearFromTime],
    [MonthFromTime] and [DateFromTime] on whole days. *)

Module JsDate.

Definition dayFromYear (y : Z) : Z :=
  365 * (y - 1970) + (y - 1969) / 4 - (y - 1901) / 100 + (y - 1601) / 400.

Definition isLeapYear (y : Z) : bool :=
  ((y mod 4 =? 0) && negb (y mod 100 =? 0)) || (y mod 400 =? 0).

(** Days of the year before month [m] (0 = January). *)
Definition monthStart (leap : bool) (m : Z) : Z :=
  let l := if leap then 1 else 0 in
  match m with
  | 0 => 0 | 1 => 31 | 2 => 59 + l | 3 => 90 + l | 4 => 120 + l
  | 5 => 151 + l | 6 => 181 + l | 7 => 212 + l | 8 => 243 + l
  | 9 => 273 + l | 10 => 304 + l | _ => 334 + l
  end.

Definition makeDay (year month date : Z) : Z :=
  let ym := year + month / 12 in
  let mn := month mod 12 in
  dayFromYear ym + monthStart (isLeapYear ym) mn + date - 1.

Definition yearFromDay (d : Z) : Z :=
  let y0 := 1970 + d * 400 / 146097 in
  if d <? dayFromYear y0 then y0 - 1
  else if dayFromYear (y0 + 1) <=? d then y0 + 1
  else y0.

Definition dayWithinYear (d : Z) : Z := d - dayFromYear (yearFromDay d).

Definition monthFromDay (d : Z) : Z :=
  let leap := isLeapYear (yearFromDay d) in
  let k := dayWithinYear d in
  if k <? monthStart leap 1 then 0
  else if k <? monthStart leap 2 then 1
  else if k <? monthStart leap 3 then 2
  else if k <? monthStart leap 4 then 3
  else if k <? monthStart leap 5 then 4
  else if k <? monthStart leap 6 then 5
  else if k <? monthStart leap 7 then 6
  else if k <? monthStart leap 8 then 7
  else if k <? monthStart leap 9 then 8
  else if k <? monthStart leap 10 then 9
  else if k <? monthStart leap 11 then 10
  else 11.

Definition dateFromDay (d : Z) : Z :=
  dayWithinYear d - monthStart (isLeapYear (yearFromDay d)) (monthFromDay d) + 1.

(** A [Date] read by its local day, or [Invalid Date]. *)
Inductive t := Invalid | LocalDay (day : Z).

(** [new Date(year, month, day)]; a [NaN] argument gives [Invalid Date],
    and a year from 0 to 99 means 1900 + year.  The date is the local
    midnight of the day asked for; [zone] gives the local day on which
    that instant falls: the day itself, unless the clocks of the zone
    skipped it as a whole (Samoa had no 30 December 2011). *)
Definition ofYMD (zone : Z -> Z) (year month day : option Z) : t :=
  match year, month, day with
  | Some y, Some m, Some d =>
      let y' := if (0 <=? y) && (y <=? 99) then 1900 + y else y in
      LocalDay (zone (makeDay y' m d))
  | _, _, _ => Invalid
  end.

(** The getters answer [NaN], here [None], on [Invalid Date]. *)
Definition getFullYear (dt : t) : option Z :=
  match dt with Invalid => None | LocalDay d => Some (yearFromDay d) end.

Definition getMonth (dt : t) : option Z :=
  match dt with Invalid => None | LocalDay d => Some (monthFromDay d) end.

Definition getDate (dt : t) : option Z :=
  match dt with Invalid => None | LocalDay d => Some (dateFromDay d) end.

(** *** Dates as instants

    A [Date] that stands for an instant is its time value, the
    milliseconds since the epoch, or [None] for [Invalid Date]. *)

Definition msPerDay : Z := 86400000.

Definition maxTime : Z := 8640000000000000.

(** [new Date(value)] for a number: a time value is whole and at most
    [maxTime] in size ([TimeClip]). *)
Definition ofNumber (value : JsNumber.number) : option Z :=
  match value with
  | JsNumber.Finite x =>
      if Qle_bool (Qabs x) (inject_Z maxTime) then Some (JsNumber.trunc x) else None
  | _ => None
  end.

(** [TimeClip] on a whole number of milliseconds. *)
Definition timeClip (t : Z) : option Z := if Z.abs t <=? maxTime then Some t else None.

(** [date.getTime()]: [NaN] on [Invalid Date]. *)
Definition getTime (date : option Z) : JsNumber.number :=
  match date with
  | Some t => JsNumber.ofZ t
  | None => JsNumber.NaN
  end.

(** The message of the [RangeError] that [toISOString] throws on
    [Invalid Date], as Chrome words it. *)
Definition invalidTimeValue : string := "Invalid time value".

End JsDate.

(** What the local time zone and the clock contribute to the parser. *)
Class LocalZone := {
  (** The local day on which the local midnight of day [n] falls, as
      [new Date(year, month, day)] has it: [n], unless the zone skipped
      that day. *)
  localDay : Z -> Z;
  (** The instant of [h]:00 on the local day of the instant [t], in
      milliseconds since the epoch: what [date.setHours(h, 0, 0, 0)] makes
      of a date of time value [t], before the range of [Date] is
      applied. *)
  atHour : Z -> Z -> Z
}.

(** [date.setHours(h, 0, 0, 0)]: [Invalid Date] stays so, and a time out of
    the range of [Date] gives [Invalid Date]. *)
Definition setHours `{LocalZone} (h : Z) (date : option Z) : option Z :=
  match date with
  | Some t => JsDate.timeClip (atHour h t)
  | None => None
  end.

(** The calendar the claims speak of: the length of month [m] (1 = January)
    of year [y] in the Gregorian calendar. *)
Definition daysInMonth (y m : Z) : Z :=
  match m with
  | 1 | 3 | 5 | 7 | 8 | 10 | 12 => 31
  | 4 | 6 | 9 | 11 => 30
  | 2 => if (y mod 400 =? 0) || ((y mod 4 =? 0) && negb (y mod 100 =? 0)) then 29 else 28
  | _ => 0
  end.

(** What the engine's [Date] parser contributes: it is used on strings
    that are not in the canonical forms the code tests for first, and its
    answers depend on the engine and on the local time zone. *)
Class JsPlatform := {
  (** [new Date(s)] read with [getFullYear], [getMonth() + 1], [getDate];
      [None] for [Invalid Date]. *)
  localDateOf : string -> option (Z * Z * Z);
  (** [new Date(s).toTimeString().slice(0, 5)] *)
  localClockOf : string -> string;
  (** [new Date('1970-01-01T' + s + ':00')] as a time value, [None] for
      [Invalid Date]. *)
  clockInstant : string -> option Z;
  (** [String(x)] for a number [x] *)
  numberToString : Q -> string
}.

(** [String(a)]: a whole number below [10^21] in size is written in
    decimal digits, the other finite numbers as the engine writes them. *)
Definition numberString `{JsPlatform} (a : JsNumber.number) : string :=
  match a with
  | JsNumber.Finite x =>
      if Qeq_bool x (inject_Z (Qfloor x)) && (Z.abs (Qfloor x) <? 10 ^ 21)
      then JsString.ofInt (Qfloor x) else numberToString x
  | JsNumber.Infinity false => "Infinity"
  | JsNumber.Infinity true => "-Infinity"
  | JsNumber.NaN => "NaN"
  end.

(** ** The remote server and the monad of awaiting code *)

Record WorkPackage := {
  wp_id : Z;
  wp_subject : option string;      (* [None]: no subject in the response *)
  wp_project : Z;
  wp_status : Z;
  wp_description : string
}.

Record TimeEntry := {
  te_id : Z;
  te_spentOn : string;
  te_hours : Q;                    (* sent as [PT<hours>H] *)
  te_workPackage : Z;              (* last segment of [_links.workPackage.href] *)
  te_activity : Z;
  te_startTime : option string;    (* bracketed into the comment by the client *)
  te_comment : string
}.

(** The requests the client sends through [_makeRequest]. *)
Inductive Request :=
| GetWorkPackages (projectId : option Z) (offset pageSize : nat)
| PostWorkPackage (projectId : option Z) (subject : string) (statusId : Z) (description : string)
| GetTimeEntries
| PostTimeEntry (spentOn : string) (hours : Q) (workPackageId activityId : Z)
    (startTime : option string) (comment : string).

(** The server's tables, the faults still to come (one entry per request:
    [Some msg] makes the request fail with [msg], [None] lets it through;
    the empty script lets every request through), the requests sent so
    far, and what was written with [console.warn] and [console.error]
    ([console.log] is not recorded). *)
Record World := {
  work_packages : list WorkPackage;
  time_entries : list TimeEntry;
  next_id : Z;
  fault_script : list (option string);
  requests : list Request;
  console : list string
}.

Inductive Result (A : Type) :=
| Ok (a : A)
| Throw (msg : string).
Arguments Ok {A} a.
Arguments Throw {A} msg.

Definition M (A : Type) : Type := World -> Result A * World.

Definition ret {A} (a : A) : M A := fun w => (Ok a, w).

Definition throw {A} (msg : string) : M A := fun w => (Throw msg, w).

Definition bind {A B} (m : M A) (k : A -> M B) : M B := fun w =>
  match m w with
  | (Ok a, w1) => k a w1
  | (Throw msg, w1) => (Throw msg, w1)
  end.

(** [try { m } catch (error) { handler(error.message) }] *)
Definition tryCatch {A} (m : M A) (handler : string -> M A) : M A := fun w =>
  match m w with
  | (Ok a, w1) => (Ok a, w1)
  | (Throw msg, w1) => handler msg w1
  end.

Definition consoleWrite (line : string) : M unit := fun w =>
  (Ok tt, {| work_packages := work_packages w; time_entries := time_entries w;
             next_id := next_id w; fault_script := fault_script w;
             requests := requests w; console := console w ++ [line] |}).

Declare Scope M_scope.
Delimit Scope M_scope with M.
Notation "x <- m ;; k" := (bind m (fun x => k))
  (at level 100, m at next level, right associativity) : M_scope.
Notation "m ;;; k" := (bind m (fun _ => k))
  (at level 100, right associativity) : M_scope.
Local Open Scope M_scope.

Definition logRequest (r : Request) (w : World) : World :=
  {| work_packages := work_packages w; time_entries := time_entries w;
     next_id := next_id w; fault_script := fault_script w;
     requests := requests w ++ [r]; console := console w |}.

Definition setFaults (fs : list (option string)) (w : World) : World :=
  {| work_packages := work_packages w; time_entries := time_entries w;
     next_id := next_id w; fault_script := fs;
     requests := requests w; console := console w |}.

(** [_makeRequest]: the request goes out; it fails when the transport or
    the server says so, otherwise the server serves it. *)
Definition makeRequest {A} (r : Request) (serve : M A) : M A := fun w =>
  let w1 := logRequest r w in
  match fault_script w1 with
  | Some msg :: rest => (Throw msg, setFaults rest w1)
  | None :: rest => serve (setFaults rest w1)
  | [] => serve w1
  end.

Definition projectWorkPackages (projectId : Z) (w : World) : list WorkPackage :=
  List.filter (fun wp => wp_project wp =? projectId) (work_packages w).

(** One page of a project's work packages; pages are numbered from 1. *)
Definition pageOf (offset pageSize : nat) (l : list WorkPackage) : list WorkPackage :=
  take pageSize (drop ((offset - 1) * pageSize) l).

(** [GET /api/v3/projects/<id>/work_packages?pageSize=..&offset=..]; the
    answer carries [_embedded.elements].  A request for the project
    [undefined] is refused. *)
Definition serveWorkPackages (projectId : option Z) (offset pageSize : nat)
  : M (option (list WorkPackage)) := fun w =>
  match projectId with
  | Some p => (Ok (Some (pageOf offset pageSize (projectWorkPackages p w))), w)
  | None => (Throw "HTTP 404: ", w)
  end.

(** [POST /api/v3/work_packages] *)
Definition serveCreateWorkPackage (projectId : option Z) (subject : string)
    (statusId : Z) (description : string) : M WorkPackage := fun w =>
  match projectId with
  | Some p =>
      let wp := {| wp_id := next_id w; wp_subject := Some subject; wp_project := p;
                   wp_status := statusId; wp_description := description |} in
      (Ok wp, {| work_packages := work_packages w ++ [wp]; time_entries := time_entries w;
                 next_id := next_id w + 1; fault_script := fault_script w;
                 requests := requests w; console := console w |})
  | None => (Throw "HTTP 422: ", w)
  end.

(** [GET /api/v3/time_entries] *)
Definition serveTimeEntries : M (list TimeEntry) := fun w => (Ok (time_entries w), w).

(** [POST /api/v3/time_entries] *)
Definition serveCreateTimeEntry (spentOn : string) (hours : Q) (workPackageId activityId : Z)
    (startTime : option string) (comment : string) : M TimeEntry := fun w =>
  let te := {| te_id := next_id w; te_spentOn := spentOn; te_hours := hours;
               te_workPackage := workPackageId; te_activity := activityId;
               te_startTime := startTime; te_comment := comment |} in
  (Ok te, {| work_packages := work_packages w; time_entries := time_entries w ++ [te];
             next_id := next_id w + 1; fault_script := fault_script w;
             requests := requests w; console := console w |}).

(** ** Work-log entries

    One object per task, as the parser builds it and the service and the
    client read and extend it. *)
Record Entry := {
  project : string;
  project_id : option Z;
  subject : string;
  activity : string;
  hours : option Q;
  duration_hours : option Q;
  break_hours : option Q;
  is_scrum : bool;
  work_package_id : option Z;
  existing_work_package_id : option Z;
  entry_date : option string;
  date : option string;
  start_time : option string;
  user_set_start_time : bool;
  calculated_start_time : option string;
  calculated_end_time : option string;
  comment : option string;
  statusId : option Z;
  statusName : option string
}.

(** [entry.hours || entry.duration_hours || 0] *)
Definition hoursOf (e : Entry) : Q :=
  default 0%Q (orElse truthyQ (hours e) (duration_hours e)).

(** [entry.duration_hours || entry.hours || 0] *)
Definition durationOf (e : Entry) : Q :=
  default 0%Q (orElse truthyQ (duration_hours e) (hours e)).

(** [entry.break_hours || 0] *)
Definition breakOf (e : Entry) : Q :=
  if truthyQ (break_hours e) then default 0%Q (break_hours e) else 0%Q.

(** The configuration the code reads ([loadConfig]). *)
Record Config := {
  PROJECT_MAPPINGS : gmap string Z;
  ACTIVITY_MAPPINGS : gmap string Z
}.

(** ** [apiClient.js]: class [OpenProjectTimeLogger]

    The progress callbacks belong to the caller; they are taken to return
    normally and are left out. *)

Module ApiClient.

Definition normalize (s : string) : string := JsString.toLowerCase (JsString.trim s).

(** [findMatchingWorkPackage]: the first work package whose subject, trimmed
    and lower-cased, is the normalised subject.  A work package that only
    contains it, or is contained in it, is written to [console.log] and
    passed over. *)
Fixpoint findMatchingWorkPackage (workPackages : list WorkPackage) (normalizedSubject : string)
  : option WorkPackage :=
  match workPackages with
  | [] => None
  | wp :: rest =>
      let wpSubject := normalize (default "" (wp_subject wp)) in
      if String.eqb wpSubject normalizedSubject then Some wp
      else findMatchingWorkPackage rest normalizedSubject
  end.

Definition shouldFetchNextPage (projectId : option Z) (offset pageSize currentPageCount : nat)
  : bool :=
  if (currentPageCount <? pageSize)%nat then false else true.

Definition fetchWorkPackagesPage (projectId : option Z) (offset pageSize : nat)
  : M (option (list WorkPackage)) :=
  makeRequest (GetWorkPackages projectId offset pageSize)
              (serveWorkPackages projectId offset pageSize).

Definition pageSize : nat := 100.

(** The body of [while (true)] in [checkExistingWorkPackageBySubject],
    unrolled at most [fuel] times; [None] when the fuel runs out before the
    loop is left. *)
Fixpoint pageLoop (fuel : nat) (projectId : option Z) (normalizedSubject : string)
    (offset : nat) (w : World) : option (Result (option WorkPackage) * World) :=
  match fuel with
  | O => None
  | S fuel' =>
      match fetchWorkPackagesPage projectId offset pageSize w with
      | (Throw msg, w1) => Some (Throw msg, w1)
      | (Ok None, w1) => Some (Ok None, w1)
      | (Ok (Some workPackages), w1) =>
          if (length workPackages =? 0)%nat then Some (Ok None, w1)
          else
            match findMatchingWorkPackage workPackages normalizedSubject with
            | Some found => Some (Ok (Some found), w1)
            | None =>
                if shouldFetchNextPage projectId offset pageSize (length workPackages)
                then pageLoop fuel' projectId normalizedSubject (offset + 1) w1
                else Some (Ok None, w1)
            end
      end
  end.

(** [checkExistingWorkPackageBySubject] with the loop bounded by [fuel]:
    an exception of the loop is written to [console.warn] and answered
    with [null]. *)
Definition checkExistingWorkPackageBySubjectFuel (fuel : nat) (projectId : option Z)
    (subject : string) (w : World) : option (Result (option WorkPackage) * World) :=
  match pageLoop fuel projectId (normalize subject) 1 w with
  | None => None
  | Some (Ok r, w1) => Some (Ok r, w1)
  | Some (Throw msg, w1) =>
      Some ((consoleWrite ("Could not check existing work packages: " ++ msg) ;;;
             ret None) w1)
  end.

(** Enough fuel for the loop on the server as it is: one page more than
    the project fills. *)
Definition lookupFuel (projectId : option Z) (w : World) : nat :=
  match projectId with
  | Some p => length (projectWorkPackages p w) / pageSize + 2
  | None => 1
  end.

Definition checkExistingWorkPackageBySubject (projectId : option Z) (subject : string)
  : M (option WorkPackage) := fun w =>
  match checkExistingWorkPackageBySubjectFuel (lookupFuel projectId w) projectId subject w with
  | Some r => r
  | None => (Ok None, w)
  end.

Definition findWorkPackageBySubject (projectId : option Z) (subject : string)
  : M (option WorkPackage) :=
  checkExistingWorkPackageBySubject projectId subject.

(** The test [/^\d{4}-\d{2}-\d{2}$/]. *)
Definition isCanonicalDate (s : string) : bool :=
  match s with
  | String y1 (String y2 (String y3 (String y4 (String s1
      (String m1 (String m2 (String s2 (String d1 (String d2 EmptyString))))))))) =>
      forallb JsString.isDigit [y1; y2; y3; y4; m1; m2; d1; d2]
      && Ascii.eqb s1 "-" && Ascii.eqb s2 "-"
  | _ => false
  end.

(** [`${year}-${month}-${day}`] with month and day padded to two digits;
    [NaN] in every place for [Invalid Date]. *)
Definition formatLocalDate (ymd : option (Z * Z * Z)) : string :=
  match ymd with
  | Some (y, m, d) =>
      JsString.ofInt y ++ "-" ++ JsString.padStart 2 "0" (JsString.ofInt m)
        ++ "-" ++ JsString.padStart 2 "0" (JsString.ofInt d)
  | None => "NaN-NaN-NaN"
  end.

Section WithPlatform.
Context `{JsPlatform}.

(** [calculateEndTime] of the client: the end of [hours] from [startTime],
    hour and minute read with [parseInt(x) || 0], the hours turned into
    minutes by [Math.round(hours * 60)], on the clock of 24 hours.  The
    arithmetic is that of doubles; nothing in it throws. *)
Definition calculateEndTime (startTime : string) (hours : Q) : string :=
  let parts := JsString.split ":" startTime in
  let startHour := default 0 (JsString.parseInt (default "" (parts !! 0%nat))) in
  let startMinute := default 0 (parts !! 1%nat ≫= JsString.parseInt) in
  let additionalMinutes :=
    JsNumber.round (JsNumber.mul (JsNumber.ofQ hours) (JsNumber.ofZ 60)) in
  let totalMinutes :=
    JsNumber.add
      (JsNumber.add (JsNumber.mul (JsNumber.ofZ startHour) (JsNumber.ofZ 60))
                    (JsNumber.ofZ startMinute))
      additionalMinutes in
  let newHours := JsNumber.rem (JsNumber.floor (JsNumber.div totalMinutes 60)) 24 in
  let newMinutes := JsNumber.rem totalMinutes 60 in
  (JsString.padStart 2 "0" (numberString newHours) ++ ":"
     ++ JsString.padStart 2 "0" (numberString newMinutes))%string.

Definition formatDateForComparison (date : string) : string :=
  if isCanonicalDate date then date else formatLocalDate (localDateOf date).

(** [checkExistingTimeEntries]: the time entries of the work package on
    the date; a failed request is written to [console.error] and answered
    with the empty list. *)
Definition checkExistingTimeEntries (workPackageId : Z) (date : string)
  : M (list TimeEntry) :=
  tryCatch
    (timeEntries <- makeRequest GetTimeEntries serveTimeEntries ;;
     let targetDate := formatDateForComparison date in
     ret (List.filter (fun entry => String.eqb (te_spentOn entry) targetDate
                                    && (te_workPackage entry =? workPackageId))
                      timeEntries))
    (fun msg =>
       consoleWrite ("Error checking existing time entries: " ++ msg) ;;; ret []).

(** [createWorkPackage]: the lookup first, the [POST] only when the lookup
    answers [null]. *)
Definition createWorkPackage (projectId : option Z) (subject : string) (activityType : string)
    (description : string) (statusId : Z) : M WorkPackage :=
  existing <- checkExistingWorkPackageBySubject projectId subject ;;
  match existing with
  | Some wp => ret wp
  | None =>
      makeRequest (PostWorkPackage projectId subject statusId description)
                  (serveCreateWorkPackage projectId subject statusId description)
  end.

Definition parseAndFormatDate (date : string) : Result string :=
  if JsString.includes date "T" then Ok (default "" (head (JsString.split "T" date)))
  else if isCanonicalDate date then Ok date
  else match localDateOf date with
       | None => Throw ("Invalid time value for date: " ++ date
                          ++ ". Error: Invalid date: " ++ date)
       | Some ymd => Ok (formatLocalDate (Some ymd))
       end.

(** [validateHours]: [NaN] ([None]) and non-positive hours are refused; the
    message is given without the number. *)
Definition validateHours (hours : option Q) : Result Q :=
  match hours with
  | Some h => if Qle_bool h 0 then Throw "Invalid hours value" else Ok h
  | None => Throw "Invalid hours value"
  end.

(** [activityMapping[activityName] || activityMapping['Development'] || 3] *)
Definition activityIdOf (config : Config) (activityName : string) : Z :=
  default 3 (orElse truthyZ (orElse truthyZ (ACTIVITY_MAPPINGS config !! activityName)
                                            (ACTIVITY_MAPPINGS config !! "Development"))
                            (Some 3)).

(** [createTimeEntry]; the bracket of start and end time that
    [buildEnhancedComment] puts before the comment is kept as the start
    time beside the comment. *)
Definition createTimeEntry (config : Config) (workPackageId : Z) (date : string)
    (startTime : option string) (hours : option Q) (activityName : string)
    (comment : string) : M TimeEntry :=
  let activityId := activityIdOf config activityName in
  match parseAndFormatDate date with
  | Throw msg => throw msg
  | Ok formattedDate =>
      match validateHours hours with
      | Throw msg => throw msg
      | Ok h =>
          makeRequest (PostTimeEntry formattedDate h workPackageId activityId startTime comment)
                      (serveCreateTimeEntry formattedDate h workPackageId activityId
                                            startTime comment)
      end
  end.

(** *** The client's processing loop *)

Record Detail := {
  d_index : nat;
  d_project : string;
  d_subject : string;
  d_hours : option Q;
  d_activity : string;
  d_status : option string;
  d_work_package_id : option Z;
  d_existing_time_entries : option nat;
  d_time_entry_id : option Z;
  d_error : option string
}.

Record Results := {
  successful : nat;
  failed : nat;
  details : list Detail
}.

Definition createEntryDetail (entry : Entry) (index : nat) : Detail :=
  {| d_index := index + 1; d_project := project entry; d_subject := subject entry;
     d_hours := hours entry; d_activity := activity entry; d_status := None;
     d_work_package_id := None; d_existing_time_entries := None;
     d_time_entry_id := None; d_error := None |}.

Definition setStatus (status : string) (workPackageId : option Z) (detail : Detail) : Detail :=
  {| d_index := d_index detail; d_project := d_project detail;
     d_subject := d_subject detail; d_hours := d_hours detail;
     d_activity := d_activity detail; d_status := Some status;
     d_work_package_id := workPackageId;
     d_existing_time_entries := d_existing_time_entries detail;
     d_time_entry_id := d_time_entry_id detail; d_error := d_error detail |}.

(** [ensureWorkPackageExists]; it writes to [detail] only after the last
    call that can throw, so the caller's [detail] is current when it
    throws. *)
Definition ensureWorkPackageExists (entry : Entry) (detail : Detail) : M (Z * Detail) :=
  if truthyZ (work_package_id entry) then
    ret (default 0 (work_package_id entry),
         setStatus "using_existing_work_package" (work_package_id entry) detail)
  else
    existing <- checkExistingWorkPackageBySubject (project_id entry) (subject entry) ;;
    match existing with
    | Some wp =>
        ret (wp_id wp, setStatus "reused_existing_work_package" (Some (wp_id wp)) detail)
    | None =>
        workPackage <- createWorkPackage (project_id entry) (subject entry) (activity entry)
                         (default "" (orElse truthyS (comment entry) None)) 7 ;;
        ret (wp_id workPackage,
             setStatus "created_work_package" (Some (wp_id workPackage)) detail)
    end.

Definition countSuccess (results : Results) : Results :=
  {| successful := successful results + 1; failed := failed results;
     details := details results |}.

(** [addTimeEntry]: an entry already there for the work package and the
    date is counted and nothing is created. *)
Definition addTimeEntry (config : Config) (workPackageId : Z) (entry : Entry) (date : string)
    (detail : Detail) (results : Results) : M (Detail * Results) :=
  existingTimeEntries <- checkExistingTimeEntries workPackageId date ;;
  if (0 <? length existingTimeEntries)%nat then
    ret ({| d_index := d_index detail; d_project := d_project detail;
            d_subject := d_subject detail; d_hours := d_hours detail;
            d_activity := d_activity detail;
            d_status := Some "skipped_duplicate_time_entry";
            d_work_package_id := d_work_package_id detail;
            d_existing_time_entries := Some (length existingTimeEntries);
            d_time_entry_id := d_time_entry_id detail; d_error := d_error detail |},
         countSuccess results)
  else
    timeEntry <- createTimeEntry config workPackageId date (start_time entry) (hours entry)
                   (activity entry) (default "" (orElse truthyS (comment entry) None)) ;;
    ret ({| d_index := d_index detail; d_project := d_project detail;
            d_subject := d_subject detail; d_hours := d_hours detail;
            d_activity := d_activity detail; d_status := Some "created_time_entry";
            d_work_package_id := d_work_package_id detail;
            d_existing_time_entries := d_existing_time_entries detail;
            d_time_entry_id := Some (te_id timeEntry); d_error := d_error detail |},
         countSuccess results).

Definition handleEntryError (detail : Detail) (msg : string) (results : Results)
  : Detail * Results :=
  ({| d_index := d_index detail; d_project := d_project detail;
      d_subject := d_subject detail; d_hours := d_hours detail;
      d_activity := d_activity detail; d_status := Some "error";
      d_work_package_id := d_work_package_id detail;
      d_existing_time_entries := d_existing_time_entries detail;
      d_time_entry_id := d_time_entry_id detail; d_error := Some msg |},
   {| successful := successful results; failed := failed results + 1;
      details := details results |}).

Definition pushDetail (dr : Detail * Results) : Results :=
  {| successful := successful (snd dr); failed := failed (snd dr);
     details := details (snd dr) ++ [fst dr] |}.

(** [processWorkLogEntry]: whatever is thrown inside is caught and becomes
    the detail's error; the detail is pushed in either case. *)
Definition processWorkLogEntry (config : Config) (entry : Entry) (index : nat) (date : string)
    (results : Results) (w : World) : Results * World :=
  let detail := createEntryDetail entry index in
  match ensureWorkPackageExists entry detail w with
  | (Throw msg, w1) => (pushDetail (handleEntryError detail msg results), w1)
  | (Ok (workPackageId, detail1), w1) =>
      match addTimeEntry config workPackageId entry date detail1 results w1 with
      | (Throw msg, w2) => (pushDetail (handleEntryError detail1 msg results), w2)
      | (Ok dr, w2) => (pushDetail dr, w2)
      end
  end.

(** The loop [for (let i = 0; i < workLogEntries.length; i++)] from index
    [index] on. *)
Fixpoint processFrom (config : Config) (workLogEntries : list Entry) (index : nat)
    (date : string) (results : Results) (w : World) : Results * World :=
  match workLogEntries with
  | [] => (results, w)
  | entry :: rest =>
      let '(results1, w1) := processWorkLogEntry config entry index date results w in
      processFrom config rest (index + 1) date results1 w1
  end.

Definition processWorkLogEntries (config : Config) (workLogEntries : list Entry)
    (date : string) (w : World) : Results * World :=
  processFrom config workLogEntries 0 date
    {| successful := 0; failed := 0; details := [] |} w.

End WithPlatform.

End ApiClient.

(** ** [parser.js]: class [WorkLogParser] *)

Module Parser.

(** *** Date tokens *)

Definition monthNames : list (string * Z) :=
  [("jan", 1); ("january", 1); ("feb", 2); ("february", 2); ("mar", 3); ("march", 3);
   ("apr", 4); ("april", 4); ("may", 5); ("jun", 6); ("june", 6); ("jul", 7);
   ("july", 7); ("aug", 8); ("august", 8); ("sep", 9); ("sept", 9); ("september", 9);
   ("oct", 10); ("october", 10); ("nov", 11); ("november", 11); ("dec", 12);
   ("december", 12)].

(** What [monthNames[monthStr]] gives: a number of the table, a member that
    every object inherits (of the lower-case names a token can be, these
    are [constructor] and [__proto__]), or [undefined]. *)
Inductive MonthLookup :=
| MonthNumber (n : Z)
| Inherited
| Undefined.

Fixpoint assoc (key : string) (table : list (string * Z)) : option Z :=
  match table with
  | [] => None
  | (k, v) :: rest => if String.eqb k key then Some v else assoc key rest
  end.

Definition lookupMonth (monthStr : string) : MonthLookup :=
  match assoc monthStr monthNames with
  | Some n => MonthNumber n
  | None =>
      if String.eqb monthStr "constructor" || String.eqb monthStr "__proto__"
      then Inherited else Undefined
  end.

(** The match of [/^(\w+)-(\d{1,2})-(\d{4})$/]: month token, day digits and
    year digits.  A word character is never a hyphen, so the groups are the
    longest runs. *)
Definition matchDatePattern (s : string) : option (string * string * string) :=
  let '(monthStr, rest) := JsString.span JsString.isWordChar s in
  match monthStr, rest with
  | String _ _, String "-" rest1 =>
      let '(day, rest2) := JsString.span JsString.isDigit rest1 in
      match rest2 with
      | String "-" year =>
          if ((1 <=? String.length day)%nat && (String.length day <=? 2)%nat
              && (String.length year =? 4)%nat && JsString.forallChars JsString.isDigit year)
          then Some (monthStr, day, year)
          else None
      | _ => None
      end
  | _, _ => None
  end.

(** Comparisons with a number that may be [NaN]: false on [NaN]. *)
Definition ltNum (a : option Z) (b : Z) : bool :=
  match a with Some x => x <? b | None => false end.

Definition gtNum (a : option Z) (b : Z) : bool :=
  match a with Some x => b <? x | None => false end.

(** [a === b] on numbers: [NaN] equals nothing. *)
Definition sameNum (a b : option Z) : bool :=
  match a, b with Some x, Some y => x =? y | _, _ => false end.

(** [String(month)] of what the table gave. *)
Definition showMonth (month : MonthLookup) : string :=
  match month with
  | MonthNumber n => JsString.ofInt n
  | Inherited => "[object Object]"
  | Undefined => "undefined"
  end.

(** [parseInt(month)] *)
Definition monthNumOf (month : MonthLookup) : option Z :=
  match month with
  | MonthNumber n => Some n
  | Inherited | Undefined => None
  end.

Definition validateDateComponents (yearNum monthNum dayNum : option Z)
    (year : string) (month : MonthLookup) (day : string) : Result unit :=
  if ltNum yearNum 1900 || gtNum yearNum 3000 then Throw ("Invalid year: " ++ year)
  else if ltNum monthNum 1 || gtNum monthNum 12 then Throw ("Invalid month: " ++ showMonth month)
  else if ltNum dayNum 1 || gtNum dayNum 31 then Throw ("Invalid day: " ++ day)
  else Ok tt.

Section WithZone.

Context `{LocalZone}.

(** [validateActualDate]: the date is built in local time and read back;
    it is accepted when year, month and day come back as they went in. *)
Definition validateActualDate (yearNum monthNum dayNum : option Z)
    (monthStr day year : string) : Result unit :=
  let testDate := JsDate.ofYMD localDay yearNum ((fun m => m - 1) <$> monthNum) dayNum in
  let isValidDate :=
    sameNum (JsDate.getFullYear testDate) yearNum
    && sameNum (JsDate.getMonth testDate) ((fun m => m - 1) <$> monthNum)
    && sameNum (JsDate.getDate testDate) dayNum in
  if isValidDate then Ok tt
  else Throw ("Invalid date: " ++ monthStr ++ "-" ++ day ++ "-" ++ year).

(** [n.toString()] of a number that may be [NaN]. *)
Definition showNum (n : option Z) : string :=
  match n with Some x => JsString.ofInt x | None => "NaN" end.

Definition buildDateString (year : string) (month : MonthLookup) (day monthStr : string)
  : Result string :=
  let yearNum := JsString.parseInt year in
  let monthNum := monthNumOf month in
  let dayNum := JsString.parseInt day in
  match validateDateComponents yearNum monthNum dayNum year month day with
  | Throw msg => Throw ("Invalid date values: " ++ msg)
  | Ok _ =>
      match validateActualDate yearNum monthNum dayNum monthStr day year with
      | Throw msg => Throw ("Invalid date values: " ++ msg)
      | Ok _ =>
          Ok (showNum yearNum ++ "-" ++ JsString.padStart 2 "0" (showNum monthNum)
                ++ "-" ++ JsString.padStart 2 "0" (showNum dayNum))
      end
  end.

Definition availableMonths : string :=
  "apr, april, aug, august, dec, december, feb, february, jan, january, jul, july, jun, june, mar, march, may, nov, november, oct, october, sep, sept, september".

Definition parseDateString (dateStr : string) : Result string :=
  match matchDatePattern (JsString.toLowerCase dateStr) with
  | None =>
      Throw ("Date must be in format 'month-day-year' (e.g., 'sept-07-2025'), got '"
               ++ dateStr ++ "'")
  | Some (monthStr, day, year) =>
      match lookupMonth (JsString.toLowerCase monthStr) with
      | Undefined =>
          Throw ("Invalid month '" ++ monthStr ++ "'. Available: " ++ availableMonths)
      | month => buildDateString year month day monthStr
      end
  end.

(** *** The first pass over a date's entries

    A raw record carries the fields of the file format with their JSON
    types; [None] is an absent or [null] field.  A number field holds a
    finite double.  The start and the end of a task, which the code keeps
    as ISO strings, are the time values these strings stand for. *)

Record RawEntry := {
  raw_project : option string;
  raw_subject : option string;
  raw_description : option string;
  raw_duration_hours : option Q;
  raw_break_hours : option Q;
  raw_activity : option string;
  raw_is_scrum : option bool;
  raw_work_package_id : option Z
}.

(** [t_project_id] is the number that the mappings have for the project;
    it is [None] also where the project is one of the inherited names, for
    which the code has a function there. *)
Record TaskEntry := {
  t_project : string;
  t_work_package_id : option Z;
  t_project_id : option Z;
  t_subject : string;
  t_activity : string;
  t_start_time : Z;
  t_end_time : Z;
  t_hours : Q;
  t_break_minutes : JsNumber.number;
  t_break_hours : Q;
  t_is_scrum : bool;
  t_entry_date : string
}.

Definition activityKeywords : list (string * string) :=
  [("scrum", "Meeting"); ("meeting", "Meeting"); ("session", "Meeting");
   ("clarification", "Meeting"); ("setup", "Development"); ("enhanced", "Development");
   ("fixed", "Development"); ("fix", "Development"); ("route", "Development");
   ("linkup", "Development"); ("template", "Development"); ("codes", "Development");
   ("staging", "Support"); ("server", "Support"); ("feedback", "Specification");
   ("recruitment", "Specification"); ("profile", "Development"); ("view", "Development")].

Definition determineActivity (taskDescription : string) : string :=
  let taskLower := JsString.toLowerCase taskDescription in
  match List.find (fun kw => JsString.includes taskLower (fst kw)) activityKeywords with
  | Some kw => snd kw
  | None => "Development"
  end.

(** The checks of [validateEntryData] on a typed record: required fields,
    the project [in] the mappings, a subject that is not blank, a positive
    duration, a break that is not negative, a positive work-package id. *)
Definition isValidEntry (projectMappings : gmap string Z) (e : RawEntry) : bool :=
  bool_decide (is_Some (raw_project e)) && bool_decide (is_Some (raw_subject e))
  && bool_decide (is_Some (raw_duration_hours e)) && bool_decide (is_Some (raw_activity e))
  && bool_decide (is_Some (raw_is_scrum e))
  && (negb (truthyS (raw_project e))
      || hasProperty projectMappings (default "" (raw_project e)))
  && negb (String.eqb (JsString.trim (default "" (raw_subject e))) "")
  && negb (Qle_bool (default 0%Q (raw_duration_hours e)) 0)
  && negb (Qle_bool (default 0%Q (raw_break_hours e)) 0
           && negb (Qeq_bool (default 0%Q (raw_break_hours e)) 0))
  && match raw_work_package_id e with Some n => 0 <? n | None => true end.

(** [calculateStartTime]: a scrum entry starts at 10:00 of the cursor's
    day, any other entry at the cursor plus its break. *)
Definition calculateStartTime (isScrum : bool) (startTime : option Z)
    (breakMinutes : JsNumber.number) : option Z :=
  if isScrum then setHours 10 startTime
  else
    JsDate.ofNumber
      (JsNumber.add (JsDate.getTime startTime)
         (JsNumber.mul (JsNumber.mul breakMinutes (JsNumber.ofZ 60)) (JsNumber.ofZ 1000))).

(** [parseJsonTaskEntry]: [Ok None] is the [null] it returns for a record
    it drops; it throws where [toISOString] meets a start or an end that
    is [Invalid Date]. *)
Definition parseJsonTaskEntry (projectMappings : gmap string Z) (entryData : RawEntry)
    (startTime : option Z) (entryDate : string) : Result (option TaskEntry) :=
  let taskSubject := orElse truthyS (raw_subject entryData) (raw_description entryData) in
  if negb (truthyS (raw_project entryData)) || negb (truthyS taskSubject) then Ok None
  else
    let durationHours := default 0%Q (raw_duration_hours entryData) in
    if Qeq_bool durationHours 0 then Ok None
    else
      let isScrum := default false (raw_is_scrum entryData) in
      let breakHours :=
        if truthyQ (raw_break_hours entryData)
        then default 0%Q (raw_break_hours entryData) else 0%Q in
      let breakMinutes :=
        if truthyQ (raw_break_hours entryData)
        then JsNumber.round (JsNumber.mul (JsNumber.ofQ breakHours) (JsNumber.ofZ 60))
        else JsNumber.ofZ 0 in
      let actualStartTime := calculateStartTime isScrum startTime breakMinutes in
      if isScrum && negb (truthyZ (raw_work_package_id entryData)) then Ok None
      else
        let endTime :=
          JsDate.ofNumber
            (JsNumber.add (JsDate.getTime actualStartTime)
               (JsNumber.mul
                  (JsNumber.mul (JsNumber.mul (JsNumber.ofQ durationHours) (JsNumber.ofZ 60))
                     (JsNumber.ofZ 60))
                  (JsNumber.ofZ 1000))) in
        let taskActivity :=
          if truthyS (raw_activity entryData) then default "" (raw_activity entryData)
          else determineActivity (default "" taskSubject) in
        match actualStartTime, endTime with
        | Some start_time, Some end_time =>
            Ok (Some {| t_project := default "" (raw_project entryData);
                        t_work_package_id := raw_work_package_id entryData;
                        t_project_id := projectMappings !! default "" (raw_project entryData);
                        t_subject := default "" taskSubject;
                        t_activity := taskActivity;
                        t_start_time := start_time;
                        t_end_time := end_time;
                        t_hours := durationHours;
                        t_break_minutes := breakMinutes;
                        t_break_hours := breakHours;
                        t_is_scrum := isScrum;
                        t_entry_date := entryDate |})
        | _, _ => Throw JsDate.invalidTimeValue
        end.

(** The loop of [processDateEntries] from the cursor [currentTime] on: a
    record that fails validation is skipped; the cursor moves to the end of
    every entry that is kept. *)
Fixpoint processFrom (projectMappings : gmap string Z) (entries : list RawEntry)
    (currentTime : option Z) (parsedDate : string) : Result (list TaskEntry) :=
  match entries with
  | [] => Ok []
  | entryData :: rest =>
      if isValidEntry projectMappings entryData then
        match parseJsonTaskEntry projectMappings entryData currentTime parsedDate with
        | Throw msg => Throw msg
        | Ok (Some entry) =>
            match processFrom projectMappings rest (Some (t_end_time entry)) parsedDate with
            | Ok timeEntries => Ok (entry :: timeEntries)
            | Throw msg => Throw msg
            end
        | Ok None => processFrom projectMappings rest currentTime parsedDate
        end
      else processFrom projectMappings rest currentTime parsedDate
  end.

(** [processDateEntries]: the cursor starts at 09:00 of the local day of
    [now], the time value that [new Date()] has when the call begins. *)
Definition processDateEntries (projectMappings : gmap string Z) (entries : list RawEntry)
    (parsedDate : string) (now : Z) : Result (list TaskEntry) :=
  processFrom projectMappings entries (setHours 9 (Some now)) parsedDate.

(** *** The logs of a file

    A log of the file: its date token and its records ([None] for a field
    that is absent or [null]). *)

Record LogEntry := {
  log_date : option string;
  log_entries : option (list RawEntry)
}.

(** [processLogEntry]: the warning written when the date token is refused,
    or the date and the tasks of the log. *)
Definition processLogEntry (projectMappings : gmap string Z) (logEntry : LogEntry)
    (logIndex : nat) (now : Z) : Result (string + string * list TaskEntry) :=
  let dateStr := default "" (log_date logEntry) in
  match parseDateString dateStr with
  | Throw msg =>
      Ok (inl ("Log entry " ++ JsString.ofInt (Z.of_nat logIndex + 1)
                 ++ " has invalid date format '" ++ dateStr ++ "': " ++ msg))
  | Ok parsedDate =>
      match processDateEntries projectMappings (default [] (log_entries logEntry))
              parsedDate now with
      | Ok timeEntries => Ok (inr (parsedDate, timeEntries))
      | Throw msg => Throw msg
      end
  end.

(** [allTimeEntries[parsedDate] = timeEntries]: the object keeps its keys
    in the order in which they were first set (a date of the form
    year-month-day is never an array index). *)
Fixpoint setKey {A} (key : string) (value : A) (object : list (string * A))
  : list (string * A) :=
  match object with
  | [] => [(key, value)]
  | (k, v) :: rest =>
      if String.eqb k key then (k, value) :: rest else (k, v) :: setKey key value rest
  end.

Fixpoint getKey {A} (key : string) (object : list (string * A)) : option A :=
  match object with
  | [] => None
  | (k, v) :: rest => if String.eqb k key then Some v else getKey key rest
  end.

(** What [processLogEntries] has in hand: [allTimeEntries], [allEntries],
    and the warnings written with [console.warn]. *)
Record Logs := {
  allTimeEntries : list (string * list TaskEntry);
  allEntries : list TaskEntry;
  warnings : list string
}.

(** One turn of the loop of [processLogEntries], on the log of index
    [logIndex]. *)
Definition logStep (projectMappings : gmap string Z) (logEntry : LogEntry) (logIndex : nat)
    (now : Z) (st : Logs) : Result Logs :=
  if negb (truthyS (log_date logEntry)) then
    Ok {| allTimeEntries := allTimeEntries st; allEntries := allEntries st;
          warnings := warnings st
            ++ ["Log entry " ++ JsString.ofInt (Z.of_nat logIndex + 1)
                  ++ " missing 'date' field, skipping"] |}
  else
    match processLogEntry projectMappings logEntry logIndex now with
    | Throw msg => Throw msg
    | Ok (inl warning) =>
        Ok {| allTimeEntries := allTimeEntries st; allEntries := allEntries st;
              warnings := warnings st ++ [warning] |}
    | Ok (inr (parsedDate, timeEntries)) =>
        if (0 <? length timeEntries)%nat then
          Ok {| allTimeEntries := setKey parsedDate timeEntries (allTimeEntries st);
                allEntries := (allEntries st ++ timeEntries)%list;
                warnings := warnings st |}
        else Ok st
    end.

(** The loop of [processLogEntries] from the log of index [logIndex] on;
    [clock i] is the time value that [new Date()] has when the log of
    index [i] is processed. *)
Fixpoint logsFrom (projectMappings : gmap string Z) (clock : nat -> Z) (logs : list LogEntry)
    (logIndex : nat) (st : Logs) : Result Logs :=
  match logs with
  | [] => Ok st
  | logEntry :: rest =>
      match logStep projectMappings logEntry logIndex (clock logIndex) st with
      | Ok st' => logsFrom projectMappings clock rest (logIndex + 1) st'
      | Throw msg => Throw msg
      end
  end.

Definition processLogEntries (projectMappings : gmap string Z) (clock : nat -> Z)
    (logs : list LogEntry) : Result Logs :=
  logsFrom projectMappings clock logs 0
    {| allTimeEntries := []; allEntries := []; warnings := [] |}.

End WithZone.

(** *** The check of the tasks against the server

    [validateAgainstServerDuplicates] and what it calls.  The client of the
    parser is set up by [initializeApiClient], which reads the
    configuration; its outcome is taken as given. *)

Record DuplicateError := {
  entryIndex : nat;
  dup_subject : string;
  dup_project : string;
  dup_projectId : Z;
  existingWorkPackageId : Z;
  existingSubject : option string;
  dup_message : string
}.

Definition shouldCheckForDuplicates (entry : TaskEntry) : bool :=
  negb (truthyZ (t_work_package_id entry)) && negb (t_is_scrum entry).

(** A key that an object lists before its other keys, in ascending order:
    an array index. *)
Definition isArrayIndex (key : Z) : bool := (0 <=? key) && (key <=? 4294967294).

(** [entriesByProject[projectId].push(x)], with the keys in the order in
    which [Object.entries] lists them: the array indices ascending, then
    the other keys as they were first set. *)
Fixpoint pushUnder {A} (key : Z) (x : A) (object : list (Z * list A)) : list (Z * list A) :=
  match object with
  | [] => [(key, [x])]
  | (k, xs) :: rest =>
      if k =? key then (k, (xs ++ [x])%list) :: rest
      else if isArrayIndex key && (negb (isArrayIndex k) || (key <? k))
           then (key, [x]) :: (k, xs) :: rest
           else (k, xs) :: pushUnder key x rest
  end.

Fixpoint groupFrom (entries : list TaskEntry) (index : nat)
    (entriesByProject : list (Z * list (TaskEntry * nat))) : list (Z * list (TaskEntry * nat)) :=
  match entries with
  | [] => entriesByProject
  | entry :: rest =>
      groupFrom rest (index + 1)
        (if shouldCheckForDuplicates entry && truthyZ (t_project_id entry)
         then pushUnder (default 0 (t_project_id entry)) (entry, index) entriesByProject
         else entriesByProject)
  end.

Definition groupEntriesByProject (entries : list TaskEntry)
  : list (Z * list (TaskEntry * nat)) :=
  groupFrom entries 0 [].

(** The double quote, for messages that quote a subject. *)
Definition quote : string := String (ascii_of_nat 34) EmptyString.

(** [checkEntryDuplicate]: what the lookup throws would be caught and
    written to [console.warn]. *)
Definition checkEntryDuplicate (entry : TaskEntry) (projectId : Z) (originalIndex : nat)
  : M (option DuplicateError) :=
  tryCatch
    (existingWp <- ApiClient.checkExistingWorkPackageBySubject (Some projectId)
                     (t_subject entry) ;;
     match existingWp with
     | None => ret None
     | Some wp =>
         ret (Some {| entryIndex := originalIndex; dup_subject := t_subject entry;
                      dup_project := t_project entry; dup_projectId := projectId;
                      existingWorkPackageId := wp_id wp;
                      existingSubject := wp_subject wp;
                      dup_message :=
                        "Work package with subject " ++ quote ++ t_subject entry ++ quote
                          ++ " already exists in project " ++ quote ++ t_project entry
                          ++ quote ++ " (ID: " ++ JsString.ofInt (wp_id wp)
                          ++ "). Use that work package ID or modify the subject." |})
     end)
    (fun msg =>
       consoleWrite ("Could not check for duplicates in project "
                       ++ JsString.ofInt projectId ++ ": " ++ msg) ;;;
       ret None).

Fixpoint checkProjectEntries (projectId : Z) (projectEntries : list (TaskEntry * nat))
    (duplicateErrors : list DuplicateError) : M (list DuplicateError) :=
  match projectEntries with
  | [] => ret duplicateErrors
  | (entry, originalIndex) :: rest =>
      duplicate <- checkEntryDuplicate entry projectId originalIndex ;;
      checkProjectEntries projectId rest
        (match duplicate with
         | Some d => (duplicateErrors ++ [d])%list
         | None => duplicateErrors
         end)
  end.

(** [checkProjectDuplicates]: the projects in the order of
    [Object.entries], the tasks of a project in the order of the list; the
    progress lines go to [console.log]. *)
Fixpoint checkProjectsFrom (entriesByProject : list (Z * list (TaskEntry * nat)))
    (duplicateErrors : list DuplicateError) : M (list DuplicateError) :=
  match entriesByProject with
  | [] => ret duplicateErrors
  | (projectId, projectEntries) :: rest =>
      duplicateErrors' <- checkProjectEntries projectId projectEntries duplicateErrors ;;
      checkProjectsFrom rest duplicateErrors'
  end.

Definition checkProjectDuplicates (entriesByProject : list (Z * list (TaskEntry * nat)))
  : M (list DuplicateError) :=
  checkProjectsFrom entriesByProject [].

Definition validateAgainstServerDuplicates (initializeApiClient : Result unit)
    (entries : list TaskEntry) : M (list DuplicateError) :=
  let handler (msg : string) : M (list DuplicateError) :=
    consoleWrite ("Could not initialize API client for duplicate checking: " ++ msg) ;;;
    ret [] in
  if (length entries =? 0)%nat then ret []
  else
    match initializeApiClient with
    | Throw msg => handler msg
    | Ok _ => tryCatch (checkProjectDuplicates (groupEntriesByProject entries)) handler
    end.

End Parser.

(** ** [workLogService.js]: class [WorkLogService] *)

Module Service.

(** The double quote, for messages that quote a subject. *)
Definition dq : string := String (ascii_of_nat 34) EmptyString.

(** *** Categorisation *)

Record Duplicate := {
  dup_entry : Entry;
  dup_existing_subject : option string
}.

Record Analysis := {
  scrum : list Entry;
  existing : list Entry;
  new : list Entry;
  existingWorkPackages : list Entry;
  duplicates : list Duplicate
}.

Definition emptyAnalysis : Analysis :=
  {| scrum := []; existing := []; new := []; existingWorkPackages := []; duplicates := [] |}.

Definition pushScrum (entry : Entry) (a : Analysis) : Analysis :=
  {| scrum := scrum a ++ [entry]; existing := existing a; new := new a;
     existingWorkPackages := existingWorkPackages a; duplicates := duplicates a |}.

Definition pushExisting (entry : Entry) (a : Analysis) : Analysis :=
  {| scrum := scrum a; existing := existing a ++ [entry]; new := new a;
     existingWorkPackages := existingWorkPackages a; duplicates := duplicates a |}.

Definition pushNew (entry : Entry) (a : Analysis) : Analysis :=
  {| scrum := scrum a; existing := existing a; new := new a ++ [entry];
     existingWorkPackages := existingWorkPackages a; duplicates := duplicates a |}.

Definition pushDuplicate (d : Duplicate) (a : Analysis) : Analysis :=
  {| scrum := scrum a; existing := existing a; new := new a;
     existingWorkPackages := existingWorkPackages a; duplicates := duplicates a ++ [d] |}.

Definition setExistingWorkPackageId (id : Z) (e : Entry) : Entry :=
  {| project := project e; project_id := project_id e; subject := subject e;
     activity := activity e; hours := hours e; duration_hours := duration_hours e;
     break_hours := break_hours e; is_scrum := is_scrum e;
     work_package_id := work_package_id e; existing_work_package_id := Some id;
     entry_date := entry_date e; date := date e; start_time := start_time e;
     user_set_start_time := user_set_start_time e;
     calculated_start_time := calculated_start_time e;
     calculated_end_time := calculated_end_time e; comment := comment e;
     statusId := statusId e; statusName := statusName e |}.

(** [handleDuplicateEntry]: the entry learns the identifier of the work
    package found, and a copy of it goes to [duplicates]. *)
Definition handleDuplicateEntry (entry : Entry) (existingWp : WorkPackage) (a : Analysis)
  : Entry * Analysis :=
  let entry' := setExistingWorkPackageId (wp_id existingWp) entry in
  (entry', pushDuplicate {| dup_entry := entry';
                            dup_existing_subject := wp_subject existingWp |} a).

Definition handleNewEntry (entry : Entry) (a : Analysis) : Entry * Analysis :=
  (entry, pushNew entry a).

(** [checkForDuplicatesOrNew]: without a mapping for the project it throws;
    otherwise the lookup decides between [duplicates] and [new], and
    whatever the lookup throws is written to [console.error] and the entry
    goes to [new].  A project that is one of the inherited names has a
    truthy [projectMapping[entry.project]]: the lookup is made, for a
    project that the server does not have. *)
Definition checkForDuplicatesOrNew (config : Config) (entry : Entry) (a : Analysis)
  : M (Entry * Analysis) :=
  let projectId := getProperty (PROJECT_MAPPINGS config) (project entry) in
  if negb (truthyProperty projectId) then
    throw ("Project mapping not found for " ++ project entry)
  else
    tryCatch
      (existingWp <- ApiClient.checkExistingWorkPackageBySubject (numberOf projectId)
                       (subject entry) ;;
       match existingWp with
       | Some wp => ret (handleDuplicateEntry entry wp a)
       | None => ret (handleNewEntry entry a)
       end)
      (fun msg =>
         consoleWrite ("Error checking for duplicates on entry " ++ dq ++ subject entry
                         ++ dq ++ ": " ++ msg) ;;;
         ret (entry, pushNew entry a)).

Definition categorizeEntry (config : Config) (entry : Entry) (a : Analysis)
  : M (Entry * Analysis) :=
  if is_scrum entry && truthyZ (work_package_id entry) then ret (entry, pushScrum entry a)
  else if truthyZ (work_package_id entry) then ret (entry, pushExisting entry a)
  else checkForDuplicatesOrNew config entry a.

(** [extractWorkLogEntries]: the entries of all the dates of the parser's
    object, in the order of its keys. *)
Definition extractWorkLogEntries {A} (allDateEntries : list (string * list A)) : list A :=
  concat (map snd allDateEntries).

(** *** Time chaining *)

Section WithPlatform.
Context `{JsPlatform}.

(** The test [/^\d{1,2}:\d{2}$/]. *)
Definition isClockString (s : string) : bool :=
  match JsString.span JsString.isDigit s with
  | (h, String c m) =>
      Ascii.eqb c ":"
      && (1 <=? String.length h)%nat && (String.length h <=? 2)%nat
      && (String.length m =? 2)%nat && JsString.forallChars JsString.isDigit m
  | _ => false
  end.

(** [parseInt(x) || 0] *)
Definition parseIntOr0 (s : string) : Z := default 0 (JsString.parseInt s).

(** [addHoursToTime]: nothing to add, or no time to add to, gives the time
    back; otherwise hours become minutes with [Math.round(hours * 60)], are
    added to the time of day, and hours beyond 24 wrap.  The arithmetic is
    that of doubles: hours so large that the minutes are no finite number
    give [NaN:NaN].  Nothing in the [try] throws. *)
Definition addHoursToTime (timeString : option string) (hours : Q) : option string :=
  if negb (truthyS timeString) || Qeq_bool hours 0 then timeString
  else
    let timeString' := default "" timeString in
    let cleanTimeString :=
      if JsString.includes timeString' "T" then localClockOf timeString' else timeString' in
    let parts := JsString.split ":" cleanTimeString in
    let hourStr := default "" (parts !! 0%nat) in
    let minuteStr := parts !! 1%nat in
    let startHour := parseIntOr0 hourStr in
    let startMinute :=
      if truthyS minuteStr then parseIntOr0 (default "" minuteStr) else 0 in
    let additionalMinutes :=
      JsNumber.round (JsNumber.mul (JsNumber.ofQ hours) (JsNumber.ofZ 60)) in
    let totalMinutes :=
      JsNumber.add
        (JsNumber.add (JsNumber.mul (JsNumber.ofZ startHour) (JsNumber.ofZ 60))
                      (JsNumber.ofZ startMinute))
        additionalMinutes in
    let newHours := JsNumber.floor (JsNumber.div totalMinutes 60) in
    let newMinutes := JsNumber.rem totalMinutes 60 in
    let finalHours := JsNumber.rem newHours 24 in
    Some (JsString.padStart 2 "0" (numberString finalHours) ++ ":"
            ++ JsString.padStart 2 "0" (numberString newMinutes)).

Definition extractTimeFromString (timeString : option string) : option string :=
  if negb (truthyS timeString) then None
  else
    let s := default "" timeString in
    if JsString.includes s "T" then Some (localClockOf s)
    else if isClockString s then Some s
    else None.

(** [formatTime12Hour] of the service: a time of the day with AM or PM, or
    [Invalid Time] for anything that is not hour and minute within their
    ranges. *)
Definition formatTime12Hour (time24 : option string) : string :=
  if negb (truthyS time24) then "Invalid Time"
  else
    let timeParts := JsString.split ":" (default "" time24) in
    if negb (length timeParts =? 2)%nat then "Invalid Time"
    else
      let hour := parseIntOr0 (default "" (timeParts !! 0%nat)) in
      let minute := parseIntOr0 (default "" (timeParts !! 1%nat)) in
      if (hour <? 0) || (23 <? hour) || (minute <? 0) || (59 <? minute) then "Invalid Time"
      else
        let period := if 12 <=? hour then "PM" else "AM" in
        let hour12 := if hour =? 0 then 12 else if 12 <? hour then hour - 12 else hour in
        (JsString.ofInt hour12 ++ ":" ++ JsString.padStart 2 "0" (JsString.ofInt minute)
           ++ " " ++ period)%string.

(** [findPreviousNonScrumEntry]: the nearest entry before [currentIndex]
    that is not a scrum entry. *)
Fixpoint findPreviousNonScrumEntry (entries : list Entry) (currentIndex : nat)
  : option Entry :=
  match currentIndex with
  | O => None
  | S i =>
      match entries !! i with
      | Some e => if negb (is_scrum e) then Some e else findPreviousNonScrumEntry entries i
      | None => findPreviousNonScrumEntry entries i
      end
  end.

Definition getFirstNonScrumStartTime (entry : Entry) : option string :=
  if truthyS (calculated_start_time entry) then calculated_start_time entry
  else if negb (user_set_start_time entry) then None
  else orElse truthyS (extractTimeFromString (start_time entry)) (Some "09:00").

Definition getSubsequentStartTime (entry : Entry) (sortedEntries : list Entry) (index : nat)
  : option string :=
  let breakHours := breakOf entry in
  match findPreviousNonScrumEntry sortedEntries index with
  | None => None
  | Some previousEntry => addHoursToTime (calculated_end_time previousEntry) breakHours
  end.

Definition calculateEntryStartTime (entry : Entry) (sortedEntries : list Entry) (index : nat)
    (isFirstNonScrum : bool) : option string :=
  if isFirstNonScrum then getFirstNonScrumStartTime entry
  else getSubsequentStartTime entry sortedEntries index.

Definition setTimes (startTime endTime : option string) (e : Entry) : Entry :=
  {| project := project e; project_id := project_id e; subject := subject e;
     activity := activity e; hours := hours e; duration_hours := duration_hours e;
     break_hours := break_hours e; is_scrum := is_scrum e;
     work_package_id := work_package_id e;
     existing_work_package_id := existing_work_package_id e;
     entry_date := entry_date e; date := date e; start_time := start_time e;
     user_set_start_time := user_set_start_time e;
     calculated_start_time := startTime; calculated_end_time := endTime;
     comment := comment e; statusId := statusId e; statusName := statusName e |}.

(** An issue names its entry by the entry's place in the list. *)
Record ValidationIssue := {
  issue_type : string;
  issue_entry : nat;
  issue_message : string
}.

(** The variables of [processDateEntries]: the entries, changed in place,
    the cursor [currentTime], the flag [isFirstNonScrum], the issues
    collected, and the places whose times [validateEntryTimes] wrote to
    [console.warn]. *)
Record ChainState := {
  entries : list Entry;
  currentTime : option string;
  isFirstNonScrum : bool;
  validationIssues : list ValidationIssue;
  timeWarnings : list nat
}.

(** [processScrumEntry]: a scrum entry without a start gets 10:00; its end
    is its start plus its hours. *)
Definition processScrumEntry (index : nat) (entry : Entry) (issues : list ValidationIssue)
  : Entry * list ValidationIssue :=
  let issues' :=
    if negb (truthyZ (work_package_id entry))
    then (issues ++ [{| issue_type := "missing_work_package_id"; issue_entry := index;
                        issue_message := "SCRUM entry " ++ dq ++ subject entry ++ dq
                                           ++ " is missing required work_package_id" |}])%list
    else issues in
  let startTime :=
    if negb (truthyS (calculated_start_time entry)) then Some "10:00"
    else calculated_start_time entry in
  (setTimes startTime (addHoursToTime startTime (hoursOf entry)) entry, issues').

(** [validateEntryTimes]: does a warning go to the console? *)
Definition timesLookWrong (startTime endTime : option string) : bool :=
  negb (truthyS startTime) || bool_decide (startTime = Some "Invalid Time")
  || negb (truthyS endTime) || bool_decide (endTime = Some "Invalid Time").

(** [checkTimeOverlap]: does the entry start before the previous one ends? *)
Definition overlaps (sortedEntries : list Entry) (index : nat) (startTime : option string)
  : option string :=
  match findPreviousNonScrumEntry sortedEntries index with
  | None => None
  | Some prevEntry =>
      if negb (truthyS (calculated_end_time prevEntry)) then None
      else
        let prevEnd := default "" (calculated_end_time prevEntry) in
        match clockInstant (default "null" startTime), clockInstant prevEnd with
        | Some cur, Some prev => if cur <? prev then Some prevEnd else None
        | _, _ => None
        end
  end.

(** One turn of the [forEach] of [processDateEntries]. *)
Definition chainStep (st : ChainState) (index : nat) : ChainState :=
  match entries st !! index with
  | None => st
  | Some entry =>
      if is_scrum entry then
        let '(entry', issues') := processScrumEntry index entry (validationIssues st) in
        {| entries := <[index := entry']> (entries st);
           currentTime := currentTime st;
           isFirstNonScrum := isFirstNonScrum st;
           validationIssues := issues';
           timeWarnings := timeWarnings st |}
      else
        let startTime :=
          calculateEntryStartTime entry (entries st) index (isFirstNonScrum st) in
        let endTime := addHoursToTime startTime (hoursOf entry) in
        let entry' := setTimes startTime endTime entry in
        let entries' := <[index := entry']> (entries st) in
        {| entries := entries';
           currentTime := calculated_end_time entry';
           isFirstNonScrum := false;
           validationIssues :=
             match overlaps entries' index startTime with
             | Some prevEnd =>
                 validationIssues st
                   ++ [{| issue_type := "time_overlap"; issue_entry := index;
                          issue_message := "Start time " ++ default "null" startTime
                            ++ " overlaps with previous task end time " ++ prevEnd |}]
             | None => validationIssues st
             end;
           timeWarnings :=
             if timesLookWrong startTime endTime then timeWarnings st ++ [index]
             else timeWarnings st |}
  end.

(** [processDateEntries]: the entries of one date, in the order given. *)
Definition processDateEntries (sortedEntries : list Entry)
    (validationIssues : list ValidationIssue) : ChainState :=
  foldl chainStep
    {| entries := sortedEntries; currentTime := None; isFirstNonScrum := true;
       validationIssues := validationIssues; timeWarnings := [] |}
    (seq 0 (length sortedEntries)).

(** *** Analysis of the whole work log *)

(** The key of [getUniqueEntries]:
    [`${entry.project}|${entry.subject}|${entry.hours || entry.duration_hours}`]. *)
Definition entryKey (entry : Entry) : string :=
  project entry ++ "|" ++ subject entry ++ "|"
    ++ match orElse truthyQ (hours entry) (duration_hours entry) with
       | Some q => numberToString q
       | None => "undefined"
       end.

(** [getUniqueEntries]: the entries whose key was not seen before, with
    [seenEntries] the keys seen so far. *)
Fixpoint uniqueFrom (todo : list Entry) (seenEntries : list string) : list Entry :=
  match todo with
  | [] => []
  | entry :: rest =>
      if bool_decide (entryKey entry ∈ seenEntries) then uniqueFrom rest seenEntries
      else entry :: uniqueFrom rest (seenEntries ++ [entryKey entry])
  end.

Definition getUniqueEntries (workLogEntries : list Entry) : list Entry :=
  uniqueFrom workLogEntries [].

(** The loop of [performWorkPackageAnalysis] over the entries whose key was
    not seen before, from place [index] on; an entry that the categoriser
    changes is changed in the work log, the same object. *)
Fixpoint analyseFrom (config : Config) (todo : list Entry) (index : nat)
    (seenEntries : list string) (workLogEntries : list Entry) (a : Analysis)
  : M (list Entry * Analysis) :=
  match todo with
  | [] => ret (workLogEntries, a)
  | entry :: rest =>
      if bool_decide (entryKey entry ∈ seenEntries)
      then analyseFrom config rest (index + 1) seenEntries workLogEntries a
      else
        r <- categorizeEntry config entry a ;;
        analyseFrom config rest (index + 1) (seenEntries ++ [entryKey entry])
                    (<[index := fst r]> workLogEntries) (snd r)
  end.

Definition performWorkPackageAnalysis (config : Config) (workLogEntries : list Entry)
  : M (list Entry * Analysis) :=
  analyseFrom config workLogEntries 0 [] workLogEntries emptyAnalysis.

(** *** Processing *)

Record ProcessResult := {
  r_type : string;
  r_message : string;
  r_workPackageId : option Z
}.

(** What the service holds besides the entries: the configuration, the
    analysis of the last run of [performWorkPackageAnalysis] if there was
    one, and the statuses fetched from the server. *)
Record ServiceData := {
  config : Config;
  analysisData : option Analysis;
  statusData : list (Z * string)
}.

Definition setStatusOf (id : Z) (name : string) (e : Entry) : Entry :=
  {| project := project e; project_id := project_id e; subject := subject e;
     activity := activity e; hours := hours e; duration_hours := duration_hours e;
     break_hours := break_hours e; is_scrum := is_scrum e;
     work_package_id := work_package_id e;
     existing_work_package_id := existing_work_package_id e;
     entry_date := entry_date e; date := date e; start_time := start_time e;
     user_set_start_time := user_set_start_time e;
     calculated_start_time := calculated_start_time e;
     calculated_end_time := calculated_end_time e; comment := comment e;
     statusId := Some id; statusName := Some name |}.

(** [newEntries.findIndex(n => n.project === entry.project && n.subject === entry.subject)];
    [None] is the answer -1. *)
Fixpoint findIndexFrom (entry : Entry) (newEntries : list Entry) (index : nat) : option nat :=
  match newEntries with
  | [] => None
  | n :: rest =>
      if String.eqb (project n) (project entry) && String.eqb (subject n) (subject entry)
      then Some index
      else findIndexFrom entry rest (index + 1)
  end.

Definition showIndex (i : option nat) : string :=
  match i with Some n => JsString.ofInt (Z.of_nat n) | None => "-1" end.

(** [enrichEntryMetadata]: the status chosen for a new entry is copied onto
    the entry; without an analysis it throws. *)
Definition enrichEntryMetadata (svc : ServiceData) (entry : Entry)
    (commentData : gmap string string) : Result Entry :=
  match analysisData svc with
  | None => Throw "Cannot read properties of null (reading 'new')"
  | Some a =>
      match findIndexFrom entry (new a) 0 with
      | None => Ok entry
      | Some newEntryIndex =>
          let statusValue := commentData !! ("status_" ++ showIndex (Some newEntryIndex)) in
          let selectedStatusId :=
            if truthyS statusValue then JsString.parseInt (default "" statusValue) else None in
          if negb (truthyZ selectedStatusId) then Ok entry
          else
            let id := default 0 selectedStatusId in
            let statusName :=
              default "Unknown Status"
                (orElse truthyS (snd <$> List.find (fun s => fst s =? id) (statusData svc))
                        None) in
            Ok (setStatusOf id statusName entry)
      end
  end.

(** [entry.calculated_start_time || entry.start_time] *)
Definition startOf (entry : Entry) : option string :=
  orElse truthyS (calculated_start_time entry) (start_time entry).

Definition tagOf (entry : Entry) : string :=
  "[" ++ project entry ++ "] " ++ subject entry.

Definition logTime (svc : ServiceData) (workPackageId : Z) (entry : Entry)
    (entryDate : string) : M TimeEntry :=
  ApiClient.createTimeEntry (config svc) workPackageId entryDate (startOf entry)
    (Some (durationOf entry)) (activity entry) (tagOf entry).

Definition processScrumTimeEntry (svc : ServiceData) (entry : Entry) (workPackageId : Z)
    (entryDate : string) : M ProcessResult :=
  logTime svc workPackageId entry entryDate ;;;
  ret {| r_type := "scrum";
         r_message := "SCRUM: " ++ project entry ++ " - " ++ subject entry ++ " ("
                        ++ numberToString (durationOf entry) ++ "h)";
         r_workPackageId := None |}.

Definition processExistingWorkPackage (svc : ServiceData) (entry : Entry)
    (entryDate : string) : M ProcessResult :=
  logTime svc (default 0 (existing_work_package_id entry)) entry entryDate ;;;
  ret {| r_type := "existing";
         r_message := "Existing WP: " ++ project entry ++ " - " ++ subject entry ++ " ("
                        ++ numberToString (durationOf entry) ++ "h)";
         r_workPackageId := None |}.

Definition processDuplicateWorkPackage (svc : ServiceData) (entry : Entry)
    (workPackageId : Z) (entryDate : string) : M ProcessResult :=
  logTime svc workPackageId entry entryDate ;;;
  ret {| r_type := "duplicate";
         r_message := "Added time to duplicate: " ++ project entry ++ " - "
                        ++ subject entry ++ " (+" ++ numberToString (durationOf entry)
                        ++ "h)";
         r_workPackageId := None |}.

(** [projectMapping[`${projectName}_PROJECT`] || projectMapping[projectName]],
    for a project name that is none of the inherited names. *)
Definition getProjectId (svc : ServiceData) (projectName : string) : Result Z :=
  let projectId :=
    orElse truthyZ (PROJECT_MAPPINGS (config svc) !! (projectName ++ "_PROJECT"))
                   (PROJECT_MAPPINGS (config svc) !! projectName) in
  if negb (truthyZ projectId)
  then Throw ("No project mapping found for project: " ++ projectName)
  else Ok (default 0 projectId).

Definition processFoundExistingWorkPackage (svc : ServiceData) (entry : Entry)
    (existingWorkPackage : WorkPackage) (entryDate : string) : M ProcessResult :=
  logTime svc (wp_id existingWorkPackage) entry entryDate ;;;
  ret {| r_type := "found_existing";
         r_message := "Found existing WP: " ++ project entry ++ " - " ++ subject entry
                        ++ " (" ++ numberToString (durationOf entry) ++ "h)";
         r_workPackageId := None |}.

Definition createNewWorkPackageWithTime (svc : ServiceData) (entry : Entry) (projectId : Z)
    (commentData : gmap string string) (entryDate : string) : M ProcessResult :=
  let newEntries := match analysisData svc with Some a => new a | None => [] end in
  let newEntryIndex := findIndexFrom entry newEntries 0 in
  workPackage <-
    ApiClient.createWorkPackage (Some projectId) (subject entry) (activity entry)
      (default "" (orElse truthyS (commentData !! ("comment_" ++ showIndex newEntryIndex))
                          None))
      (default 7 (orElse truthyZ (statusId entry) None)) ;;
  logTime svc (wp_id workPackage) entry entryDate ;;;
  ret {| r_type := "new";
         r_message := "New WP created: " ++ project entry ++ " - " ++ subject entry
                        ++ " (ID: " ++ JsString.ofInt (wp_id workPackage) ++ ", "
                        ++ numberToString (durationOf entry) ++ "h"
                        ++ (if truthyS (statusName entry)
                            then ", Status: " ++ default "" (statusName entry) else "")
                        ++ ")";
         r_workPackageId := Some (wp_id workPackage) |}.

Definition processNewWorkPackage (svc : ServiceData) (entry : Entry)
    (commentData : gmap string string) (entryDate : string) : M ProcessResult :=
  match getProjectId svc (project entry) with
  | Throw msg => throw msg
  | Ok projectId =>
      existingWorkPackage <-
        ApiClient.findWorkPackageBySubject (Some projectId) (subject entry) ;;
      match existingWorkPackage with
      | Some wp => processFoundExistingWorkPackage svc entry wp entryDate
      | None => createNewWorkPackageWithTime svc entry projectId commentData entryDate
      end
  end.

(** [processEntry]; beside the result it gives the entry back, which
    [enrichEntryMetadata] may have changed before anything was thrown. *)
Definition processEntry (svc : ServiceData) (entry : Entry)
    (commentData : gmap string string) (w : World) : (Entry * Result ProcessResult) * World :=
  let workPackageId :=
    orElse truthyZ (work_package_id entry) (existing_work_package_id entry) in
  let entryDate := orElse truthyS (entry_date entry) (date entry) in
  if negb (truthyS entryDate) then
    ((entry, Throw ("Entry missing date information: " ++ subject entry)), w)
  else
    match enrichEntryMetadata svc entry commentData with
    | Throw msg => ((entry, Throw msg), w)
    | Ok entry1 =>
        let run (m : M ProcessResult) := let '(r, w1) := m w in ((entry1, r), w1) in
        let entryDate' := default "" entryDate in
        if is_scrum entry1 && truthyZ workPackageId then
          run (processScrumTimeEntry svc entry1 (default 0 workPackageId) entryDate')
        else if truthyZ (existing_work_package_id entry1) then
          run (processExistingWorkPackage svc entry1 entryDate')
        else if truthyZ (work_package_id entry1) then
          run (processDuplicateWorkPackage svc entry1 (default 0 workPackageId) entryDate')
        else
          run (processNewWorkPackage svc entry1 commentData entryDate')
    end.

(** One element of [results]. *)
Record Outcome := {
  success : bool;
  o_entry : Entry;
  o_result : option ProcessResult;
  o_error : option string
}.

Record Stats := {
  createdCount : nat;
  updatedCount : nat;
  errorCount : nat
}.

Definition updateStats (resultType : string) (stats : Stats) : Stats :=
  if String.eqb resultType "new"
  then {| createdCount := createdCount stats + 1; updatedCount := updatedCount stats;
          errorCount := errorCount stats |}
  else {| createdCount := createdCount stats; updatedCount := updatedCount stats + 1;
          errorCount := errorCount stats |}.

(** [processAndTrackEntry]: what [processEntry] throws is caught here and
    becomes a failed outcome. *)
Definition processAndTrackEntry (svc : ServiceData) (entry : Entry)
    (commentData : gmap string string) (results : list Outcome) (stats : Stats) (w : World)
  : (Entry * list Outcome * Stats) * World :=
  match processEntry svc entry commentData w with
  | ((entry1, Ok result), w1) =>
      ((entry1,
        (results ++ [{| success := true; o_entry := entry1; o_result := Some result;
                        o_error := None |}])%list,
        updateStats (r_type result) stats), w1)
  | ((entry1, Throw msg), w1) =>
      ((entry1,
        (results ++ [{| success := false; o_entry := entry1; o_result := None;
                        o_error := Some msg |}])%list,
        {| createdCount := createdCount stats; updatedCount := updatedCount stats;
           errorCount := errorCount stats + 1 |}), w1)
  end.

Record ProcessingResult := {
  results : list Outcome;
  p_createdCount : nat;
  p_updatedCount : nat;
  successCount : nat;
  p_errorCount : nat;
  totalEntries : nat
}.

Definition buildProcessingResult (results : list Outcome) (stats : Stats) (totalEntries : nat)
  : ProcessingResult :=
  {| results := results; p_createdCount := createdCount stats;
     p_updatedCount := updatedCount stats;
     successCount := createdCount stats + updatedCount stats;
     p_errorCount := errorCount stats; totalEntries := totalEntries |}.

(** The loop of [processAllEntries] over the entries still to do; the
    entries done, as [processEntry] left them, are gathered in [done]. *)
Fixpoint processLoop (svc : ServiceData) (todo : list Entry)
    (commentData : gmap string string) (done : list Entry) (results : list Outcome)
    (stats : Stats) (w : World) : (list Entry * list Outcome * Stats) * World :=
  match todo with
  | [] => ((done, results, stats), w)
  | entry :: rest =>
      let '((entry1, results1, stats1), w1) :=
        processAndTrackEntry svc entry commentData results stats w in
      processLoop svc rest commentData (done ++ [entry1]) results1 stats1 w1
  end.

(** [processAllEntries]: the result, and the work log as the run left it. *)
Definition processAllEntries (svc : ServiceData) (workLogEntries : list Entry)
    (commentData : gmap string string) (w : World) : (ProcessingResult * list Entry) * World :=
  let '((done, results, stats), w1) :=
    processLoop svc workLogEntries commentData [] []
      {| createdCount := 0; updatedCount := 0; errorCount := 0 |} w in
  ((buildProcessingResult results stats (length workLogEntries), done), w1).

End WithPlatform.

End Service.

(** ** [apiClient.js]: the dry run of the analysis

    [dryRunWorkPackageAnalysis] and [categorizeEntryForAnalysis] of the
    client; they stand here because an entry that the lookup finds is
    changed as in the service. *)

Module DryRun.

Record Analysis := {
  scrum : list Entry;
  existing : list Entry;
  new : list Entry;
  existingWorkPackages : list Entry
}.

Definition emptyAnalysis : Analysis :=
  {| scrum := []; existing := []; new := []; existingWorkPackages := [] |}.

(** [categorizeEntryForAnalysis]: a scrum entry, then an entry with a
    work-package id, then the lookup in the project of [entry.project_id];
    the entry found learns the identifier of its work package. *)
Definition categorizeEntryForAnalysis (entry : Entry) (a : Analysis) : M (Entry * Analysis) :=
  if is_scrum entry then
    ret (entry, {| scrum := scrum a ++ [entry]; existing := existing a; new := new a;
                   existingWorkPackages := existingWorkPackages a |})
  else if truthyZ (work_package_id entry) then
    ret (entry, {| scrum := scrum a; existing := existing a ++ [entry]; new := new a;
                   existingWorkPackages := existingWorkPackages a |})
  else
    found <- ApiClient.checkExistingWorkPackageBySubject (project_id entry) (subject entry) ;;
    match found with
    | Some wp =>
        let entry' := Service.setExistingWorkPackageId (wp_id wp) entry in
        ret (entry', {| scrum := scrum a; existing := existing a; new := new a;
                        existingWorkPackages := existingWorkPackages a ++ [entry'] |})
    | None =>
        ret (entry, {| scrum := scrum a; existing := existing a; new := new a ++ [entry];
                       existingWorkPackages := existingWorkPackages a |})
    end.

(** The loop of [dryRunWorkPackageAnalysis] from place [index] on; an entry
    that is changed is changed in the work log, the same object. *)
Fixpoint analyseFrom (todo : list Entry) (index : nat) (workLogEntries : list Entry)
    (a : Analysis) : M (list Entry * Analysis) :=
  match todo with
  | [] => ret (workLogEntries, a)
  | entry :: rest =>
      r <- categorizeEntryForAnalysis entry a ;;
      analyseFrom rest (index + 1) (<[index := fst r]> workLogEntries) (snd r)
  end.

Definition dryRunWorkPackageAnalysis (workLogEntries : list Entry)
  : M (list Entry * Analysis) :=
  analyseFrom workLogEntries 0 workLogEntries emptyAnalysis.

End DryRun.

(** * Properties *)

Local Open Scope list_scope.

(** ** The arithmetic of doubles *)

Section Doubles.

Import JsNumber.

Lemma pow2_pos k : (0 < pow2 k)%Q.
Proof. apply Qpower_0_lt. reflexivity. Qed.

Lemma pow2_add a b : (pow2 (a + b) == pow2 a * pow2 b)%Q.
Proof. apply Qpower_plus. discriminate. Qed.

Lemma pow2_le a b : a <= b -> (pow2 a <= pow2 b)%Q.
Proof. intros Hab. apply Qpower_le_compat_l; [exact Hab | discriminate]. Qed.

Lemma pow2_lt a b : a < b -> (pow2 a < pow2 b)%Q.
Proof. intros Hab. apply Qpower_lt_compat_l; [exact Hab | reflexivity]. Qed.

Lemma pow2_lt_inv a b : (pow2 a < pow2 b)%Q -> a < b.
Proof. intros Hab. apply (Qpower_lt_compat_l_inv 2); [exact Hab | reflexivity]. Qed.

Lemma pow2_Z k : 0 <= k -> (pow2 k == inject_Z (2 ^ k))%Q.
Proof. intros Hk. unfold pow2. by rewrite Zpower_Qpower. Qed.

Lemma pow2_opp k : (pow2 (- k) == / pow2 k)%Q.
Proof. apply Qpower_opp. Qed.

Lemma Qabs_make n d : (Qabs (n # d) == inject_Z (Z.abs n) / inject_Z (Zpos d))%Q.
Proof.
  unfold Qabs, Qdiv, Qeq, Qmult, Qinv, inject_Z. simpl. lia.
Qed.

(** [binade x] is the exponent of the power of two at or below [|x|]. *)
Lemma binade_spec x :
  ~ (x == 0)%Q -> (pow2 (binade x) <= Qabs x)%Q /\ (Qabs x < pow2 (binade x + 1))%Q.
Proof.
  intros Hx. destruct x as [n d].
  assert (Hn : 0 < Z.abs n).
  { assert (n <> 0); [|lia]. intros ->. by apply Hx. }
  set (a := Z.log2 (Z.abs n)). set (b := Z.log2 (Zpos d)).
  assert (Ha : 0 <= a) by apply Z.log2_nonneg.
  assert (Hb : 0 <= b) by apply Z.log2_nonneg.
  destruct (Z.log2_spec (Z.abs n) Hn) as [Han1 Han2]. fold a in Han1, Han2.
  destruct (Z.log2_spec (Zpos d) ltac:(lia)) as [Hbd1 Hbd2]. fold b in Hbd1, Hbd2.
  assert (Qa1 : (pow2 a <= inject_Z (Z.abs n))%Q).
  { rewrite pow2_Z by done. by rewrite <- Zle_Qle. }
  assert (Qa2 : (inject_Z (Z.abs n) < pow2 (a + 1))%Q).
  { rewrite pow2_Z by lia. rewrite <- Zlt_Qlt. by rewrite <- Z.add_1_r in Han2. }
  assert (Qb1 : (pow2 b <= inject_Z (Zpos d))%Q).
  { rewrite pow2_Z by done. by rewrite <- Zle_Qle. }
  assert (Qb2 : (inject_Z (Zpos d) < pow2 (b + 1))%Q).
  { rewrite pow2_Z by lia. rewrite <- Zlt_Qlt. by rewrite <- Z.add_1_r in Hbd2. }
  assert (Hd : (0 < inject_Z (Zpos d))%Q) by (rewrite <- (Zlt_Qlt 0); lia).
  pose proof (pow2_pos a) as Pa. pose proof (pow2_pos b) as Pb.
  pose proof (pow2_pos (b + 1)) as Pb1.
  assert (Hlow : (pow2 (a - b - 1) <= Qabs (n # d))%Q).
  { rewrite Qabs_make. apply Qle_shift_div_l; [done|].
    replace (a - b - 1) with (a + - (b + 1)) by lia.
    rewrite pow2_add, pow2_opp.
    apply Qle_trans with (pow2 a * / pow2 (b + 1) * pow2 (b + 1))%Q.
    - apply Qmult_le_l; [|by apply Qlt_le_weak].
      apply Qmult_lt_0_compat; [done|]. by apply Qinv_lt_0_compat.
    - rewrite <- Qmult_assoc, (Qmult_comm (/ _)), Qmult_inv_r, Qmult_1_r; [done|].
      intros Hz. rewrite Hz in Pb1. by apply Qlt_irrefl in Pb1. }
  assert (Hup : (Qabs (n # d) < pow2 (a - b + 1))%Q).
  { rewrite Qabs_make. apply Qlt_shift_div_r; [done|].
    replace (a - b + 1) with ((a + 1) + - b) by lia.
    rewrite pow2_add, pow2_opp.
    apply Qlt_le_trans with (pow2 (a + 1)); [done|].
    apply Qle_trans with (pow2 (a + 1) * / pow2 b * pow2 b)%Q.
    - rewrite <- Qmult_assoc, (Qmult_comm (/ _)), Qmult_inv_r, Qmult_1_r; [apply Qle_refl|].
      intros Hz. rewrite Hz in Pb. by apply Qlt_irrefl in Pb.
    - apply Qmult_le_l; [|done].
      apply Qmult_lt_0_compat; [apply pow2_pos|]. by apply Qinv_lt_0_compat. }
  unfold binade. cbn [Qnum Qden]. fold a b.
  destruct (Qle_bool (pow2 (a - b)) (Qabs (n # d))) eqn:Et.
  - apply Qle_bool_iff in Et. by split.
  - split; [exact Hlow|]. replace (a - b - 1 + 1) with (a - b) by lia.
    apply Qnot_le_lt. intros Hle. apply Qle_bool_iff in Hle. congruence.
Qed.

Lemma roundHalfEven_error x : (Qabs (inject_Z (roundHalfEven x) - x) <= 1 # 2)%Q.
Proof.
  unfold roundHalfEven. pose proof (Qfloor_le x) as Hf. pose proof (Qlt_floor x) as Hc.
  rewrite inject_Z_plus in Hc. change (inject_Z 1) with 1%Q in Hc.
  apply Qabs_Qle_condition.
  destruct (Qcompare_spec (x - inject_Z (Qfloor x)) (1 # 2)) as [He|Hl|Hg].
  - destruct (Z.even (Qfloor x)); rewrite ?inject_Z_plus;
      change (inject_Z 1) with 1%Q; split; lra.
  - split; lra.
  - rewrite inject_Z_plus. change (inject_Z 1) with 1%Q. split; lra.
Qed.

Lemma roundHalfEven_Z x n : (x == inject_Z n)%Q -> roundHalfEven x = n.
Proof.
  intros Hx. unfold roundHalfEven.
  assert (Hf : Qfloor x = n) by (rewrite (Qfloor_comp _ _ Hx); apply Qfloor_Z).
  rewrite Hf.
  destruct (Qcompare_spec (x - inject_Z n) (1 # 2)) as [He|Hl|Hg]; [lra | done | lra].
Qed.

Lemma roundHalfEven_nonneg x : (0 <= x)%Q -> 0 <= roundHalfEven x.
Proof.
  intros Hx. unfold roundHalfEven.
  assert (Hf : 0 <= Qfloor x).
  { change 0 with (Qfloor 0). by apply Qfloor_resp_le. }
  destruct (Qcompare _ _); [destruct (Z.even _)| |]; lia.
Qed.

Lemma Qred_whole v n : (v == inject_Z n)%Q -> Qred v = inject_Z n.
Proof.
  intros Hv. rewrite (Qred_complete _ _ Hv).
  unfold Qred, inject_Z. cbn [Qnum Qden].
  pose proof (Z.ggcd_gcd n 1) as Hg. pose proof (Z.ggcd_correct_divisors n 1) as Hd.
  destruct (Z.ggcd n 1) as [g [aa bb]]. cbn [fst snd] in *.
  rewrite Z.gcd_1_r in Hg. subst g. destruct Hd as [Ha Hb].
  rewrite Z.mul_1_l in Ha, Hb. subst aa bb. reflexivity.
Qed.

Lemma nearest_comp x y : (x == y)%Q -> nearest x = nearest y.
Proof. intros Hxy. unfold nearest. by rewrite (Qred_complete _ _ Hxy). Qed.

Lemma nearest_zero x : (x == 0)%Q -> nearest x = 0%Q.
Proof. intros Hx. by rewrite (nearest_comp _ _ Hx). Qed.

(** The value of [nearest x] before it is reduced. *)
Lemma nearest_value x :
  ~ (x == 0)%Q ->
  exists k, k = ulpExponent (Qred x)
    /\ (nearest x == inject_Z (roundHalfEven (x / pow2 k)) * pow2 k)%Q.
Proof.
  intros Hx. exists (ulpExponent (Qred x)). split; [done|].
  unfold nearest. cbv zeta.
  destruct (Qeq_bool (Qred x) 0) eqn:Ez.
  { apply Qeq_bool_iff in Ez. rewrite Qred_correct in Ez. contradiction. }
  etransitivity; [apply Qred_correct|].
  assert (Hd : (Qred x / pow2 (ulpExponent (Qred x)) == x / pow2 (ulpExponent (Qred x)))%Q).
  { apply Qmult_comp; [apply Qred_correct | reflexivity]. }
  assert (Hr : roundHalfEven (Qred x / pow2 (ulpExponent (Qred x)))
               = roundHalfEven (x / pow2 (ulpExponent (Qred x)))).
  { unfold roundHalfEven. rewrite (Qfloor_comp _ _ Hd).
    assert (Hc : (Qred x / pow2 (ulpExponent (Qred x))
                    - inject_Z (Qfloor (x / pow2 (ulpExponent (Qred x))))
                  ?= 1 # 2)%Q
                 = (x / pow2 (ulpExponent (Qred x))
                    - inject_Z (Qfloor (x / pow2 (ulpExponent (Qred x))))
                  ?= 1 # 2)%Q).
    { apply Qcompare_comp; [|reflexivity]. by rewrite Hd. }
    by rewrite Hc. }
  by rewrite Hr.
Qed.

(** Half a unit in the last place bounds the error of rounding. *)
Lemma nearest_error x :
  ~ (x == 0)%Q ->
  (Qabs (nearest x - x) <= pow2 (ulpExponent (Qred x)) * (1 # 2))%Q.
Proof.
  intros Hx. destruct (nearest_value x Hx) as (k & <- & Hv).
  pose proof (pow2_pos k) as Pk.
  pose proof (roundHalfEven_error (x / pow2 k)) as He.
  rewrite Hv.
  assert (Heq : (inject_Z (roundHalfEven (x / pow2 k)) * pow2 k - x
                 == (inject_Z (roundHalfEven (x / pow2 k)) - x / pow2 k) * pow2 k)%Q).
  { field. intros Hz. rewrite Hz in Pk. by apply Qlt_irrefl in Pk. }
  rewrite Heq, Qabs_Qmult, (Qabs_pos (pow2 k)) by (by apply Qlt_le_weak).
  rewrite (Qmult_comm _ (pow2 k)).
  apply Qmult_le_l; done.
Qed.

Lemma nearest_nonneg x : (0 <= x)%Q -> (0 <= nearest x)%Q.
Proof.
  intros Hx. destruct (Qeq_dec x 0) as [Hz|Hnz].
  - rewrite (nearest_zero x Hz). apply Qle_refl.
  - destruct (nearest_value x Hnz) as (k & _ & Hv). rewrite Hv.
    apply Qmult_le_0_compat; [|apply Qlt_le_weak, pow2_pos].
    rewrite <- (Zle_Qle 0). apply roundHalfEven_nonneg.
    apply Qle_shift_div_l; [apply pow2_pos|]. by rewrite Qmult_0_l.
Qed.

(** Whole numbers round to whole numbers. *)
Lemma nearest_whole x n : (x == inject_Z n)%Q -> exists m, nearest x = inject_Z m.
Proof.
  intros Hx. destruct (Qeq_dec x 0) as [Hz|Hnz].
  { exists 0. by apply nearest_zero. }
  unfold nearest. cbv zeta.
  destruct (Qeq_bool (Qred x) 0) eqn:Ez.
  { apply Qeq_bool_iff in Ez. rewrite Qred_correct in Ez. contradiction. }
  set (k := ulpExponent (Qred x)).
  destruct (Z.le_gt_cases 0 k) as [Hk|Hk].
  - exists (roundHalfEven (Qred x / pow2 k) * 2 ^ k). apply Qred_whole.
    rewrite inject_Z_mult. apply Qmult_comp; [reflexivity | by apply pow2_Z].
  - exists n. apply Qred_whole.
    assert (Hp : (pow2 k == / inject_Z (2 ^ (- k)))%Q).
    { replace k with (- (- k)) at 1 by lia. rewrite pow2_opp, pow2_Z by lia. reflexivity. }
    assert (Hpos : (0 < inject_Z (2 ^ (- k)))%Q).
    { rewrite <- (Zlt_Qlt 0). apply Z.pow_pos_nonneg; lia. }
    assert (Hs : (Qred x / pow2 k == inject_Z (n * 2 ^ (- k)))%Q).
    { rewrite (Qred_correct x), Hx, Hp, inject_Z_mult. field.
      intros Hz'. rewrite Hz' in Hpos. by apply Qlt_irrefl in Hpos. }
    rewrite (roundHalfEven_Z _ _ Hs), Hp, inject_Z_mult. field.
    intros Hz'. rewrite Hz' in Hpos. by apply Qlt_irrefl in Hpos.
Qed.

(** A whole number of at most 53 bits is a double. *)
Lemma nearest_Z n : Z.abs n < 2 ^ 53 -> nearest (inject_Z n) = inject_Z n.
Proof.
  intros Hn. destruct (Z.eq_dec n 0) as [->|Hnz]; [reflexivity|].
  assert (Hx : ~ (inject_Z n == 0)%Q).
  { intros Hz. apply Hnz. by apply (inject_Z_injective n 0). }
  unfold nearest. cbv zeta.
  destruct (Qeq_bool (Qred (inject_Z n)) 0) eqn:Ez.
  { apply Qeq_bool_iff in Ez. rewrite Qred_correct in Ez. contradiction. }
  rewrite (Qred_whole (inject_Z n) n) by reflexivity.
  set (k := ulpExponent (inject_Z n)).
  assert (Hk : k <= 0).
  { unfold k, ulpExponent. destruct (binade_spec (inject_Z n) Hx) as [Hlo _].
    assert (Hb : binade (inject_Z n) < 53); [|lia].
    apply pow2_lt_inv. apply Qle_lt_trans with (Qabs (inject_Z n)); [done|].
    rewrite (pow2_Z 53) by lia.
    change (Qabs (inject_Z n)) with (inject_Z (Z.abs n)). rewrite <- Zlt_Qlt. lia. }
  apply Qred_whole.
  assert (Hp : (pow2 k == / inject_Z (2 ^ (- k)))%Q).
  { replace k with (- (- k)) at 1 by lia. rewrite pow2_opp, pow2_Z by lia. reflexivity. }
  assert (Hpos : (0 < inject_Z (2 ^ (- k)))%Q).
  { rewrite <- (Zlt_Qlt 0). apply Z.pow_pos_nonneg; lia. }
  assert (Hs : (inject_Z n / pow2 k == inject_Z (n * 2 ^ (- k)))%Q).
  { rewrite Hp, inject_Z_mult. field.
    intros Hz'. rewrite Hz' in Hpos. by apply Qlt_irrefl in Hpos. }
  rewrite (roundHalfEven_Z _ _ Hs), Hp, inject_Z_mult. field.
  intros Hz'. rewrite Hz' in Hpos. by apply Qlt_irrefl in Hpos.
Qed.

(** [a] is the whole number [n]. *)
Definition whole (a : number) (n : Z) : Prop :=
  exists x, a = Finite x /\ (x == inject_Z n)%Q.

Lemma round64_finite x :
  (Qabs (nearest x) < pow2 1024)%Q -> round64 x = Finite (nearest x).
Proof.
  intros Hx. unfold round64. cbv zeta.
  destruct (Qle_bool (pow2 1024) (Qabs (nearest x))) eqn:Et; [|done].
  apply Qle_bool_iff in Et. exfalso. apply (Qlt_irrefl (pow2 1024)).
  by apply Qle_lt_trans with (Qabs (nearest x)).
Qed.

Lemma round64_Z x n : (x == inject_Z n)%Q -> Z.abs n < 2 ^ 53 -> round64 x = Finite (inject_Z n).
Proof.
  intros Hx Hn. rewrite <- (nearest_Z n Hn), <- (nearest_comp _ _ Hx).
  apply round64_finite. rewrite (nearest_comp _ _ Hx), (nearest_Z n Hn).
  change (Qabs (inject_Z n)) with (inject_Z (Z.abs n)).
  rewrite (pow2_Z 1024) by lia. rewrite <- Zlt_Qlt.
  apply Z.lt_trans with (2 ^ 53); [done|]. apply Z.pow_lt_mono_r; lia.
Qed.

Lemma whole_ofZ n : Z.abs n < 2 ^ 53 -> whole (ofZ n) n.
Proof.
  intros Hn. exists (inject_Z n). split; [|reflexivity].
  by apply round64_Z.
Qed.

Lemma whole_add a b n m :
  whole a n -> whole b m -> Z.abs (n + m) < 2 ^ 53 -> whole (add a b) (n + m).
Proof.
  intros (x & -> & Hx) (y & -> & Hy) Hnm. exists (inject_Z (n + m)).
  split; [|reflexivity]. cbn [add]. apply round64_Z; [|done].
  by rewrite Hx, Hy, inject_Z_plus.
Qed.

Lemma whole_mul a b n m :
  whole a n -> whole b m -> Z.abs (n * m) < 2 ^ 53 -> whole (mul a b) (n * m).
Proof.
  intros (x & -> & Hx) (y & -> & Hy) Hnm. exists (inject_Z (n * m)).
  split; [|reflexivity]. cbn [mul]. apply round64_Z; [|done].
  by rewrite Hx, Hy, inject_Z_mult.
Qed.

Lemma whole_round x : whole (round (Finite x)) (mathRound x).
Proof. eexists. split; reflexivity. Qed.

Lemma whole_floor x : whole (floor (Finite x)) (Qfloor x).
Proof. eexists. split; reflexivity. Qed.

Lemma Qfloor_div n d : 0 < d -> Qfloor (inject_Z n / inject_Z d) = n / d.
Proof.
  intros Hd. destruct d as [|p|p]; try lia.
  unfold Qdiv, Qinv, Qmult, inject_Z, Qfloor. cbn [Qnum Qden].
  by rewrite Z.mul_1_r, Pos.mul_1_l.
Qed.

Lemma trunc_div n d : 0 < d -> trunc (inject_Z n / inject_Z d) = Z.quot n d.
Proof.
  intros Hd. unfold trunc.
  assert (Hdq : (0 < inject_Z d)%Q) by (by rewrite <- (Zlt_Qlt 0)).
  destruct (Qle_bool 0 (inject_Z n / inject_Z d)) eqn:Es.
  - apply Qle_bool_iff in Es.
    assert (Hn : 0 <= n).
    { rewrite (Zle_Qle 0). apply (Qmult_le_r _ _ (/ inject_Z d));
        [by apply Qinv_lt_0_compat|]. by rewrite Qmult_0_l. }
    rewrite Qfloor_div by done. symmetry. apply Z.quot_div_nonneg; lia.
  - assert (Hn : n < 0).
    { apply Z.lt_nge. intros Hn. assert (Qle_bool 0 (inject_Z n / inject_Z d) = true); [|congruence].
      apply Qle_bool_iff. apply Qle_shift_div_l; [done|].
      rewrite Qmult_0_l. by rewrite <- (Zle_Qle 0). }
    assert (He : (- (inject_Z n / inject_Z d) == inject_Z (- n) / inject_Z d)%Q).
    { rewrite inject_Z_opp. field. intros Hz. rewrite Hz in Hdq. by apply Qlt_irrefl in Hdq. }
    rewrite (Qfloor_comp _ _ He), Qfloor_div by done.
    rewrite <- (Z.opp_involutive n) at 2. rewrite Z.quot_opp_l by lia.
    f_equal. symmetry. apply Z.quot_div_nonneg; lia.
Qed.

Lemma trunc_comp x y : (x == y)%Q -> trunc x = trunc y.
Proof.
  intros Hxy. unfold trunc.
  assert (Hb : Qle_bool 0 x = Qle_bool 0 y).
  { apply eq_true_iff_eq. rewrite !Qle_bool_iff. by rewrite Hxy. }
  rewrite Hb. destruct (Qle_bool 0 y); [by apply Qfloor_comp|].
  f_equal. apply Qfloor_comp. by rewrite Hxy.
Qed.

Lemma whole_rem a n d : whole a n -> 0 < d -> whole (rem a d) (Z.rem n d).
Proof.
  intros (x & -> & Hx) Hd. eexists. split; [reflexivity|].
  assert (Hq : (x / inject_Z d == inject_Z n / inject_Z d)%Q) by (by rewrite Hx).
  assert (Ht : trunc (x / inject_Z d) = Z.quot n d).
  { rewrite <- (trunc_div n d Hd). by apply trunc_comp. }
  rewrite Ht, Hx. unfold Qminus. rewrite <- inject_Z_mult, <- inject_Z_opp, <- inject_Z_plus.
  apply inject_Z_injective. rewrite Z.rem_eq by lia. lia.
Qed.

(** Rounding moves a number of size below [2^n] by at most [2^(n-54)]. *)
Lemma nearest_close x n :
  (Qabs x < pow2 n)%Q -> -1021 <= n -> (Qabs (nearest x - x) <= pow2 (n - 54))%Q.
Proof.
  intros Hx Hn. destruct (Qeq_dec x 0) as [Hz|Hnz].
  { rewrite (nearest_zero x Hz).
    assert (He : (0 - x == 0)%Q) by (rewrite Hz; reflexivity).
    rewrite He. apply Qlt_le_weak, pow2_pos. }
  eapply Qle_trans; [by apply nearest_error|].
  set (k := ulpExponent (Qred x)).
  assert (Hk : k <= n - 53).
  { unfold k, ulpExponent.
    assert (Hr : ~ (Qred x == 0)%Q) by (by rewrite Qred_correct).
    destruct (binade_spec (Qred x) Hr) as [Hlo _].
    assert (Hb : binade (Qred x) < n); [|lia].
    apply pow2_lt_inv. apply Qle_lt_trans with (Qabs (Qred x)); [done|].
    by rewrite Qred_correct. }
  assert (Hh : (pow2 k * (1 # 2) == pow2 (k - 1))%Q).
  { replace (k - 1) with (k + -1) by lia. by rewrite pow2_add. }
  rewrite Hh. apply pow2_le. lia.
Qed.

Lemma nearest_small x n :
  (Qabs x < pow2 n)%Q -> -1021 <= n -> (Qabs (nearest x) < pow2 (n + 1))%Q.
Proof.
  intros Hx Hn. pose proof (nearest_close x n Hx Hn) as Hc.
  assert (Hs : (pow2 (n - 54) <= pow2 n)%Q) by (apply pow2_le; lia).
  assert (Hd : (pow2 (n + 1) == pow2 n * 2)%Q) by (by rewrite pow2_add).
  rewrite Hd.
  assert (Ht : (Qabs (nearest x) <= Qabs (nearest x - x) + Qabs x)%Q).
  { eapply Qle_trans; [|apply Qabs_triangle].
    assert (He : (nearest x - x + x == nearest x)%Q) by ring.
    rewrite He. apply Qle_refl. }
  lra.
Qed.

(** [Math.floor(t / d)] is the whole quotient, for a whole number [t] of at
    most 53 bits and a whole number [d] from 1 to 63, when the quotient is
    below [2^48]: its last place is then [2^-5] at most, and rounding
    moves it by less than [1 / d]. *)
Lemma whole_div_floor a t d :
  whole a t -> 0 <= t < 2 ^ 53 -> 0 < d < 64 -> t < 2 ^ 48 * d ->
  whole (floor (div a d)) (t / d).
Proof.
  intros (x & -> & Hx) Ht Hd Htd. cbn [div].
  assert (Hdq : (0 < inject_Z d)%Q) by (rewrite <- (Zlt_Qlt 0); lia).
  assert (Hq : (x / inject_Z d == inject_Z t / inject_Z d)%Q) by (by rewrite Hx).
  set (y := (x / inject_Z d)%Q) in *.
  assert (Hy0 : (0 <= y)%Q).
  { rewrite Hq. apply Qle_shift_div_l; [done|]. rewrite Qmult_0_l, <- (Zle_Qle 0). lia. }
  assert (Hy1 : (y <= inject_Z t)%Q).
  { rewrite Hq. apply Qle_shift_div_r; [done|].
    rewrite <- inject_Z_mult, <- Zle_Qle. nia. }
  assert (Hsize : (Qabs y < pow2 53)%Q).
  { rewrite (Qabs_pos y Hy0), (pow2_Z 53) by lia.
    apply Qle_lt_trans with (inject_Z t); [done|]. rewrite <- Zlt_Qlt. lia. }
  assert (Hfin : round64 y = Finite (nearest y)).
  { apply round64_finite. eapply Qlt_trans; [apply (nearest_small y 53); [done | lia]|].
    apply pow2_lt. lia. }
  rewrite Hfin. eexists. split; [reflexivity|]. apply inject_Z_injective.
  pose proof (Z.div_mod t d ltac:(lia)) as Hdm.
  pose proof (Z.mod_pos_bound t d ltac:(lia)) as Hr.
  set (q := t / d) in *. set (r := t mod d) in *.
  assert (Hyq : (y == inject_Z q + inject_Z r / inject_Z d)%Q).
  { rewrite Hq, Hdm, inject_Z_plus, inject_Z_mult. field.
    intros Hz. rewrite Hz in Hdq. by apply Qlt_irrefl in Hdq. }
  destruct (Z.eq_dec r 0) as [Hr0|Hr0].
  - assert (Hyz : (y == inject_Z q)%Q).
    { rewrite Hyq, Hr0. unfold Qdiv. rewrite Qmult_0_l. ring. }
    rewrite (nearest_comp _ _ Hyz), nearest_Z, Qfloor_Z; [done|].
    assert (0 <= q) by (apply Z.div_pos; lia). assert (q <= t) by (apply Z.div_le_upper_bound; nia).
    lia.
  - assert (Hc : (Qabs (nearest y - y) <= 1 # 64)%Q).
    { assert (Hsz : (Qabs y < pow2 48)%Q).
      { rewrite (Qabs_pos y Hy0), (pow2_Z 48) by lia. rewrite Hq.
        apply Qlt_shift_div_r; [done|]. rewrite <- inject_Z_mult, <- Zlt_Qlt.
        lia. }
      pose proof (nearest_close y 48 Hsz ltac:(lia)) as Hcl.
      assert (Hp : (pow2 (48 - 54) == 1 # 64)%Q) by reflexivity.
      by rewrite Hp in Hcl. }
    apply Qabs_Qle_condition in Hc.
    assert (Hlow : (inject_Z 1 / inject_Z d <= inject_Z r / inject_Z d)%Q).
    { unfold Qdiv. apply Qmult_le_r; [by apply Qinv_lt_0_compat|]. rewrite <- Zle_Qle. lia. }
    assert (Hup : (inject_Z r / inject_Z d <= inject_Z (d - 1) / inject_Z d)%Q).
    { unfold Qdiv. apply Qmult_le_r; [by apply Qinv_lt_0_compat|]. rewrite <- Zle_Qle. lia. }
    assert (H64 : (1 # 64 < inject_Z 1 / inject_Z d)%Q).
    { apply Qlt_shift_div_l; [done|].
      assert (He : ((1 # 64) * inject_Z d == inject_Z d / 64)%Q) by (field).
      rewrite He. apply Qlt_shift_div_r; [reflexivity|].
      change (inject_Z 1 * 64)%Q with (inject_Z 64). rewrite <- Zlt_Qlt. lia. }
    assert (Hd1 : (inject_Z (d - 1) / inject_Z d == 1 - inject_Z 1 / inject_Z d)%Q).
    { unfold Z.sub. rewrite inject_Z_plus, inject_Z_opp.
      change (inject_Z 1) with 1%Q. field.
      intros Hz. rewrite Hz in Hdq. by apply Qlt_irrefl in Hdq. }
    assert (Hge : (inject_Z q <= nearest y)%Q) by lra.
    assert (Hlt : (nearest y < inject_Z (q + 1))%Q).
    { rewrite inject_Z_plus. change (inject_Z 1) with 1%Q in *. lra. }
    apply Z.le_antisymm.
    + apply Z.lt_succ_r. rewrite Zlt_Qlt.
      apply Qle_lt_trans with (nearest y); [apply Qfloor_le | by rewrite <- Z.add_1_r].
    + rewrite <- (Qfloor_Z q). by apply Qfloor_resp_le.
Qed.

(** What is not negative rounds to a finite number that is not negative,
    or to the infinity above. *)
Lemma round64_nonneg x :
  (0 <= x)%Q ->
  (round64 x = Finite (nearest x)
   /\ (0 <= nearest x)%Q /\ (nearest x < pow2 1024)%Q)
  \/ round64 x = Infinity false.
Proof.
  intros Hx. pose proof (nearest_nonneg x Hx) as Hn. unfold round64. cbv zeta.
  rewrite (proj2 (Qle_bool_iff 0 (nearest x)) Hn). cbn [negb].
  destruct (Qle_bool (pow2 1024) (Qabs (nearest x))) eqn:Et; [by right|].
  left. split; [done|]. split; [done|].
  apply Qnot_le_lt. intros Hle. rewrite <- (Qabs_pos _ Hn) in Hle.
  apply Qle_bool_iff in Hle. congruence.
Qed.

Lemma round64_whole_nonneg x n :
  (x == inject_Z n)%Q -> 0 <= n ->
  (exists t, round64 x = Finite (inject_Z t) /\ 0 <= t /\ (inject_Z t < pow2 1024)%Q)
  \/ round64 x = Infinity false.
Proof.
  intros Hx Hn.
  assert (Hx0 : (0 <= x)%Q) by (rewrite Hx, <- (Zle_Qle 0); done).
  destruct (round64_nonneg x Hx0) as [(Hr & H0 & H1) | Hr]; [|by right].
  left. destruct (nearest_whole x n Hx) as [t Ht]. exists t.
  rewrite Hr, Ht. split; [done|]. rewrite Ht in H0, H1.
  split; [by rewrite (Zle_Qle 0) | done].
Qed.

Lemma roundHalfEven_ge x n : (inject_Z n <= x)%Q -> n <= roundHalfEven x.
Proof.
  intros Hx. unfold roundHalfEven.
  assert (Hf : n <= Qfloor x).
  { rewrite <- (Qfloor_Z n). by apply Qfloor_resp_le. }
  destruct (Qcompare _ _); [destruct (Z.even _)| |]; lia.
Qed.

(** A number less than a half away from a whole number rounds to it. *)
Lemma roundHalfEven_near x n : (Qabs (x - inject_Z n) < 1 # 2)%Q -> roundHalfEven x = n.
Proof.
  intros Hx. apply Qabs_Qlt_condition in Hx. destruct Hx as [Hlo Hhi].
  unfold roundHalfEven.
  pose proof (Qfloor_le x) as Hf. pose proof (Qlt_floor x) as Hc.
  rewrite inject_Z_plus in Hc. change (inject_Z 1) with 1%Q in Hc.
  assert (Hfl : Qfloor x = n - 1 \/ Qfloor x = n).
  { assert (H1 : n - 1 <= Qfloor x).
    { rewrite <- (Qfloor_Z (n - 1)). apply Qfloor_resp_le.
      unfold Z.sub. rewrite inject_Z_plus, inject_Z_opp. change (inject_Z 1) with 1%Q. lra. }
    assert (H2 : Qfloor x < n + 1).
    { rewrite Zlt_Qlt, inject_Z_plus. change (inject_Z 1) with 1%Q. lra. }
    lia. }
  destruct Hfl as [Hfl|Hfl]; rewrite Hfl in *.
  - unfold Z.sub in *. rewrite inject_Z_plus, inject_Z_opp in *.
    change (inject_Z 1) with 1%Q in *.
    destruct (Qcompare_spec (x - (inject_Z n + - (1))) (1 # 2)) as [He|Hl|Hg];
      [lra | lra | lia].
  - destruct (Qcompare_spec (x - inject_Z n) (1 # 2)) as [He|Hl|Hg]; [lra | done | lra].
Qed.

Lemma nearest_eq_whole x n : (nearest x == inject_Z n)%Q -> nearest x = inject_Z n.
Proof.
  unfold nearest. cbv zeta. destruct (Qeq_bool (Qred x) 0).
  - intros Hn. assert (n = 0) as -> by (by apply inject_Z_injective). reflexivity.
  - intros Hn. rewrite Qred_correct in Hn. by apply Qred_whole.
Qed.

(** Where the last place is a unit or less, a number less than half a
    last place away from a whole number rounds to it. *)
Lemma nearest_at x n :
  ~ (x == 0)%Q -> ulpExponent (Qred x) <= 0 ->
  (Qabs (x - inject_Z n) < pow2 (ulpExponent (Qred x) - 1))%Q ->
  nearest x = inject_Z n.
Proof.
  intros Hx Hk Hclose. apply nearest_eq_whole.
  destruct (nearest_value x Hx) as (k & Ek & Hv). rewrite Hv. rewrite <- Ek in Hk, Hclose.
  clear Ek. pose proof (pow2_pos k) as Pk.
  assert (Hp : (pow2 k == / inject_Z (2 ^ (- k)))%Q).
  { replace k with (- (- k)) at 1 by lia. rewrite pow2_opp, pow2_Z by lia. reflexivity. }
  assert (Hpos : (0 < inject_Z (2 ^ (- k)))%Q).
  { rewrite <- (Zlt_Qlt 0). apply Z.pow_pos_nonneg; lia. }
  assert (Hnz : ~ (inject_Z (2 ^ (- k)) == 0)%Q).
  { intros Hz'. rewrite Hz' in Hpos. by apply Qlt_irrefl in Hpos. }
  assert (Hr : roundHalfEven (x / pow2 k) = n * 2 ^ (- k)).
  { apply roundHalfEven_near.
    assert (He : (x / pow2 k - inject_Z (n * 2 ^ (- k))
                  == (x - inject_Z n) * inject_Z (2 ^ (- k)))%Q).
    { rewrite Hp, inject_Z_mult. by field. }
    rewrite He, Qabs_Qmult, (Qabs_pos (inject_Z (2 ^ (- k)))) by (by apply Qlt_le_weak).
    assert (Hh : (pow2 (k - 1) * inject_Z (2 ^ (- k)) == 1 # 2)%Q).
    { replace (k - 1) with (k + -1) by lia. rewrite pow2_add, Hp.
      change (pow2 (-1)) with (1 # 2)%Q. by field. }
    rewrite <- Hh. by apply Qmult_lt_r. }
  rewrite Hr, Hp, inject_Z_mult. by field.
Qed.

(** Absorption: a sum that is a whole number of [e + 1] bits but for an
    error below [2^(e-54)] rounds to that whole number. *)
Lemma nearest_absorb x n e :
  0 <= e <= 52 -> 2 ^ e <= n < 2 ^ (e + 1) ->
  (Qabs (x - inject_Z n) < pow2 (e - 54))%Q ->
  nearest x = inject_Z n.
Proof.
  intros He Hn Hclose.
  pose proof Hclose as Hc. apply Qabs_Qlt_condition in Hc. destruct Hc as [Hlo Hhi].
  assert (Hsmall : (pow2 (e - 54) < pow2 (e - 1))%Q) by (apply pow2_lt; lia).
  assert (Hone : (pow2 (e - 54) < 1)%Q).
  { change 1%Q with (pow2 0). apply pow2_lt. lia. }
  assert (Hdouble : (pow2 e == pow2 (e - 1) * 2)%Q).
  { replace e with (e - 1 + 1) at 1 by lia. by rewrite pow2_add. }
  assert (Hne : (pow2 e <= inject_Z n)%Q).
  { rewrite (pow2_Z e) by lia. rewrite <- Zle_Qle. lia. }
  assert (Hn1 : (inject_Z n + 1 <= pow2 (e + 1))%Q).
  { rewrite (pow2_Z (e + 1)) by lia. change 1%Q with (inject_Z 1).
    rewrite <- inject_Z_plus, <- Zle_Qle. lia. }
  pose proof (pow2_pos (e - 1)) as Pe.
  assert (Hxlo : (pow2 (e - 1) < x)%Q).
  { generalize dependent (pow2 (e - 1)). generalize dependent (pow2 e).
    generalize dependent (pow2 (e - 54)). intros. lra. }
  assert (Hxhi : (x < pow2 (e + 1))%Q).
  { generalize dependent (pow2 (e + 1)). generalize dependent (pow2 (e - 54)).
    intros. lra. }
  assert (Hx0 : (0 < x)%Q) by (eapply Qlt_trans; [exact Pe | exact Hxlo]).
  assert (Hx : ~ (x == 0)%Q) by (intros Hz; rewrite Hz in Hx0; by apply Qlt_irrefl in Hx0).
  assert (Hr : ~ (Qred x == 0)%Q) by (by rewrite Qred_correct).
  destruct (binade_spec (Qred x) Hr) as [Hb1 Hb2].
  assert (Ha : (Qabs (Qred x) == x)%Q).
  { rewrite (Qabs_wd _ _ (Qred_correct x)). apply Qabs_pos. by apply Qlt_le_weak. }
  rewrite Ha in Hb1, Hb2.
  assert (Hb : e - 1 <= binade (Qred x) <= e).
  { split.
    - assert (e - 1 < binade (Qred x) + 1); [|lia].
      apply pow2_lt_inv. eapply Qlt_trans; [exact Hxlo | exact Hb2].
    - assert (binade (Qred x) < e + 1); [|lia].
      apply pow2_lt_inv. eapply Qle_lt_trans; [exact Hb1 | exact Hxhi]. }
  assert (Hk : ulpExponent (Qred x) = binade (Qred x) - 52) by (unfold ulpExponent; lia).
  apply nearest_at; [done | lia |].
  eapply Qlt_le_trans; [exact Hclose|]. apply pow2_le. lia.
Qed.

(** Rounding does not go below a whole number of at most 53 bits that the
    exact value is not below. *)
Lemma nearest_ge x n :
  Z.abs n < 2 ^ 53 -> (inject_Z n <= x)%Q -> (inject_Z n <= nearest x)%Q.
Proof.
  intros Hn Hx. destruct (Qeq_dec x 0) as [Hz|Hnz].
  { rewrite (nearest_zero x Hz). by rewrite <- Hz. }
  destruct (nearest_value x Hnz) as (k & Hk & Hv). rewrite Hv.
  pose proof (pow2_pos k) as Pk.
  destruct (Z.le_gt_cases k 0) as [Hk0|Hk0].
  - assert (Hp : (pow2 k == / inject_Z (2 ^ (- k)))%Q).
    { replace k with (- (- k)) at 1 by lia. rewrite pow2_opp, pow2_Z by lia. reflexivity. }
    assert (Hpos : (0 < inject_Z (2 ^ (- k)))%Q).
    { rewrite <- (Zlt_Qlt 0). apply Z.pow_pos_nonneg; lia. }
    assert (Hnz' : ~ (inject_Z (2 ^ (- k)) == 0)%Q).
    { intros Hz'. rewrite Hz' in Hpos. by apply Qlt_irrefl in Hpos. }
    assert (Hge : n * 2 ^ (- k) <= roundHalfEven (x / pow2 k)).
    { apply roundHalfEven_ge. rewrite inject_Z_mult.
      assert (He : (x / pow2 k == x * inject_Z (2 ^ (- k)))%Q) by (rewrite Hp; by field).
      rewrite He. by apply Qmult_le_r. }
    assert (He : (inject_Z n == inject_Z (n * 2 ^ (- k)) * pow2 k)%Q).
    { rewrite Hp, inject_Z_mult. by field. }
    rewrite He. apply Qmult_le_r; [done|]. by rewrite <- Zle_Qle.
  - assert (Hr : ~ (Qred x == 0)%Q) by (by rewrite Qred_correct).
    destruct (binade_spec (Qred x) Hr) as [Hb1 _].
    rewrite (Qabs_wd _ _ (Qred_correct x)) in Hb1.
    assert (Hkb : k = binade (Qred x) - 52) by (unfold ulpExponent in Hk; lia).
    set (b := binade (Qred x)) in *.
    assert (H53 : (pow2 53 <= pow2 b)%Q) by (apply pow2_le; lia).
    assert (Hn53 : (inject_Z (Z.abs n) < pow2 53)%Q).
    { rewrite (pow2_Z 53) by lia. by rewrite <- Zlt_Qlt. }
    assert (Hxpos : (0 <= x)%Q).
    { destruct (Qlt_le_dec x 0) as [Hneg|]; [|done]. exfalso.
      rewrite (Qabs_neg x) in Hb1 by (by apply Qlt_le_weak).
      assert (Hnx : (- x <= inject_Z (Z.abs n))%Q).
      { apply Qle_trans with (- inject_Z n)%Q; [lra|].
        rewrite <- inject_Z_opp, <- Zle_Qle. lia. }
      generalize dependent (pow2 b). generalize dependent (pow2 53). intros. lra. }
    rewrite (Qabs_pos x Hxpos) in Hb1.
    assert (Hm : 2 ^ 52 <= roundHalfEven (x / pow2 k)).
    { apply roundHalfEven_ge. rewrite <- (pow2_Z 52) by lia.
      apply Qle_shift_div_l; [done|].
      assert (He : (pow2 52 * pow2 k == pow2 b)%Q).
      { rewrite <- pow2_add. replace (52 + k) with b by lia. reflexivity. }
      by rewrite He. }
    apply Qle_trans with (inject_Z (2 ^ 52) * pow2 k)%Q.
    + rewrite <- (pow2_Z 52), <- pow2_add by lia. replace (52 + k) with b by lia.
      apply Qle_trans with (inject_Z (Z.abs n)); [rewrite <- Zle_Qle; lia|].
      generalize dependent (pow2 b). generalize dependent (pow2 53). intros. lra.
    + apply Qmult_le_r; [done|]. by rewrite <- Zle_Qle.
Qed.

End Doubles.

(** The engine used where a statement needs a closed instance: every string
    that the code hands to the [Date] parser is refused. *)
Definition plainPlatform : JsPlatform :=
  {| localDateOf := fun _ => None;
     localClockOf := fun s => s;
     clockInstant := fun _ => None;
     numberToString := fun _ => "" |}.

(** The zone used where a statement needs a closed instance: universal
    time, which skips no day. *)
Definition utcZone : LocalZone :=
  {| localDay := fun n => n;
     atHour := fun h t => t / JsDate.msPerDay * JsDate.msPerDay + h * 3600000 |}.

(** A server with the given tables that answers every request. *)
Definition quietWorld (wps : list WorkPackage) (tes : list TimeEntry) : World :=
  {| work_packages := wps; time_entries := tes; next_id := 1000;
     fault_script := []; requests := []; console := [] |}.

(** The same server, with the next requests failing as [faults] says. *)
Definition faultyWorld (wps : list WorkPackage) (tes : list TimeEntry)
    (faults : list (option string)) : World :=
  {| work_packages := wps; time_entries := tes; next_id := 1000;
     fault_script := faults; requests := []; console := [] |}.

Definition mkWorkPackage (id : Z) (projectId : Z) (subject : string) : WorkPackage :=
  {| wp_id := id; wp_subject := Some subject; wp_project := projectId;
     wp_status := 7; wp_description := "" |}.

(** ** The duplicate lookup *)

Section Lookup.

Import ApiClient.

Definition subjectKey (wp : WorkPackage) : string :=
  normalize (default "" (wp_subject wp)).

Lemma findMatching_Some wps q wp :
  findMatchingWorkPackage wps q = Some wp -> wp ∈ wps /\ subjectKey wp = q.
Proof.
  induction wps as [|x wps IH]; simpl; [discriminate|].
  destruct (String.eqb_spec (normalize (default "" (wp_subject x))) q) as [E|E].
  - intros [= <-]. split; [left | exact E].
  - intros Hf. destruct (IH Hf) as [Hin Hk]. split; [by right | done].
Qed.

Lemma findMatching_None wps q :
  findMatchingWorkPackage wps q = None <-> Forall (fun wp => subjectKey wp <> q) wps.
Proof.
  induction wps as [|x wps IH]; simpl.
  - split; [constructor | done].
  - destruct (String.eqb_spec (normalize (default "" (wp_subject x))) q) as [E|E].
    + split; [discriminate|]. intros Hall. inversion Hall; subst. done.
    + rewrite IH. split; [by constructor | by inversion 1].
Qed.

Lemma findMatching_app l1 l2 q :
  findMatchingWorkPackage (l1 ++ l2) q =
  match findMatchingWorkPackage l1 q with
  | Some wp => Some wp
  | None => findMatchingWorkPackage l2 q
  end.
Proof.
  induction l1 as [|x l1 IH]; simpl; [done|].
  destruct (String.eqb _ q); [done | exact IH].
Qed.

(** The work package found is the first of the list with that key. *)
Lemma findMatching_first wps q wp :
  findMatchingWorkPackage wps q = Some wp ->
  exists before after,
    wps = before ++ wp :: after /\ Forall (fun x => subjectKey x <> q) before.
Proof.
  induction wps as [|x wps IH]; simpl; [discriminate|].
  destruct (String.eqb_spec (normalize (default "" (wp_subject x))) q) as [E|E].
  - intros [= <-]. exists [], wps. split; [done | constructor].
  - intros Hf. destruct (IH Hf) as (b & a & -> & Hb).
    exists (x :: b), a. split; [done | by constructor].
Qed.

Lemma findMatching_is_Some wps q :
  is_Some (findMatchingWorkPackage wps q) <-> exists wp, wp ∈ wps /\ subjectKey wp = q.
Proof.
  split.
  - intros [wp Hwp]. exists wp. by apply findMatching_Some.
  - intros (wp & Hin & Hk).
    destruct (findMatchingWorkPackage wps q) eqn:E; [done|].
    apply findMatching_None in E. rewrite Forall_forall in E.
    by destruct (E wp Hin).
Qed.

(** What a run of the page loop leaves behind: [k] page requests with
    consecutive offsets from [off], [k] entries of the fault script used
    up, and nothing else touched. *)
Definition lookupFrame (p : Z) (off k : nat) (w w' : World) : Prop :=
  requests w' = requests w ++ map (fun i => GetWorkPackages (Some p) i pageSize) (seq off k)
  /\ work_packages w' = work_packages w
  /\ time_entries w' = time_entries w
  /\ next_id w' = next_id w
  /\ console w' = console w
  /\ fault_script w' = drop k (fault_script w).

Lemma fetch_page_cases p off w :
  (exists msg, fault_script w !! 0%nat = Some (Some msg)
     /\ fetchWorkPackagesPage (Some p) off pageSize w
        = (Throw msg, setFaults (drop 1 (fault_script w))
                                (logRequest (GetWorkPackages (Some p) off pageSize) w)))
  \/ ((fault_script w !! 0%nat = Some None \/ fault_script w = [])
      /\ fetchWorkPackagesPage (Some p) off pageSize w
         = (Ok (Some (pageOf off pageSize (projectWorkPackages p w))),
            setFaults (drop 1 (fault_script w))
                      (logRequest (GetWorkPackages (Some p) off pageSize) w))).
Proof.
  unfold fetchWorkPackagesPage, makeRequest. simpl.
  destruct (fault_script w) as [|[msg|] rest] eqn:E; simpl.
  - right. split; [by right|]. unfold serveWorkPackages, setFaults, logRequest; simpl.
    by rewrite E.
  - left. exists msg. split; [done|]. by rewrite drop_0.
  - right. split; [by left|]. by rewrite drop_0.
Qed.

End Lookup.

Section PageLoop.

Import ApiClient.

Variables (p : Z) (q : string).

Lemma pageOf_split off (l : list WorkPackage) :
  (1 <= off)%nat ->
  drop ((off - 1) * pageSize) l = pageOf off pageSize l ++ drop (off * pageSize) l.
Proof.
  intros Hoff. unfold pageOf.
  rewrite <- (take_drop pageSize (drop ((off - 1) * pageSize) l)) at 1.
  f_equal. rewrite drop_drop. f_equal. unfold pageSize. lia.
Qed.

Lemma pageOf_length off (l : list WorkPackage) :
  length (pageOf off pageSize l) = (pageSize `min` (length l - (off - 1) * pageSize))%nat.
Proof. unfold pageOf. by rewrite length_take, length_drop. Qed.

Lemma frame_project (w w' : World) :
  work_packages w' = work_packages w -> projectWorkPackages p w' = projectWorkPackages p w.
Proof. unfold projectWorkPackages. by intros ->. Qed.

(** The page loop, given fuel for one page more than the project fills:
    it comes to an end after [k] requests, the last of them for a page that
    begins inside the list, and it answers with the first exact match from
    its first page on unless a request failed. *)
Lemma pageLoop_run fuel : forall off w,
  (1 <= off)%nat ->
  ((off - 1) * pageSize <= length (projectWorkPackages p w))%nat ->
  (length (projectWorkPackages p w) / pageSize + 1 < fuel + off)%nat ->
  exists k r w',
    pageLoop fuel (Some p) q off w = Some (r, w')
    /\ (1 <= k)%nat
    /\ ((off + k - 2) * pageSize <= length (projectWorkPackages p w))%nat
    /\ lookupFrame p off k w w'
    /\ (forall j, (off <= j < off + k - 1)%nat ->
          length (pageOf j pageSize (projectWorkPackages p w)) = pageSize
          /\ findMatchingWorkPackage (pageOf j pageSize (projectWorkPackages p w)) q = None)
    /\ match r with
       | Throw msg => fault_script w !! (k - 1)%nat = Some (Some msg)
       | Ok res =>
           res = findMatchingWorkPackage
                   (drop ((off - 1) * pageSize) (projectWorkPackages p w)) q
           /\ match res with
              | Some wp =>
                  findMatchingWorkPackage
                    (pageOf (off + k - 1) pageSize (projectWorkPackages p w)) q = Some wp
              | None =>
                  (length (pageOf (off + k - 1) pageSize (projectWorkPackages p w))
                   < pageSize)%nat
              end
       end.
Proof.
  induction fuel as [|fuel IH]; intros off w Hoff Hin Hfuel.
  - exfalso. unfold pageSize in *.
    assert (off - 1 <= length (projectWorkPackages p w) / 100)%nat
      by (apply Nat.div_le_lower_bound; lia).
    lia.
  - set (l := projectWorkPackages p w) in *.
    simpl pageLoop.
    destruct (fetch_page_cases p off w) as [(msg & Hf & ->) | (Hf & ->)].
    + (* the request fails *)
      exists 1%nat, (Throw msg), (setFaults (drop 1 (fault_script w))
                       (logRequest (GetWorkPackages (Some p) off pageSize) w)).
      repeat split; simpl; try done; try (intros; lia).
    + fold l.
      set (w1 := setFaults (drop 1 (fault_script w))
                   (logRequest (GetWorkPackages (Some p) off pageSize) w)).
      assert (Hframe1 : lookupFrame p off 1 w w1) by (repeat split; done).
      assert (Hlast : ((off + 1 - 2) * pageSize <= length l)%nat)
        by (replace (off + 1 - 2)%nat with (off - 1)%nat by lia; done).
      assert (Hsplit := pageOf_split off l Hoff).
      assert (Hlen := pageOf_length off l).
      replace (off + 1 - 1)%nat with off in * by lia.
      destruct (Nat.eqb_spec (length (pageOf off pageSize l)) 0) as [E0|E0].
      { (* an empty page *)
        exists 1%nat, (Ok None), w1. repeat split; try done; try (intros; lia).
        - assert (length l <= off * pageSize)%nat
            by (rewrite E0 in Hlen; unfold pageSize in *; lia).
          apply nil_length_inv in E0. rewrite Hsplit, E0. simpl.
          symmetry. apply findMatching_None.
          rewrite drop_ge; [constructor | done].
        - replace (off + 1 - 1)%nat with off by lia. rewrite E0. unfold pageSize. lia. }
      destruct (findMatchingWorkPackage (pageOf off pageSize l) q) as [found|] eqn:Efind.
      { (* a match on this page *)
        exists 1%nat, (Ok (Some found)), w1. repeat split; try done; try (intros; lia).
        - rewrite Hsplit, findMatching_app, Efind. done.
        - replace (off + 1 - 1)%nat with off by lia. done. }
      unfold shouldFetchNextPage.
      destruct (Nat.ltb_spec (length (pageOf off pageSize l)) pageSize) as [Hshort|Hfull].
      { (* a short page: the last one *)
        exists 1%nat, (Ok None), w1. repeat split; try done; try (intros; lia).
        - rewrite Hsplit, findMatching_app, Efind.
          rewrite drop_ge; [done|]. unfold pageSize in *. lia.
        - replace (off + 1 - 1)%nat with off by lia. done. }
      (* a full page without a match: on to the next *)
      assert (Hl1 : projectWorkPackages p w1 = l) by (by apply frame_project).
      destruct (IH (off + 1)%nat w1)
        as (k & r & w' & Hrun & Hk & Hlastk & Hfr & Hearly & Hres).
      { lia. }
      { rewrite Hl1. unfold pageSize in *. lia. }
      { rewrite Hl1. lia. }
      rewrite Hl1 in *.
      exists (S k), r, w'. split; [exact Hrun|]. split; [lia|].
      split. { replace (off + S k - 2)%nat with (off + 1 + k - 2)%nat by lia. done. }
      split.
      { destruct Hfr as (Hr & Hw & Ht & Hn & Hc & Hfs).
        repeat split; try (etrans; [eassumption|done]).
        - rewrite Hr. simpl. rewrite <- app_assoc. simpl.
          by replace (off + 1)%nat with (S off) by lia.
        - rewrite Hfs. simpl. by rewrite drop_drop. }
      split.
      { intros j Hj. destruct (decide (j = off)) as [->|Hne].
        - split; [|exact Efind]. rewrite Hlen in *. unfold pageSize in *. lia.
        - apply Hearly. lia. }
      destruct r as [res|msg].
      * destruct Hres as [-> Hstop]. split.
        -- rewrite Hsplit, findMatching_app, Efind.
           by replace (off + 1 - 1)%nat with off by lia.
        -- by replace (off + S k - 1)%nat with (off + 1 + k - 1)%nat by lia.
      * simpl in Hres. rewrite lookup_drop in Hres.
        by replace (S k - 1)%nat with (1 + (k - 1))%nat by lia.
Qed.

End PageLoop.

Section CheckExisting.

Import ApiClient.

(** More fuel than the loop needs changes nothing. *)
Lemma pageLoop_more_fuel fuel : forall pid q off w x,
  pageLoop fuel pid q off w = Some x -> pageLoop (S fuel) pid q off w = Some x.
Proof.
  induction fuel as [|fuel IH]; intros pid q off w x; [discriminate|].
  intros Hrun. simpl in Hrun. simpl.
  destruct (fetchWorkPackagesPage pid off pageSize w) as [[[page|]|msg] w1]; try done.
  destruct (length page =? 0)%nat; [done|].
  destruct (findMatchingWorkPackage page q); [done|].
  destruct (shouldFetchNextPage pid off pageSize (length page)); [|done].
  apply IH in Hrun. exact Hrun.
Qed.

Lemma pageLoop_fuel_le fuel fuel' pid q off w x :
  (fuel <= fuel')%nat ->
  pageLoop fuel pid q off w = Some x -> pageLoop fuel' pid q off w = Some x.
Proof.
  induction 1 as [|fuel' Hle IH]; [done|].
  intros Hrun. apply pageLoop_more_fuel. by apply IH.
Qed.

(** The loop of a lookup in project [p], run with the fuel of
    [checkExistingWorkPackageBySubject]. *)
Lemma lookup_run p subject w :
  exists k r w',
    pageLoop (lookupFuel (Some p) w) (Some p) (normalize subject) 1 w = Some (r, w')
    /\ (1 <= k)%nat
    /\ ((k - 1) * pageSize <= length (projectWorkPackages p w))%nat
    /\ lookupFrame p 1 k w w'
    /\ (forall j, (1 <= j < k)%nat ->
          length (pageOf j pageSize (projectWorkPackages p w)) = pageSize
          /\ findMatchingWorkPackage (pageOf j pageSize (projectWorkPackages p w))
                                     (normalize subject) = None)
    /\ match r with
       | Throw msg => fault_script w !! (k - 1)%nat = Some (Some msg)
       | Ok res =>
           res = findMatchingWorkPackage (projectWorkPackages p w) (normalize subject)
           /\ match res with
              | Some wp =>
                  findMatchingWorkPackage (pageOf k pageSize (projectWorkPackages p w))
                                          (normalize subject) = Some wp
              | None => (length (pageOf k pageSize (projectWorkPackages p w)) < pageSize)%nat
              end
       end.
Proof.
  destruct (pageLoop_run p (normalize subject) (lookupFuel (Some p) w) 1 w)
    as (k & r & w' & Hrun & Hk & Hlast & Hfr & Hearly & Hres).
  { lia. }
  { simpl. lia. }
  { unfold lookupFuel. lia. }
  exists k, r, w'. split; [exact Hrun|]. split; [exact Hk|].
  split. { by replace (k - 1)%nat with (1 + k - 2)%nat by lia. }
  split; [exact Hfr|].
  split. { intros j Hj. apply Hearly. lia. }
  replace (1 + k - 1)%nat with k in Hres by lia.
  destruct r as [res|msg]; [|exact Hres].
  simpl in Hres. rewrite drop_0 in Hres. exact Hres.
Qed.

(** The lookup is answered when its loop is left without an exception,
    that is, when none of its page requests fails. *)
Definition lookupAnswered (pid : option Z) (subject : string) (w : World) : Prop :=
  forall msg w1,
    pageLoop (lookupFuel pid w) pid (normalize subject) 1 w <> Some (Throw msg, w1).

Lemma quiet_lookupAnswered p subject w :
  fault_script w = [] -> lookupAnswered (Some p) subject w.
Proof.
  intros Hq msg w1 Hrun.
  destruct (lookup_run p subject w) as (k & r & w' & Hrun' & _ & _ & _ & _ & Hres).
  rewrite Hrun in Hrun'. injection Hrun' as <- <-.
  simpl in Hres. rewrite Hq in Hres. by rewrite lookup_nil in Hres.
Qed.

(** An answered lookup gives the first exact match of the whole project,
    after page requests only. *)
Lemma checkExisting_answered p subject w :
  lookupAnswered (Some p) subject w ->
  exists k w',
    checkExistingWorkPackageBySubject (Some p) subject w
    = (Ok (findMatchingWorkPackage (projectWorkPackages p w) (normalize subject)), w')
    /\ lookupFrame p 1 k w w'.
Proof.
  intros Hans.
  destruct (lookup_run p subject w) as (k & r & w' & Hrun & _ & _ & Hfr & _ & Hres).
  destruct r as [res|msg]; [|by destruct (Hans msg w')].
  destruct Hres as [-> _]. exists k, w'. split; [|exact Hfr].
  unfold checkExistingWorkPackageBySubject, checkExistingWorkPackageBySubjectFuel.
  by rewrite Hrun.
Qed.

(** A lookup that is not answered gives [null] and leaves a warning. *)
Lemma checkExisting_failed p subject w :
  ~ lookupAnswered (Some p) subject w ->
  exists k msg w',
    checkExistingWorkPackageBySubject (Some p) subject w = (Ok None, w')
    /\ requests w' = requests w
                     ++ map (fun i => GetWorkPackages (Some p) i pageSize) (seq 1 k)
    /\ work_packages w' = work_packages w
    /\ time_entries w' = time_entries w
    /\ next_id w' = next_id w
    /\ fault_script w' = drop k (fault_script w)
    /\ console w' = console w ++ [("Could not check existing work packages: " ++ msg)%string].
Proof.
  intros Hans.
  destruct (lookup_run p subject w) as (k & r & w' & Hrun & _ & _ & Hfr & _ & Hres).
  destruct r as [res|msg].
  { exfalso. apply Hans. intros msg w1 Hrun'. rewrite Hrun in Hrun'. discriminate. }
  destruct Hfr as (Hr & Hw & Ht & Hn & Hc & Hfs).
  eexists k, msg, _. split.
  - unfold checkExistingWorkPackageBySubject, checkExistingWorkPackageBySubjectFuel.
    rewrite Hrun. reflexivity.
  - simpl. rewrite Hc. repeat split; done.
Qed.

(** Whatever the lookup returns is a work package of the project whose
    key is the key asked for. *)
Lemma checkExisting_sound pid subject w wp w' :
  checkExistingWorkPackageBySubject pid subject w = (Ok (Some wp), w') ->
  subjectKey wp = normalize subject
  /\ exists p, pid = Some p /\ wp ∈ projectWorkPackages p w.
Proof.
  destruct pid as [p|].
  - destruct (lookup_run p subject w) as (k & r & w1 & Hrun & _ & _ & _ & _ & Hres).
    unfold checkExistingWorkPackageBySubject, checkExistingWorkPackageBySubjectFuel.
    rewrite Hrun. destruct r as [res|msg]; [|discriminate].
    intros [= -> <-]. destruct Hres as [Hres _]. symmetry in Hres.
    apply findMatching_Some in Hres as [Hin Hkey]. eauto.
  - unfold checkExistingWorkPackageBySubject, checkExistingWorkPackageBySubjectFuel.
    simpl. unfold fetchWorkPackagesPage, makeRequest, serveWorkPackages. simpl.
    destruct (fault_script w) as [|[msg|] rest]; discriminate.
Qed.

End CheckExisting.

Section LookupClaims.

Import ApiClient.

Example lookup_example :
  fst (checkExistingWorkPackageBySubject (Some 7) "Fix Login Bug "
         (quietWorld [mkWorkPackage 1 7 "Login"; mkWorkPackage 2 7 "fix login bug"] []))
  = Ok (Some (mkWorkPackage 2 7 "fix login bug")).
Proof. reflexivity. Qed.

(** C1.  The duplicate lookup matches on exact equality of the trimmed,
    lower-cased subjects and on nothing else.
    - [findMatchingWorkPackage] returns only a work package of the list
      whose key equals the normalised subject, and returns one exactly
      when the list holds such a work package;
    - whatever [checkExistingWorkPackageBySubject] returns, on any server
      and with any faults, is a work package of the project whose key
      equals the key of the subject asked for: a subject that only
      contains the other, or is contained in it, is never returned;
    - when the lookup's page requests are answered, the lookup returns the
      first exact match of the project's work packages, and [null] when
      there is none. *)
Theorem duplicate_lookup_exact_match :
  (forall wps q wp,
      findMatchingWorkPackage wps q = Some wp -> wp ∈ wps /\ subjectKey wp = q)
  /\ (forall wps q,
        is_Some (findMatchingWorkPackage wps q)
        <-> exists wp, wp ∈ wps /\ subjectKey wp = q)
  /\ (forall pid subject w wp w',
        checkExistingWorkPackageBySubject pid subject w = (Ok (Some wp), w') ->
        subjectKey wp = normalize subject
        /\ exists p, pid = Some p /\ wp ∈ projectWorkPackages p w)
  /\ (forall p subject w,
        lookupAnswered (Some p) subject w ->
        (forall wp,
            fst (checkExistingWorkPackageBySubject (Some p) subject w) = Ok (Some wp)
            <-> findMatchingWorkPackage (projectWorkPackages p w) (normalize subject)
                = Some wp)
        /\ (fst (checkExistingWorkPackageBySubject (Some p) subject w) = Ok None
            <-> Forall (fun wp => subjectKey wp <> normalize subject)
                       (projectWorkPackages p w))).
Proof.
  split; [exact findMatching_Some|].
  split; [exact findMatching_is_Some|].
  split; [exact checkExisting_sound|].
  intros p subject w Hans.
  destruct (checkExisting_answered p subject w Hans) as (k & w' & -> & _). simpl.
  split.
  - intros wp. split; [by intros [= ->] | by intros ->].
  - rewrite <- findMatching_None. split; [by intros [= ->] | by intros ->].
Qed.

Lemma duplicate_lookup_exact_match_witness :
  let w := quietWorld [mkWorkPackage 1 7 "Login"; mkWorkPackage 2 7 "fix login bug"] [] in
  lookupAnswered (Some 7) "Fix Login Bug " w
  /\ fst (checkExistingWorkPackageBySubject (Some 7) "Fix Login Bug " w)
     = Ok (Some (mkWorkPackage 2 7 "fix login bug")).
Proof.
  intros w.
  assert (Hans : lookupAnswered (Some 7) "Fix Login Bug " w).
  { intros msg w1. vm_compute. discriminate. }
  split; [exact Hans|].
  apply (proj1 (proj2 (proj2 (proj2 duplicate_lookup_exact_match)) 7 "Fix Login Bug " w Hans)).
  vm_compute. reflexivity.
Defined.

(** A subject that contains the one asked for is passed over. *)
Example substring_is_no_match :
  fst (checkExistingWorkPackageBySubject (Some 7) "login"
         (quietWorld [mkWorkPackage 1 7 "Fix login bug"; mkWorkPackage 2 7 "log"] []))
  = Ok None.
Proof. reflexivity. Qed.


Example lookup_pagination_example :
  requests (snd (checkExistingWorkPackageBySubject (Some 7) "x"
                   (quietWorld (replicate 200 (mkWorkPackage 1 7 "y")) [])))
  = [GetWorkPackages (Some 7) 1 100; GetWorkPackages (Some 7) 2 100;
     GetWorkPackages (Some 7) 3 100].
Proof. vm_compute. reflexivity. Qed.

End LookupClaims.

(** ** Date tokens *)

Section Calendar.

Import JsDate.

Lemma dayFromYear_step y :
  dayFromYear (y + 1) = dayFromYear y + (if isLeapYear y then 366 else 365).
Proof.
  unfold dayFromYear, isLeapYear.
  destruct (Z.eqb_spec (y mod 4) 0); destruct (Z.eqb_spec (y mod 100) 0);
    destruct (Z.eqb_spec (y mod 400) 0); simpl;
    Z.div_mod_to_equations; lia.
Qed.

(** A day of year [y] is read back as a day of year [y]. *)
Lemma yearFromDay_in y d :
  dayFromYear y <= d < dayFromYear (y + 1) -> yearFromDay d = y.
Proof.
  intros H. unfold yearFromDay.
  assert (Hs := dayFromYear_step y).
  assert (Hs1 := dayFromYear_step (y - 1)). replace (y - 1 + 1) with y in Hs1 by lia.
  assert (Hs2 := dayFromYear_step (y + 1)).
  assert (Hb : y - 1 <= 1970 + d * 400 / 146097 <= y + 1).
  { destruct H as [H1 H2]. rewrite Hs in H2.
    assert (dayFromYear y + (if isLeapYear y then 366 else 365) <= dayFromYear y + 366)
      by (destruct (isLeapYear y); lia).
    unfold dayFromYear in *. Z.div_mod_to_equations. lia. }
  set (y0 := 1970 + d * 400 / 146097) in *.
  assert (Hc : y0 = y - 1 \/ y0 = y \/ y0 = y + 1) by lia.
  destruct (isLeapYear y), (isLeapYear (y - 1)), (isLeapYear (y + 1));
    destruct Hc as [-> | [-> | ->]];
    repeat match goal with
           | |- context [Z.ltb ?a ?b] => destruct (Z.ltb_spec a b)
           | |- context [Z.leb ?a ?b] => destruct (Z.leb_spec a b)
           end;
    replace (y - 1 + 1) with y in * by lia; lia.
Qed.

Lemma makeDay_in_year y m d :
  0 <= m <= 11 -> 1 <= d <= 31 ->
  dayFromYear y <= makeDay y m d < dayFromYear (y + 1).
Proof.
  intros Hm Hd. unfold makeDay.
  replace (m / 12) with 0 by (Z.div_mod_to_equations; lia).
  replace (m mod 12) with m by (Z.div_mod_to_equations; lia).
  replace (y + 0) with y by lia.
  rewrite dayFromYear_step.
  assert (Hc : m = 0 \/ m = 1 \/ m = 2 \/ m = 3 \/ m = 4 \/ m = 5 \/ m = 6 \/ m = 7
               \/ m = 8 \/ m = 9 \/ m = 10 \/ m = 11) by lia.
  destruct (isLeapYear y);
    repeat (destruct Hc as [-> | Hc]); try subst m; simpl; lia.
Qed.

Lemma february_days y : daysInMonth y 2 = if isLeapYear y then 29 else 28.
Proof.
  unfold isLeapYear, daysInMonth.
  destruct (y mod 4 =? 0), (y mod 100 =? 0), (y mod 400 =? 0); reflexivity.
Qed.

Ltac prune := cbn [monthStart] in *; first [ lia | exfalso; lia | idtac ].

(** The round trip through [Date]: day [d] of month [m] (1 = January) of
    year [y] comes back unchanged exactly when the month has that day. *)
Lemma round_trip_days y m0 m d :
  m = m0 + 1 -> 1 <= m <= 12 -> 1 <= d <= 31 ->
  (yearFromDay (makeDay y m0 d) =? y) && (monthFromDay (makeDay y m0 d) =? m0)
  && (dateFromDay (makeDay y m0 d) =? d)
  = (d <=? daysInMonth y m).
Proof.
  intros Hmm Hm Hd.
  assert (Hy : yearFromDay (makeDay y m0 d) = y)
    by (apply yearFromDay_in, makeDay_in_year; lia).
  unfold dateFromDay, monthFromDay, dayWithinYear. rewrite Hy, Z.eqb_refl. simpl andb.
  unfold makeDay.
  replace (m0 / 12) with 0 by (Z.div_mod_to_equations; lia).
  replace (m0 mod 12) with m0 by (Z.div_mod_to_equations; lia).
  replace (y + 0) with y by lia.
  assert (Hc : m0 = 0 \/ m0 = 1 \/ m0 = 2 \/ m0 = 3 \/ m0 = 4 \/ m0 = 5 \/ m0 = 6
               \/ m0 = 7 \/ m0 = 8 \/ m0 = 9 \/ m0 = 10 \/ m0 = 11) by lia.
  clear Hm Hy.
  repeat (destruct Hc as [-> | Hc]); try subst m0; compute in Hmm; subst m;
    try rewrite february_days;
    destruct (isLeapYear y); cbn [monthStart daysInMonth];
    repeat (match goal with
            | |- context [Z.ltb ?a ?b] => destruct (Z.ltb_spec a b); prune
            end);
    repeat (match goal with
            | |- context [Z.eqb ?a ?b] => destruct (Z.eqb_spec a b); prune
            | |- context [Z.leb ?a ?b] => destruct (Z.leb_spec a b); prune
            end);
    try reflexivity.
Qed.

(** Every day lies in the year it is read as. *)
Lemma yearFromDay_spec k :
  dayFromYear (yearFromDay k) <= k < dayFromYear (yearFromDay k + 1).
Proof.
  unfold yearFromDay.
  set (y0 := 1970 + k * 400 / 146097).
  assert (Hb : dayFromYear (y0 - 1) <= k < dayFromYear (y0 + 2)).
  { subst y0. unfold dayFromYear.
    set (q := k * 400 / 146097).
    assert (Hq : 146097 * q <= k * 400 < 146097 * q + 146097).
    { subst q. Z.div_mod_to_equations. lia. }
    clearbody q.
    assert (Hdiv : forall x d, 0 < d -> d * (x / d) <= x < d * (x / d) + d).
    { intros x d Hd. pose proof (Z.mul_div_le x d Hd).
      pose proof (Z.mul_succ_div_gt x d Hd). lia. }
    pose proof (Hdiv (1970 + q - 1 - 1969) 4 ltac:(lia)).
    pose proof (Hdiv (1970 + q - 1 - 1901) 100 ltac:(lia)).
    pose proof (Hdiv (1970 + q - 1 - 1601) 400 ltac:(lia)).
    pose proof (Hdiv (1970 + q + 2 - 1969) 4 ltac:(lia)).
    pose proof (Hdiv (1970 + q + 2 - 1901) 100 ltac:(lia)).
    pose proof (Hdiv (1970 + q + 2 - 1601) 400 ltac:(lia)).
    clear Hdiv.
    generalize dependent ((1970 + q - 1 - 1969) / 4).
    generalize dependent ((1970 + q - 1 - 1901) / 100).
    generalize dependent ((1970 + q - 1 - 1601) / 400).
    generalize dependent ((1970 + q + 2 - 1969) / 4).
    generalize dependent ((1970 + q + 2 - 1901) / 100).
    generalize dependent ((1970 + q + 2 - 1601) / 400).
    intros. lia. }
  destruct (Z.ltb_spec k (dayFromYear y0)).
  - replace (y0 - 1 + 1) with y0 by lia. lia.
  - destruct (Z.leb_spec (dayFromYear (y0 + 1)) k).
    + replace (y0 + 1 + 1) with (y0 + 2) by lia. lia.
    + lia.
Qed.

(** Whatever day a date stands for, its month and its day of the month,
    read back, form a date of the calendar. *)
Lemma fields_real k :
  0 <= monthFromDay k <= 11
  /\ 1 <= dateFromDay k <= daysInMonth (yearFromDay k) (monthFromDay k + 1).
Proof.
  assert (Hy := yearFromDay_spec k). rewrite dayFromYear_step in Hy.
  unfold dateFromDay, monthFromDay, dayWithinYear.
  set (y := yearFromDay k) in *. set (j := k - dayFromYear y).
  assert (Hj : 0 <= j < (if isLeapYear y then 366 else 365)) by (subst j; lia).
  clearbody j. clear Hy.
  destruct (isLeapYear y) eqn:El; cbn [monthStart] in *;
    repeat (match goal with
            | |- context [Z.ltb ?a ?b] => destruct (Z.ltb_spec a b)
            end; cbn [monthStart Z.add Pos.add Pos.succ] in *);
    match goal with
    | |- context [daysInMonth y (?a + 1)] =>
        let v := eval vm_compute in (a + 1) in change (a + 1) with v
    end;
    try (rewrite february_days, El); cbn [daysInMonth]; lia.
Qed.
End Calendar.

Section DateTokens.

Import Parser.

Context `{LocalZone}.

(** A date of the calendar within the years the parser admits. *)
Definition realCalendarDate (y m d : Z) : Prop :=
  1900 <= y <= 3000 /\ 1 <= m <= 12 /\ 1 <= d <= daysInMonth y m.

(** Year, month and day that a token names: the digits of its year and
    day, and the month its first part stands for in the table of month
    names; [None] when the token is not of the form month-day-year or its
    first part is no month name. *)
Definition tokenComponents (dateStr : string) : option (Z * Z * Z) :=
  match matchDatePattern (JsString.toLowerCase dateStr) with
  | Some (monthStr, day, year) =>
      match JsString.parseInt year, assoc (JsString.toLowerCase monthStr) monthNames,
            JsString.parseInt day with
      | Some y, Some m, Some d => Some (y, m, d)
      | _, _, _ => None
      end
  | None => None
  end.

Lemma daysInMonth_le y m : daysInMonth y m <= 31.
Proof.
  unfold daysInMonth. destruct m as [|p|p]; [lia| |lia].
  do 4 (try destruct p as [p|p|]); try destruct (_ || _); lia.
Qed.

Lemma monthNames_range key n : assoc key monthNames = Some n -> 1 <= n <= 12.
Proof.
  unfold monthNames. cbn [assoc].
  repeat (destruct (String.eqb _ key); [intros [= <-]; lia|]).
  intros; discriminate.
Qed.

(** Year, month and day come back from the date built of them. *)
Definition comesBack (y m d : Z) : bool :=
  let n := localDay (JsDate.makeDay y (m - 1) d) in
  (JsDate.yearFromDay n =? y) && (JsDate.monthFromDay n =? m - 1)
  && (JsDate.dateFromDay n =? d).

Lemma validateActualDate_spec y m d monthStr day year :
  1900 <= y <= 3000 ->
  validateActualDate (Some y) (Some m) (Some d) monthStr day year
  = if comesBack y m d then Ok tt
    else Throw ("Invalid date: " ++ monthStr ++ "-" ++ day ++ "-" ++ year)%string.
Proof.
  intros Hy. unfold validateActualDate, comesBack. simpl.
  replace ((0 <=? y) && (y <=? 99)) with false by (symmetry; apply andb_false_iff; lia).
  reflexivity.
Qed.

(** In every zone: what comes back is a date of the calendar. *)
Lemma comesBack_real y m d : comesBack y m d = true -> 1 <= d <= daysInMonth y m.
Proof.
  unfold comesBack. rewrite !andb_true_iff. intros [[Hy Hm] Hd].
  apply Z.eqb_eq in Hy, Hm, Hd.
  destruct (fields_real (localDay (JsDate.makeDay y (m - 1) d))) as [_ Hreal].
  rewrite Hy, Hm, Hd in Hreal. by replace (m - 1 + 1) with m in Hreal by lia.
Qed.

(** In a zone that did not skip the day: a date of the calendar comes
    back. *)
Lemma comesBack_here y m d :
  1 <= m <= 12 -> 1 <= d <= 31 ->
  localDay (JsDate.makeDay y (m - 1) d) = JsDate.makeDay y (m - 1) d ->
  comesBack y m d = (d <=? daysInMonth y m).
Proof.
  intros Hm Hd Hzone. unfold comesBack. rewrite Hzone.
  apply (round_trip_days y (m - 1) m d); lia.
Qed.

Local Opaque JsDate.yearFromDay JsDate.monthFromDay JsDate.dateFromDay JsDate.makeDay
  comesBack.

(** What [parseDateString] does, token by token: a canonical date for a
    token that names a date of the calendar which comes back from [Date],
    an error for every other. *)
Lemma parseDateString_spec dateStr :
  match parseDateString dateStr with
  | Ok canonical =>
      exists y m d,
        tokenComponents dateStr = Some (y, m, d) /\ realCalendarDate y m d
        /\ canonical = ApiClient.formatLocalDate (Some (y, m, d))
  | Throw _ =>
      forall y m d, tokenComponents dateStr = Some (y, m, d) ->
                    realCalendarDate y m d -> comesBack y m d = false
  end.
Proof.
  unfold parseDateString, tokenComponents.
  destruct (matchDatePattern (JsString.toLowerCase dateStr)) as [[[monthStr day] year]|];
    [|discriminate].
  unfold lookupMonth.
  destruct (assoc (JsString.toLowerCase monthStr) monthNames) as [n|] eqn:Emonth.
  - assert (Hn := monthNames_range _ _ Emonth).
    unfold buildDateString, validateDateComponents. simpl monthNumOf.
    destruct (JsString.parseInt year) as [y|], (JsString.parseInt day) as [d|]; simpl;
      try (repeat match goal with
                  | |- context [if ?b then _ else _] => destruct b; simpl
                  end;
           intros; discriminate).
    destruct (Z.ltb_spec y 1900); simpl.
    { intros ? ? ? [= <- <- <-] (? & _). lia. }
    destruct (Z.ltb_spec 3000 y); simpl.
    { intros ? ? ? [= <- <- <-] (? & _). lia. }
    destruct (Z.ltb_spec n 1); [lia|]. destruct (Z.ltb_spec 12 n); [lia|]. simpl.
    destruct (Z.ltb_spec d 1); simpl.
    { intros ? ? ? [= <- <- <-] (_ & _ & ?). lia. }
    destruct (Z.ltb_spec 31 d); simpl.
    { intros ? ? ? [= <- <- <-] (_ & _ & ?).
      assert (Hle := daysInMonth_le y n). lia. }
    rewrite validateActualDate_spec by lia.
    destruct (comesBack y n d) eqn:Hback.
    + exists y, n, d. unfold realCalendarDate.
      pose proof (comesBack_real y n d Hback). repeat split; lia.
    + by intros ? ? ? [= <- <- <-] _.
  - assert (Hnone : forall y m d,
               match JsString.parseInt year, @None Z, JsString.parseInt day with
               | Some y', Some m', Some d' => Some (y', m', d')
               | _, _, _ => None
               end = Some (y, m, d) -> realCalendarDate y m d -> comesBack y m d = false).
    { intros y m d. by destruct (JsString.parseInt year). }
    destruct (String.eqb _ "constructor" || String.eqb _ "__proto__"); [|exact Hnone].
    unfold buildDateString, validateDateComponents, validateActualDate. simpl monthNumOf.
    destruct (ltNum (JsString.parseInt year) 1900 || gtNum (JsString.parseInt year) 3000);
      [exact Hnone|].
    simpl.
    destruct (ltNum (JsString.parseInt day) 1 || gtNum (JsString.parseInt day) 31);
      [exact Hnone|].
    destruct (JsString.parseInt year), (JsString.parseInt day); simpl; intros; discriminate.
Qed.

Local Transparent JsDate.yearFromDay JsDate.monthFromDay JsDate.dateFromDay JsDate.makeDay
  comesBack.

(** C6.  A date token whose year, month and day do not form a date of the
    calendar is refused with an error: a year outside 1900 to 3000 and a
    day that the month does not have are among these, the latter found by
    building the date and reading it back.  The token sept-31-2025 is such
    a one.  Conversely a canonical date is produced only for a token that
    names a date of the calendar. *)
Theorem parseDateString_rejects_unreal_dates :
  (forall dateStr,
      (forall y m d, tokenComponents dateStr = Some (y, m, d) -> ~ realCalendarDate y m d) ->
      exists msg, parseDateString dateStr = Throw msg)
  /\ (exists msg, parseDateString "sept-31-2025" = Throw msg)
  /\ (forall dateStr canonical,
        parseDateString dateStr = Ok canonical ->
        exists y m d,
          tokenComponents dateStr = Some (y, m, d) /\ realCalendarDate y m d
          /\ canonical = ApiClient.formatLocalDate (Some (y, m, d))).
Proof.
  split; [|split].
  - intros dateStr Hunreal.
    assert (Hspec := parseDateString_spec dateStr).
    destruct (parseDateString dateStr) as [canonical|msg]; [|by exists msg].
    destruct Hspec as (y & m & d & Hc & Hreal & _). by destruct (Hunreal y m d Hc).
  - assert (Hspec := parseDateString_spec "sept-31-2025").
    destruct (parseDateString "sept-31-2025") as [canonical|msg]; [|by exists msg].
    destruct Hspec as (y & m & d & Hc & (_ & _ & Hd) & _).
    vm_compute in Hc. injection Hc as <- <- <-.
    vm_compute in Hd. destruct Hd as [_ Hd]. by destruct Hd.
  - intros dateStr canonical Hok.
    assert (Hspec := parseDateString_spec dateStr). rewrite Hok in Hspec.
    destruct Hspec as (y & m & d & Hc & Hreal & Hcan). by exists y, m, d.
Qed.

End DateTokens.

Lemma parseDateString_rejects_unreal_dates_witness :
  tokenComponents "sept-31-2025" = Some (2025, 9, 31)
  /\ exists msg, @Parser.parseDateString utcZone "sept-31-2025" = Throw msg.
Proof.
  split; [reflexivity|].
  apply (proj1 (@parseDateString_rejects_unreal_dates utcZone)).
  intros y m d Hc. vm_compute in Hc. injection Hc as <- <- <-.
  intros (_ & _ & Hd). vm_compute in Hd. destruct Hd as [_ Hd]. apply Hd. reflexivity.
Defined.

Example parseDateString_examples :
  let parseDateString := @Parser.parseDateString utcZone in
  parseDateString "oct-23-2025" = Ok "2025-10-23"
  /\ parseDateString "Sept-7-2025" = Ok "2025-09-07"
  /\ parseDateString "feb-29-2024" = Ok "2024-02-29"
  /\ parseDateString "feb-29-2025"
     = Throw "Invalid date values: Invalid date: feb-29-2025"
  /\ parseDateString "jan-01-1899" = Throw "Invalid date values: Invalid year: 1899"
  /\ parseDateString "constructor-01-2025"
     = Throw "Invalid date values: Invalid date: constructor-01-2025"
  /\ parseDateString "sept-31-2025"
     = Throw "Invalid date values: Invalid date: sept-31-2025".
Proof. repeat split; vm_compute; reflexivity. Qed.

(** ** Lookups that fail *)

Section FailOpen.

Import ApiClient.

(** The lookup fails with [msg] when a page request of its loop does. *)
Definition lookupFailsWith (msg : string) (pid : option Z) (subject : string) (w : World)
  : Prop :=
  exists w1, pageLoop (lookupFuel pid w) pid (normalize subject) 1 w = Some (Throw msg, w1).

Lemma lookupFails_not_answered msg pid subject w :
  lookupFailsWith msg pid subject w -> ~ lookupAnswered pid subject w.
Proof. intros [w1 Hrun] Hans. by destruct (Hans msg w1). Qed.

(** A lookup that fails answers [null], after a warning that carries the
    message; the server's tables are as before. *)
Lemma checkExisting_fail_open msg p subject w :
  lookupFailsWith msg (Some p) subject w ->
  exists w',
    checkExistingWorkPackageBySubject (Some p) subject w = (Ok None, w')
    /\ console w'
       = console w ++ [("Could not check existing work packages: " ++ msg)%string]
    /\ work_packages w' = work_packages w
    /\ time_entries w' = time_entries w
    /\ next_id w' = next_id w.
Proof.
  intros [w1 Hrun].
  destruct (lookup_run p subject w) as (k & r & w1' & Hrun' & _ & _ & Hfr & _ & _).
  rewrite Hrun in Hrun'. injection Hrun' as <- <-.
  destruct Hfr as (_ & Hw & Ht & Hn & Hc & _).
  eexists. split.
  - unfold checkExistingWorkPackageBySubject, checkExistingWorkPackageBySubjectFuel.
    rewrite Hrun. reflexivity.
  - simpl. rewrite Hc. repeat split; done.
Qed.

(** C8.  A task without a linked work package whose duplicate lookup
    fails is put into the bucket [new]: the categoriser returns normally
    (the task does not fail and the categorisation goes on), the error is
    on the console, and the server's tables are untouched.  The project of
    the task is one the configuration maps, so that the lookup is made. *)
Theorem categorizer_fails_open (cfg : Config) (entry : Entry) (a : Service.Analysis)
    (w : World) (p : Z) (msg : string) :
  truthyZ (work_package_id entry) = false ->
  PROJECT_MAPPINGS cfg !! project entry = Some p ->
  p <> 0 ->
  lookupFailsWith msg (Some p) (subject entry) w ->
  exists w',
    Service.categorizeEntry cfg entry a w = (Ok (entry, Service.pushNew entry a), w')
    /\ Service.new (Service.pushNew entry a) = Service.new a ++ [entry]
    /\ console w'
       = console w ++ [("Could not check existing work packages: " ++ msg)%string]
    /\ work_packages w' = work_packages w
    /\ time_entries w' = time_entries w.
Proof.
  intros Hlinked Hmap Hp Hfail.
  destruct (checkExisting_fail_open msg p (subject entry) w Hfail)
    as (w' & Hrun & Hc & Hw & Ht & _).
  exists w'. split; [|by repeat split].
  unfold Service.categorizeEntry. rewrite Hlinked, andb_false_r.
  unfold Service.checkForDuplicatesOrNew, getProperty. rewrite Hmap.
  cbn [truthyProperty numberOf].
  replace (p =? 0) with false by (symmetry; by apply Z.eqb_neq). cbn [negb].
  unfold tryCatch, bind. rewrite Hrun. reflexivity.
Qed.

Definition sampleEntry (subject : string) (workPackageId : option Z) : Entry :=
  {| project := "P"; project_id := Some 7; subject := subject; activity := "Development";
     hours := Some 2%Q; duration_hours := None; break_hours := Some 0%Q; is_scrum := false;
     work_package_id := workPackageId; existing_work_package_id := None;
     entry_date := Some "2025-10-23"; date := None; start_time := None;
     user_set_start_time := false; calculated_start_time := None;
     calculated_end_time := None; comment := None; statusId := None; statusName := None |}.

Definition sampleConfig : Config :=
  {| PROJECT_MAPPINGS := {[ "P" := 7 ]}; ACTIVITY_MAPPINGS := {[ "Development" := 3 ]} |}.

Lemma categorizer_fails_open_witness :
  let w := faultyWorld [mkWorkPackage 1 7 "fix login bug"] [] [Some "HTTP 503: "] in
  exists w',
    Service.categorizeEntry sampleConfig (sampleEntry "Fix Login Bug" None)
                            Service.emptyAnalysis w
    = (Ok (sampleEntry "Fix Login Bug" None,
           Service.pushNew (sampleEntry "Fix Login Bug" None) Service.emptyAnalysis), w')
    /\ console w' = ["Could not check existing work packages: HTTP 503: "].
Proof.
  intros w.
  assert (Hfail : lookupFailsWith "HTTP 503: " (Some 7) "Fix Login Bug" w).
  { eexists. vm_compute. reflexivity. }
  destruct (categorizer_fails_open sampleConfig (sampleEntry "Fix Login Bug" None)
              Service.emptyAnalysis w 7 "HTTP 503: " eq_refl eq_refl
              ltac:(discriminate) Hfail)
    as (w' & Hrun & _ & Hc & _).
  exists w'. split; [exact Hrun | exact Hc].
Defined.

(** C10, as the code has it.  When the lookup of [createWorkPackage] is
    answered, an exact match in the project is returned and nothing is
    created: page requests are all that goes out and the server's tables
    are as before; a creation request goes out only when no work package
    of the project has the key.  When the lookup fails, [createWorkPackage]
    goes on to the creation request whatever the project holds. *)
Theorem createWorkPackage_after_lookup (p : Z) (subject activityType description : string)
    (statusId : Z) (w : World) :
  (lookupAnswered (Some p) subject w ->
   match findMatchingWorkPackage (projectWorkPackages p w) (normalize subject) with
   | Some existing =>
       exists k w',
         createWorkPackage (Some p) subject activityType description statusId w
         = (Ok existing, w')
         /\ lookupFrame p 1 k w w'
   | None =>
       Forall (fun wp => subjectKey wp <> normalize subject) (projectWorkPackages p w)
       /\ exists k w1,
            lookupFrame p 1 k w w1
            /\ createWorkPackage (Some p) subject activityType description statusId w
               = makeRequest (PostWorkPackage (Some p) subject statusId description)
                   (serveCreateWorkPackage (Some p) subject statusId description) w1
   end)
  /\ (forall msg,
        lookupFailsWith msg (Some p) subject w ->
        exists w1,
          work_packages w1 = work_packages w
          /\ createWorkPackage (Some p) subject activityType description statusId w
             = makeRequest (PostWorkPackage (Some p) subject statusId description)
                 (serveCreateWorkPackage (Some p) subject statusId description) w1).
Proof.
  split.
  - intros Hans.
    destruct (checkExisting_answered p subject w Hans) as (k & w' & Hrun & Hfr).
    unfold createWorkPackage, bind. rewrite Hrun.
    destruct (findMatchingWorkPackage _ _) as [existing|] eqn:Efind.
    + exists k, w'. done.
    + split; [by apply findMatching_None|]. exists k, w'. done.
  - intros msg Hfail.
    destruct (checkExisting_fail_open msg p subject w Hfail) as (w1 & Hrun & _ & Hw & _).
    exists w1. split; [exact Hw|].
    unfold createWorkPackage, bind. by rewrite Hrun.
Qed.

Lemma createWorkPackage_after_lookup_witness :
  let w := quietWorld [mkWorkPackage 1 7 "fix login bug"] [] in
  lookupAnswered (Some 7) "Fix Login Bug " w
  /\ exists k w',
       createWorkPackage (Some 7) "Fix Login Bug " "Development" "" 7 w
       = (Ok (mkWorkPackage 1 7 "fix login bug"), w')
       /\ lookupFrame 7 1 k w w'.
Proof.
  intros w.
  assert (Hans : lookupAnswered (Some 7) "Fix Login Bug " w)
    by (by apply quiet_lookupAnswered).
  split; [exact Hans|].
  exact (proj1 (createWorkPackage_after_lookup 7 "Fix Login Bug " "Development" "" 7 w) Hans).
Defined.

(** C10 as stated fails: the project holds a work package with the
    subject, the page request of the lookup fails, and [createWorkPackage]
    creates a second work package with the same normalised subject. *)
Lemma createWorkPackage_duplicates_when_lookup_fails :
  let w := faultyWorld [mkWorkPackage 1 7 "fix login bug"] [] [Some "HTTP 503: "] in
  let created := {| wp_id := 1000; wp_subject := Some "Fix Login Bug "; wp_project := 7;
                    wp_status := 7; wp_description := "" |} in
  fst (createWorkPackage (Some 7) "Fix Login Bug " "Development" "" 7 w) = Ok created
  /\ work_packages (snd (createWorkPackage (Some 7) "Fix Login Bug " "Development" "" 7 w))
     = [mkWorkPackage 1 7 "fix login bug"; created]
  /\ subjectKey created = subjectKey (mkWorkPackage 1 7 "fix login bug")
  /\ requests (snd (createWorkPackage (Some 7) "Fix Login Bug " "Development" "" 7 w))
     = [GetWorkPackages (Some 7) 1 100; PostWorkPackage (Some 7) "Fix Login Bug " 7 ""].
Proof. vm_compute. repeat split; reflexivity. Qed.

End FailOpen.

(** ** The processing loop of the service *)

Section ServiceLoop.

Import Service.

Context `{JsPlatform}.

Variables (svc : ServiceData) (commentData : gmap string string).

(** The entry as [processEntry] may leave it: unchanged, or with the
    status chosen for it. *)
Definition sameTask (e e1 : Entry) : Prop :=
  e1 = e \/ exists id name, e1 = setStatusOf id name e.

Definition isCreated (o : Outcome) : bool :=
  success o && match o_result o with Some r => String.eqb (r_type r) "new" | None => false end.

Definition isUpdated (o : Outcome) : bool :=
  success o
  && match o_result o with Some r => negb (String.eqb (r_type r) "new") | None => false end.

Definition isFailed (o : Outcome) : bool := negb (success o).

Definition count {A} (p : A -> bool) (l : list A) : nat := length (List.filter p l).

Definition failure (entry : Entry) (msg : string) : Outcome :=
  {| success := false; o_entry := entry; o_result := None; o_error := Some msg |}.

Definition zeroStats : Stats := {| createdCount := 0; updatedCount := 0; errorCount := 0 |}.

Definition countError (stats : Stats) : Stats :=
  {| createdCount := createdCount stats; updatedCount := updatedCount stats;
     errorCount := errorCount stats + 1 |}.

Lemma count_app {A} (p : A -> bool) l1 l2 :
  count p (l1 ++ l2) = (count p l1 + count p l2)%nat.
Proof. unfold count. by rewrite List.filter_app, length_app. Qed.

Lemma enrichEntryMetadata_sameTask e e1 :
  enrichEntryMetadata svc e commentData = Ok e1 -> sameTask e e1.
Proof.
  unfold enrichEntryMetadata.
  destruct (analysisData svc) as [a|]; [|discriminate].
  destruct (findIndexFrom e (new a) 0); [|intros [= <-]; by left].
  destruct (negb _); intros [= <-]; [by left | right; eauto].
Qed.

Lemma processEntry_sameTask e w e1 r w1 :
  processEntry svc e commentData w = ((e1, r), w1) -> sameTask e e1.
Proof.
  unfold processEntry.
  destruct (negb _); [intros [= <- _ _]; by left|].
  destruct (enrichEntryMetadata svc e commentData) as [e'|msg] eqn:Eenrich;
    [|intros [= <- _ _]; by left].
  apply enrichEntryMetadata_sameTask in Eenrich.
  repeat match goal with
         | |- context [if ?b then _ else _] => destruct b
         end;
    match goal with
    | |- (let '(_, _) := ?m w in _) = _ -> _ => destruct (m w)
    end; by intros [= <- _ _].
Qed.

(** One turn of the loop: one outcome more, for the entry of the turn, and
    one counter up by one. *)
Lemma processAndTrackEntry_spec e results stats w :
  exists e1 o stats1 w1,
    processAndTrackEntry svc e commentData results stats w
    = ((e1, results ++ [o], stats1), w1)
    /\ o_entry o = e1 /\ sameTask e e1
    /\ createdCount stats1 = (createdCount stats + count isCreated [o])%nat
    /\ updatedCount stats1 = (updatedCount stats + count isUpdated [o])%nat
    /\ errorCount stats1 = (errorCount stats + count isFailed [o])%nat
    /\ (count isCreated [o] + count isUpdated [o] + count isFailed [o] = 1)%nat
    /\ match snd (fst (processEntry svc e commentData w)) with
       | Throw msg => o = failure e1 msg /\ stats1 = countError stats
       | Ok result => success o = true /\ o_result o = Some result
       end
    /\ fst (fst (processEntry svc e commentData w)) = e1
    /\ snd (processEntry svc e commentData w) = w1.
Proof.
  unfold processAndTrackEntry.
  destruct (processEntry svc e commentData w) as [[e1 [result|msg]] w1] eqn:Erun.
  - eexists e1, _, _, w1. split; [reflexivity|]. simpl.
    apply processEntry_sameTask in Erun.
    unfold updateStats, count, isCreated, isUpdated, isFailed. simpl.
    destruct (String.eqb (r_type result) "new"); simpl; repeat split; try done; lia.
  - eexists e1, _, _, w1. split; [reflexivity|]. simpl.
    apply processEntry_sameTask in Erun.
    unfold count, isCreated, isUpdated, isFailed. simpl. repeat split; try done; lia.
Qed.

Lemma processLoop_app todo1 : forall todo2 acc results stats w,
  processLoop svc (todo1 ++ todo2) commentData acc results stats w
  = let '((done1, results1, stats1), w1) :=
      processLoop svc todo1 commentData acc results stats w in
    processLoop svc todo2 commentData done1 results1 stats1 w1.
Proof.
  induction todo1 as [|e todo1 IH]; intros todo2 acc results stats w; simpl; [done|].
  destruct (processAndTrackEntry svc e commentData results stats w)
    as [[[e1 results1] stats1] w1].
  apply IH.
Qed.

(** The loop adds one outcome per entry, in the order of the entries, and
    counts each outcome once. *)
Lemma processLoop_spec todo : forall acc results stats w,
  exists outcomes done' stats' w',
    processLoop svc todo commentData acc results stats w
    = ((done', results ++ outcomes, stats'), w')
    /\ done' = acc ++ map o_entry outcomes
    /\ Forall2 sameTask todo (map o_entry outcomes)
    /\ createdCount stats' = (createdCount stats + count isCreated outcomes)%nat
    /\ updatedCount stats' = (updatedCount stats + count isUpdated outcomes)%nat
    /\ errorCount stats' = (errorCount stats + count isFailed outcomes)%nat
    /\ (count isCreated outcomes + count isUpdated outcomes + count isFailed outcomes
        = length todo)%nat.
Proof.
  induction todo as [|e todo IH]; intros acc results stats w; simpl.
  - exists [], acc, stats, w. rewrite !app_nil_r. unfold count. simpl.
    repeat split; try done; try lia.
  - destruct (processAndTrackEntry_spec e results stats w)
      as (e1 & o & stats1 & w1 & -> & Ho & Hsame & Hc & Hu & He & Hone & _).
    destruct (IH (acc ++ [e1]) (results ++ [o]) stats1 w1)
      as (outcomes & done' & stats' & w' & -> & Hdone & Hall & Hc' & Hu' & He' & Hlen).
    exists (o :: outcomes), done', stats', w'.
    rewrite <- app_assoc. simpl. split; [done|].
    split. { rewrite Hdone, <- app_assoc, Ho. done. }
    split. { rewrite Ho. by constructor. }
    change (o :: outcomes) with ([o] ++ outcomes). rewrite !count_app.
    repeat split; lia.
Qed.

(** The totals of a run: as many outcomes as entries, and the three counters
    share them out. *)
Lemma processAllEntries_totals (workLogEntries : list Entry) (w : World) :
  let r := fst (fst (processAllEntries svc workLogEntries commentData w)) in
  length (results r) = length workLogEntries
  /\ (p_createdCount r + p_updatedCount r + p_errorCount r = length workLogEntries)%nat
  /\ p_errorCount r = count isFailed (results r).
Proof.
  unfold processAllEntries.
  destruct (processLoop_spec workLogEntries [] [] zeroStats w)
    as (outcomes & done' & stats' & w' & Hrun & Hdone & Hall & Hc & Hu & He & Hlen).
  unfold zeroStats in Hrun. rewrite Hrun. simpl in *. subst done'.
  assert (Hn : length outcomes = length workLogEntries).
  { apply Forall2_length in Hall. by rewrite length_map in Hall. }
  repeat split; try done; lia.
Qed.

(** C9.  [processAllEntries] gives one outcome per entry of the work log,
    in the order of the work log, each for the entry as the run left it;
    the counters add up: created + updated + failed is the number of
    entries and [successCount] is created + updated, where [createdCount]
    counts the successful outcomes of type [new], [updatedCount] the other
    successful outcomes and [errorCount] the failed ones. *)
Theorem processAllEntries_counts (workLogEntries : list Entry) (w : World) :
  let r := fst (fst (processAllEntries svc workLogEntries commentData w)) in
  let done := snd (fst (processAllEntries svc workLogEntries commentData w)) in
  length (results r) = length workLogEntries
  /\ map o_entry (results r) = done
  /\ Forall2 sameTask workLogEntries done
  /\ (p_createdCount r + p_updatedCount r + p_errorCount r = length workLogEntries)%nat
  /\ successCount r = (p_createdCount r + p_updatedCount r)%nat
  /\ p_createdCount r = count isCreated (results r)
  /\ p_updatedCount r = count isUpdated (results r)
  /\ p_errorCount r = count isFailed (results r)
  /\ totalEntries r = length workLogEntries.
Proof.
  unfold processAllEntries.
  destruct (processLoop_spec workLogEntries [] [] zeroStats w)
    as (outcomes & done' & stats' & w' & Hrun & Hdone & Hall & Hc & Hu & He & Hlen).
  unfold zeroStats in Hrun. rewrite Hrun. simpl in *. subst done'.
  assert (Hn : length outcomes = length workLogEntries).
  { apply Forall2_length in Hall. by rewrite length_map in Hall. }
  repeat split; try done; lia.
Qed.

Example processAllEntries_example :
  let svc0 := {| config := sampleConfig; analysisData := Some emptyAnalysis;
                 statusData := [] |} in
  let entries := [sampleEntry "new task" None; sampleEntry "linked task" (Some 5)] in
  let r := fst (fst (@processAllEntries plainPlatform svc0 entries ∅ (quietWorld [] []))) in
  (p_createdCount r, p_updatedCount r, p_errorCount r, successCount r) = (1, 1, 0, 2)%nat
  /\ map (fun o => r_type <$> o_result o) (results r) = [Some "new"; Some "duplicate"].
Proof. vm_compute. split; reflexivity. Qed.

End ServiceLoop.

(** ** The processing loop of the client *)

Section ClientLoop.

Import ApiClient.

Context `{JsPlatform}.

Variables (cfg : Config) (logDate : string).

Definition isErrorDetail (d : Detail) : bool :=
  bool_decide (d_status d = Some "error").

Definition zeroResults : Results := {| successful := 0; failed := 0; details := [] |}.

(** The attempt on an entry throws [msg], with [d] the detail as it is
    then: either the work package cannot be provided, or the time entry
    cannot be added. *)
Definition clientThrows (entry : Entry) (index : nat) (results : Results) (w : World)
    (msg : string) (d : Detail) (w1 : World) : Prop :=
  (ensureWorkPackageExists entry (createEntryDetail entry index) w = (Throw msg, w1)
   /\ d = createEntryDetail entry index)
  \/ (exists id w',
        ensureWorkPackageExists entry (createEntryDetail entry index) w = (Ok (id, d), w')
        /\ addTimeEntry cfg id entry logDate d results w' = (Throw msg, w1)).

Lemma ensureWorkPackageExists_status entry d w id d1 w1 :
  ensureWorkPackageExists entry d w = (Ok (id, d1), w1) ->
  exists status, d1 = setStatus status (Some id) d.
Proof.
  unfold ensureWorkPackageExists.
  destruct (truthyZ (work_package_id entry)) eqn:Et.
  - intros [= <- <- _]. eexists. f_equal.
    destruct (work_package_id entry); [done | discriminate].
  - unfold bind.
    destruct (checkExistingWorkPackageBySubject _ _ w) as [[[wp|]|msg] w'];
      [intros [= <- <- _]; eauto | | discriminate].
    destruct (createWorkPackage _ _ _ _ _ w') as [[wp|msg] w'']; [|discriminate].
    intros [= <- <- _]. eauto.
Qed.

Lemma addTimeEntry_result id entry d results w d1 results1 w1 :
  addTimeEntry cfg id entry logDate d results w = (Ok (d1, results1), w1) ->
  results1 = countSuccess results
  /\ (d_status d1 = Some "skipped_duplicate_time_entry"
      \/ d_status d1 = Some "created_time_entry").
Proof.
  unfold addTimeEntry, bind.
  destruct (checkExistingTimeEntries id logDate w) as [[found|msg] w']; [|discriminate].
  destruct (0 <? length found)%nat.
  - intros [= <- <- _]. split; [done | by left].
  - destruct (createTimeEntry _ _ _ _ _ _ _ w') as [[te|msg] w'']; [|discriminate].
    intros [= <- <- _]. split; [done | by right].
Qed.

(** One turn of the client's loop: one detail more, and one of the two
    counters up by one, [failed] exactly when the detail is an error. *)
Lemma processWorkLogEntry_spec entry index results w :
  exists d w1,
    processWorkLogEntry cfg entry index logDate results w
    = ({| successful := successful results + (if isErrorDetail d then 0 else 1);
          failed := failed results + (if isErrorDetail d then 1 else 0);
          details := details results ++ [d] |}, w1)
    /\ d_index d = (index + 1)%nat /\ d_subject d = subject entry.
Proof.
  unfold processWorkLogEntry.
  destruct (ensureWorkPackageExists entry (createEntryDetail entry index) w)
    as [[[id d1]|msg] w1] eqn:Eensure.
  - apply ensureWorkPackageExists_status in Eensure as [status ->].
    destruct (addTimeEntry cfg id entry logDate _ results w1)
      as [[[d2 results2]|msg] w2] eqn:Eadd.
    + assert (Hd2 : d_index d2 = (index + 1)%nat /\ d_subject d2 = subject entry).
      { revert Eadd. unfold addTimeEntry, bind.
        destruct (checkExistingTimeEntries id logDate w1) as [[found|?] ?]; [|discriminate].
        destruct (0 <? length found)%nat; [by intros [= <- _ _]|].
        destruct (createTimeEntry _ _ _ _ _ _ _ _) as [[te|?] ?]; [|discriminate].
        by intros [= <- _ _]. }
      apply addTimeEntry_result in Eadd as [-> Hstatus].
      exists d2, w2. split; [|exact Hd2].
      unfold pushDetail, countSuccess, isErrorDetail. simpl.
      rewrite bool_decide_eq_false_2; [f_equal; f_equal; lia|].
      destruct Hstatus as [-> | ->]; discriminate.
    + exists (fst (handleEntryError
                     (setStatus status (Some id) (createEntryDetail entry index))
                     msg results)), w2.
      split; [|split; reflexivity].
      unfold pushDetail, handleEntryError, isErrorDetail. simpl.
      f_equal. f_equal; lia.
  - exists (fst (handleEntryError (createEntryDetail entry index) msg results)), w1.
    split; [|split; reflexivity].
    unfold pushDetail, handleEntryError, isErrorDetail. simpl.
    f_equal. f_equal; lia.
Qed.

Lemma clientThrows_spec entry index results w msg d w1 :
  clientThrows entry index results w msg d w1 ->
  processWorkLogEntry cfg entry index logDate results w
  = (pushDetail (handleEntryError d msg results), w1).
Proof.
  unfold processWorkLogEntry.
  intros [[-> ->] | (id & w' & -> & ->)]; reflexivity.
Qed.

Lemma processFrom_app l1 : forall l2 index results w,
  processFrom cfg (l1 ++ l2) index logDate results w
  = let '(results1, w1) := processFrom cfg l1 index logDate results w in
    processFrom cfg l2 (index + length l1) logDate results1 w1.
Proof.
  induction l1 as [|e l1 IH]; intros l2 index results w; simpl.
  - by replace (index + 0)%nat with index by lia.
  - destruct (processWorkLogEntry cfg e index logDate results w) as [results1 w1].
    rewrite IH. destruct (processFrom cfg l1 _ _ _ _).
    by replace (index + 1 + length l1)%nat with (index + S (length l1))%nat by lia.
Qed.

Lemma processFrom_spec l : forall index results w,
  exists ds w',
    processFrom cfg l index logDate results w
    = ({| successful := successful results + count (fun d => negb (isErrorDetail d)) ds;
          failed := failed results + count isErrorDetail ds;
          details := details results ++ ds |}, w')
    /\ map d_subject ds = map subject l
    /\ map d_index ds = seq (index + 1) (length l).
Proof.
  induction l as [|e l IH]; intros index results w; simpl.
  - exists [], w. unfold count. simpl. rewrite app_nil_r.
    destruct results. simpl. split; [|done]. do 2 f_equal; lia.
  - destruct (processWorkLogEntry_spec e index results w) as (d & w1 & -> & Hi & Hs).
    destruct (IH (index + 1)%nat
                 {| successful := successful results + (if isErrorDetail d then 0 else 1);
                    failed := failed results + (if isErrorDetail d then 1 else 0);
                    details := details results ++ [d] |} w1)
      as (ds & w' & -> & Hsub & Hidx).
    exists (d :: ds), w'. simpl. rewrite <- app_assoc. simpl.
    split.
    + change (d :: ds) with ([d] ++ ds). rewrite !count_app. unfold count. simpl.
      destruct (isErrorDetail d); simpl; do 2 f_equal; lia.
    + rewrite Hsub, Hs, Hi, Hidx. split; [done|].
      by replace (S (index + 1)) with (index + 1 + 1)%nat by lia.
Qed.

End ClientLoop.

Section Failures.

Import Service ApiClient.

Context `{JsPlatform}.

Variables (svc : ServiceData) (commentData : gmap string string).
Variables (cfg : Config) (logDate : string).

Lemma count_lookup {A} (p : A -> bool) (l : list A) k x :
  l !! k = Some x -> p x = true -> (1 <= count p l)%nat.
Proof.
  intros Hk Hp. apply take_drop_middle in Hk. rewrite <- Hk.
  rewrite count_app. change (x :: drop (S k) l) with ([x] ++ drop (S k) l).
  rewrite count_app. unfold count at 2. simpl. rewrite Hp. simpl. lia.
Qed.

(** C7.  Let processing throw at task [k] of a task list, with message
    [msg], in the state the tasks before it have left.  Then, in the
    service's loop ([processAllEntries]) as in the client's
    ([processWorkLogEntries]): the exception is caught in the turn of task
    [k]; the outcome at place [k] is the error with that message; the loop
    goes on with the tasks after [k], from the state the failed attempt
    left, and gives one outcome per task; and the count of failures is the
    number of failed outcomes, with the counters adding up to the number of
    tasks. *)
Theorem failures_do_not_stop_processing (workLogEntries : list Entry) (w : World)
    (k : nat) (e : Entry) (msg : string) :
  workLogEntries !! k = Some e ->
  (forall e1 w1,
      let before := processLoop svc (take k workLogEntries) commentData [] [] zeroStats w in
      processEntry svc e commentData (snd before) = ((e1, Throw msg), w1) ->
      let r := fst (fst (processAllEntries svc workLogEntries commentData w)) in
      results r !! k = Some (failure e1 msg)
      /\ length (results r) = length workLogEntries
      /\ processLoop svc workLogEntries commentData [] [] zeroStats w
         = processLoop svc (drop (S k) workLogEntries) commentData
             (fst (fst (fst before)) ++ [e1])
             (snd (fst (fst before)) ++ [failure e1 msg])
             (countError (snd (fst before))) w1
      /\ p_errorCount r = count isFailed (results r)
      /\ (1 <= p_errorCount r)%nat
      /\ (p_createdCount r + p_updatedCount r + p_errorCount r
          = length workLogEntries)%nat)
  /\ (forall d w1,
        let before := processFrom cfg (take k workLogEntries) 0 logDate zeroResults w in
        clientThrows cfg logDate e k (fst before) (snd before) msg d w1 ->
        let r := fst (processWorkLogEntries cfg workLogEntries logDate w) in
        (exists d', details r !! k = Some d'
                    /\ d_status d' = Some "error" /\ d_error d' = Some msg
                    /\ d_subject d' = subject e)
        /\ length (details r) = length workLogEntries
        /\ processWorkLogEntries cfg workLogEntries logDate w
           = processFrom cfg (drop (S k) workLogEntries) (k + 1) logDate
               (pushDetail (handleEntryError d msg (fst before))) w1
        /\ failed r = count isErrorDetail (details r)
        /\ (1 <= failed r)%nat
        /\ (successful r + failed r = length workLogEntries)%nat).
Proof.
  intros Hk.
  assert (Hlt := lookup_lt_Some _ _ _ Hk).
  assert (Hsplit := take_drop_middle _ _ _ Hk).
  split.
  - intros e1 w1 before Hthrow r.
    assert (Hcounts := processAllEntries_totals svc commentData workLogEntries w).
    fold r in Hcounts. simpl in Hcounts.
    destruct Hcounts as (Hlen & Hsum & Herr).
    assert (Hgo : processLoop svc workLogEntries commentData [] [] zeroStats w
                  = processLoop svc (drop (S k) workLogEntries) commentData
                      (fst (fst (fst before)) ++ [e1])
                      (snd (fst (fst before)) ++ [failure e1 msg])
                      (countError (snd (fst before))) w1).
    { rewrite <- Hsplit at 1. rewrite processLoop_app. fold before.
      destruct before as [[[donek resultsk] statsk] wk]. simpl in *.
      unfold processAndTrackEntry. rewrite Hthrow. reflexivity. }
    assert (Hat : results r !! k = Some (failure e1 msg)).
    { unfold r, processAllEntries. unfold zeroStats in Hgo. rewrite Hgo.
      destruct (processLoop_spec svc commentData (take k workLogEntries) [] [] zeroStats w)
        as (outk & donek & statsk & wk & Hbefore & _ & Hallk & _).
      unfold before. rewrite Hbefore. simpl.
      destruct (processLoop_spec svc commentData (drop (S k) workLogEntries)
                  (donek ++ [e1]) (outk ++ [failure e1 msg]) (countError statsk) w1)
        as (outs & done' & stats' & w' & -> & _).
      simpl. apply Forall2_length in Hallk. rewrite length_map, length_take in Hallk.
      rewrite <- app_assoc. rewrite lookup_app_r by lia.
      replace (k - length outk)%nat with 0%nat by lia. reflexivity. }
    repeat split; try done.
    rewrite Herr. by apply (count_lookup isFailed _ k (failure e1 msg)).
  - intros d w1 before Hthrow r.
    apply clientThrows_spec in Hthrow.
    assert (Hgo : processWorkLogEntries cfg workLogEntries logDate w
                  = processFrom cfg (drop (S k) workLogEntries) (k + 1) logDate
                      (pushDetail (handleEntryError d msg (fst before))) w1).
    { unfold processWorkLogEntries. rewrite <- Hsplit at 1. rewrite processFrom_app.
      fold zeroResults. fold before. destruct before as [resultsk wk]. simpl in *.
      rewrite length_take. replace (k `min` length workLogEntries)%nat with k by lia.
      rewrite Hthrow. by replace (k + 1)%nat with (S k) by lia. }
    destruct (processFrom_spec cfg logDate workLogEntries 0 zeroResults w)
      as (ds & w' & Hall & Hsub & Hidx).
    assert (Hr : r = {| successful := count (fun d => negb (isErrorDetail d)) ds;
                        failed := count isErrorDetail ds; details := ds |}).
    { unfold r, processWorkLogEntries. fold zeroResults. by rewrite Hall. }
    assert (Hlen : length ds = length workLogEntries).
    { apply (f_equal length) in Hsub. by rewrite !length_map in Hsub. }
    assert (Hat : exists d', ds !! k = Some d' /\ d_status d' = Some "error"
                             /\ d_error d' = Some msg /\ d_subject d' = subject e).
    { assert (Hds : ds = details (fst (processWorkLogEntries cfg workLogEntries logDate w)))
        by (fold r; by rewrite Hr).
      rewrite Hgo in Hds.
      destruct (processFrom_spec cfg logDate (take k workLogEntries) 0 zeroResults w)
        as (dsk & wk & Hbefore & Hsubk & _).
      assert (Hdk : details (fst before) = dsk) by (unfold before; by rewrite Hbefore).
      apply (f_equal length) in Hsubk. rewrite !length_map, length_take in Hsubk.
      destruct (processFrom_spec cfg logDate (drop (S k) workLogEntries) (k + 1)
                  (pushDetail (handleEntryError d msg (fst before))) w1)
        as (dsr & w'' & Hrest & _).
      rewrite Hrest in Hds. cbn [fst details pushDetail handleEntryError snd] in Hds.
      rewrite Hdk, <- app_assoc in Hds.
      eexists. split.
      - rewrite Hds, lookup_app_r by lia.
        replace (k - length dsk)%nat with 0%nat by lia. reflexivity.
      - simpl. repeat split; try done.
        apply (f_equal (fun l => l !! k)) in Hsub.
        rewrite !list_lookup_fmap, Hk in Hsub. simpl in Hsub.
        rewrite Hds, lookup_app_r in Hsub by lia.
        replace (k - length dsk)%nat with 0%nat in Hsub by lia.
        simpl in Hsub. by injection Hsub. }
    rewrite Hr. simpl. split; [exact Hat|]. split; [exact Hlen|].
    split; [exact Hgo|]. split; [done|].
    destruct Hat as (d' & Hd' & Hstatus & _).
    split.
    + apply (count_lookup isErrorDetail ds k d' Hd').
      unfold isErrorDetail. by apply bool_decide_eq_true_2.
    + rewrite <- Hlen. unfold count. clear.
      induction ds as [|x ds IH]; simpl; [done|].
      destruct (isErrorDetail x); simpl; lia.
Qed.

End Failures.

Definition undatedEntry (subject : string) : Entry :=
  {| project := "P"; project_id := Some 7; subject := subject; activity := "Development";
     hours := Some 2%Q; duration_hours := None; break_hours := Some 0%Q; is_scrum := false;
     work_package_id := Some 5; existing_work_package_id := None;
     entry_date := None; date := None; start_time := None;
     user_set_start_time := false; calculated_start_time := None;
     calculated_end_time := None; comment := None; statusId := None; statusName := None |}.

Lemma failures_do_not_stop_processing_witness :
  let svc0 := {| Service.config := sampleConfig;
                 Service.analysisData := Some Service.emptyAnalysis;
                 Service.statusData := [] |} in
  let entries := [undatedEntry "a"; sampleEntry "b" (Some 5)] in
  let r := fst (fst (@Service.processAllEntries plainPlatform svc0 entries ∅
                       (quietWorld [] []))) in
  entries !! 0%nat = Some (undatedEntry "a")
  /\ Service.results r !! 0%nat
     = Some (failure (undatedEntry "a") "Entry missing date information: a")
  /\ length (Service.results r) = 2%nat.
Proof.
  intros svc0 entries r. split; [reflexivity|].
  destruct (proj1 (@failures_do_not_stop_processing plainPlatform svc0 ∅ sampleConfig
                     "2025-10-23" entries (quietWorld [] []) 0 (undatedEntry "a")
                     "Entry missing date information: a" eq_refl)
                  (undatedEntry "a") (quietWorld [] []) eq_refl)
    as (Hat & Hlen & _).
  split; [exact Hat | exact Hlen].
Defined.

(** ** Time entries that are there already *)

Section QuietWorlds.

Import ApiClient.

Context `{JsPlatform}.

(** No request of the world's future fails. *)
Definition quiet (w : World) : Prop := fault_script w = [].

Definition sameTables (w w' : World) : Prop :=
  work_packages w' = work_packages w /\ time_entries w' = time_entries w.

(** The server has gained work packages and time entries and lost none. *)
Definition extends (w w' : World) : Prop :=
  (exists wps, work_packages w' = work_packages w ++ wps)
  /\ (exists tes, time_entries w' = time_entries w ++ tes).

Lemma sameTables_extends w w' : sameTables w w' -> extends w w'.
Proof.
  intros [Hw Ht]. split; [exists [] | exists []]; by rewrite app_nil_r.
Qed.

Lemma extends_refl w : extends w w.
Proof. apply sameTables_extends. by split. Qed.

Lemma extends_trans w1 w2 w3 : extends w1 w2 -> extends w2 w3 -> extends w1 w3.
Proof.
  intros [[a Ha] [b Hb]] [[c Hc] [d Hd]]. split.
  - exists (a ++ c). by rewrite Hc, Ha, app_assoc.
  - exists (b ++ d). by rewrite Hd, Hb, app_assoc.
Qed.

Lemma makeRequest_quiet {A} (r : Request) (serve : M A) w :
  quiet w -> makeRequest r serve w = serve (logRequest r w).
Proof. unfold quiet, makeRequest. simpl. by intros ->. Qed.

(** What an answered lookup finds on the server as it is. *)
Definition lookupResult (pid : option Z) (subject : string) (w : World)
  : option WorkPackage :=
  match pid with
  | Some p => findMatchingWorkPackage (projectWorkPackages p w) (normalize subject)
  | None => None
  end.

Lemma checkExisting_quiet pid subject w :
  quiet w ->
  exists w',
    checkExistingWorkPackageBySubject pid subject w = (Ok (lookupResult pid subject w), w')
    /\ sameTables w w' /\ quiet w'.
Proof.
  intros Hq. destruct pid as [p|].
  - destruct (checkExisting_answered p subject w (quiet_lookupAnswered p subject w Hq))
      as (k & w' & Hrun & _ & Hw & Ht & _ & _ & Hf).
    exists w'. split; [exact Hrun|]. split; [by split|].
    unfold quiet in *. rewrite Hf, Hq. by destruct k.
  - eexists. split.
    + unfold checkExistingWorkPackageBySubject, checkExistingWorkPackageBySubjectFuel.
      simpl. unfold fetchWorkPackagesPage. rewrite makeRequest_quiet by done.
      reflexivity.
    + split; [by split | exact Hq].
Qed.

Lemma createWorkPackage_quiet pid subject activityType description statusId w :
  quiet w ->
  match lookupResult pid subject w, pid with
  | Some wp, _ =>
      exists w', createWorkPackage pid subject activityType description statusId w
                 = (Ok wp, w')
                 /\ sameTables w w' /\ quiet w'
  | None, Some p =>
      exists wp w', createWorkPackage pid subject activityType description statusId w
                    = (Ok wp, w')
                    /\ work_packages w' = work_packages w ++ [wp]
                    /\ time_entries w' = time_entries w
                    /\ wp_subject wp = Some subject /\ wp_project wp = p /\ quiet w'
  | None, None =>
      exists msg w', createWorkPackage pid subject activityType description statusId w
                     = (Throw msg, w')
                     /\ sameTables w w' /\ quiet w'
  end.
Proof.
  intros Hq.
  destruct (checkExisting_quiet pid subject w Hq) as (w1 & Hrun & [Hw Ht] & Hq1).
  unfold createWorkPackage, bind. rewrite Hrun.
  destruct (lookupResult pid subject w) as [wp|].
  - exists w1. by repeat split.
  - rewrite makeRequest_quiet by done.
    destruct pid as [p|]; simpl.
    + eexists _, _. split; [reflexivity|]. simpl. rewrite Hw, Ht. by repeat split.
    + eexists _, _. split; [reflexivity|]. by repeat split.
Qed.

Definition matchesPair (id : Z) (day : string) (te : TimeEntry) : bool :=
  String.eqb (te_spentOn te) day && (te_workPackage te =? id).

(** The server holds a time entry for the work package and the day. *)
Definition hasTimeEntry (id : Z) (day : string) (w : World) : Prop :=
  exists te, te ∈ time_entries w /\ matchesPair id day te = true.

(** The next request is answered. *)
Definition nextAnswered (w : World) : Prop :=
  match fault_script w with
  | Some _ :: _ => False
  | _ => True
  end.

Lemma quiet_nextAnswered w : quiet w -> nextAnswered w.
Proof. unfold quiet, nextAnswered. by intros ->. Qed.

Lemma filter_nonempty {A} (p : A -> bool) (l : list A) :
  (0 < length (List.filter p l))%nat <-> exists x, x ∈ l /\ p x = true.
Proof.
  induction l as [|x l IH]; simpl.
  - split; [lia | intros (x & Hx & _); by apply elem_of_nil in Hx].
  - destruct (p x) eqn:Ep; simpl.
    + split; [intros _; exists x; split; [left | done] | lia].
    + rewrite IH. split.
      * intros (y & Hy & Hp). exists y. split; [by right | done].
      * intros (y & Hy & Hp). apply elem_of_cons in Hy as [-> | Hy]; [congruence | eauto].
Qed.

(** The listing of the time entries, when it is answered. *)
Lemma checkExistingTimeEntries_answered id day w :
  nextAnswered w ->
  exists w',
    checkExistingTimeEntries id day w
    = (Ok (List.filter (matchesPair id (formatDateForComparison day)) (time_entries w)), w')
    /\ sameTables w w' /\ fault_script w' = drop 1 (fault_script w).
Proof.
  intros Hna. unfold checkExistingTimeEntries, tryCatch, bind, makeRequest, nextAnswered in *.
  simpl. destruct (fault_script w) as [|[msg|] rest] eqn:Ef; [|done|]; simpl.
  - eexists. split; [reflexivity|]. simpl. by rewrite Ef.
  - eexists. split; [reflexivity|]. simpl. by rewrite drop_0.
Qed.

End QuietWorlds.

Section CanonicalDates.

Import ApiClient.

Context `{JsPlatform}.

Definition notT (c : ascii) : bool := negb (Ascii.eqb c "T").

Lemma includes_T_false s :
  JsString.forallChars notT s = true -> JsString.includes s "T" = false.
Proof.
  induction s as [|c s IH]; [done|].
  cbn [JsString.includes JsString.forallChars String.prefix].
  intros [Hc Hs]%andb_true_iff. rewrite (IH Hs), orb_false_r.
  destruct (ascii_dec "T" c) as [<-|]; [discriminate | done].
Qed.

Lemma isDigit_notT c : JsString.isDigit c = true -> notT c = true.
Proof.
  intros Hd. unfold notT. destruct (Ascii.eqb_spec c "T") as [->|]; [discriminate | done].
Qed.

Lemma canonical_no_T day : isCanonicalDate day = true -> JsString.includes day "T" = false.
Proof.
  intros Hc. apply includes_T_false. revert Hc. unfold isCanonicalDate.
  do 10 (destruct day as [|? day]; [discriminate|]). destruct day; [|discriminate].
  cbn [forallb]. intros Hc. rewrite !andb_true_iff in Hc.
  destruct Hc as [[(? & ? & ? & ? & ? & ? & ? & ? & _) Hs1%Ascii.eqb_eq] Hs2%Ascii.eqb_eq].
  subst. cbn [JsString.forallChars].
  repeat match goal with
         | Hd : JsString.isDigit ?c = true |- _ => rewrite (isDigit_notT c Hd); clear Hd
         end.
  reflexivity.
Qed.

Lemma canonical_formats day :
  isCanonicalDate day = true ->
  formatDateForComparison day = day /\ parseAndFormatDate day = Ok day.
Proof.
  intros Hc. unfold formatDateForComparison, parseAndFormatDate.
  by rewrite (canonical_no_T day Hc), Hc.
Qed.

End CanonicalDates.

Section Idempotence.

Import ApiClient.

Context `{JsPlatform}.

Variables (cfg : Config) (day : string).
Hypothesis Hday : isCanonicalDate day = true.

Lemma addTimeEntry_skips id entry d results w :
  nextAnswered w ->
  hasTimeEntry id (formatDateForComparison day) w ->
  exists d' w',
    addTimeEntry cfg id entry day d results w = (Ok (d', countSuccess results), w')
    /\ d_status d' = Some "skipped_duplicate_time_entry"
    /\ sameTables w w' /\ fault_script w' = drop 1 (fault_script w).
Proof.
  intros Hna Hhas.
  destruct (checkExistingTimeEntries_answered id day w Hna) as (w' & Hrun & Hsame & Hf).
  unfold addTimeEntry, bind. rewrite Hrun.
  apply filter_nonempty in Hhas. apply Nat.ltb_lt in Hhas. rewrite Hhas.
  eexists _, w'. split; [reflexivity|]. split; [reflexivity|]. by split.
Qed.

Lemma createTimeEntry_quiet id start hrs act note w :
  quiet w ->
  match validateHours hrs with
  | Ok h =>
      exists te w',
        createTimeEntry cfg id day start hrs act note w = (Ok te, w')
        /\ time_entries w' = time_entries w ++ [te]
        /\ work_packages w' = work_packages w
        /\ matchesPair id day te = true /\ quiet w'
  | Throw msg => createTimeEntry cfg id day start hrs act note w = (Throw msg, w)
  end.
Proof.
  intros Hq. unfold createTimeEntry.
  rewrite (proj2 (canonical_formats day Hday)).
  destruct (validateHours hrs) as [h|msg]; [|done].
  rewrite makeRequest_quiet by done.
  eexists _, _. split; [reflexivity|]. simpl. repeat split; try done.
  unfold matchesPair. simpl. by rewrite String.eqb_refl, Z.eqb_refl.
Qed.

(** The work package an entry is booked on, on the server as it is:
    the linked one, or the first with the entry's subject in its project. *)
Definition resolved (e : Entry) (w : World) : option Z :=
  if truthyZ (work_package_id e) then work_package_id e
  else wp_id <$> lookupResult (project_id e) (subject e) w.

Lemma lookupResult_tables pid subject w w' :
  work_packages w' = work_packages w ->
  lookupResult pid subject w' = lookupResult pid subject w.
Proof.
  intros Hw. destruct pid as [p|]; [|done]. simpl.
  by rewrite (frame_project p w w' Hw).
Qed.

Lemma resolved_tables e w w' :
  work_packages w' = work_packages w -> resolved e w' = resolved e w.
Proof. intros Hw. unfold resolved. by rewrite (lookupResult_tables _ _ w w' Hw). Qed.

Lemma projectWorkPackages_app p w w' wps :
  work_packages w' = work_packages w ++ wps ->
  projectWorkPackages p w'
  = projectWorkPackages p w ++ List.filter (fun wp => wp_project wp =? p) wps.
Proof. unfold projectWorkPackages. intros ->. apply List.filter_app. Qed.

Lemma resolved_extends e w w' id :
  extends w w' -> resolved e w = Some id -> resolved e w' = Some id.
Proof.
  intros [[wps Hw] _]. unfold resolved.
  destruct (truthyZ (work_package_id e)); [done|].
  destruct (project_id e) as [p|]; [|done]. simpl.
  rewrite (projectWorkPackages_app p w w' wps Hw), findMatching_app.
  by destruct (findMatchingWorkPackage (projectWorkPackages p w) _).
Qed.

Lemma hasTimeEntry_extends id w w' :
  extends w w' -> hasTimeEntry id day w -> hasTimeEntry id day w'.
Proof.
  intros [_ [tes Ht]] (te & Hin & Hm). exists te. split; [|done].
  rewrite Ht. apply elem_of_app. by left.
Qed.

(** What [ensureWorkPackageExists] does when every request is answered. *)
Lemma ensureWorkPackageExists_quiet e d w :
  quiet w ->
  match resolved e w, project_id e with
  | Some id, _ =>
      exists d1 w1,
        ensureWorkPackageExists e d w = (Ok (id, d1), w1)
        /\ sameTables w w1 /\ quiet w1
  | None, Some p =>
      exists wp d1 w1,
        ensureWorkPackageExists e d w = (Ok (wp_id wp, d1), w1)
        /\ work_packages w1 = work_packages w ++ [wp]
        /\ time_entries w1 = time_entries w
        /\ resolved e w1 = Some (wp_id wp) /\ quiet w1
  | None, None =>
      exists msg w1,
        ensureWorkPackageExists e d w = (Throw msg, w1)
        /\ sameTables w w1 /\ quiet w1
  end.
Proof.
  intros Hq. unfold resolved, ensureWorkPackageExists.
  destruct (truthyZ (work_package_id e)) eqn:Et.
  - destruct (work_package_id e) as [id|]; [|discriminate].
    eexists _, w. split; [reflexivity|]. by repeat split.
  - destruct (checkExisting_quiet (project_id e) (subject e) w Hq)
      as (w1 & Hrun & [Hw Ht] & Hq1).
    unfold bind. rewrite Hrun.
    destruct (lookupResult (project_id e) (subject e) w) as [wp|] eqn:Elook; simpl.
    + eexists _, w1. split; [reflexivity|]. by repeat split.
    + assert (Hc := createWorkPackage_quiet (project_id e) (subject e) (activity e)
                      (default "" (orElse truthyS (comment e) None)) 7 w1 Hq1).
      rewrite (lookupResult_tables _ _ w w1 Hw), Elook in Hc.
      destruct (project_id e) as [p|] eqn:Ep.
      * destruct Hc as (wp & w2 & -> & Hw2 & Ht2 & Hsub & Hproj & Hq2).
        eexists wp, _, w2. split; [reflexivity|].
        split; [by rewrite Hw2, Hw|]. split; [by rewrite Ht2, Ht|]. split; [|done].
        simpl. simpl in Elook.
        rewrite (projectWorkPackages_app p w1 w2 [wp] Hw2), findMatching_app.
        rewrite (frame_project p w w1 Hw), Elook. simpl.
        rewrite Hproj, Z.eqb_refl. simpl. rewrite Hsub. simpl.
        by rewrite String.eqb_refl.
      * destruct Hc as (msg & w2 & -> & [Hw2 Ht2] & Hq2).
        eexists msg, w2. split; [reflexivity|].
        split; [split; congruence | done].
Qed.

(** Nothing is left to do for the entry: its time entry is there, or its
    hours are refused, or no work package can be provided for it. *)
Definition settled (e : Entry) (w : World) : Prop :=
  match resolved e w with
  | Some id => hasTimeEntry id day w \/ exists msg, validateHours (hours e) = Throw msg
  | None => project_id e = None
  end.

(** The entry's time entry is there. *)
Definition booked (e : Entry) (w : World) : Prop :=
  exists id, resolved e w = Some id /\ hasTimeEntry id day w.

Lemma settled_extends e w w' : extends w w' -> settled e w -> settled e w'.
Proof.
  intros Hext. unfold settled.
  destruct (resolved e w) as [id|] eqn:Er.
  - rewrite (resolved_extends e w w' id Hext Er).
    intros [Hhas | Hbad]; [left; by apply (hasTimeEntry_extends id w w') | by right].
  - intros Hp. unfold resolved in *. rewrite Hp in *. simpl in *.
    destruct (truthyZ (work_package_id e)); [by rewrite Er | done].
Qed.

Lemma booked_extends e w w' : extends w w' -> booked e w -> booked e w'.
Proof.
  intros Hext (id & Hr & Hhas). exists id.
  split; [by apply (resolved_extends e w w') | by apply (hasTimeEntry_extends id w w')].
Qed.

(** [addTimeEntry] when every request is answered. *)
Lemma addTimeEntry_quiet id e d r w :
  quiet w ->
  (hasTimeEntry id day w
   /\ exists d' w',
        addTimeEntry cfg id e day d r w = (Ok (d', countSuccess r), w')
        /\ d_status d' = Some "skipped_duplicate_time_entry"
        /\ sameTables w w' /\ quiet w')
  \/ (~ hasTimeEntry id day w
      /\ match validateHours (hours e) with
         | Ok _ =>
             exists d' w' te,
               addTimeEntry cfg id e day d r w = (Ok (d', countSuccess r), w')
               /\ d_status d' = Some "created_time_entry"
               /\ work_packages w' = work_packages w
               /\ time_entries w' = time_entries w ++ [te]
               /\ matchesPair id day te = true /\ quiet w'
         | Throw msg =>
             exists w', addTimeEntry cfg id e day d r w = (Throw msg, w')
                        /\ sameTables w w' /\ quiet w'
         end).
Proof.
  intros Hq.
  destruct (checkExistingTimeEntries_answered id day w (quiet_nextAnswered w Hq))
    as (w1 & Hrun & [Hw Ht] & Hf).
  assert (Hq1 : quiet w1) by (unfold quiet in *; by rewrite Hf, Hq).
  rewrite (proj1 (canonical_formats day Hday)) in Hrun.
  unfold addTimeEntry, bind. rewrite Hrun.
  destruct (Nat.ltb_spec 0 (length (List.filter (matchesPair id day) (time_entries w))))
    as [Hsome|Hnone].
  - left. split; [by apply filter_nonempty|].
    eexists _, w1. split; [reflexivity|]. split; [reflexivity|]. by split.
  - right. split.
    { intros Hhas. apply filter_nonempty in Hhas. lia. }
    assert (Hc := createTimeEntry_quiet id (start_time e) (hours e) (activity e)
                    (default "" (orElse truthyS (comment e) None)) w1 Hq1).
    destruct (validateHours (hours e)) as [h|msg].
    + destruct Hc as (te & w2 & -> & Ht2 & Hw2 & Hm & Hq2).
      eexists _, w2, te. split; [reflexivity|]. split; [reflexivity|].
      split; [congruence|]. split; [by rewrite Ht2, Ht|]. by split.
    + rewrite Hc. exists w1. split; [reflexivity|]. by split.
Qed.

Lemma hasTimeEntry_tables id w w' :
  time_entries w' = time_entries w -> hasTimeEntry id day w -> hasTimeEntry id day w'.
Proof. intros Ht (te & Hin & Hm). exists te. by rewrite Ht. Qed.

(** A first turn on an entry settles it, and books it unless the turn
    ends in an error. *)
Lemma step_first e i r w :
  quiet w ->
  exists d,
    details (fst (processWorkLogEntry cfg e i day r w)) = details r ++ [d]
    /\ extends w (snd (processWorkLogEntry cfg e i day r w))
    /\ quiet (snd (processWorkLogEntry cfg e i day r w))
    /\ settled e (snd (processWorkLogEntry cfg e i day r w))
    /\ (isErrorDetail d = false -> booked e (snd (processWorkLogEntry cfg e i day r w))).
Proof.
  intros Hq. unfold processWorkLogEntry.
  assert (Hens := ensureWorkPackageExists_quiet e (createEntryDetail e i) w Hq).
  assert (Hgo : forall id d1 w1,
             ensureWorkPackageExists e (createEntryDetail e i) w = (Ok (id, d1), w1) ->
             extends w w1 -> quiet w1 -> resolved e w1 = Some id ->
             exists d,
               details (fst (match addTimeEntry cfg id e day d1 r w1 with
                             | (Ok dr, w2) => (pushDetail dr, w2)
                             | (Throw msg, w2) =>
                                 (pushDetail (handleEntryError d1 msg r), w2)
                             end)) = details r ++ [d]
               /\ extends w (snd (match addTimeEntry cfg id e day d1 r w1 with
                                  | (Ok dr, w2) => (pushDetail dr, w2)
                                  | (Throw msg, w2) =>
                                      (pushDetail (handleEntryError d1 msg r), w2)
                                  end))
               /\ quiet (snd (match addTimeEntry cfg id e day d1 r w1 with
                              | (Ok dr, w2) => (pushDetail dr, w2)
                              | (Throw msg, w2) =>
                                  (pushDetail (handleEntryError d1 msg r), w2)
                              end))
               /\ settled e (snd (match addTimeEntry cfg id e day d1 r w1 with
                                  | (Ok dr, w2) => (pushDetail dr, w2)
                                  | (Throw msg, w2) =>
                                      (pushDetail (handleEntryError d1 msg r), w2)
                                  end))
               /\ (isErrorDetail d = false ->
                   booked e (snd (match addTimeEntry cfg id e day d1 r w1 with
                                  | (Ok dr, w2) => (pushDetail dr, w2)
                                  | (Throw msg, w2) =>
                                      (pushDetail (handleEntryError d1 msg r), w2)
                                  end)))).
  { intros id d1 w1 _ Hext Hq1 Hres.
    destruct (addTimeEntry_quiet id e d1 r w1 Hq1)
      as [(Hhas & d' & w2 & -> & Hst & [Hw2 Ht2] & Hq2) | (Hno & Hcase)].
    - exists d'. simpl.
      assert (Hr2 : resolved e w2 = Some id) by (by rewrite (resolved_tables e w1 w2 Hw2)).
      assert (Hh2 : hasTimeEntry id day w2) by (by apply (hasTimeEntry_tables id w1 w2)).
      split; [done|].
      split; [apply (extends_trans w w1 w2 Hext), sameTables_extends; by split|].
      split; [done|]. unfold settled, booked. rewrite Hr2. split; [by left | eauto].
    - destruct (validateHours (hours e)) as [h|msg] eqn:Ev.
      + destruct Hcase as (d' & w2 & te & -> & Hst & Hw2 & Ht2 & Hm & Hq2).
        exists d'. simpl.
        assert (Hr2 : resolved e w2 = Some id)
          by (by rewrite (resolved_tables e w1 w2 Hw2)).
        assert (Hh2 : hasTimeEntry id day w2).
        { exists te. split; [|done]. rewrite Ht2. apply elem_of_app. right. by left. }
        split; [done|].
        split.
        { apply (extends_trans w w1 w2 Hext). split; [exists [] | exists [te]];
            [by rewrite app_nil_r | done]. }
        split; [done|]. unfold settled, booked. rewrite Hr2. split; [by left | eauto].
      + destruct Hcase as (w2 & -> & [Hw2 Ht2] & Hq2).
        eexists. simpl. split; [reflexivity|].
        split; [apply (extends_trans w w1 w2 Hext), sameTables_extends; by split|].
        split; [done|].
        split.
        * unfold settled. rewrite (resolved_tables e w1 w2 Hw2), Hres. right. eauto.
        * intros Hx. cbv in Hx. discriminate. }
  destruct (resolved e w) as [id|] eqn:Er.
  - destruct Hens as (d1 & w1 & Hrun & [Hw1 Ht1] & Hq1). rewrite Hrun.
    apply (Hgo id d1 w1 Hrun); [apply sameTables_extends; by split | done |].
    by rewrite (resolved_tables e w w1 Hw1).
  - destruct (project_id e) as [p|] eqn:Ep.
    + destruct Hens as (wp & d1 & w1 & Hrun & Hw1 & Ht1 & Hr1 & Hq1). rewrite Hrun.
      apply (Hgo (wp_id wp) d1 w1 Hrun); [|done|done].
      split; [by exists [wp] | exists []; by rewrite app_nil_r].
    + destruct Hens as (msg & w1 & Hrun & [Hw1 Ht1] & Hq1). rewrite Hrun.
      eexists. simpl. split; [reflexivity|].
      split; [apply sameTables_extends; by split|]. split; [done|].
      split.
      * unfold settled. by rewrite (resolved_tables e w w1 Hw1), Er.
      * intros Hx. cbv in Hx. discriminate.
Qed.

(** A turn on a settled entry changes nothing on the server, and skips
    the entry when it is booked. *)
Lemma step_second e i r w :
  quiet w -> settled e w ->
  exists d,
    details (fst (processWorkLogEntry cfg e i day r w)) = details r ++ [d]
    /\ sameTables w (snd (processWorkLogEntry cfg e i day r w))
    /\ quiet (snd (processWorkLogEntry cfg e i day r w))
    /\ (booked e w -> d_status d = Some "skipped_duplicate_time_entry").
Proof.
  intros Hq Hset. unfold processWorkLogEntry.
  assert (Hens := ensureWorkPackageExists_quiet e (createEntryDetail e i) w Hq).
  unfold settled in Hset.
  destruct (resolved e w) as [id|] eqn:Er.
  - destruct Hens as (d1 & w1 & -> & [Hw1 Ht1] & Hq1).
    destruct (addTimeEntry_quiet id e d1 r w1 Hq1)
      as [(Hhas & d' & w2 & -> & Hst & [Hw2 Ht2] & Hq2) | (Hno & Hcase)].
    + exists d'. simpl. split; [done|]. split; [split; congruence|]. by split.
    + destruct Hset as [Hhas | [msg Hbad]].
      { destruct Hno. by apply (hasTimeEntry_tables id w w1). }
      rewrite Hbad in Hcase. destruct Hcase as (w2 & -> & [Hw2 Ht2] & Hq2).
      eexists. simpl. split; [reflexivity|]. split; [split; congruence|].
      split; [done|].
      intros (id' & Hid' & Hhas). destruct Hno.
      rewrite Er in Hid'. injection Hid' as <-. by apply (hasTimeEntry_tables id w w1).
  - rewrite Hset in Hens. destruct Hens as (msg & w1 & -> & Hsame & Hq1).
    eexists. simpl. split; [reflexivity|]. split; [done|]. split; [done|].
    intros (id' & Hid' & _). rewrite Er in Hid'. discriminate.
Qed.

Lemma run_first l : forall i r w,
  quiet w ->
  exists ds,
    details (fst (processFrom cfg l i day r w)) = details r ++ ds
    /\ extends w (snd (processFrom cfg l i day r w))
    /\ quiet (snd (processFrom cfg l i day r w))
    /\ Forall (fun e => settled e (snd (processFrom cfg l i day r w))) l
    /\ Forall2 (fun e d => isErrorDetail d = false ->
                           booked e (snd (processFrom cfg l i day r w))) l ds.
Proof.
  induction l as [|e l IH]; intros i r w Hq; simpl.
  - exists []. rewrite app_nil_r. repeat split; try done; try apply extends_refl.
  - destruct (step_first e i r w Hq) as (d & Hd & Hext & Hq1 & Hset & Hbook).
    destruct (processWorkLogEntry cfg e i day r w) as [r1 w1]. simpl in *.
    destruct (IH (i + 1)%nat r1 w1 Hq1) as (ds & Hds & Hext' & Hq' & Hall & Hall2).
    exists (d :: ds). rewrite Hds, Hd, <- app_assoc. split; [done|].
    split; [by apply (extends_trans w w1)|]. split; [done|].
    split; constructor; try done.
    + by apply (settled_extends e w1).
    + intros Hok. by apply (booked_extends e w1), Hbook.
Qed.

Lemma run_second l : forall i r w,
  quiet w -> Forall (fun e => settled e w) l ->
  exists ds,
    details (fst (processFrom cfg l i day r w)) = details r ++ ds
    /\ sameTables w (snd (processFrom cfg l i day r w))
    /\ quiet (snd (processFrom cfg l i day r w))
    /\ Forall2 (fun e d => booked e w -> d_status d = Some "skipped_duplicate_time_entry")
               l ds.
Proof.
  induction l as [|e l IH]; intros i r w Hq Hall; simpl.
  - exists []. rewrite app_nil_r. repeat split; try done.
  - inversion Hall as [|? ? Hset Hrest]; subst.
    destruct (step_second e i r w Hq Hset) as (d & Hd & Hsame & Hq1 & Hskip).
    destruct (processWorkLogEntry cfg e i day r w) as [r1 w1]. simpl in *.
    assert (Hext : extends w w1) by (by apply sameTables_extends).
    destruct (IH (i + 1)%nat r1 w1 Hq1) as (ds & Hds & Hsame' & Hq' & Hall2).
    { eapply Forall_impl; [exact Hrest|]. intros x Hx. by apply (settled_extends x w). }
    exists (d :: ds). rewrite Hds, Hd, <- app_assoc. split; [done|].
    split. { destruct Hsame as [? ?], Hsame' as [? ?]. split; congruence. }
    split; [done|]. constructor; [done|].
    eapply Forall2_impl; [exact Hall2|]. intros x y Hxy Hb.
    apply Hxy. by apply (booked_extends x w).
Qed.

End Idempotence.

Section DuplicateTimeEntries.

Import ApiClient.

Context `{JsPlatform}.

Variables (cfg : Config) (day : string).

Lemma Forall2_join {A B C} (P : A -> B -> Prop) (Q : A -> C -> Prop) l l1 l2 :
  Forall2 P l l1 -> Forall2 Q l l2 ->
  Forall2 (fun b c => exists a, P a b /\ Q a c) l1 l2.
Proof.
  intros HP. revert l2. induction HP as [|a b l l1 Hab HP IH]; intros l2 HQ.
  - inversion HQ. constructor.
  - inversion HQ as [|? c ? l2' Hac HQ']; subst. constructor; [eauto | by apply IH].
Qed.

(** C2, as the code has it, for the client's loop
    ([processWorkLogEntries], [addTimeEntry]).  When the work package of a
    task is provided, the listing of the time entries is answered, and a
    time entry is there for that work package and the date, the task is
    skipped: its outcome is [skipped_duplicate_time_entry], it counts as
    successful, and no time entry and no work package is created.
    Consequently a second run of the loop over the same tasks, with every
    request answered and the date in canonical form, leaves the server's
    time entries (and work packages) as the first run left them, and every
    task that did not end in an error in the first run is skipped in the
    second. *)
Theorem client_skips_duplicate_time_entries :
  (forall e i r w id d1 w1,
      ensureWorkPackageExists e (createEntryDetail e i) w = (Ok (id, d1), w1) ->
      nextAnswered w1 ->
      hasTimeEntry id (formatDateForComparison day) w1 ->
      exists d,
        details (fst (processWorkLogEntry cfg e i day r w)) = details r ++ [d]
        /\ d_status d = Some "skipped_duplicate_time_entry"
        /\ successful (fst (processWorkLogEntry cfg e i day r w)) = (successful r + 1)%nat
        /\ failed (fst (processWorkLogEntry cfg e i day r w)) = failed r
        /\ time_entries (snd (processWorkLogEntry cfg e i day r w)) = time_entries w1
        /\ work_packages (snd (processWorkLogEntry cfg e i day r w)) = work_packages w1)
  /\ (forall l w,
        isCanonicalDate day = true -> quiet w ->
        let first := processWorkLogEntries cfg l day w in
        let second := processWorkLogEntries cfg l day (snd first) in
        time_entries (snd second) = time_entries (snd first)
        /\ work_packages (snd second) = work_packages (snd first)
        /\ Forall2 (fun d1 d2 => isErrorDetail d1 = false ->
                                 d_status d2 = Some "skipped_duplicate_time_entry")
                   (details (fst first)) (details (fst second))).
Proof.
  split.
  - intros e i r w id d1 w1 Hens Hna Hhas.
    destruct (addTimeEntry_skips cfg day id e d1 r w1 Hna Hhas)
      as (d & w2 & Hadd & Hst & [Hw Ht] & _).
    exists d. unfold processWorkLogEntry. rewrite Hens, Hadd. simpl.
    repeat split; done.
  - intros l w Hday Hq first second. subst first second.
    unfold processWorkLogEntries.
    change {| successful := 0; failed := 0; details := [] |} with zeroResults.
    destruct (run_first cfg day Hday l 0 zeroResults w Hq)
      as (ds1 & Hd1 & _ & Hq1 & Hset & Hbooked).
    destruct (run_second cfg day Hday l 0 zeroResults
                (snd (processFrom cfg l 0 day zeroResults w)) Hq1 Hset)
      as (ds2 & Hd2 & [Hw Ht] & _ & Hskip).
    split; [exact Ht|]. split; [exact Hw|].
    rewrite Hd1, Hd2. simpl.
    eapply Forall2_impl; [exact (Forall2_join _ _ _ _ _ Hbooked Hskip)|].
    intros d1 d2 (e & Hb & Hs) Hok. by apply Hs, Hb.
Qed.

End DuplicateTimeEntries.

Definition mkTimeEntry (id workPackageId : Z) (day : string) : TimeEntry :=
  {| te_id := id; te_spentOn := day; te_hours := 2%Q; te_workPackage := workPackageId;
     te_activity := 3; te_startTime := None; te_comment := "" |}.

Lemma client_skips_duplicate_time_entries_witness :
  let l := [sampleEntry "write report" None; sampleEntry "linked" (Some 5)] in
  let first := @ApiClient.processWorkLogEntries plainPlatform sampleConfig l "2025-10-23"
                 (quietWorld [] []) in
  let second := @ApiClient.processWorkLogEntries plainPlatform sampleConfig l "2025-10-23"
                  (snd first) in
  (ApiClient.isCanonicalDate "2025-10-23" = true /\ quiet (quietWorld [] []))
  /\ length (time_entries (snd first)) = 2%nat
  /\ time_entries (snd second) = time_entries (snd first)
  /\ map ApiClient.d_status (ApiClient.details (fst second))
     = [Some "skipped_duplicate_time_entry"; Some "skipped_duplicate_time_entry"].
Proof.
  intros l first second.
  split; [split; reflexivity|]. split; [reflexivity|].
  split; [|vm_compute; reflexivity].
  exact (proj1 (proj2 (@client_skips_duplicate_time_entries plainPlatform sampleConfig
                         "2025-10-23") l (quietWorld [] []) eq_refl eq_refl)).
Defined.

(** C2 as stated fails, in two ways.  In the loop of the service
    ([processAllEntries], [processEntry]) nothing asks for the time entries
    that are there: a second run over a server that the first run left
    books the same task again.  In the loop of the client, a listing of the
    time entries that fails is taken for an empty one, and the time entry
    is created beside the one that is there. *)
Lemma time_entries_are_duplicated :
  let svc0 := {| Service.config := sampleConfig;
                 Service.analysisData := Some Service.emptyAnalysis;
                 Service.statusData := [] |} in
  let l := [sampleEntry "linked" (Some 5)] in
  let w0 := quietWorld [mkWorkPackage 5 7 "linked"] [] in
  let first := @Service.processAllEntries plainPlatform svc0 l ∅ w0 in
  let second := @Service.processAllEntries plainPlatform svc0 l ∅ (snd first) in
  let w1 := faultyWorld [mkWorkPackage 5 7 "linked"] [mkTimeEntry 1 5 "2025-10-23"]
              [Some "HTTP 500: "] in
  let third := @ApiClient.processWorkLogEntries plainPlatform sampleConfig l
                 "2025-10-23" w1 in
  (map (fun te => (te_workPackage te, te_spentOn te)) (time_entries (snd first))
   = [(5, "2025-10-23")]
   /\ map (fun te => (te_workPackage te, te_spentOn te)) (time_entries (snd second))
      = [(5, "2025-10-23"); (5, "2025-10-23")]
   /\ map (fun o => (Service.success o, Service.r_type <$> Service.o_result o))
          (Service.results (fst (fst second)))
      = [(true, Some "duplicate")])
  /\ (map (fun te => (te_workPackage te, te_spentOn te)) (time_entries (snd third))
      = [(5, "2025-10-23"); (5, "2025-10-23")]
      /\ map ApiClient.d_status (ApiClient.details (fst third))
         = [Some "created_time_entry"]).
Proof. vm_compute. repeat split; reflexivity. Qed.

(** ** Times of day *)

Section Clock.

Import Service.

Context `{JsPlatform}.

(** Hour and minute as [addHoursToTime] reads them off a string that holds
    no [T]. *)
Definition clockOf (s : string) : Z * Z :=
  let parts := JsString.split ":" s in
  (parseIntOr0 (default "" (parts !! 0%nat)),
   if truthyS (parts !! 1%nat) then parseIntOr0 (default "" (parts !! 1%nat)) else 0).

Definition clockMinutes (s : string) : Z := fst (clockOf s) * 60 + snd (clockOf s).

(** [HH:MM], both parts padded to two digits, as [addHoursToTime] writes it. *)
Definition formatClock (h m : Z) : string :=
  (JsString.padStart 2 "0" (JsString.ofInt h) ++ ":"
     ++ JsString.padStart 2 "0" (JsString.ofInt m))%string.

(** A string that [addHoursToTime] reads as a time of the day: not empty, no
    [T] in it, hour and minute not negative, and before 24:00. *)
Definition timeOfDay (s : string) : Prop :=
  s <> "" /\ JsString.includes s "T" = false
  /\ 0 <= fst (clockOf s) /\ 0 <= snd (clockOf s) /\ clockMinutes s < 1440.

Definition zrange (lo : Z) (n : nat) : list Z := map (fun i => lo + Z.of_nat i) (seq 0 n).

Lemma zrange_elem lo n x : lo <= x < lo + Z.of_nat n -> x ∈ zrange lo n.
Proof.
  intros Hx. unfold zrange. apply list_elem_of_fmap.
  exists (Z.to_nat (x - lo)). split; [lia|]. apply elem_of_seq. lia.
Qed.

Definition clockRoundTrips (h m : Z) : bool :=
  negb (String.eqb (formatClock h m) "")
  && negb (JsString.includes (formatClock h m) "T")
  && (fst (clockOf (formatClock h m)) =? h) && (snd (clockOf (formatClock h m)) =? m)
  && isClockString (formatClock h m).

Lemma clock_round_trips_all :
  forallb (fun h => forallb (clockRoundTrips h) (zrange 0 60)) (zrange 0 24) = true.
Proof. vm_compute. reflexivity. Qed.

(** A time that [addHoursToTime] has written is read back as written. *)
Lemma formatClock_spec h m :
  0 <= h < 24 -> 0 <= m < 60 ->
  timeOfDay (formatClock h m) /\ clockOf (formatClock h m) = (h, m)
  /\ isClockString (formatClock h m) = true.
Proof.
  intros Hh Hm.
  assert (Hall := clock_round_trips_all).
  rewrite forallb_forall in Hall.
  assert (Hrow := Hall h (proj1 (list_elem_of_In _ _) (zrange_elem 0 24 h ltac:(lia)))).
  rewrite forallb_forall in Hrow.
  assert (Hc := Hrow m (proj1 (list_elem_of_In _ _) (zrange_elem 0 60 m ltac:(lia)))).
  unfold clockRoundTrips in Hc. rewrite !andb_true_iff in Hc.
  destruct Hc as [[[[Hne Hno] Hfst%Z.eqb_eq] Hsnd%Z.eqb_eq] Hclock].
  apply negb_true_iff in Hne, Hno. apply String.eqb_neq in Hne.
  assert (Hof : clockOf (formatClock h m) = (h, m))
    by (destruct (clockOf (formatClock h m)); simpl in *; congruence).
  split; [|by split].
  unfold timeOfDay, clockMinutes. rewrite Hof. simpl. repeat split; try done; lia.
Qed.

Lemma mathRound_nonneg q : (0 <= q)%Q -> 0 <= mathRound q.
Proof.
  intros Hq. unfold mathRound.
  change 0 with (Qfloor 0). apply Qfloor_resp_le.
  apply Qle_trans with q; [done|].
  rewrite <- (Qplus_0_r q) at 1. apply Qplus_le_r. discriminate.
Qed.

Lemma mathRound_zero q : Qeq_bool q 0 = true -> mathRound (q * 60) = 0.
Proof.
  intros Hq%Qeq_bool_iff. unfold mathRound.
  assert (Heq : (q * 60 + (1 # 2) == 1 # 2)%Q) by (rewrite Hq; reflexivity).
  rewrite (Qfloor_comp _ _ Heq). reflexivity.
Qed.

(** [Math.round(hours * 60)] as the engine computes it while the product
    is a finite number: the hours as a double, the double nearest to the
    product, and that rounded to a whole number, a half going up. *)
Definition jsMinutes (hours : Q) : Z :=
  mathRound (JsNumber.nearest (JsNumber.nearest hours * 60)).

(** Hours up to [2^32] cover every task the parser lets through: the end
    of a task has to be a date. *)
Definition maxHours : Q := 4294967296.

Lemma jsMinutes_zero hrs : (hrs == 0)%Q -> jsMinutes hrs = 0.
Proof.
  intros Hz. unfold jsMinutes. rewrite (nearest_zero hrs Hz).
  by rewrite (nearest_zero (0 * 60)).
Qed.

(** Within [maxHours] the minutes are a whole number the arithmetic that
    follows keeps exact. *)
Lemma minutes_whole hrs :
  (0 <= hrs)%Q -> (hrs <= maxHours)%Q ->
  whole
    (JsNumber.round (JsNumber.mul (JsNumber.ofQ hrs) (JsNumber.ofZ 60))) (jsMinutes hrs)
  /\ 0 <= jsMinutes hrs < 2 ^ 42.
Proof.
  intros H0 H1.
  assert (Hsize : (Qabs hrs < JsNumber.pow2 33)%Q).
  { rewrite (Qabs_pos hrs H0). by apply Qle_lt_trans with maxHours. }
  pose proof (nearest_small hrs 33 Hsize ltac:(lia)) as Hn.
  change (33 + 1) with 34 in Hn.
  pose proof (nearest_nonneg hrs H0) as Hn0.
  rewrite (Qabs_pos _ Hn0) in Hn.
  assert (Hq : JsNumber.ofQ hrs = JsNumber.Finite (JsNumber.nearest hrs)).
  { apply round64_finite. rewrite (Qabs_pos _ Hn0).
    eapply Qlt_trans; [exact Hn|]. apply pow2_lt. lia. }
  assert (H60 : JsNumber.ofZ 60 = JsNumber.Finite 60).
  { apply (round64_Z (inject_Z 60) 60); [reflexivity | by vm_compute]. }
  rewrite Hq, H60. cbn [JsNumber.mul].
  set (p := (JsNumber.nearest hrs * 60)%Q).
  assert (Hp0 : (0 <= p)%Q) by (apply Qmult_le_0_compat; [done | discriminate]).
  assert (Hpsize : (Qabs p < JsNumber.pow2 40)%Q).
  { rewrite (Qabs_pos p Hp0).
    assert (He : (JsNumber.pow2 40 == JsNumber.pow2 34 * 64)%Q) by reflexivity.
    rewrite He. unfold p. generalize dependent (JsNumber.pow2 34). intros; lra. }
  pose proof (nearest_small p 40 Hpsize ltac:(lia)) as Hnp.
  change (40 + 1) with 41 in Hnp.
  pose proof (nearest_nonneg p Hp0) as Hnp0.
  rewrite (Qabs_pos _ Hnp0) in Hnp.
  assert (Hfin : JsNumber.round64 p = JsNumber.Finite (JsNumber.nearest p)).
  { apply round64_finite. rewrite (Qabs_pos _ Hnp0).
    eapply Qlt_trans; [exact Hnp|]. apply pow2_lt. lia. }
  rewrite Hfin. split; [apply whole_round|].
  change (jsMinutes hrs) with (mathRound (JsNumber.nearest p)). split.
  - by apply mathRound_nonneg.
  - unfold mathRound. rewrite Zlt_Qlt.
    eapply Qle_lt_trans; [apply Qfloor_le|].
    assert (He : (inject_Z (2 ^ 42) == JsNumber.pow2 41 * 2)%Q) by reflexivity.
    rewrite He. assert (Hone : (1 <= JsNumber.pow2 41)%Q) by (vm_compute; discriminate).
    generalize dependent (JsNumber.pow2 41). intros; lra.
Qed.

Lemma numberString_whole a n :
  whole a n -> Z.abs n < 10 ^ 21 -> numberString a = JsString.ofInt n.
Proof.
  intros (x & -> & Hx) Hn. unfold numberString.
  assert (Hf : Qfloor x = n) by (rewrite (Qfloor_comp _ _ Hx); apply Qfloor_Z).
  rewrite Hf.
  assert (He : Qeq_bool x (inject_Z n) = true) by (by apply Qeq_bool_iff).
  rewrite He. cbn [andb]. by rewrite (proj2 (Z.ltb_lt _ _) Hn).
Qed.

(** The arithmetic of [addHoursToTime] and [calculateEndTime] from a time
    of [start] minutes and whole minutes to add, while the sum stays
    below [2^43]. *)
Lemma clock_arithmetic (h0 m0 : Z) (additional : JsNumber.number) (add : Z) :
  0 <= h0 -> 0 <= m0 -> h0 * 60 + m0 < 1440 ->
  whole additional add -> 0 <= add < 2 ^ 42 ->
  let totalMinutes :=
    JsNumber.add
      (JsNumber.add (JsNumber.mul (JsNumber.ofZ h0) (JsNumber.ofZ 60)) (JsNumber.ofZ m0))
      additional in
  let total := h0 * 60 + m0 + add in
  numberString (JsNumber.rem (JsNumber.floor (JsNumber.div totalMinutes 60)) 24)
  = JsString.ofInt ((total / 60) mod 24)
  /\ numberString (JsNumber.rem totalMinutes 60) = JsString.ofInt (total mod 60).
Proof.
  intros Hh0 Hm0 Hlt Hadd Hrange totalMinutes total.
  assert (W1 : whole (JsNumber.mul (JsNumber.ofZ h0) (JsNumber.ofZ 60)) (h0 * 60)).
  { apply whole_mul; [apply whole_ofZ; lia | apply whole_ofZ; lia | lia]. }
  assert (W2 : whole
                 (JsNumber.add (JsNumber.mul (JsNumber.ofZ h0) (JsNumber.ofZ 60))
                               (JsNumber.ofZ m0)) (h0 * 60 + m0)).
  { apply whole_add; [exact W1 | apply whole_ofZ; lia | lia]. }
  assert (W3 : whole totalMinutes total).
  { apply whole_add; [exact W2 | exact Hadd|]. lia. }
  assert (Ht : 0 <= total < 2 ^ 43) by (unfold total; lia).
  assert (W4 : whole (JsNumber.floor (JsNumber.div totalMinutes 60)) (total / 60)).
  { apply whole_div_floor; [exact W3 | lia | lia | lia]. }
  assert (Hq : 0 <= total / 60) by (apply Z.div_pos; lia).
  pose proof (whole_rem _ _ 24 W4 ltac:(lia)) as W5.
  pose proof (whole_rem _ _ 60 W3 ltac:(lia)) as W6.
  rewrite (Z.rem_mod_nonneg (total / 60) 24) in W5 by lia.
  rewrite (Z.rem_mod_nonneg total 60) in W6 by lia.
  pose proof (Z.mod_pos_bound (total / 60) 24 ltac:(lia)).
  pose proof (Z.mod_pos_bound total 60 ltac:(lia)).
  split; apply numberString_whole; try done; lia.
Qed.

(** The minutes of hours that are not negative: a whole number, or the
    infinity above. *)
Lemma minutes_cases hrs :
  (0 <= hrs)%Q ->
  (exists n,
     whole (JsNumber.round (JsNumber.mul (JsNumber.ofQ hrs) (JsNumber.ofZ 60))) n /\ 0 <= n)
  \/ JsNumber.round (JsNumber.mul (JsNumber.ofQ hrs) (JsNumber.ofZ 60))
     = JsNumber.Infinity false.
Proof.
  intros H0.
  assert (H60 : JsNumber.ofZ 60 = JsNumber.Finite 60).
  { apply (round64_Z (inject_Z 60) 60); [reflexivity | by vm_compute]. }
  rewrite H60. unfold JsNumber.ofQ.
  destruct (round64_nonneg hrs H0) as [(-> & Hn0 & _) | ->]; [|by right].
  cbn [JsNumber.mul].
  assert (Hp0 : (0 <= JsNumber.nearest hrs * 60)%Q)
    by (apply Qmult_le_0_compat; [done | discriminate]).
  destruct (round64_nonneg _ Hp0) as [(-> & Hq0 & _) | ->]; [|by right].
  left. eexists. split; [apply whole_round|]. by apply mathRound_nonneg.
Qed.

(** The same arithmetic whatever the minutes to add: the two fields are
    an hour below 24 and a minute below 60, or both are [NaN]. *)
Lemma clock_arithmetic_any (h0 m0 : Z) (additional : JsNumber.number) :
  0 <= h0 -> 0 <= m0 -> h0 * 60 + m0 < 1440 ->
  (exists n, whole additional n /\ 0 <= n) \/ additional = JsNumber.Infinity false ->
  let totalMinutes :=
    JsNumber.add
      (JsNumber.add (JsNumber.mul (JsNumber.ofZ h0) (JsNumber.ofZ 60)) (JsNumber.ofZ m0))
      additional in
  (exists h m,
     0 <= h < 24 /\ 0 <= m < 60
     /\ numberString (JsNumber.rem (JsNumber.floor (JsNumber.div totalMinutes 60)) 24)
        = JsString.ofInt h
     /\ numberString (JsNumber.rem totalMinutes 60) = JsString.ofInt m)
  \/ (numberString (JsNumber.rem (JsNumber.floor (JsNumber.div totalMinutes 60)) 24) = "NaN"
      /\ numberString (JsNumber.rem totalMinutes 60) = "NaN").
Proof.
  intros Hh0 Hm0 Hlt Hadd totalMinutes.
  assert (W1 : whole (JsNumber.mul (JsNumber.ofZ h0) (JsNumber.ofZ 60)) (h0 * 60)).
  { apply whole_mul; [apply whole_ofZ; lia | apply whole_ofZ; lia | lia]. }
  assert (W2 : whole
                 (JsNumber.add (JsNumber.mul (JsNumber.ofZ h0) (JsNumber.ofZ 60))
                               (JsNumber.ofZ m0)) (h0 * 60 + m0)).
  { apply whole_add; [exact W1 | apply whole_ofZ; lia | lia]. }
  destruct W2 as (x & Hbase & Hx). subst totalMinutes. rewrite Hbase.
  destruct Hadd as [(n & (y & -> & Hy) & Hn) | ->]; [|by right].
  cbn [JsNumber.add].
  assert (Hsum : (x + y == inject_Z (h0 * 60 + m0 + n))%Q)
    by (by rewrite Hx, Hy, <- inject_Z_plus).
  destruct (round64_whole_nonneg _ _ Hsum ltac:(lia)) as [(t & -> & Ht0 & Ht1) | ->];
    [|by right].
  left. cbn [JsNumber.div].
  assert (Hq0 : (0 <= inject_Z t / inject_Z 60)%Q).
  { apply Qle_shift_div_l; [reflexivity|]. by rewrite Qmult_0_l, <- (Zle_Qle 0). }
  assert (Hsize : (Qabs (inject_Z t / inject_Z 60) < JsNumber.pow2 1019)%Q).
  { rewrite (Qabs_pos _ Hq0). apply Qlt_shift_div_r; [reflexivity|].
    eapply Qlt_le_trans; [exact Ht1|].
    assert (He : (JsNumber.pow2 1024 == JsNumber.pow2 1019 * 32)%Q)
      by (change 1024 with (1019 + 5); by rewrite pow2_add).
    rewrite He. pose proof (pow2_pos 1019) as Hpos.
    change (inject_Z 60) with 60%Q.
    generalize dependent (JsNumber.pow2 1019). intros; lra. }
  pose proof (nearest_small _ 1019 Hsize ltac:(lia)) as Hsmall.
  pose proof (nearest_nonneg _ Hq0) as Hv0.
  assert (Hfin : JsNumber.round64 (inject_Z t / inject_Z 60)
                 = JsNumber.Finite (JsNumber.nearest (inject_Z t / inject_Z 60))).
  { apply round64_finite. eapply Qlt_trans; [exact Hsmall|]. apply pow2_lt. lia. }
  rewrite Hfin.
  set (v := JsNumber.nearest (inject_Z t / inject_Z 60)) in *.
  assert (Hf0 : 0 <= Qfloor v).
  { change 0 with (Qfloor 0). by apply Qfloor_resp_le. }
  pose proof (whole_rem _ _ 24 (whole_floor v) ltac:(lia)) as W5.
  assert (W3 : whole (JsNumber.Finite (inject_Z t)) t) by (eexists; split; reflexivity).
  pose proof (whole_rem _ _ 60 W3 ltac:(lia)) as W6.
  rewrite (Z.rem_mod_nonneg (Qfloor v) 24) in W5 by lia.
  rewrite (Z.rem_mod_nonneg t 60) in W6 by lia.
  pose proof (Z.mod_pos_bound (Qfloor v) 24 ltac:(lia)) as Hb1.
  pose proof (Z.mod_pos_bound t 60 ltac:(lia)) as Hb2.
  exists (Qfloor v mod 24), (t mod 60). split; [done|]. split; [done|].
  split; apply numberString_whole; try done; lia.
Qed.

(** [addHoursToTime] on a time of the day: the minutes of the result are
    the minutes of the time plus the minutes of the hours, on the clock of
    24 hours. *)
Lemma addHoursToTime_spec s hrs :
  timeOfDay s -> (0 <= hrs)%Q -> (hrs <= maxHours)%Q ->
  exists t,
    addHoursToTime (Some s) hrs = Some t /\ timeOfDay t
    /\ clockMinutes t = (clockMinutes s + jsMinutes hrs) mod 1440.
Proof.
  intros (Hne & HnoT & Hh & Hm & Hlt) Hhrs Hmax. unfold addHoursToTime.
  assert (Htruthy : truthyS (Some s) = true).
  { simpl. apply negb_true_iff. by apply String.eqb_neq. }
  rewrite Htruthy. simpl negb. simpl orb.
  destruct (Qeq_bool hrs 0) eqn:Ez.
  - exists s. split; [done|]. split; [by repeat split|].
    apply Qeq_bool_iff in Ez.
    rewrite (jsMinutes_zero hrs Ez), Z.add_0_r, Z.mod_small; [done|].
    unfold clockMinutes in *. lia.
  - simpl default. rewrite HnoT. cbv zeta.
    destruct (minutes_whole hrs Hhrs Hmax) as [Hw Hrange].
    destruct (clock_arithmetic (fst (clockOf s)) (snd (clockOf s)) _ _ Hh Hm Hlt Hw Hrange)
      as [Hhours Hminutes].
    cbv zeta in Hhours, Hminutes. unfold clockOf in Hhours, Hminutes.
    cbn [fst snd] in Hhours, Hminutes. rewrite Hhours, Hminutes.
    set (total := clockMinutes s + jsMinutes hrs).
    assert (Htotal : 0 <= total) by (unfold total, clockMinutes in *; lia).
    exists (formatClock ((total / 60) mod 24) (total mod 60)). split; [reflexivity|].
    destruct (formatClock_spec ((total / 60) mod 24) (total mod 60)) as (Htod & Hof & _).
    { apply Z.mod_pos_bound. lia. }
    { apply Z.mod_pos_bound. lia. }
    split; [exact Htod|].
    unfold clockMinutes at 1. rewrite Hof. simpl.
    clear. Z.div_mod_to_equations. lia.
Qed.

End Clock.

(** ** Time chaining *)

Section Chain.

Import Service.

Context `{JsPlatform}.

(** The times [processScrumEntry] gives a scrum entry. *)
Definition scrumTimes (e : Entry) : Entry :=
  let startTime :=
    if negb (truthyS (calculated_start_time e)) then Some "10:00"
    else calculated_start_time e in
  setTimes startTime (addHoursToTime startTime (hoursOf e)) e.

(** The times [processDateEntries] gives another entry, with [prev] the
    nearest entry before it that is not a scrum entry, as the loop left
    it. *)
Definition chainedTimes (prev : option Entry) (e : Entry) : Entry :=
  let startTime :=
    match prev with
    | None => getFirstNonScrumStartTime e
    | Some p => addHoursToTime (calculated_end_time p) (breakOf e)
    end in
  setTimes startTime (addHoursToTime startTime (hoursOf e)) e.

(** The entries of a date as [processDateEntries] leaves them, told as a
    recursion over the list. *)
Fixpoint chainList (prev : option Entry) (l : list Entry) : list Entry :=
  match l with
  | [] => []
  | e :: rest =>
      if is_scrum e then scrumTimes e :: chainList prev rest
      else chainedTimes prev e :: chainList (Some (chainedTimes prev e)) rest
  end.

Definition lastNonScrum (l : list Entry) : option Entry :=
  findPreviousNonScrumEntry l (length l).

Lemma findPrevious_app l1 l2 i :
  (i <= length l1)%nat ->
  findPreviousNonScrumEntry (l1 ++ l2) i = findPreviousNonScrumEntry l1 i.
Proof.
  induction i as [|i IH]; [done|]. intros Hi. simpl.
  rewrite lookup_app_l by lia. rewrite IH by lia. done.
Qed.

Lemma lastNonScrum_snoc l x :
  lastNonScrum (l ++ [x]) = if negb (is_scrum x) then Some x else lastNonScrum l.
Proof.
  unfold lastNonScrum. rewrite length_app. simpl.
  replace (length l + 1)%nat with (S (length l)) by lia. simpl.
  rewrite lookup_app_r by lia. replace (length l - length l)%nat with 0%nat by lia.
  simpl. destruct (negb (is_scrum x)); [done|]. by apply findPrevious_app.
Qed.

Lemma findPrevious_cons x l i :
  findPreviousNonScrumEntry (x :: l) (S i)
  = match findPreviousNonScrumEntry l i with
    | Some p => Some p
    | None => if negb (is_scrum x) then Some x else None
    end.
Proof.
  induction i as [|i IH]; [simpl; by destruct (negb (is_scrum x))|].
  change (findPreviousNonScrumEntry (x :: l) (S (S i)))
    with (match (x :: l) !! S i with
          | Some e => if negb (is_scrum e) then Some e
                      else findPreviousNonScrumEntry (x :: l) (S i)
          | None => findPreviousNonScrumEntry (x :: l) (S i)
          end).
  rewrite IH. simpl. destruct (l !! i) as [e|]; [|done].
  by destruct (negb (is_scrum e)).
Qed.

Lemma findPrevious_not_scrum l i p :
  findPreviousNonScrumEntry l i = Some p -> is_scrum p = false.
Proof.
  induction i as [|i IH]; [discriminate|]. simpl.
  destruct (l !! i) as [e|]; [|exact IH].
  destruct (is_scrum e) eqn:Es; simpl; [exact IH | by intros [= <-]].
Qed.

Lemma findPrevious_elem l i p :
  findPreviousNonScrumEntry l i = Some p -> exists j, (j < i)%nat /\ l !! j = Some p.
Proof.
  induction i as [|i IH]; [discriminate|]. simpl.
  destruct (l !! i) as [e|] eqn:El.
  - destruct (negb (is_scrum e)).
    + intros [= <-]. exists i. split; [lia | done].
    + intros Hp. destruct (IH Hp) as (j & Hj & Hl). exists j. split; [lia | done].
  - intros Hp. destruct (IH Hp) as (j & Hj & Hl). exists j. split; [lia | done].
Qed.

Lemma is_scrum_scrumTimes e : is_scrum (scrumTimes e) = is_scrum e.
Proof. reflexivity. Qed.

Lemma is_scrum_chainedTimes prev e : is_scrum (chainedTimes prev e) = is_scrum e.
Proof. reflexivity. Qed.

Lemma processScrumEntry_entry index e issues :
  fst (processScrumEntry index e issues) = scrumTimes e.
Proof. reflexivity. Qed.

(** The loop over the places from [length finished] on, when the entries
    before are done and the others are as they came. *)
Lemma chain_fold rest : forall finished st,
  entries st = finished ++ rest ->
  isFirstNonScrum st = (if lastNonScrum finished is Some _ then false else true) ->
  entries (foldl chainStep st (seq (length finished) (length rest)))
  = finished ++ chainList (lastNonScrum finished) rest.
Proof.
  induction rest as [|e rest IH]; intros finished st Hst Hfirst; simpl.
  - by rewrite Hst.
  - assert (Hat : entries st !! length finished = Some e)
      by (rewrite Hst; apply list_lookup_middle; done).
    assert (Hins : forall x, <[length finished := x]> (entries st)
                             = (finished ++ [x]) ++ rest).
    { intros x. rewrite Hst, insert_app_r_alt by lia.
      replace (length finished - length finished)%nat with 0%nat by lia.
      simpl. by rewrite <- app_assoc. }
    assert (Hlen : forall x, S (length finished) = length (finished ++ [x])).
    { intros x. rewrite length_app. simpl. lia. }
    unfold chainStep at 2. rewrite Hat.
    destruct (is_scrum e) eqn:Es.
    + rewrite (Hlen (scrumTimes e)).
      rewrite IH.
      * rewrite lastNonScrum_snoc. simpl. rewrite Es. simpl.
        by rewrite <- app_assoc.
      * simpl. apply Hins.
      * simpl. rewrite lastNonScrum_snoc. simpl. rewrite Es. simpl. exact Hfirst.
    + assert (Hstart : calculateEntryStartTime e (entries st) (length finished)
                         (isFirstNonScrum st)
                       = match lastNonScrum finished with
                         | None => getFirstNonScrumStartTime e
                         | Some p => addHoursToTime (calculated_end_time p) (breakOf e)
                         end).
      { unfold calculateEntryStartTime, getSubsequentStartTime. rewrite Hfirst, Hst.
        rewrite findPrevious_app by lia. fold (lastNonScrum finished).
        by destruct (lastNonScrum finished). }
      rewrite Hstart. fold (chainedTimes (lastNonScrum finished) e).
      rewrite (Hlen (chainedTimes (lastNonScrum finished) e)).
      rewrite IH.
      * rewrite lastNonScrum_snoc. simpl. rewrite Es. simpl.
        by rewrite <- app_assoc.
      * simpl. apply Hins.
      * simpl. rewrite lastNonScrum_snoc. simpl. rewrite Es. done.
Qed.

Lemma processDateEntries_chainList group issues :
  entries (processDateEntries group issues) = chainList None group.
Proof.
  unfold processDateEntries.
  apply (chain_fold group [] _); reflexivity.
Qed.

Lemma chainList_length prev l : length (chainList prev l) = length l.
Proof.
  revert prev. induction l as [|e l IH]; intros prev; simpl; [done|].
  destruct (is_scrum e); simpl; by rewrite IH.
Qed.

(** Place by place: the entry at place [i] of the result is the entry at
    place [i] of the group with the times of its kind. *)
Lemma chainList_lookup l : forall prev i e',
  chainList prev l !! i = Some e' ->
  exists e,
    l !! i = Some e
    /\ e' = if is_scrum e then scrumTimes e
            else chainedTimes
                   (match findPreviousNonScrumEntry (chainList prev l) i with
                    | Some p => Some p
                    | None => prev
                    end) e.
Proof.
  induction l as [|x l IH]; intros prev i e'; [simpl; by rewrite lookup_nil|].
  cbn [chainList]. destruct (is_scrum x) eqn:Es.
  - destruct i as [|i].
    + intros [= <-]. exists x. by rewrite Es.
    + intros Hi. simpl in Hi. destruct (IH prev i e' Hi) as (e & He & ->).
      exists e. split; [exact He|]. rewrite findPrevious_cons.
      rewrite is_scrum_scrumTimes, Es. cbn [negb].
      by destruct (findPreviousNonScrumEntry (chainList prev l) i).
  - destruct i as [|i].
    + intros [= <-]. exists x. by rewrite Es.
    + intros Hi. simpl in Hi. destruct (IH _ i e' Hi) as (e & He & ->).
      exists e. split; [exact He|]. rewrite findPrevious_cons.
      rewrite is_scrum_chainedTimes, Es. cbn [negb].
      by destruct (findPreviousNonScrumEntry _ i).
Qed.

(** Scrum entries play no part in the times of the others. *)
Lemma chainList_filter l : forall prev,
  List.filter (fun e => negb (is_scrum e)) (chainList prev l)
  = chainList prev (List.filter (fun e => negb (is_scrum e)) l).
Proof.
  induction l as [|x l IH]; intros prev; [done|].
  cbn [chainList List.filter]. destruct (is_scrum x) eqn:Es.
  - cbn [negb List.filter]. rewrite is_scrum_scrumTimes, Es. apply IH.
  - cbn [negb chainList List.filter]. rewrite is_scrum_chainedTimes, Es.
    cbn [negb]. by rewrite IH.
Qed.

End Chain.

Section ChainTimes.

Import Service.

Context `{JsPlatform}.

(** The hours of a task, as the data model has them: its [hours], or its
    [duration_hours] when it has no hours or hours of zero, or zero. *)
Definition taskHours (e : Entry) : Q :=
  match hours e, duration_hours e with
  | Some h, Some d => if Qeq_bool h 0 then d else h
  | Some h, None => if Qeq_bool h 0 then 0 else h
  | None, Some d => d
  | None, None => 0
  end.

(** The break of a task: its [break_hours], or zero. *)
Definition taskBreak (e : Entry) : Q :=
  match break_hours e with
  | Some b => b
  | None => 0
  end.

Lemma hoursOf_taskHours e :
  (hoursOf e == taskHours e)%Q /\ jsMinutes (hoursOf e) = jsMinutes (taskHours e).
Proof.
  assert (He : (hoursOf e == taskHours e)%Q).
  { unfold hoursOf, taskHours, orElse, truthyQ.
    destruct (hours e) as [h|], (duration_hours e) as [d|]; cbn [default negb];
      try reflexivity.
    - destruct (Qeq_bool h 0) eqn:Eh; cbn [negb default]; [|reflexivity].
      reflexivity.
    - destruct (Qeq_bool h 0) eqn:Eh; cbn [negb default]; [|reflexivity].
      by apply Qeq_bool_iff in Eh. }
  split; [exact He|]. unfold jsMinutes. by rewrite (nearest_comp _ _ He).
Qed.

Lemma breakOf_taskBreak e :
  (breakOf e == taskBreak e)%Q /\ jsMinutes (breakOf e) = jsMinutes (taskBreak e).
Proof.
  assert (He : (breakOf e == taskBreak e)%Q).
  { unfold breakOf, taskBreak, truthyQ. destruct (break_hours e) as [b|]; [|reflexivity].
    destruct (Qeq_bool b 0) eqn:Eb; cbn [negb default]; [|reflexivity].
    apply Qeq_bool_iff in Eb. by rewrite Eb. }
  split; [exact He|]. unfold jsMinutes. by rewrite (nearest_comp _ _ He).
Qed.

(** A task of the data model: its hours and its break are not negative,
    and within [maxHours]. *)
Definition validTask (e : Entry) : Prop :=
  (0 <= taskHours e)%Q /\ (taskHours e <= maxHours)%Q
  /\ (0 <= taskBreak e)%Q /\ (taskBreak e <= maxHours)%Q.

Lemma validTask_hours e :
  validTask e ->
  (0 <= hoursOf e)%Q /\ (hoursOf e <= maxHours)%Q
  /\ (0 <= breakOf e)%Q /\ (breakOf e <= maxHours)%Q.
Proof.
  intros (H1 & H2 & H3 & H4).
  destruct (hoursOf_taskHours e) as [Hh _]. destruct (breakOf_taskBreak e) as [Hb _].
  rewrite Hh, Hb. by repeat split.
Qed.

(** A start a scrum entry already carries is a time of the day. *)
Definition scrumStartOk (e : Entry) : Prop :=
  is_scrum e = true ->
  forall s, calculated_start_time e = Some s -> s <> "" -> timeOfDay s.

(** The group has an anchor: its first entry that is not a scrum entry, if
    there is one, has a start for [getFirstNonScrumStartTime] to take, and
    that start is a time of the day. *)
Definition anchored (group : list Entry) : Prop :=
  forall a, List.find (fun e => negb (is_scrum e)) group = Some a ->
    exists s, getFirstNonScrumStartTime a = Some s /\ timeOfDay s.

(** Start and end are times of the day, and the end is the start plus the
    minutes of the hours, by the minute. *)
Definition timesOk (e : Entry) : Prop :=
  exists s t,
    calculated_start_time e = Some s /\ calculated_end_time e = Some t
    /\ timeOfDay s /\ timeOfDay t
    /\ clockMinutes t = (clockMinutes s + jsMinutes (taskHours e)) mod 1440.

Definition chainReady (prev : option Entry) (l : list Entry) : Prop :=
  match prev with
  | None => anchored l
  | Some p => exists u, calculated_end_time p = Some u /\ timeOfDay u
  end.

Lemma timeOfDay_truthy s : timeOfDay s -> truthyS (Some s) = true.
Proof.
  intros [Hne _]. unfold truthyS. apply negb_true_iff. by apply String.eqb_neq.
Qed.

Lemma timeOfDay_ten : timeOfDay "10:00".
Proof. repeat split; try discriminate; vm_compute; congruence. Qed.

Lemma setTimes_ok start e s :
  validTask e -> start = Some s -> timeOfDay s ->
  timesOk (setTimes start (addHoursToTime start (hoursOf e)) e).
Proof.
  intros Hv -> Hs. destruct (validTask_hours e Hv) as (Hh0 & Hh1 & _).
  destruct (addHoursToTime_spec s (hoursOf e) Hs Hh0 Hh1) as (t & Ht & Htd & Hm).
  exists s, t. rewrite Ht.
  split; [reflexivity|]. split; [reflexivity|]. split; [exact Hs|].
  split; [exact Htd|]. rewrite Hm. by destruct (hoursOf_taskHours e) as [_ ->].
Qed.

Lemma scrumTimes_ok e :
  is_scrum e = true -> validTask e -> scrumStartOk e -> timesOk (scrumTimes e).
Proof.
  intros Es Hh Hok. unfold scrumTimes.
  destruct (truthyS (calculated_start_time e)) eqn:Et; cbn [negb].
  - destruct (calculated_start_time e) as [s|] eqn:Ec; [|discriminate].
    apply (setTimes_ok _ e s Hh); [done|]. apply (Hok Es s Ec).
    unfold truthyS in Et. apply negb_true_iff in Et. by apply String.eqb_neq.
  - apply (setTimes_ok _ e "10:00" Hh eq_refl). apply timeOfDay_ten.
Qed.

Lemma chainedTimes_ok prev e s :
  validTask e ->
  match prev with
  | None => getFirstNonScrumStartTime e
  | Some p => addHoursToTime (calculated_end_time p) (breakOf e)
  end = Some s ->
  timeOfDay s -> timesOk (chainedTimes prev e).
Proof. intros Hh Hs Htd. by apply (setTimes_ok _ e s). Qed.

Lemma anchored_skip e l : is_scrum e = true -> anchored (e :: l) -> anchored l.
Proof.
  intros Es Ha a Hf. apply Ha. simpl. by rewrite Es.
Qed.

Lemma chainList_times l : forall prev,
  Forall validTask l -> Forall scrumStartOk l -> chainReady prev l ->
  Forall timesOk (chainList prev l).
Proof.
  induction l as [|e l IH]; intros prev Hv Hs Hr; [constructor|].
  inversion Hv as [|? ? Hve Hv']; subst. inversion Hs as [|? ? Hse Hs']; subst.
  destruct (validTask_hours e Hve) as (_ & _ & Hb0 & Hb1).
  cbn [chainList]. destruct (is_scrum e) eqn:Es.
  - constructor; [by apply scrumTimes_ok|]. apply IH; [done..|].
    destruct prev; [exact Hr | by apply (anchored_skip e)].
  - assert (Hstart : exists s,
              match prev with
              | None => getFirstNonScrumStartTime e
              | Some p => addHoursToTime (calculated_end_time p) (breakOf e)
              end = Some s /\ timeOfDay s).
    { destruct prev as [p|].
      - destruct Hr as (u & Hu & Htd). rewrite Hu.
        destruct (addHoursToTime_spec u (breakOf e) Htd Hb0 Hb1) as (t & Ht & Htt & _).
        by exists t.
      - apply Hr. simpl. by rewrite Es. }
    destruct Hstart as (s & Hs0 & Htd).
    pose proof (chainedTimes_ok prev e s Hve Hs0 Htd) as Hok.
    constructor; [exact Hok|]. apply IH; [done..|].
    destruct Hok as (s' & t & _ & Ht & _ & Htt & _). by exists t.
Qed.

(** The minutes of the code are the minutes of the exact product rounded
    half up, but for the error of the two roundings to doubles: below
    [2^-13] of a minute within [maxHours]. *)
Lemma jsMinutes_close hrs :
  (0 <= hrs)%Q -> (hrs <= maxHours)%Q ->
  mathRound (hrs * 60 - (1 # 8192)) <= jsMinutes hrs <= mathRound (hrs * 60 + (1 # 8192)).
Proof.
  intros H0 H1.
  assert (Hsize : (Qabs hrs < JsNumber.pow2 33)%Q).
  { rewrite (Qabs_pos hrs H0). by apply Qle_lt_trans with maxHours. }
  pose proof (nearest_close hrs 33 Hsize ltac:(lia)) as Hc1.
  pose proof (nearest_small hrs 33 Hsize ltac:(lia)) as Hn.
  change (33 + 1) with 34 in Hn.
  pose proof (nearest_nonneg hrs H0) as Hn0. rewrite (Qabs_pos _ Hn0) in Hn.
  set (p := (JsNumber.nearest hrs * 60)%Q).
  assert (Hp0 : (0 <= p)%Q) by (apply Qmult_le_0_compat; [done | discriminate]).
  assert (Hpsize : (Qabs p < JsNumber.pow2 40)%Q).
  { rewrite (Qabs_pos p Hp0).
    assert (He : (JsNumber.pow2 40 == JsNumber.pow2 34 * 64)%Q) by reflexivity.
    rewrite He. unfold p. generalize dependent (JsNumber.pow2 34). intros; lra. }
  pose proof (nearest_close p 40 Hpsize ltac:(lia)) as Hc2.
  assert (Hp1 : (JsNumber.pow2 (33 - 54) == 1 # 2097152)%Q) by reflexivity.
  assert (Hp2 : (JsNumber.pow2 (40 - 54) == 1 # 16384)%Q) by reflexivity.
  rewrite Hp1 in Hc1. rewrite Hp2 in Hc2.
  apply Qabs_Qle_condition in Hc1, Hc2.
  unfold jsMinutes, mathRound. fold p.
  split; apply Qfloor_resp_le; unfold p in *; lra.
Qed.

End ChainTimes.

Section ChainClaims.

Import Service.

Context `{JsPlatform}.

Lemma setTimes_eq a b e s t :
  calculated_start_time (setTimes a b e) = Some s ->
  calculated_end_time (setTimes a b e) = Some t ->
  setTimes a b e = setTimes (Some s) (Some t) e.
Proof. simpl. by intros -> ->. Qed.


End ChainClaims.

Definition task (subject : string) (hrs brk : Q) (scrum : bool)
  (start : option string) : Entry :=
  {| project := "P"; project_id := Some 7; subject := subject; activity := "Development";
     hours := None; duration_hours := Some hrs; break_hours := Some brk;
     is_scrum := scrum; work_package_id := if scrum then Some 5 else None;
     existing_work_package_id := None;
     entry_date := Some "2025-10-23"; date := None; start_time := None;
     user_set_start_time := false; calculated_start_time := start;
     calculated_end_time := None; comment := None; statusId := None; statusName := None |}.

Definition sampleGroup : list Entry :=
  [ task "Write the parser" 2.5 0 false (Some "11:00");
    task "Daily scrum" 0.25 0 true None;
    task "Review" 4.5 0.33 false None ].

Lemma sampleGroup_anchored : @anchored plainPlatform sampleGroup.
Proof.
  intros a Hf. injection Hf as <-. exists "11:00". split; [reflexivity|].
  repeat split; try discriminate; vm_compute; congruence.
Qed.

Lemma sampleGroup_valid : Forall validTask sampleGroup.
Proof. repeat constructor; by vm_compute. Qed.

Lemma sampleGroup_scrum : Forall scrumStartOk sampleGroup.
Proof.
  repeat (apply List.Forall_cons;
          [intros Hx; try discriminate; intros s Hc; discriminate|]).
  apply List.Forall_nil.
Qed.


(** The times of the group above: 2.5 hours from 11:00 end at 13:30; a
    break of 0.33 hours is 20 minutes, so the next task runs from 13:50 to
    18:20; the scrum entry between them has its own slot. *)
Example chained_times_example :
  map (fun e => (calculated_start_time e, calculated_end_time e))
      (Service.entries (@Service.processDateEntries plainPlatform sampleGroup []))
  = [ (Some "11:00", Some "13:30");
      (Some "10:00", Some "10:15");
      (Some "13:50", Some "18:20") ]
  /\ jsMinutes 2.5 = 150 /\ jsMinutes 0.33 = 20 /\ jsMinutes 4.5 = 270.
Proof. vm_compute. repeat split; reflexivity. Qed.

(** A task of 1.025 hours from 09:00.  The decimal 1.025 is held as the
    double 1.024999999999999911182158029987; its product with 60 is held as
    61.49999999999999289457264239899814128875732421875, which rounds to 61
    minutes: the task ends at 10:01.  Rounded half up, 1.025 hours are 61.5
    minutes and so 62: by the claim the task ends at 10:02. *)
Definition longTask : list Entry :=
  [ task "Write the report" 1.025 0 false (Some "09:00") ].


(** ** Scrum entries and the chain *)

Section ScrumEntries.

Import Service.

Context `{JsPlatform} `{LocalZone}.

Definition notScrum (e : Entry) : bool := negb (is_scrum e).

Lemma parser_scrum_start (pm : gmap string Z) (raw : Parser.RawEntry) cursor day te :
  Parser.parseJsonTaskEntry pm raw cursor day = Ok (Some te) ->
  Parser.t_is_scrum te = true ->
  setHours 10 cursor = Some (Parser.t_start_time te).
Proof.
  unfold Parser.parseJsonTaskEntry.
  destruct (negb (truthyS (Parser.raw_project raw)) || _); [discriminate|].
  destruct (Qeq_bool _ 0); [discriminate|].
  destruct (default false (Parser.raw_is_scrum raw)) eqn:Es.
  - destruct (_ && _); [discriminate|]. unfold Parser.calculateStartTime.
    destruct (setHours 10 cursor) as [start|] eqn:Et; [|discriminate].
    destruct (JsDate.ofNumber _); [|discriminate].
    by intros [= <-] _.
  - destruct (_ && _); [discriminate|].
    destruct (Parser.calculateStartTime _ _ _); [|discriminate].
    destruct (JsDate.ofNumber _); [|discriminate].
    intros [= <-]. simpl. discriminate.
Qed.

Lemma parser_scrum_starts (pm : gmap string Z) day (raws : list Parser.RawEntry) :
  forall cursor out,
    Parser.processFrom pm raws cursor day = Ok out ->
    Forall (fun te => Parser.t_is_scrum te = true ->
                      exists t, JsDate.timeClip (atHour 10 t) = Some (Parser.t_start_time te))
           out.
Proof.
  induction raws as [|raw raws IH]; intros cursor out; simpl.
  { intros [= <-]. constructor. }
  destruct (Parser.isValidEntry pm raw); [|apply IH].
  destruct (Parser.parseJsonTaskEntry pm raw cursor day) as [[te|]|] eqn:Ep;
    [| apply IH | discriminate].
  destruct (Parser.processFrom pm raws _ day) as [rest|] eqn:Er; [|discriminate].
  intros [= <-]. constructor; [|by eapply IH].
  intros Es. pose proof (parser_scrum_start pm raw cursor day te Ep Es) as Ht.
  destruct cursor as [t|]; [by exists t | discriminate].
Qed.

(** X24.  In the time chain of the service a scrum entry, at any place of
    its group, starts at 10:00 unless it carries a start already, which it
    keeps; a turn of the loop on a scrum entry leaves the cursor and the
    first-task flag as they were; the previous task a start is computed
    from is never a scrum entry, and taking the scrum entries out of a
    group changes nothing in the times of the others.  In the parser every
    scrum task starts at 10:00 of a local day. *)
Theorem scrum_entries_stay_out_of_the_chain :
  (forall (group : list Entry) issues i e e',
     group !! i = Some e -> is_scrum e = true ->
     entries (processDateEntries group issues) !! i = Some e' ->
     calculated_start_time e'
     = if truthyS (calculated_start_time e) then calculated_start_time e
       else Some "10:00")
  /\ (forall st i e,
        entries st !! i = Some e -> is_scrum e = true ->
        currentTime (chainStep st i) = currentTime st
        /\ isFirstNonScrum (chainStep st i) = isFirstNonScrum st)
  /\ (forall (l : list Entry) i p,
        findPreviousNonScrumEntry l i = Some p -> is_scrum p = false)
  /\ (forall (group : list Entry) issues issues',
        List.filter notScrum (entries (processDateEntries group issues))
        = entries (processDateEntries (List.filter notScrum group) issues'))
  /\ (forall (pm : gmap string Z) (raws : list Parser.RawEntry) day now out,
        Parser.processDateEntries pm raws day now = Ok out ->
        Forall (fun te => Parser.t_is_scrum te = true ->
                          exists t, JsDate.timeClip (atHour 10 t)
                                    = Some (Parser.t_start_time te))
               out).
Proof.
  split; [|split; [|split; [|split]]].
  - intros group issues i e e' He Es. rewrite processDateEntries_chainList. intros Hi.
    destruct (chainList_lookup group None i e' Hi) as (e0 & He0 & ->).
    rewrite He in He0. injection He0 as <-. rewrite Es. unfold scrumTimes.
    cbn [calculated_start_time setTimes].
    by destruct (truthyS (calculated_start_time e)).
  - intros st i e He Es. unfold chainStep. rewrite He, Es. by split.
  - intros l i p. apply findPrevious_not_scrum.
  - intros group issues issues'. rewrite !processDateEntries_chainList.
    apply chainList_filter.
  - intros pm raws day now out. apply parser_scrum_starts.
Qed.

End ScrumEntries.

Definition rawTask (subject : string) (hrs : Q) (scrum : bool) : Parser.RawEntry :=
  {| Parser.raw_project := Some "P"; Parser.raw_subject := Some subject;
     Parser.raw_description := None;
     Parser.raw_duration_hours := Some hrs; Parser.raw_break_hours := None;
     Parser.raw_activity := Some "Development"; Parser.raw_is_scrum := Some scrum;
     Parser.raw_work_package_id := if scrum then Some 5 else None |}.

(** A task whose start the user has set. *)
Definition taskAt (subject : string) (hrs : Q) (start : string) : Entry :=
  {| project := "P"; project_id := Some 7; subject := subject; activity := "Development";
     hours := None; duration_hours := Some hrs; break_hours := None;
     is_scrum := false; work_package_id := None; existing_work_package_id := None;
     entry_date := Some "2025-10-23"; date := None; start_time := Some start;
     user_set_start_time := true; calculated_start_time := None;
     calculated_end_time := None; comment := None; statusId := None; statusName := None |}.

(** Subject, start and end of the tasks of a pass. *)
Definition timesOf (r : Result (list Parser.TaskEntry)) : Result (list (string * Z * Z)) :=
  match r with
  | Ok tasks =>
      Ok (map (fun te => (Parser.t_subject te, Parser.t_start_time te, Parser.t_end_time te))
            tasks)
  | Throw msg => Throw msg
  end.

(** The time value of an hour of the clock on 23 October 2025, in
    universal time. *)
Definition onTheDay (h m : Z) : Z := 1761177600000 + h * 3600000 + m * 60000.

(** C4.  The claim holds of the service and fails of the parser.  A log of
    a quarter of an hour of scrum and an hour of review, read at 08:30: in
    the parser the scrum task starts at 10:00 and the review at 10:15, the
    end of the scrum task, whereas the review alone starts at 09:00; in
    the service the review that starts at 09:00 keeps its times with the
    scrum entry before it. *)
Theorem scrum_entry_moves_the_parser_cursor :
  timesOf (@Parser.processDateEntries utcZone {[ "P" := 7 ]}
             [rawTask "Daily scrum" 0.25 true; rawTask "Review" 1 false]
             "2025-10-23" (onTheDay 8 30))
  = Ok [("Daily scrum", onTheDay 10 0, onTheDay 10 15);
        ("Review", onTheDay 10 15, onTheDay 11 15)]
  /\ timesOf (@Parser.processDateEntries utcZone {[ "P" := 7 ]}
                [rawTask "Review" 1 false] "2025-10-23" (onTheDay 8 30))
     = Ok [("Review", onTheDay 9 0, onTheDay 10 0)]
  /\ map (fun e => (subject e, calculated_start_time e, calculated_end_time e))
         (Service.entries
            (@Service.processDateEntries plainPlatform
               [task "Daily scrum" 0.25 0 true None; taskAt "Review" 1 "09:00"] []))
     = [("Daily scrum", Some "10:00", Some "10:15");
        ("Review", Some "09:00", Some "10:00")].
Proof. repeat split; vm_compute; reflexivity. Qed.

(** * Further properties *)

(** ** Requests that only read *)

Section ReadingRequests.

Import ApiClient.

Context `{JsPlatform}.

Lemma checkExisting_total (pid : option Z) (subject : string) (w : World) :
  exists r k w',
    checkExistingWorkPackageBySubject pid subject w = (Ok r, w')
    /\ (1 <= k)%nat
    /\ requests w' = requests w ++ map (fun i => GetWorkPackages pid i 100) (seq 1 k)
    /\ work_packages w' = work_packages w
    /\ time_entries w' = time_entries w
    /\ next_id w' = next_id w.
Proof.
  destruct pid as [p|].
  - destruct (lookup_run p subject w)
      as (k & r & w1 & Hrun & Hk & _ & (Hr & Hw & Ht & Hn & _ & _) & _ & _).
    unfold checkExistingWorkPackageBySubject, checkExistingWorkPackageBySubjectFuel.
    rewrite Hrun. destruct r as [res|msg].
    + exists res, k, w1. by repeat split.
    + eexists None, k, _. split; [reflexivity|]. simpl. by repeat split.
  - unfold checkExistingWorkPackageBySubject, checkExistingWorkPackageBySubjectFuel.
    simpl. unfold fetchWorkPackagesPage, makeRequest, serveWorkPackages. simpl.
    destruct (fault_script w) as [|[msg|] rest];
      (eexists None, 1%nat, _; split; [reflexivity|]; simpl; by repeat split).
Qed.

(** X1.  [checkExistingWorkPackageBySubject] never throws, whatever the
    project, the subject and the faults to come: it answers a work package
    or [null], sends nothing but page requests for the project, with
    offsets 1, 2, ... and page size 100, and leaves the server's tables as
    they are. *)
Theorem lookup_never_throws (pid : option Z) (subject : string) (w : World) :
  exists r k w',
    checkExistingWorkPackageBySubject pid subject w = (Ok r, w')
    /\ (1 <= k)%nat
    /\ requests w' = requests w ++ map (fun i => GetWorkPackages pid i 100) (seq 1 k)
    /\ work_packages w' = work_packages w
    /\ time_entries w' = time_entries w
    /\ next_id w' = next_id w.
Proof. apply checkExisting_total. Qed.

(** X2.  [checkExistingTimeEntries] never throws and sends one request, the
    listing of the time entries, which changes nothing on the server.  When
    the listing is answered it returns, in the server's order, exactly the
    time entries of the work package on the date as
    [formatDateForComparison] writes it; when the listing fails it returns
    the empty list and writes the failure to the console. *)
Theorem time_entry_listing_never_throws (id : Z) (date : string) (w : World) :
  exists l w',
    checkExistingTimeEntries id date w = (Ok l, w')
    /\ requests w' = requests w ++ [GetTimeEntries]
    /\ work_packages w' = work_packages w
    /\ time_entries w' = time_entries w
    /\ next_id w' = next_id w
    /\ Forall (fun te => te_spentOn te = formatDateForComparison date
                         /\ te_workPackage te = id) l
    /\ match fault_script w with
       | Some msg :: _ =>
           l = []
           /\ console w'
              = console w ++ [("Error checking existing time entries: " ++ msg)%string]
       | _ =>
           l = List.filter (fun te => String.eqb (te_spentOn te) (formatDateForComparison date)
                                      && (te_workPackage te =? id))
                           (time_entries w)
           /\ console w' = console w
       end.
Proof.
  assert (Hsound : forall tes,
             Forall (fun te => te_spentOn te = formatDateForComparison date
                               /\ te_workPackage te = id)
                    (List.filter (fun te => String.eqb (te_spentOn te)
                                              (formatDateForComparison date)
                                            && (te_workPackage te =? id)) tes)).
  { intros tes. apply List.Forall_forall. intros te Hin.
    apply List.filter_In in Hin as [_ Hm]. apply andb_true_iff in Hm as [Hd Hi].
    split; [by apply String.eqb_eq | lia]. }
  unfold checkExistingTimeEntries, tryCatch, bind, makeRequest. simpl.
  destruct (fault_script w) as [|[msg|] rest]; simpl.
  - eexists _, _. split; [reflexivity|]. simpl. by repeat split.
  - eexists _, _. split; [reflexivity|]. simpl. by repeat split.
  - eexists _, _. split; [reflexivity|]. simpl. by repeat split.
Qed.

(** X3.  The loop of the client, [processWorkLogEntries], gives one detail
    per entry, in the order of the entries and numbered from 1, whatever
    fails on the way; every entry counts once, as successful or as failed,
    and [failed] is the number of details with the status [error]. *)
Theorem client_loop_counts (cfg : Config) (date : string) (workLogEntries : list Entry)
    (w : World) :
  let r := fst (processWorkLogEntries cfg workLogEntries date w) in
  length (details r) = length workLogEntries
  /\ map d_subject (details r) = map subject workLogEntries
  /\ map d_index (details r) = seq 1 (length workLogEntries)
  /\ (successful r + failed r = length workLogEntries)%nat
  /\ failed r = count isErrorDetail (details r)
  /\ successful r = count (fun d => negb (isErrorDetail d)) (details r).
Proof.
  unfold processWorkLogEntries.
  destruct (processFrom_spec cfg date workLogEntries 0
              {| successful := 0; failed := 0; details := [] |} w)
    as (ds & w' & Hrun & Hsub & Hidx).
  rewrite Hrun. simpl.
  assert (Hlen : length ds = length workLogEntries).
  { rewrite <- (length_map d_subject ds), Hsub. apply length_map. }
  assert (Hsum : (count (fun d => negb (isErrorDetail d)) ds + count isErrorDetail ds
                  = length ds)%nat).
  { unfold count. clear. induction ds as [|d ds IH]; simpl; [done|].
    destruct (isErrorDetail d); simpl; lia. }
  repeat split; try done; lia.
Qed.

End ReadingRequests.

(** ** Dates of the work log *)

Section ParsedDates.

Import Parser ApiClient.

Context `{JsPlatform} `{LocalZone}.

Definition digitsOnly (n : nat) (s : string) : bool :=
  (String.length s =? n)%nat && JsString.forallChars JsString.isDigit s.

Lemma years_have_four_digits :
  forallb (fun y => digitsOnly 4 (JsString.ofInt y)) (zrange 1900 1101) = true.
Proof. vm_compute. reflexivity. Qed.

Lemma padded_have_two_digits :
  forallb (fun n => digitsOnly 2 (JsString.padStart 2 "0" (JsString.ofInt n))) (zrange 1 31)
  = true.
Proof. vm_compute. reflexivity. Qed.

Lemma canonical_of_digits ys ms ds :
  digitsOnly 4 ys = true -> digitsOnly 2 ms = true -> digitsOnly 2 ds = true ->
  isCanonicalDate (ys ++ "-" ++ ms ++ "-" ++ ds) = true.
Proof.
  unfold digitsOnly. intros [Hly Hy]%andb_true_iff [Hlm Hm]%andb_true_iff
    [Hld Hd]%andb_true_iff.
  apply Nat.eqb_eq in Hly, Hlm, Hld.
  do 4 (destruct ys as [|? ys]; [discriminate|]). destruct ys; [|discriminate].
  do 2 (destruct ms as [|? ms]; [discriminate|]). destruct ms; [|discriminate].
  do 2 (destruct ds as [|? ds]; [discriminate|]). destruct ds; [|discriminate].
  cbn [JsString.forallChars] in Hy, Hm, Hd.
  repeat match goal with
         | Hx : _ && _ = true |- _ => apply andb_true_iff in Hx as [? Hx]
         end.
  cbv [String.append isCanonicalDate forallb].
  repeat match goal with
         | Hx : JsString.isDigit ?c = true |- _ => rewrite Hx; clear Hx
         end.
  reflexivity.
Qed.

Lemma formatLocalDate_canonical y m d :
  realCalendarDate y m d -> isCanonicalDate (formatLocalDate (Some (y, m, d))) = true.
Proof.
  intros (Hy & Hm & Hd). pose proof (daysInMonth_le y m) as Hle.
  assert (Hin : forall lo n x, lo <= x < lo + Z.of_nat n -> In x (zrange lo n)).
  { intros lo n x Hx. apply list_elem_of_In. by apply zrange_elem. }
  pose proof years_have_four_digits as Hys. rewrite forallb_forall in Hys.
  pose proof padded_have_two_digits as Hps. rewrite forallb_forall in Hps.
  unfold formatLocalDate. apply canonical_of_digits.
  - apply Hys, Hin. lia.
  - apply Hps, Hin. lia.
  - apply Hps, Hin. lia.
Qed.

(** X4.  [parseDateString] accepts every token that names a date of the
    calendar in the years 1900 to 3000, whichever of the month's names the
    token uses and in whatever case, and returns the date as year, month
    and day, the month and the day padded to two digits; this in every
    time zone whose clocks did not skip that day.  (A day that the zone
    skipped is refused: [Date] reads it back as the day after.) *)
Theorem parseDateString_accepts_real_dates (dateStr : string) (y m d : Z) :
  tokenComponents dateStr = Some (y, m, d) -> realCalendarDate y m d ->
  localDay (JsDate.makeDay y (m - 1) d) = JsDate.makeDay y (m - 1) d ->
  parseDateString dateStr
  = Ok (JsString.ofInt y ++ "-" ++ JsString.padStart 2 "0" (JsString.ofInt m)
          ++ "-" ++ JsString.padStart 2 "0" (JsString.ofInt d))%string.
Proof.
  intros Htok Hreal Hzone. pose proof (parseDateString_spec dateStr) as Hspec.
  destruct (parseDateString dateStr) as [canonical|msg].
  - destruct Hspec as (y' & m' & d' & Htok' & _ & ->).
    rewrite Htok in Htok'. by injection Htok' as <- <- <-.
  - specialize (Hspec y m d Htok Hreal). destruct Hreal as (_ & Hm & Hd).
    pose proof (daysInMonth_le y m) as Hle.
    rewrite comesBack_here in Hspec by (done || lia).
    apply Z.leb_gt in Hspec. lia.
Qed.

Lemma parsed_dates_canonical (dateStr canonical : string) :
  parseDateString dateStr = Ok canonical -> isCanonicalDate canonical = true.
Proof.
  intros Hok. pose proof (parseDateString_spec dateStr) as Hspec. rewrite Hok in Hspec.
  destruct Hspec as (y & m & d & _ & Hreal & ->). by apply formatLocalDate_canonical.
Qed.

(** X5.  A date that [parseDateString] returns has the form
    [/^\d{4}-\d{2}-\d{2}$/]; so the client takes it as it is, on every
    engine and in every time zone: [parseAndFormatDate] returns it and
    [formatDateForComparison] compares with it unchanged. *)
Theorem parsed_dates_are_canonical (dateStr canonical : string) :
  parseDateString dateStr = Ok canonical ->
  isCanonicalDate canonical = true
  /\ String.length canonical = 10%nat
  /\ parseAndFormatDate canonical = Ok canonical
  /\ formatDateForComparison canonical = canonical.
Proof.
  intros Hok. pose proof (parseDateString_spec dateStr) as Hspec. rewrite Hok in Hspec.
  destruct Hspec as (y & m & d & _ & Hreal & ->).
  pose proof (formatLocalDate_canonical y m d Hreal) as Hc.
  destruct (canonical_formats _ Hc) as [Hcmp Hfmt].
  split; [exact Hc|]. split; [|by split].
  revert Hc. generalize (formatLocalDate (Some (y, m, d))). intros s. unfold isCanonicalDate.
  do 10 (destruct s as [|? s]; [discriminate|]). by destruct s.
Qed.

End ParsedDates.

Lemma parseDateString_accepts_real_dates_witness :
  @Parser.parseDateString utcZone "SEPTEMBER-7-2025" = Ok "2025-09-07".
Proof.
  apply (@parseDateString_accepts_real_dates utcZone "SEPTEMBER-7-2025" 2025 9 7);
    [reflexivity | | reflexivity].
  unfold realCalendarDate. vm_compute. repeat split; congruence.
Defined.

(** The zone of Samoa about the end of 2011: the clocks went from the end
    of 29 December to the start of 31 December. *)
Definition samoaZone : LocalZone :=
  {| localDay := fun n => if n =? JsDate.makeDay 2011 11 30 then n + 1 else n;
     atHour := fun h t =>
       (t + 50400000) / JsDate.msPerDay * JsDate.msPerDay + h * 3600000 - 50400000 |}.

(** There the token of the day that was skipped is refused, and that of
    the day after is taken. *)
Example skipped_day_is_refused :
  @Parser.parseDateString samoaZone "dec-30-2011"
  = Throw "Invalid date values: Invalid date: dec-30-2011"
  /\ @Parser.parseDateString samoaZone "dec-31-2011" = Ok "2011-12-31"
  /\ @Parser.parseDateString utcZone "dec-30-2011" = Ok "2011-12-30".
Proof. repeat split; vm_compute; reflexivity. Qed.

Lemma parsed_dates_are_canonical_witness :
  ApiClient.isCanonicalDate "2024-02-29" = true
  /\ @ApiClient.parseAndFormatDate plainPlatform "2024-02-29" = Ok "2024-02-29".
Proof.
  destruct (@parsed_dates_are_canonical plainPlatform utcZone "feb-29-2024" "2024-02-29"
              eq_refl)
    as (Hc & _ & Hfmt & _).
  by split.
Defined.

(** ** Instants in doubles *)

Section Instants.

Import JsNumber.

(** A number that is not negative: a finite one from zero on, or the
    infinity above. *)
Definition notNegative (a : number) : Prop :=
  (exists x, a = Finite x /\ (0 <= x)%Q) \/ a = Infinity false.

(** [durationHours * 60 * 60 * 1000] *)
Definition durationMs (hours : Q) : number :=
  mul (mul (mul (ofQ hours) (ofZ 60)) (ofZ 60)) (ofZ 1000).

Lemma ofZ_whole n : Z.abs n < 2 ^ 53 -> ofZ n = Finite (inject_Z n).
Proof. intros Hn. by apply (round64_Z (inject_Z n) n). Qed.

Lemma ofQ_notNegative x : (0 <= x)%Q -> notNegative (ofQ x).
Proof.
  intros Hx. unfold ofQ.
  destruct (round64_nonneg x Hx) as [(-> & Hn & _) | ->]; [left | by right].
  by eexists.
Qed.

Lemma mul_notNegative a n : notNegative a -> 0 < n < 2 ^ 53 -> notNegative (mul a (ofZ n)).
Proof.
  intros Ha Hn. rewrite ofZ_whole by lia.
  assert (Hq : (0 < inject_Z n)%Q) by (rewrite <- (Zlt_Qlt 0); lia).
  destruct Ha as [(x & -> & Hx) | ->]; cbn [mul].
  - assert (Hp : (0 <= x * inject_Z n)%Q).
    { apply Qmult_le_0_compat; [done | by apply Qlt_le_weak]. }
    destruct (round64_nonneg _ Hp) as [(-> & Hr & _) | ->]; [left | by right].
    by eexists.
  - destruct (Qeq_bool (inject_Z n) 0) eqn:Ez.
    { apply Qeq_bool_iff in Ez. rewrite Ez in Hq. by apply Qlt_irrefl in Hq. }
    right. unfold negative.
    by rewrite (proj2 (Qle_bool_iff 0 (inject_Z n)) (Qlt_le_weak _ _ Hq)).
Qed.

Lemma round_notNegative a : notNegative a -> notNegative (round a).
Proof.
  intros [(x & -> & Hx) | ->]; [left | by right]. cbn [round]. eexists. split; [done|].
  rewrite <- (Zle_Qle 0). by apply mathRound_nonneg.
Qed.

Lemma durationMs_notNegative hrs : (0 <= hrs)%Q -> notNegative (durationMs hrs).
Proof.
  intros Hh. unfold durationMs.
  repeat (apply mul_notNegative; [|by vm_compute]). by apply ofQ_notNegative.
Qed.

Lemma trunc_Z n : trunc (inject_Z n) = n.
Proof.
  unfold trunc. destruct (Qle_bool 0 (inject_Z n)); [apply Qfloor_Z|].
  rewrite <- inject_Z_opp, Qfloor_Z. lia.
Qed.

Lemma trunc_ge x n : (inject_Z n <= x)%Q -> n <= trunc x.
Proof.
  intros Hx. unfold trunc. destruct (Qle_bool 0 x).
  - rewrite <- (Qfloor_Z n). by apply Qfloor_resp_le.
  - assert (Hf : Qfloor (- x) <= - n); [|lia].
    rewrite <- (Qfloor_Z (- n)). apply Qfloor_resp_le. rewrite inject_Z_opp. lra.
Qed.

Lemma trunc_le x n : (x <= inject_Z n)%Q -> trunc x <= n.
Proof.
  intros Hx. unfold trunc. destruct (Qle_bool 0 x) eqn:E0.
  - rewrite <- (Qfloor_Z n). by apply Qfloor_resp_le.
  - assert (Hf : - n <= Qfloor (- x)); [|lia].
    rewrite <- (Qfloor_Z (- n)). apply Qfloor_resp_le. rewrite inject_Z_opp. lra.
Qed.

Lemma ofNumber_range a t : JsDate.ofNumber a = Some t -> Z.abs t <= JsDate.maxTime.
Proof.
  destruct a as [x| |]; [|discriminate..]. cbn [JsDate.ofNumber].
  destruct (Qle_bool (Qabs x) (inject_Z JsDate.maxTime)) eqn:Ex; [|discriminate].
  intros [= <-]. apply Qle_bool_iff, Qabs_Qle_condition in Ex. destruct Ex as [Hlo Hhi].
  rewrite <- inject_Z_opp in Hlo.
  pose proof (trunc_ge x _ Hlo). pose proof (trunc_le x _ Hhi). lia.
Qed.

Lemma timeClip_range t s : JsDate.timeClip t = Some s -> Z.abs s <= JsDate.maxTime.
Proof.
  unfold JsDate.timeClip. destruct (Z.leb_spec (Z.abs t) JsDate.maxTime); [|discriminate].
  by intros [= <-].
Qed.

Lemma getTime_whole s :
  Z.abs s <= JsDate.maxTime -> JsDate.getTime (Some s) = Finite (inject_Z s).
Proof.
  intros Hs. cbn [JsDate.getTime]. apply ofZ_whole. unfold JsDate.maxTime in Hs. lia.
Qed.

(** [new Date(whole number)] *)
Lemma ofNumber_whole a t : whole a t -> JsDate.ofNumber a = JsDate.timeClip t.
Proof.
  intros (x & -> & Hx). cbn [JsDate.ofNumber]. unfold JsDate.timeClip.
  rewrite (trunc_comp _ _ Hx), trunc_Z.
  assert (Ha : (Qabs x == inject_Z (Z.abs t))%Q) by (by rewrite Hx).
  destruct (Z.leb_spec (Z.abs t) JsDate.maxTime) as [Hle|Hgt].
  - assert (Hq : (Qabs x <= inject_Z JsDate.maxTime)%Q) by (by rewrite Ha, <- Zle_Qle).
    apply Qle_bool_iff in Hq. by rewrite Hq.
  - destruct (Qle_bool (Qabs x) (inject_Z JsDate.maxTime)) eqn:Eq; [|done].
    apply Qle_bool_iff in Eq. rewrite Ha, <- Zle_Qle in Eq. lia.
Qed.

(** The end of a task is not before its start. *)
Lemma end_not_before s P e :
  Z.abs s <= JsDate.maxTime -> notNegative P ->
  JsDate.ofNumber (add (JsDate.getTime (Some s)) P) = Some e -> s <= e.
Proof.
  intros Hs HP. rewrite (getTime_whole s Hs).
  destruct HP as [(p & -> & Hp) | ->]; [|discriminate]. cbn [add].
  unfold round64. cbv zeta.
  destruct (Qle_bool (pow2 1024) (Qabs (nearest (inject_Z s + p)))); [discriminate|].
  cbn [JsDate.ofNumber].
  destruct (Qle_bool (Qabs (nearest (inject_Z s + p))) (inject_Z JsDate.maxTime));
    [|discriminate].
  intros [= <-]. apply trunc_ge, nearest_ge; [unfold JsDate.maxTime in Hs; lia | lra].
Qed.

(** One step of the arithmetic: the product of a finite number of known
    size and a whole factor, and how far it is from the exact product. *)
Lemma mul_close x c n :
  (0 <= x)%Q -> 0 < c < 2 ^ 53 -> (x * inject_Z c < pow2 n)%Q -> -1021 <= n <= 1000 ->
  exists p, mul (Finite x) (ofZ c) = Finite p /\ (0 <= p)%Q
            /\ (Qabs (p - x * inject_Z c) <= pow2 (n - 54))%Q.
Proof.
  intros Hx Hc Hsize Hn. rewrite ofZ_whole by lia. cbn [mul].
  assert (Hq : (0 <= inject_Z c)%Q) by (rewrite <- (Zle_Qle 0); lia).
  assert (Hp : (0 <= x * inject_Z c)%Q) by (by apply Qmult_le_0_compat).
  assert (Hs : (Qabs (x * inject_Z c) < pow2 n)%Q) by (by rewrite Qabs_pos).
  exists (nearest (x * inject_Z c)). split; [|split].
  - apply round64_finite. eapply Qlt_trans; [apply (nearest_small _ n); [done | lia]|].
    apply pow2_lt. lia.
  - by apply nearest_nonneg.
  - apply nearest_close; [done | lia].
Qed.

(** The milliseconds of a task of at most a hundred hours: the three
    products are off the exact value by less than [2^-23] altogether. *)
Lemma durationMs_close hrs :
  (0 <= hrs)%Q -> (hrs <= 100)%Q ->
  exists p, durationMs hrs = Finite p /\ (0 <= p)%Q
            /\ (Qabs (p - hrs * 3600000) <= 1 # 8388608)%Q.
Proof.
  intros H0 H1. unfold durationMs, ofQ.
  assert (Hsize : (Qabs hrs < pow2 7)%Q).
  { rewrite (Qabs_pos hrs H0). apply Qle_lt_trans with 100%Q; [done | reflexivity]. }
  pose proof (nearest_close hrs 7 Hsize ltac:(lia)) as Hc0.
  pose proof (nearest_nonneg hrs H0) as Hd0.
  assert (Hfin : round64 hrs = Finite (nearest hrs)).
  { apply round64_finite. eapply Qlt_trans; [apply (nearest_small _ 7); [done | lia]|].
    apply pow2_lt. lia. }
  rewrite Hfin. set (d := nearest hrs) in *.
  change (pow2 (7 - 54)) with (1 # 140737488355328)%Q in Hc0.
  apply Qabs_Qle_condition in Hc0. destruct Hc0 as [Hc0 Hc0'].
  destruct (mul_close d 60 13 Hd0 ltac:(lia)) as (p1 & -> & Hp1 & Hc1); [|lia|].
  { change (pow2 13) with 8192%Q. change (inject_Z 60) with 60%Q. lra. }
  change (pow2 (13 - 54)) with (1 # 2199023255552)%Q in Hc1.
  change (inject_Z 60) with 60%Q in Hc1.
  apply Qabs_Qle_condition in Hc1. destruct Hc1 as [Hc1 Hc1'].
  destruct (mul_close p1 60 19 Hp1 ltac:(lia)) as (p2 & -> & Hp2 & Hc2); [|lia|].
  { change (pow2 19) with 524288%Q. change (inject_Z 60) with 60%Q. lra. }
  change (pow2 (19 - 54)) with (1 # 34359738368)%Q in Hc2.
  change (inject_Z 60) with 60%Q in Hc2.
  apply Qabs_Qle_condition in Hc2. destruct Hc2 as [Hc2 Hc2'].
  destruct (mul_close p2 1000 29 Hp2 ltac:(lia)) as (p3 & -> & Hp3 & Hc3); [|lia|].
  { change (pow2 29) with 536870912%Q. change (inject_Z 1000) with 1000%Q. lra. }
  change (pow2 (29 - 54)) with (1 # 33554432)%Q in Hc3.
  change (inject_Z 1000) with 1000%Q in Hc3.
  apply Qabs_Qle_condition in Hc3. destruct Hc3 as [Hc3 Hc3'].
  exists p3. split; [done|]. split; [done|].
  apply Qabs_Qle_condition. split; lra.
Qed.
(** The end of a task of at most a hundred hours whose hours are a whole
    number of milliseconds, from a start after 19 February 1970: the sum
    absorbs what the products are off, and the end is exact. *)
Lemma end_exact s hrs ms e :
  2 ^ 32 <= s -> (0 <= hrs)%Q -> (hrs <= 100)%Q -> (hrs * 3600000 == inject_Z ms)%Q ->
  JsDate.ofNumber (add (JsDate.getTime (Some s)) (durationMs hrs)) = Some e ->
  s <= JsDate.maxTime -> e = s + ms.
Proof.
  intros Hs H0 H1 Hms Hend Hmax. unfold JsDate.maxTime in Hmax.
  rewrite getTime_whole in Hend by (unfold JsDate.maxTime; lia).
  destruct (durationMs_close hrs H0 H1) as (p & Hp & Hp0 & Hc). rewrite Hp in Hend.
  cbn [add] in Hend. rewrite Hms in Hc.
  assert (Hms0 : 0 <= ms <= 360000000).
  { split.
    - rewrite (Zle_Qle 0), <- Hms. apply Qmult_le_0_compat; [done | discriminate].
    - rewrite Zle_Qle, <- Hms. change (inject_Z 360000000) with (100 * 3600000)%Q.
      apply Qmult_le_compat_r; [done | discriminate]. }
  set (n := s + ms) in *.
  pose proof (Z.log2_spec n ltac:(lia)) as Hlog.
  assert (He : 32 <= Z.log2 n <= 52).
  { split.
    - change 32 with (Z.log2 (2 ^ 32)). apply Z.log2_le_mono. lia.
    - assert (Z.log2 n < 53); [|lia]. apply Z.log2_lt_pow2; lia. }
  assert (Hx : (Qabs (inject_Z s + p - inject_Z n) < pow2 (Z.log2 n - 54))%Q).
  { assert (Heq : (inject_Z s + p - inject_Z n == p - inject_Z ms)%Q).
    { unfold n. rewrite inject_Z_plus. ring. }
    rewrite Heq. eapply Qle_lt_trans; [exact Hc|].
    apply Qlt_le_trans with (pow2 (-22)); [reflexivity | apply pow2_le; lia]. }
  replace (Z.succ (Z.log2 n)) with (Z.log2 n + 1) in Hlog by lia.
  pose proof (nearest_absorb _ n (Z.log2 n) ltac:(lia) Hlog Hx) as Hnear.
  assert (Hfin : round64 (inject_Z s + p) = Finite (inject_Z n)).
  { rewrite round64_finite; rewrite Hnear; [done|].
    change (Qabs (inject_Z n)) with (inject_Z (Z.abs n)).
    apply Qlt_trans with (pow2 53); [|by apply pow2_lt].
    rewrite (pow2_Z 53) by lia. rewrite <- Zlt_Qlt. lia. }
  rewrite Hfin in Hend.
  assert (Hw : whole (Finite (inject_Z n)) n) by (eexists; split; reflexivity).
  rewrite (ofNumber_whole _ _ Hw) in Hend. unfold JsDate.timeClip in Hend.
  destruct (Z.abs n <=? JsDate.maxTime); [|discriminate]. by injection Hend as <-.
Qed.
(** In general the end of such a task is within a millisecond of the
    exact one. *)
Lemma end_close s hrs e :
  0 <= s <= JsDate.maxTime -> (0 <= hrs)%Q -> (hrs <= 100)%Q ->
  JsDate.ofNumber (add (JsDate.getTime (Some s)) (durationMs hrs)) = Some e ->
  s + Qfloor (hrs * 3600000) - 1 <= e <= s + Qfloor (hrs * 3600000) + 1.
Proof.
  intros Hs H0 H1 Hend. unfold JsDate.maxTime in Hs.
  rewrite getTime_whole in Hend by (unfold JsDate.maxTime; lia).
  destruct (durationMs_close hrs H0 H1) as (p & Hp & Hp0 & Hc). rewrite Hp in Hend.
  cbn [add] in Hend. apply Qabs_Qle_condition in Hc. destruct Hc as [Hc Hc'].
  set (h := (hrs * 3600000)%Q) in *.
  assert (Hh : (0 <= h)%Q /\ (h <= 360000000)%Q).
  { unfold h. split; lra. }
  pose proof (Qfloor_le h) as Hf. pose proof (Qlt_floor h) as Hf'.
  rewrite inject_Z_plus in Hf'. change (inject_Z 1) with 1%Q in Hf'.
  assert (Hs0 : (0 <= inject_Z s)%Q) by (rewrite <- (Zle_Qle 0); lia).
  assert (Hs1 : (inject_Z s <= 8640000000000000)%Q).
  { change 8640000000000000%Q with (inject_Z 8640000000000000). rewrite <- Zle_Qle. lia. }
  set (x := (inject_Z s + p)%Q) in *.
  assert (Hx0 : (0 <= x)%Q) by (unfold x; lra).
  assert (Hsize : (Qabs x < pow2 53)%Q).
  { rewrite (Qabs_pos x Hx0). change (pow2 53) with 9007199254740992%Q. unfold x. lra. }
  pose proof (nearest_close x 53 Hsize ltac:(lia)) as Hn.
  change (pow2 (53 - 54)) with (1 # 2)%Q in Hn.
  apply Qabs_Qle_condition in Hn. destruct Hn as [Hn Hn'].
  pose proof (nearest_nonneg x Hx0) as Hv0.
  rewrite round64_finite in Hend.
  2:{ eapply Qlt_trans; [apply (nearest_small x 53); [done | lia] | by apply pow2_lt]. }
  cbn [JsDate.ofNumber] in Hend.
  destruct (Qle_bool (Qabs (nearest x)) (inject_Z JsDate.maxTime)); [|discriminate].
  injection Hend as <-. unfold trunc. rewrite (proj2 (Qle_bool_iff 0 (nearest x)) Hv0).
  pose proof (Qfloor_le (nearest x)) as Hg. pose proof (Qlt_floor (nearest x)) as Hg'.
  rewrite inject_Z_plus in Hg'. change (inject_Z 1) with 1%Q in Hg'.
  split.
  - rewrite <- (Qfloor_Z (s + Qfloor h - 1)). apply Qfloor_resp_le.
    unfold Z.sub. rewrite !inject_Z_plus, inject_Z_opp. change (inject_Z 1) with 1%Q.
    unfold x in *. lra.
  - assert (Hlt : Qfloor (nearest x) < s + Qfloor h + 2); [|lia].
    rewrite Zlt_Qlt, !inject_Z_plus. change (inject_Z 2) with 2%Q. unfold x in *. lra.
Qed.

(** The start of a task that follows a break: the cursor and the minutes
    of the break are whole numbers, and so is their sum. *)
Lemma start_exact c bm m :
  Z.abs c <= JsDate.maxTime -> whole bm m -> 0 <= m <= 6000 ->
  JsDate.ofNumber
    (add (JsDate.getTime (Some c)) (mul (mul bm (ofZ 60)) (ofZ 1000)))
  = JsDate.timeClip (c + m * 60000).
Proof.
  intros Hc Hbm Hm. unfold JsDate.maxTime in Hc.
  replace (c + m * 60000) with (c + m * 60 * 1000) by lia.
  apply ofNumber_whole. apply whole_add; [cbn [JsDate.getTime]; apply whole_ofZ; lia | | lia].
  apply whole_mul; [|apply whole_ofZ; lia | lia].
  apply whole_mul; [done | apply whole_ofZ; lia | lia].
Qed.

Lemma breakMinutes_whole b :
  (0 <= b)%Q -> (b <= 100)%Q ->
  whole (round (mul (ofQ b) (ofZ 60))) (jsMinutes b) /\ 0 <= jsMinutes b <= 6000.
Proof.
  intros H0 H1.
  assert (Hmax : (b <= maxHours)%Q) by (apply Qle_trans with 100%Q; [done | discriminate]).
  destruct (minutes_whole b H0 Hmax) as [Hw [Hlo _]]. split; [done|]. split; [done|].
  destruct (jsMinutes_close b H0 Hmax) as [_ Hup].
  eapply Z.le_trans; [exact Hup|].
  change 6000 with (Qfloor (6000 + (1 # 8192) + (1 # 2))).
  unfold mathRound. apply Qfloor_resp_le. lra.
Qed.

End Instants.

(** ** The first pass of the parser over a date *)

Section ParserPass.

Import Parser.

Context `{LocalZone}.

Variable pm : gmap string Z.

(** A record the first pass keeps: it passes [validateEntryData], it names
    a project, and it is not a scrum record without a work package. *)
Definition kept (raw : RawEntry) : bool :=
  isValidEntry pm raw && truthyS (raw_project raw)
  && negb (default false (raw_is_scrum raw) && negb (truthyZ (raw_work_package_id raw))).

Definition breakHoursOf (raw : RawEntry) : Q :=
  if truthyQ (raw_break_hours raw) then default 0%Q (raw_break_hours raw) else 0%Q.

Definition breakMinutesOf (raw : RawEntry) : JsNumber.number :=
  if truthyQ (raw_break_hours raw)
  then JsNumber.round (JsNumber.mul (JsNumber.ofQ (breakHoursOf raw)) (JsNumber.ofZ 60))
  else JsNumber.ofZ 0.

(** The start and the end that [parseJsonTaskEntry] computes for a record,
    from the cursor. *)
Definition startOf (raw : RawEntry) (cursor : option Z) : option Z :=
  calculateStartTime (default false (raw_is_scrum raw)) cursor (breakMinutesOf raw).

Definition endOf (raw : RawEntry) (cursor : option Z) : option Z :=
  JsDate.ofNumber
    (JsNumber.add (JsDate.getTime (startOf raw cursor))
       (durationMs (default 0%Q (raw_duration_hours raw)))).

(** The task [parseJsonTaskEntry] makes of a record it keeps. *)
Definition taskOf (raw : RawEntry) (start_time end_time : Z) (day : string) : TaskEntry :=
  {| t_project := default "" (raw_project raw);
     t_work_package_id := raw_work_package_id raw;
     t_project_id := pm !! default "" (raw_project raw);
     t_subject := default "" (raw_subject raw);
     t_activity :=
       if truthyS (raw_activity raw) then default "" (raw_activity raw)
       else determineActivity (default "" (raw_subject raw));
     t_start_time := start_time;
     t_end_time := end_time;
     t_hours := default 0%Q (raw_duration_hours raw);
     t_break_minutes := breakMinutesOf raw;
     t_break_hours := breakHoursOf raw;
     t_is_scrum := default false (raw_is_scrum raw);
     t_entry_date := day |}.

(** What [parseJsonTaskEntry] gives for a record that passed validation:
    nothing when the record is dropped, an error when its start or its end
    is no date, its task otherwise. *)
Definition entryOf (raw : RawEntry) (cursor : option Z) (day : string)
  : Result (option TaskEntry) :=
  if kept raw then
    match startOf raw cursor, endOf raw cursor with
    | Some start_time, Some end_time => Ok (Some (taskOf raw start_time end_time day))
    | _, _ => Throw JsDate.invalidTimeValue
    end
  else Ok None.

Lemma valid_fields raw :
  isValidEntry pm raw = true ->
  truthyS (raw_subject raw) = true
  /\ JsString.trim (default "" (raw_subject raw)) <> ""
  /\ (0 < default 0%Q (raw_duration_hours raw))%Q
  /\ (0 <= default 0%Q (raw_break_hours raw))%Q
  /\ (truthyS (raw_project raw) = true ->
      hasProperty pm (default "" (raw_project raw)) = true)
  /\ match raw_work_package_id raw with Some n => 0 < n | None => True end.
Proof.
  unfold isValidEntry. rewrite !andb_true_iff.
  intros [[[[[[[[[Hp Hs] Hd] Ha] Hsc] Hpm] Htrim] Hdur] Hbrk] Hwp].
  apply negb_true_iff in Htrim, Hdur, Hbrk. apply String.eqb_neq in Htrim.
  assert (Hpos : (0 < default 0%Q (raw_duration_hours raw))%Q).
  { apply Qnot_le_lt. intros Hle. apply Qle_bool_iff in Hle. congruence. }
  split.
  { destruct (raw_subject raw) as [s|]; [|done]. simpl in *.
    apply negb_true_iff, String.eqb_neq. by intros ->. }
  split; [done|]. split; [done|]. split.
  { destruct (Qle_bool (default 0%Q (raw_break_hours raw)) 0) eqn:Ele.
    - simpl in Hbrk. apply negb_false_iff, Qeq_bool_iff in Hbrk.
      rewrite Hbrk. apply Qle_refl.
    - apply Qlt_le_weak, Qnot_le_lt. intros Hle. apply Qle_bool_iff in Hle. congruence. }
  split.
  { intros Ht. rewrite Ht in Hpm. exact Hpm. }
  destruct (raw_work_package_id raw); [lia | done].
Qed.

Lemma parseJsonTaskEntry_kept raw cursor day :
  isValidEntry pm raw = true ->
  parseJsonTaskEntry pm raw cursor day = entryOf raw cursor day.
Proof.
  intros Hv. destruct (valid_fields raw Hv) as (Hs & _ & Hd & _ & _ & _).
  unfold entryOf, kept, parseJsonTaskEntry. rewrite Hv. cbn [andb].
  unfold orElse. rewrite Hs.
  destruct (truthyS (raw_project raw)); cbn [negb orb andb]; [|done].
  assert (Hz : Qeq_bool (default 0%Q (raw_duration_hours raw)) 0 = false).
  { apply not_true_iff_false. intros Hz%Qeq_bool_iff. rewrite Hz in Hd.
    by apply Qlt_irrefl in Hd. }
  rewrite Hz, Hs. cbn [negb].
  by destruct (default false (raw_is_scrum raw) && negb (truthyZ (raw_work_package_id raw))).
Qed.

Lemma kept_valid raw : kept raw = true -> isValidEntry pm raw = true.
Proof. unfold kept. rewrite !andb_true_iff. by intros [[Hv _] _]. Qed.

(** The pass, told by the records it keeps. *)
Fixpoint passFrom (raws : list RawEntry) (cursor : option Z) (day : string)
  : Result (list TaskEntry) :=
  match raws with
  | [] => Ok []
  | raw :: rest =>
      if kept raw then
        match startOf raw cursor, endOf raw cursor with
        | Some start_time, Some end_time =>
            match passFrom rest (Some end_time) day with
            | Ok tasks => Ok (taskOf raw start_time end_time day :: tasks)
            | Throw msg => Throw msg
            end
        | _, _ => Throw JsDate.invalidTimeValue
        end
      else passFrom rest cursor day
  end.

Lemma processFrom_passFrom raws day : forall cursor,
  processFrom pm raws cursor day = passFrom raws cursor day.
Proof.
  induction raws as [|raw raws IH]; intros cursor; [done|].
  cbn [processFrom passFrom].
  destruct (isValidEntry pm raw) eqn:Hv.
  - rewrite (parseJsonTaskEntry_kept raw cursor day Hv). unfold entryOf.
    destruct (kept raw); [|by rewrite IH].
    destruct (startOf raw cursor) as [s|]; [|done].
    destruct (endOf raw cursor) as [e|]; [|done].
    cbn [t_end_time taskOf]. by rewrite IH.
  - assert (Hk : kept raw = false) by (unfold kept; by rewrite Hv).
    by rewrite Hk, IH.
Qed.

(** What every task of the first pass satisfies. *)
Definition wellFormedTask (day : string) (te : TaskEntry) : Prop :=
  t_entry_date te = day
  /\ t_project te <> "" /\ hasProperty pm (t_project te) = true
  /\ t_project_id te = pm !! t_project te
  /\ JsString.trim (t_subject te) <> ""
  /\ (0 < t_hours te)%Q
  /\ (0 <= t_break_hours te)%Q /\ notNegative (t_break_minutes te)
  /\ Z.abs (t_start_time te) <= JsDate.maxTime /\ Z.abs (t_end_time te) <= JsDate.maxTime
  /\ t_start_time te <= t_end_time te
  /\ (t_is_scrum te = true -> exists n, t_work_package_id te = Some n /\ 0 < n).

Lemma breakHoursOf_nonneg raw : isValidEntry pm raw = true -> (0 <= breakHoursOf raw)%Q.
Proof.
  intros Hv. destruct (valid_fields raw Hv) as (_ & _ & _ & Hb & _ & _).
  unfold breakHoursOf. destruct (truthyQ (raw_break_hours raw)); [exact Hb | apply Qle_refl].
Qed.

Lemma breakMinutesOf_notNegative raw :
  isValidEntry pm raw = true -> notNegative (breakMinutesOf raw).
Proof.
  intros Hv. pose proof (breakHoursOf_nonneg raw Hv) as Hb. unfold breakMinutesOf.
  destruct (truthyQ (raw_break_hours raw)).
  - apply round_notNegative, mul_notNegative; [by apply ofQ_notNegative | by vm_compute].
  - left. by exists 0%Q.
Qed.

Lemma startOf_range raw cursor s : startOf raw cursor = Some s -> Z.abs s <= JsDate.maxTime.
Proof.
  unfold startOf, calculateStartTime, setHours.
  destruct (default false (raw_is_scrum raw)).
  - destruct cursor as [t|]; [apply timeClip_range | discriminate].
  - apply ofNumber_range.
Qed.

Lemma taskOf_wellFormed raw cursor s e day :
  kept raw = true -> startOf raw cursor = Some s -> endOf raw cursor = Some e ->
  wellFormedTask day (taskOf raw s e day).
Proof.
  unfold kept. rewrite !andb_true_iff. intros [[Hv Hp] Hs] Hstart Hend.
  destruct (valid_fields raw Hv) as (Hsub & Htrim & Hd & Hb & Hpm & Hwp).
  pose proof (startOf_range raw cursor s Hstart) as Hrange.
  unfold wellFormedTask, taskOf.
  cbn [t_entry_date t_project t_project_id t_subject t_hours t_break_hours
       t_break_minutes t_start_time t_end_time t_is_scrum t_work_package_id].
  split; [done|]. split.
  { destruct (raw_project raw) as [p|]; [|done]. simpl in *.
    apply negb_true_iff in Hp. by apply String.eqb_neq in Hp. }
  split; [by apply Hpm|]. split; [done|]. split; [done|]. split; [done|].
  split; [by apply breakHoursOf_nonneg|].
  split; [by apply breakMinutesOf_notNegative|].
  split; [done|]. unfold endOf in Hend. rewrite Hstart in Hend.
  split; [by apply (ofNumber_range _ _ Hend)|].
  split.
  { eapply end_not_before; [exact Hrange | | exact Hend].
    apply durationMs_notNegative. by apply Qlt_le_weak. }
  intros Hscrum. rewrite Hscrum in Hs. cbn in Hs. apply negb_true_iff, negb_false_iff in Hs.
  destruct (raw_work_package_id raw) as [n|]; [|done]. by exists n.
Qed.

Lemma processDateEntries_wellFormed (raws : list RawEntry) (day : string) (now : Z) :
  match processDateEntries pm raws day now with
  | Ok out => Forall (wellFormedTask day) out
  | Throw msg => msg = JsDate.invalidTimeValue
  end.
Proof.
  unfold processDateEntries. rewrite processFrom_passFrom.
  generalize (setHours 9 (Some now)). induction raws as [|raw raws IH]; intros cursor.
  - constructor.
  - cbn [passFrom]. destruct (kept raw) eqn:Hk; [|apply IH].
    destruct (startOf raw cursor) as [s|] eqn:Hs; [|done].
    destruct (endOf raw cursor) as [e|] eqn:He; [|done].
    specialize (IH (Some e)). destruct (passFrom raws (Some e) day) as [tasks|msg]; [|done].
    constructor; [by eapply taskOf_wellFormed | exact IH].
Qed.

(** X6.  The first pass of the parser over the records of a date
    ([processDateEntries]) keeps, in their order, exactly the records that
    pass [validateEntryData], name a project, and are not scrum records
    without a work package.  Every task it gives carries the date, a
    project that is [in] the mappings, a subject that is not blank,
    positive hours, a break that is not negative, a start and an end that
    are dates, the end not before the start, and, when it is a scrum task,
    a positive work-package id.  The pass throws only where a start or an
    end is no date, with the error of [toISOString]. *)
Theorem parser_pass_gives_well_formed_tasks (raws : list RawEntry) (day : string) (now : Z) :
  match processDateEntries pm raws day now with
  | Ok out =>
      map t_subject out = map (fun raw => default "" (raw_subject raw)) (List.filter kept raws)
      /\ map t_hours out
         = map (fun raw => default 0%Q (raw_duration_hours raw)) (List.filter kept raws)
      /\ Forall (wellFormedTask day) out
  | Throw msg =>
      msg = JsDate.invalidTimeValue
      /\ exists raw cursor,
           raw ∈ raws /\ kept raw = true
           /\ (startOf raw cursor = None \/ endOf raw cursor = None)
  end.
Proof.
  unfold processDateEntries. rewrite processFrom_passFrom.
  generalize (setHours 9 (Some now)). induction raws as [|raw raws IH]; intros cursor.
  - repeat split; constructor.
  - cbn [passFrom List.filter]. destruct (kept raw) eqn:Hk.
    2:{ specialize (IH cursor). destruct (passFrom raws cursor day); [done|].
        destruct IH as (Hmsg & raw' & c & Hin & Hrest). split; [done|].
        exists raw', c. split; [by right | done]. }
    destruct (startOf raw cursor) as [s|] eqn:Hs.
    2:{ split; [done|]. exists raw, cursor. split; [by left|]. split; [done | by left]. }
    destruct (endOf raw cursor) as [e|] eqn:He.
    2:{ split; [done|]. exists raw, cursor. split; [by left|]. split; [done | by right]. }
    specialize (IH (Some e)). destruct (passFrom raws (Some e) day) as [tasks|msg].
    + destruct IH as (Hsub & Hh & Hall). cbn [map]. rewrite Hsub, Hh.
      repeat split; try done. constructor; [by eapply taskOf_wellFormed | exact Hall].
    + destruct IH as (Hmsg & raw' & c & Hin & Hrest). split; [done|].
      exists raw', c. split; [by right | done].
Qed.

(** The times of consecutive tasks.  A scrum task starts at 10:00 of the
    cursor's day.  Any other task starts at the cursor plus its break, the
    break in whole minutes as [Math.round] gives them.  The end is the
    start plus the hours: within a millisecond, and exactly where the
    hours are a whole number of milliseconds.  The cursor for the next
    task is that end. *)
Fixpoint timesFollow (cursor : option Z) (l : list TaskEntry) : Prop :=
  match l with
  | [] => True
  | te :: rest =>
      (if t_is_scrum te then setHours 10 cursor = Some (t_start_time te)
       else exists c,
           cursor = Some c
           /\ ((t_break_hours te <= 100)%Q ->
               whole (t_break_minutes te) (jsMinutes (t_break_hours te))
               /\ t_start_time te = c + jsMinutes (t_break_hours te) * 60000))
      /\ ((t_hours te <= 100)%Q -> 0 <= t_start_time te ->
          t_start_time te + Qfloor (t_hours te * 3600000) - 1 <= t_end_time te
            <= t_start_time te + Qfloor (t_hours te * 3600000) + 1
          /\ forall ms,
               2 ^ 32 <= t_start_time te -> (t_hours te * 3600000 == inject_Z ms)%Q ->
               t_end_time te = t_start_time te + ms)
      /\ timesFollow (Some (t_end_time te)) rest
  end.

Lemma breakMinutesOf_whole raw :
  isValidEntry pm raw = true -> (breakHoursOf raw <= 100)%Q ->
  whole (breakMinutesOf raw) (jsMinutes (breakHoursOf raw))
  /\ 0 <= jsMinutes (breakHoursOf raw) <= 6000.
Proof.
  intros Hv Hle. pose proof (breakHoursOf_nonneg raw Hv) as H0.
  unfold breakMinutesOf. destruct (truthyQ (raw_break_hours raw)) eqn:Et.
  - by apply breakMinutes_whole.
  - unfold breakHoursOf. rewrite Et. rewrite jsMinutes_zero by reflexivity.
    split; [|lia]. apply whole_ofZ. lia.
Qed.

Lemma taskOf_times raw cursor s e day :
  kept raw = true -> (forall c, cursor = Some c -> Z.abs c <= JsDate.maxTime) ->
  startOf raw cursor = Some s -> endOf raw cursor = Some e ->
  forall rest, timesFollow (Some e) rest ->
               timesFollow cursor (taskOf raw s e day :: rest).
Proof.
  intros Hk Hcur Hstart Hend rest Hrest. pose proof (kept_valid raw Hk) as Hv.
  destruct (valid_fields raw Hv) as (_ & _ & Hd & _ & _ & _).
  pose proof (startOf_range raw cursor s Hstart) as Hrange.
  cbn [timesFollow taskOf t_is_scrum t_start_time t_end_time t_break_hours t_break_minutes
       t_hours].
  split; [|split; [|exact Hrest]].
  - unfold startOf, calculateStartTime in Hstart.
    destruct (default false (raw_is_scrum raw)); [exact Hstart|].
    destruct cursor as [c|]; [|discriminate]. exists c. split; [done|]. intros Hb.
    destruct (breakMinutesOf_whole raw Hv Hb) as [Hw Hm]. split; [done|].
    rewrite (start_exact c _ _ (Hcur c eq_refl) Hw Hm) in Hstart.
    unfold JsDate.timeClip in Hstart.
    destruct (Z.abs _ <=? JsDate.maxTime); [|discriminate]. by injection Hstart as <-.
  - intros Hh Hs0. unfold endOf in Hend. rewrite Hstart in Hend.
    assert (Hd0 : (0 <= default 0%Q (raw_duration_hours raw))%Q) by (by apply Qlt_le_weak).
    split.
    + apply end_close; [lia | done | done | exact Hend].
    + intros ms Hs Hms. eapply end_exact; [exact Hs | exact Hd0 | exact Hh | exact Hms
                                          | exact Hend | lia].
Qed.

(** X7.  The times of the first pass: the cursor starts at 09:00 of the
    local day; a scrum task starts at 10:00 of the cursor's day; any other
    task starts at the cursor plus its break, a whole number of minutes
    that is [Math.round] of the product of doubles (for a break of at most
    a hundred hours); every task of at most a hundred hours ends within a
    millisecond of its start plus its hours, and exactly there when the
    hours are a whole number of milliseconds and the start is after
    19 February 1970: the sum of doubles absorbs what the products are
    off; the cursor moves to the end of every task given. *)
Theorem parser_pass_times (raws : list RawEntry) (day : string) (now : Z)
    (out : list TaskEntry) :
  processDateEntries pm raws day now = Ok out ->
  timesFollow (setHours 9 (Some now)) out.
Proof.
  unfold processDateEntries. rewrite processFrom_passFrom.
  assert (Hcur : forall c, setHours 9 (Some now) = Some c -> Z.abs c <= JsDate.maxTime).
  { intros c. apply timeClip_range. }
  revert Hcur. generalize (setHours 9 (Some now)). revert out.
  induction raws as [|raw raws IH]; intros out cursor Hcur.
  - by intros [= <-].
  - cbn [passFrom]. destruct (kept raw) eqn:Hk; [|by apply IH].
    destruct (startOf raw cursor) as [s|] eqn:Hs; [|discriminate].
    destruct (endOf raw cursor) as [e|] eqn:He; [|discriminate].
    destruct (passFrom raws (Some e) day) as [tasks|] eqn:Hrest; [|discriminate].
    intros [= <-]. apply (taskOf_times raw cursor s e day Hk Hcur Hs He).
    apply IH; [|exact Hrest]. intros c [= <-].
    unfold endOf in He. by apply (ofNumber_range _ _ He).
Qed.

End ParserPass.

Definition breakTask (subject : string) (hrs brk : Q) : Parser.RawEntry :=
  {| Parser.raw_project := Some "P"; Parser.raw_subject := Some subject;
     Parser.raw_description := None;
     Parser.raw_duration_hours := Some hrs; Parser.raw_break_hours := Some brk;
     Parser.raw_activity := Some "Development"; Parser.raw_is_scrum := Some false;
     Parser.raw_work_package_id := None |}.

Lemma parser_pass_times_witness :
  let raws := [rawTask "Write the parser" 2.5 false; breakTask "Review" 4.5 0.33] in
  exists out,
    timesOf (Ok out)
    = Ok [("Write the parser", onTheDay 9 0, onTheDay 11 30);
          ("Review", onTheDay 11 50, onTheDay 16 20)]
    /\ @timesFollow utcZone (@setHours utcZone 9 (Some (onTheDay 8 30))) out.
Proof.
  intros raws.
  destruct (@Parser.processDateEntries utcZone {[ "P" := 7 ]} raws "2025-10-23"
              (onTheDay 8 30)) as [out|] eqn:Hout; [|by vm_compute in Hout].
  exists out. split.
  - vm_compute in Hout. injection Hout as <-. vm_compute. reflexivity.
  - exact (@parser_pass_times utcZone {[ "P" := 7 ]} raws "2025-10-23" (onTheDay 8 30)
             out Hout).
Defined.

(** ** The time chain, run again *)

Section ChainAgain.

Import Service.

Context `{JsPlatform}.

Lemma getFirst_chainedTimes e :
  getFirstNonScrumStartTime (chainedTimes None e) = getFirstNonScrumStartTime e.
Proof.
  unfold chainedTimes. set (s0 := getFirstNonScrumStartTime e).
  unfold getFirstNonScrumStartTime at 1.
  cbn [calculated_start_time user_set_start_time start_time setTimes].
  destruct (truthyS s0) eqn:Es; [done|].
  subst s0. unfold getFirstNonScrumStartTime in *.
  destruct (truthyS (calculated_start_time e)) eqn:Ec; [congruence|]. reflexivity.
Qed.

Lemma chainedTimes_again prev e :
  chainedTimes prev (chainedTimes prev e) = chainedTimes prev e.
Proof.
  destruct prev as [p|].
  - reflexivity.
  - unfold chainedTimes at 1. rewrite getFirst_chainedTimes. reflexivity.
Qed.

Lemma scrumTimes_again e : scrumTimes (scrumTimes e) = scrumTimes e.
Proof.
  unfold scrumTimes.
  set (st := if negb (truthyS (calculated_start_time e)) then Some "10:00"
             else calculated_start_time e).
  assert (Hst : truthyS st = true).
  { subst st. destruct (truthyS (calculated_start_time e)) eqn:Es; cbn [negb];
      [exact Es | reflexivity]. }
  cbn [calculated_start_time setTimes]. rewrite Hst. reflexivity.
Qed.

Lemma chainList_again l : forall prev, chainList prev (chainList prev l) = chainList prev l.
Proof.
  induction l as [|e l IH]; intros prev; [done|].
  cbn [chainList]. destruct (is_scrum e) eqn:Es.
  - cbn [chainList]. rewrite is_scrum_scrumTimes, Es, scrumTimes_again. by rewrite IH.
  - cbn [chainList]. rewrite is_scrum_chainedTimes, Es, chainedTimes_again. by rewrite IH.
Qed.

Lemma chainList_only_times l : forall prev,
  Forall2 (fun e e' => exists s t, e' = setTimes s t e) l (chainList prev l).
Proof.
  induction l as [|e l IH]; intros prev; [constructor|].
  cbn [chainList]. destruct (is_scrum e); (constructor; [|apply IH]).
  - unfold scrumTimes. by eexists _, _.
  - unfold chainedTimes. by eexists _, _.
Qed.

(** X8.  [processDateEntries] writes nothing on an entry but its two
    calculated times, and running it again over its own result changes
    nothing: the times of a date are settled by one run, whatever the
    entries carried before. *)
Theorem time_chain_settles (group : list Entry) (issues issues' : list ValidationIssue) :
  let out := entries (processDateEntries group issues) in
  Forall2 (fun e e' => exists s t, e' = setTimes s t e) group out
  /\ entries (processDateEntries out issues') = out.
Proof.
  cbn zeta. rewrite !processDateEntries_chainList. split.
  - apply chainList_only_times.
  - apply chainList_again.
Qed.

Lemma clock_lengths_all :
  forallb (fun h => forallb (fun m => (String.length (formatClock h m) =? 5)%nat)
                            (zrange 0 60)) (zrange 0 24) = true.
Proof. vm_compute. reflexivity. Qed.

(** X9.  A time that [addHoursToTime] computes from a time of the day and
    hours that are positive is written as two digits, a colon and two
    digits, with an hour below 24 and a minute below 60, and the service
    reads it back as it is ([extractTimeFromString]).  The one exception
    are hours beyond [maxHours] whose minutes are no finite number: they
    give [NaN:NaN]. *)
Theorem addHoursToTime_writes_a_clock_time (s : string) (hrs : Q) :
  timeOfDay s -> (0 < hrs)%Q ->
  (exists h m,
     0 <= h < 24 /\ 0 <= m < 60
     /\ addHoursToTime (Some s) hrs = Some (formatClock h m)
     /\ String.length (formatClock h m) = 5%nat
     /\ isClockString (formatClock h m) = true
     /\ extractTimeFromString (Some (formatClock h m)) = Some (formatClock h m))
  \/ (addHoursToTime (Some s) hrs = Some "NaN:NaN" /\ (maxHours < hrs)%Q).
Proof.
  intros (Hne & HnoT & Hh & Hm & Hlt) Hpos.
  assert (Hclock : forall h m, 0 <= h < 24 -> 0 <= m < 60 ->
            String.length (formatClock h m) = 5%nat
            /\ isClockString (formatClock h m) = true
            /\ extractTimeFromString (Some (formatClock h m)) = Some (formatClock h m)).
  { intros h m Hhr Hmr.
    destruct (formatClock_spec _ _ Hhr Hmr) as ((Hne' & HnoT' & _) & _ & Hcl).
    pose proof clock_lengths_all as Hall. rewrite forallb_forall in Hall.
    pose proof (Hall _ (proj1 (list_elem_of_In _ _) (zrange_elem 0 24 h ltac:(lia)))) as Hrow.
    rewrite forallb_forall in Hrow.
    pose proof (Hrow _ (proj1 (list_elem_of_In _ _) (zrange_elem 0 60 m ltac:(lia)))) as Hlen.
    apply Nat.eqb_eq in Hlen. split; [exact Hlen|]. split; [exact Hcl|].
    unfold extractTimeFromString.
    rewrite (timeOfDay_truthy _ (proj1 (formatClock_spec _ _ Hhr Hmr))).
    simpl negb. simpl default. cbn iota. by rewrite HnoT', Hcl. }
  assert (Htruthy : truthyS (Some s) = true)
    by (apply timeOfDay_truthy; by repeat split).
  assert (Hnz : Qeq_bool hrs 0 = false).
  { apply not_true_iff_false. intros Hz%Qeq_bool_iff. rewrite Hz in Hpos.
    by apply Qlt_irrefl in Hpos. }
  assert (Hrun : forall hours minutes : string,
            numberString
              (JsNumber.rem
                 (JsNumber.floor
                    (JsNumber.div
                       (JsNumber.add
                          (JsNumber.add
                             (JsNumber.mul (JsNumber.ofZ (fst (clockOf s))) (JsNumber.ofZ 60))
                             (JsNumber.ofZ (snd (clockOf s))))
                          (JsNumber.round
                             (JsNumber.mul (JsNumber.ofQ hrs) (JsNumber.ofZ 60)))) 60)) 24)
            = hours ->
            numberString
              (JsNumber.rem
                 (JsNumber.add
                    (JsNumber.add
                       (JsNumber.mul (JsNumber.ofZ (fst (clockOf s))) (JsNumber.ofZ 60))
                       (JsNumber.ofZ (snd (clockOf s))))
                    (JsNumber.round (JsNumber.mul (JsNumber.ofQ hrs) (JsNumber.ofZ 60)))) 60)
            = minutes ->
            addHoursToTime (Some s) hrs
            = Some (JsString.padStart 2 "0" hours ++ ":"
                      ++ JsString.padStart 2 "0" minutes)%string).
  { intros hours minutes Hhours Hminutes. unfold addHoursToTime.
    rewrite Htruthy. simpl negb. simpl orb. rewrite Hnz. simpl default. rewrite HnoT.
    cbv zeta. unfold clockOf in Hhours, Hminutes. cbn [fst snd] in Hhours, Hminutes.
    by rewrite Hhours, Hminutes. }
  destruct (Qlt_le_dec maxHours hrs) as [Hbig | Hsmall].
  - destruct (clock_arithmetic_any (fst (clockOf s)) (snd (clockOf s)) _ Hh Hm Hlt
                (minutes_cases hrs (Qlt_le_weak _ _ Hpos)))
      as [(h & m & Hhr & Hmr & Hhours & Hminutes) | [Hhours Hminutes]].
    + left. exists h, m. split; [exact Hhr|]. split; [exact Hmr|].
      split; [exact (Hrun _ _ Hhours Hminutes) | by apply Hclock].
    + right. split; [exact (Hrun _ _ Hhours Hminutes) | exact Hbig].
  - left. destruct (minutes_whole hrs (Qlt_le_weak _ _ Hpos) Hsmall) as [Hw Hrange].
    destruct (clock_arithmetic (fst (clockOf s)) (snd (clockOf s)) _ _ Hh Hm Hlt Hw Hrange)
      as [Hhours Hminutes].
    cbv zeta in Hhours, Hminutes.
    set (total := fst (clockOf s) * 60 + snd (clockOf s) + jsMinutes hrs) in *.
    assert (Htotal : 0 <= total) by (unfold total; lia).
    assert (Hhr : 0 <= (total / 60) mod 24 < 24) by (apply Z.mod_pos_bound; lia).
    assert (Hmr : 0 <= total mod 60 < 60) by (apply Z.mod_pos_bound; lia).
    exists ((total / 60) mod 24), (total mod 60).
    split; [exact Hhr|]. split; [exact Hmr|].
    split; [exact (Hrun _ _ Hhours Hminutes) | by apply Hclock].
Qed.

End ChainAgain.

Lemma addHoursToTime_writes_a_clock_time_witness :
  (exists h m,
     0 <= h < 24 /\ 0 <= m < 60
     /\ @Service.addHoursToTime plainPlatform (Some "23:45") 1.5 = Some (formatClock h m)
     /\ formatClock h m = "01:15")
  /\ @Service.addHoursToTime plainPlatform (Some "23:45") (2 ^ 1020) = Some "NaN:NaN".
Proof.
  assert (Htod : timeOfDay "23:45")
    by (repeat split; try discriminate; vm_compute; congruence).
  assert (Hpos : (0 < 1.5)%Q) by reflexivity.
  assert (Hval : @Service.addHoursToTime plainPlatform (Some "23:45") 1.5 = Some "01:15")
    by (vm_compute; reflexivity).
  split; [|by vm_compute].
  destruct (@addHoursToTime_writes_a_clock_time plainPlatform "23:45" 1.5 Htod Hpos)
    as [(h & m & Hh & Hm & Hadd & _) | [Hnan _]].
  - exists h, m. split; [exact Hh|]. split; [exact Hm|]. split; [exact Hadd|]. congruence.
  - rewrite Hval in Hnan. discriminate.
Defined.

(** ** A date without an anchor, and the issues of a date *)

Section ChainEdges.

Import Service.

Context `{JsPlatform}.

Definition untimed (e : Entry) : Prop :=
  calculated_start_time e = None /\ calculated_end_time e = None.

Lemma addHoursToTime_None hrs : addHoursToTime None hrs = None.
Proof. reflexivity. Qed.

Lemma chainList_untimed l : forall p,
  calculated_end_time p = None ->
  Forall (fun e' => is_scrum e' = false -> untimed e') (chainList (Some p) l).
Proof.
  induction l as [|e l IH]; intros p Hp; [constructor|].
  cbn [chainList]. destruct (is_scrum e) eqn:Es.
  - constructor; [|by apply IH]. rewrite is_scrum_scrumTimes, Es. discriminate.
  - assert (Hu : untimed (chainedTimes (Some p) e)).
    { unfold chainedTimes, untimed. cbn [calculated_start_time calculated_end_time setTimes].
      by rewrite Hp, !addHoursToTime_None. }
    constructor; [done|]. apply IH. apply Hu.
Qed.

(** X10.  A date whose first entry that is not a scrum entry has no start
    time to go by ([getFirstNonScrumStartTime] answers [null]) is not
    chained at all: [processDateEntries] leaves every entry that is not a
    scrum entry without a calculated start and without a calculated end. *)
Theorem no_anchor_no_times (group : list Entry) (issues : list ValidationIssue)
    (first : Entry) :
  List.find (fun e => negb (is_scrum e)) group = Some first ->
  getFirstNonScrumStartTime first = None ->
  Forall (fun e' => is_scrum e' = false ->
                    calculated_start_time e' = None /\ calculated_end_time e' = None)
         (entries (processDateEntries group issues)).
Proof.
  rewrite processDateEntries_chainList.
  induction group as [|e group IH]; [discriminate|].
  cbn [List.find chainList]. destruct (is_scrum e) eqn:Es; cbn [negb].
  - intros Hf Hn. constructor; [|by apply IH].
    rewrite is_scrum_scrumTimes, Es. discriminate.
  - intros [= <-] Hn.
    assert (Hu : untimed (chainedTimes None e)).
    { unfold chainedTimes, untimed. cbn [calculated_start_time calculated_end_time setTimes].
      by rewrite Hn, addHoursToTime_None. }
    constructor; [done|]. apply chainList_untimed. apply Hu.
Qed.

Definition isMissingId (issue : ValidationIssue) : bool :=
  String.eqb (issue_type issue) "missing_work_package_id".

(** The places, from [index] on, of the scrum entries without a work
    package. *)
Fixpoint scrumWithoutId (index : nat) (l : list Entry) : list nat :=
  match l with
  | [] => []
  | e :: rest =>
      if is_scrum e && negb (truthyZ (work_package_id e))
      then index :: scrumWithoutId (S index) rest
      else scrumWithoutId (S index) rest
  end.

Lemma chainStep_issues st index e :
  entries st !! index = Some e ->
  exists e' extra,
    entries (chainStep st index) = <[index := e']> (entries st)
    /\ validationIssues (chainStep st index) = validationIssues st ++ extra
    /\ map issue_entry (List.filter isMissingId extra)
       = if is_scrum e && negb (truthyZ (work_package_id e)) then [index] else [].
Proof.
  intros Hat. unfold chainStep. rewrite Hat. destruct (is_scrum e); cbn [andb].
  - unfold processScrumEntry. destruct (negb (truthyZ (work_package_id e))).
    + eexists _, [_]. cbn [entries validationIssues]. by repeat split.
    + eexists _, []. cbn [entries validationIssues]. rewrite app_nil_r. by repeat split.
  - cbv zeta. cbn [entries validationIssues]. destruct (overlaps _ _ _).
    + eexists _, [_]. by repeat split.
    + eexists _, []. rewrite app_nil_r. by repeat split.
Qed.

Lemma chain_fold_issues rest : forall finished st,
  entries st = finished ++ rest ->
  exists extra,
    validationIssues (foldl chainStep st (seq (length finished) (length rest)))
    = validationIssues st ++ extra
    /\ map issue_entry (List.filter isMissingId extra)
       = scrumWithoutId (length finished) rest.
Proof.
  induction rest as [|e rest IH]; intros finished st Hst.
  - exists []. by rewrite app_nil_r.
  - assert (Hat : entries st !! length finished = Some e)
      by (rewrite Hst; apply list_lookup_middle; done).
    destruct (chainStep_issues st (length finished) e Hat) as (e' & extra1 & He & Hi & Hm).
    assert (Hshape : entries (chainStep st (length finished)) = (finished ++ [e']) ++ rest).
    { rewrite He, Hst, insert_app_r_alt by lia.
      replace (length finished - length finished)%nat with 0%nat by lia.
      simpl. by rewrite <- app_assoc. }
    destruct (IH (finished ++ [e']) _ Hshape) as (extra & Hrun & Hmiss).
    assert (Hlen : length (finished ++ [e']) = S (length finished)).
    { rewrite length_app. simpl. lia. }
    rewrite Hlen in Hrun, Hmiss.
    cbn [length seq foldl scrumWithoutId]. rewrite Hrun, Hi.
    exists (extra1 ++ extra). rewrite <- app_assoc. split; [reflexivity|].
    rewrite List.filter_app, map_app, Hm, Hmiss.
    by destruct (is_scrum e && negb (truthyZ (work_package_id e))).
Qed.

(** X11.  [processDateEntries] keeps the issues it was given and adds, for
    every scrum entry without a work-package id and for no other entry, one
    issue [missing_work_package_id] that names the entry, in the order of
    the entries. *)
Theorem scrum_entries_without_id_are_reported (group : list Entry)
    (issues : list ValidationIssue) :
  exists added,
    validationIssues (processDateEntries group issues) = issues ++ added
    /\ map issue_entry (List.filter isMissingId added) = scrumWithoutId 0 group.
Proof.
  unfold processDateEntries.
  destruct (chain_fold_issues group []
              {| entries := group; currentTime := None; isFirstNonScrum := true;
                 validationIssues := issues; timeWarnings := [] |} eq_refl)
    as (extra & Hrun & Hmiss).
  exists extra. by split.
Qed.

End ChainEdges.

Lemma no_anchor_no_times_witness :
  let group := [task "Daily scrum" 0.25 0 true None; task "Review" 1 0 false None] in
  Forall (fun e' => is_scrum e' = false ->
                    calculated_start_time e' = None /\ calculated_end_time e' = None)
         (Service.entries (@Service.processDateEntries plainPlatform group [])).
Proof.
  intros group.
  apply (@no_anchor_no_times plainPlatform group [] (task "Review" 1 0 false None));
    reflexivity.
Defined.

(** ** The analysis of the work log *)

Section Analysis.

Import Service ApiClient.

Context `{JsPlatform}.

Lemma uniqueFrom_fresh todo : forall seen,
  Forall (fun e => entryKey e ∉ seen) (uniqueFrom todo seen).
Proof.
  induction todo as [|e todo IH]; intros seen; [constructor|].
  cbn [uniqueFrom]. case_bool_decide as Hin; [apply IH|].
  constructor; [done|].
  eapply Forall_impl; [apply IH|]. intros x Hx Hin'. apply Hx.
  apply elem_of_app. by left.
Qed.

Lemma uniqueFrom_NoDup todo : forall seen, NoDup (map entryKey (uniqueFrom todo seen)).
Proof.
  induction todo as [|e todo IH]; intros seen; [constructor|].
  cbn [uniqueFrom]. case_bool_decide as Hin; [apply IH|].
  cbn [map]. constructor; [|apply IH].
  intros Hk. apply list_elem_of_fmap in Hk as (x & Hkx & Hx).
  pose proof (uniqueFrom_fresh todo (seen ++ [entryKey e])) as Hfresh.
  rewrite Forall_forall in Hfresh. apply (Hfresh x Hx).
  apply elem_of_app. right. rewrite <- Hkx. by left.
Qed.

Lemma uniqueFrom_sublist todo : forall seen, sublist (uniqueFrom todo seen) todo.
Proof.
  induction todo as [|e todo IH]; intros seen; [constructor|].
  cbn [uniqueFrom]. case_bool_decide; [apply sublist_cons | apply sublist_skip]; apply IH.
Qed.

Lemma uniqueFrom_covers todo : forall seen e,
  e ∈ todo -> entryKey e ∈ seen \/ entryKey e ∈ map entryKey (uniqueFrom todo seen).
Proof.
  induction todo as [|x todo IH]; intros seen e Hin; [by apply elem_of_nil in Hin|].
  cbn [uniqueFrom]. apply elem_of_cons in Hin as [-> | Hin].
  - case_bool_decide as Hs; [by left|]. right. cbn [map]. by left.
  - case_bool_decide as Hs; [by apply IH|].
    destruct (IH (seen ++ [entryKey x]) e Hin) as [Hseen | Hu].
    + apply elem_of_app in Hseen as [Hseen | Hx]; [by left|].
      apply list_elem_of_singleton in Hx. right. cbn [map]. rewrite Hx. by left.
    + right. cbn [map]. by right.
Qed.

Lemma uniqueFrom_first l1 : forall seen e l2,
  entryKey e ∉ seen -> entryKey e ∉ map entryKey l1 ->
  e ∈ uniqueFrom (l1 ++ e :: l2) seen.
Proof.
  induction l1 as [|x l1 IH]; intros seen e l2 Hseen Hl1.
  - cbn [app uniqueFrom]. case_bool_decide; [done | by left].
  - cbn [app uniqueFrom]. cbn [map] in Hl1.
    apply not_elem_of_cons in Hl1 as [Hne Hl1].
    case_bool_decide; [by apply IH|]. right. apply IH; [|done].
    intros Hin. apply elem_of_app in Hin as [Hin | Hin]; [done|].
    by apply list_elem_of_singleton in Hin.
Qed.

(** X12.  [getUniqueEntries] keeps, in the order of the work log, the first
    entry of every key (project, subject and hours) and drops the later
    ones: no two entries kept have the same key, and every entry of the
    work log has its key among the keys kept. *)
Theorem unique_entries_are_first_of_their_key (workLogEntries : list Entry) :
  let unique := getUniqueEntries workLogEntries in
  sublist unique workLogEntries
  /\ NoDup (map entryKey unique)
  /\ (forall e, e ∈ workLogEntries -> entryKey e ∈ map entryKey unique)
  /\ (forall before e after,
        workLogEntries = before ++ e :: after ->
        entryKey e ∉ map entryKey before -> e ∈ unique).
Proof.
  unfold getUniqueEntries. split; [apply uniqueFrom_sublist|].
  split; [apply uniqueFrom_NoDup|]. split.
  - intros e Hin. destruct (uniqueFrom_covers workLogEntries [] e Hin) as [Hn|]; [|done].
    by apply elem_of_nil in Hn.
  - intros before e after -> Hfirst. apply uniqueFrom_first; [|done].
    apply not_elem_of_nil.
Qed.

(** The answers of the lookups: an entry that was looked up, with the
    work package found for it, if any.  The entries without an answer go
    to [new]; the others, with the identifier of the work package found,
    are the duplicates. *)
Fixpoint unanswered (answers : list (Entry * option WorkPackage)) : list Entry :=
  match answers with
  | [] => []
  | (e, None) :: rest => e :: unanswered rest
  | (_, Some _) :: rest => unanswered rest
  end.

Fixpoint foundEntries (answers : list (Entry * option WorkPackage)) : list Entry :=
  match answers with
  | [] => []
  | (e, Some wp) :: rest => setExistingWorkPackageId (wp_id wp) e :: foundEntries rest
  | (_, None) :: rest => foundEntries rest
  end.

Fixpoint duplicatesOf (answers : list (Entry * option WorkPackage)) : list Duplicate :=
  match answers with
  | [] => []
  | (e, Some wp) :: rest =>
      {| dup_entry := setExistingWorkPackageId (wp_id wp) e;
         dup_existing_subject := wp_subject wp |} :: duplicatesOf rest
  | (_, None) :: rest => duplicatesOf rest
  end.

(** An answer is a work package of the entry's project with the entry's
    subject, up to case and surrounding blanks. *)
Definition soundAnswer (projectOf : Entry -> option Z) (w : World)
    (ea : Entry * option WorkPackage) : Prop :=
  match ea.2 with
  | Some wp =>
      exists p, projectOf ea.1 = Some p /\ wp ∈ projectWorkPackages p w
                /\ subjectKey wp = normalize (subject ea.1)
  | None => True
  end.

(** The answer when no request fails: the first work package of the
    entry's project with the entry's subject. *)
Definition expectedAnswer (projectOf : Entry -> option Z) (w : World)
    (ea : Entry * option WorkPackage) : Prop :=
  ea.2 = lookupResult (projectOf ea.1) (subject ea.1) w.

Definition quietly (w w' : World) : Prop :=
  work_packages w' = work_packages w /\ time_entries w' = time_entries w
  /\ next_id w' = next_id w.

Lemma quietly_refl w : quietly w w.
Proof. by repeat split. Qed.

Lemma quietly_trans w1 w2 w3 : quietly w1 w2 -> quietly w2 w3 -> quietly w1 w3.
Proof. intros (? & ? & ?) (? & ? & ?). repeat split; congruence. Qed.

Lemma soundAnswer_quietly projectOf w w' ea :
  quietly w w' -> soundAnswer projectOf w' ea -> soundAnswer projectOf w ea.
Proof.
  intros (Hw & _ & _). unfold soundAnswer. destruct (ea.2) as [wp|]; [|done].
  intros (p & Hp & Hin & Hk). exists p.
  unfold projectWorkPackages in *. rewrite Hw in Hin. by repeat split.
Qed.

Lemma expectedAnswer_quietly projectOf w w' ea :
  quietly w w' -> expectedAnswer projectOf w' ea -> expectedAnswer projectOf w ea.
Proof.
  intros (Hw & _ & _). unfold expectedAnswer. intros ->.
  by apply lookupResult_tables.
Qed.

Lemma answers_lengths (answers : list (Entry * option WorkPackage)) :
  (length (unanswered answers) + length (duplicatesOf answers) = length answers)%nat
  /\ length (foundEntries answers) = length (duplicatesOf answers).
Proof.
  induction answers as [|[e [wp|]] answers [IH1 IH2]]; [done| |];
    cbn [unanswered duplicatesOf foundEntries length]; lia.
Qed.

(** One lookup: it answers, it is sound, it leaves the tables alone, and
    when no request fails it finds what is there. *)
Lemma lookup_answer (pid : option Z) (e : Entry) (w : World) :
  exists r w',
    checkExistingWorkPackageBySubject pid (subject e) w = (Ok r, w')
    /\ quietly w w'
    /\ soundAnswer (fun _ => pid) w (e, r)
    /\ (quiet w -> r = lookupResult pid (subject e) w /\ quiet w').
Proof.
  destruct (checkExisting_total pid (subject e) w)
    as (r & k & w' & Hrun & _ & _ & Hw & Ht & Hn).
  exists r, w'. split; [exact Hrun|]. split; [by repeat split|]. split.
  - unfold soundAnswer. cbn [fst snd]. destruct r as [wp|]; [|done].
    apply checkExisting_sound in Hrun as (Hkey & p & Hp & Hin). by exists p.
  - intros Hq. destruct (checkExisting_quiet pid (subject e) w Hq) as (w'' & Hrun' & _ & Hq').
    rewrite Hrun in Hrun'. by injection Hrun' as -> ->.
Qed.

Variable cfg : Config.

Definition scrumWithId (e : Entry) : bool := is_scrum e && truthyZ (work_package_id e).

Definition otherWithId (e : Entry) : bool :=
  negb (is_scrum e) && truthyZ (work_package_id e).

Definition withoutId (e : Entry) : bool := negb (truthyZ (work_package_id e)).

(** [projectMapping[entry.project]] is falsy: the project has no mapping
    and is none of the inherited names, or its mapping is 0. *)
Definition unmapped (e : Entry) : bool :=
  withoutId e && negb (truthyProperty (getProperty (PROJECT_MAPPINGS cfg) (project e))).

(** The project of the lookup for an entry: the number of its mapping; no
    project of the server where the entry's project is an inherited
    name. *)
Definition mappedProject (e : Entry) : option Z :=
  numberOf (getProperty (PROJECT_MAPPINGS cfg) (project e)).

Lemma mappedProject_Some e p :
  mappedProject e = Some p -> PROJECT_MAPPINGS cfg !! project e = Some p.
Proof.
  unfold mappedProject, getProperty.
  destruct (PROJECT_MAPPINGS cfg !! project e); [by intros [= ->]|].
  by destruct (isInherited (project e)).
Qed.

(** A duplicate names a work package of the entry's project with the
    entry's subject, up to case and surrounding blanks. *)
Definition duplicateOf (w : World) (d : Duplicate) : Prop :=
  exists p wp,
    PROJECT_MAPPINGS cfg !! project (dup_entry d) = Some p
    /\ wp ∈ projectWorkPackages p w
    /\ subjectKey wp = normalize (subject (dup_entry d))
    /\ existing_work_package_id (dup_entry d) = Some (wp_id wp)
    /\ dup_existing_subject d = wp_subject wp.

Lemma duplicatesOf_sound w answers :
  Forall (soundAnswer mappedProject w) answers -> Forall (duplicateOf w) (duplicatesOf answers).
Proof.
  induction 1 as [|[e r] answers Hs _ IH]; [constructor|].
  unfold soundAnswer in Hs. cbn [fst snd] in Hs.
  destruct r as [wp|]; cbn [duplicatesOf]; [|exact IH].
  constructor; [|exact IH]. destruct Hs as (p & Hp & Hin & Hk).
  exists p, wp. cbn. split; [by apply mappedProject_Some|]. by repeat split.
Qed.

(** Where [categorizeEntry] puts an entry the lookup was made for. *)
Definition placed (e : Entry) (r : option WorkPackage) (a : Analysis) : Entry * Analysis :=
  match r with
  | Some wp => handleDuplicateEntry e wp a
  | None => handleNewEntry e a
  end.

(** What [categorizeEntry] does with one entry. *)
Lemma categorizeEntry_cases e a w :
  (scrumWithId e = true /\ categorizeEntry cfg e a w = (Ok (e, pushScrum e a), w))
  \/ (otherWithId e = true /\ categorizeEntry cfg e a w = (Ok (e, pushExisting e a), w))
  \/ (unmapped e = true
      /\ categorizeEntry cfg e a w
         = (Throw ("Project mapping not found for " ++ project e)%string, w))
  \/ (withoutId e = true /\ unmapped e = false
      /\ exists r w',
           categorizeEntry cfg e a w = (Ok (placed e r a), w')
           /\ quietly w w'
           /\ soundAnswer mappedProject w (e, r)
           /\ (quiet w -> expectedAnswer mappedProject w (e, r) /\ quiet w')).
Proof.
  unfold categorizeEntry, scrumWithId, otherWithId, unmapped, withoutId.
  destruct (is_scrum e) eqn:Es, (truthyZ (work_package_id e)) eqn:Ew; cbn [andb negb];
    try (by left); try (by right; left).
  all: right; right; unfold checkForDuplicatesOrNew;
    destruct (truthyProperty (getProperty (PROJECT_MAPPINGS cfg) (project e))) eqn:Ep;
    cbn [negb]; [right | by left].
  all: split; [done|]; split; [done|];
    destruct (lookup_answer (mappedProject e) e w) as (r & w' & Hrun & Hq & Hs & Hexp);
    exists r, w'; unfold mappedProject in Hrun;
    (split; [unfold tryCatch, bind; rewrite Hrun; by destruct r|]);
    split; [exact Hq|]; split; [exact Hs | exact Hexp].
Qed.

Lemma kinds_exclusive e :
  (scrumWithId e = true -> otherWithId e = false /\ withoutId e = false /\ unmapped e = false)
  /\ (otherWithId e = true ->
      scrumWithId e = false /\ withoutId e = false /\ unmapped e = false)
  /\ (withoutId e = true -> scrumWithId e = false /\ otherWithId e = false).
Proof.
  unfold scrumWithId, otherWithId, unmapped, withoutId.
  destruct (is_scrum e), (truthyZ (work_package_id e)); cbn; repeat split; discriminate.
Qed.

(** The loop of the analysis from some entry on: the buckets grow by the
    unique entries of the kinds, or the first entry without a mapping for
    its project stops the loop. *)
Lemma analyseFrom_spec todo : forall index seen wl a w,
  match analyseFrom cfg todo index seen wl a w with
  | (Ok (wl', a'), w') =>
      List.find unmapped (uniqueFrom todo seen) = None
      /\ scrum a' = scrum a ++ List.filter scrumWithId (uniqueFrom todo seen)
      /\ existing a' = existing a ++ List.filter otherWithId (uniqueFrom todo seen)
      /\ Service.existingWorkPackages a' = Service.existingWorkPackages a
      /\ (exists answers,
            map fst answers = List.filter withoutId (uniqueFrom todo seen)
            /\ new a' = new a ++ unanswered answers
            /\ duplicates a' = duplicates a ++ duplicatesOf answers
            /\ Forall (soundAnswer mappedProject w) answers
            /\ (quiet w -> Forall (expectedAnswer mappedProject w) answers))
      /\ quietly w w' /\ length wl' = length wl
  | (Throw msg, w') =>
      exists e,
        List.find unmapped (uniqueFrom todo seen) = Some e
        /\ msg = ("Project mapping not found for " ++ project e)%string
        /\ quietly w w'
  end.
Proof.
  induction todo as [|e todo IH]; intros index seen wl a w.
  - cbn. rewrite !app_nil_r. split_and!; try done.
    exists []. cbn. rewrite !app_nil_r. by repeat split.
  - cbn [analyseFrom uniqueFrom]. case_bool_decide as Hseen; [apply IH|].
    destruct (kinds_exclusive e) as (Hks & Hko & Hkw).
    unfold bind.
    destruct (categorizeEntry_cases e a w)
      as [[Hk Hcat] | [[Hk Hcat] | [[Hk Hcat]
          | (Hk & Hm & r & w1 & Hcat & Hq & Hsound & Hexp)]]].
    + destruct (Hks Hk) as (Ho & Hw & Hu). rewrite Hcat. cbn [fst snd].
      specialize (IH (index + 1)%nat (seen ++ [entryKey e]) (<[index := e]> wl)
                     (pushScrum e a) w).
      destruct (analyseFrom _ _ _ _ _ _ _) as [[[wl' a']|msg] w'].
      * destruct IH as (Hf & Hs & Hx & Hxw & Hans & Hq & Hlen).
        cbn [List.find List.filter]. rewrite Hk, Ho, Hw, Hu.
        cbn [scrum existing new duplicates Service.existingWorkPackages pushScrum] in *.
        rewrite <- app_assoc in Hs. rewrite length_insert in Hlen.
        split_and!; done.
      * cbn [List.find]. by rewrite Hu.
    + destruct (Hko Hk) as (Hs' & Hw & Hu). rewrite Hcat. cbn [fst snd].
      specialize (IH (index + 1)%nat (seen ++ [entryKey e]) (<[index := e]> wl)
                     (pushExisting e a) w).
      destruct (analyseFrom _ _ _ _ _ _ _) as [[[wl' a']|msg] w'].
      * destruct IH as (Hf & Hs & Hx & Hxw & Hans & Hq & Hlen).
        cbn [List.find List.filter]. rewrite Hk, Hs', Hw, Hu.
        cbn [scrum existing new duplicates Service.existingWorkPackages pushExisting] in *.
        rewrite <- app_assoc in Hx. rewrite length_insert in Hlen.
        split_and!; done.
      * cbn [List.find]. by rewrite Hu.
    + rewrite Hcat. exists e. cbn [List.find]. rewrite Hk. split_and!; done.
    + destruct (Hkw Hk) as (Hs' & Ho). rewrite Hcat.
      specialize (IH (index + 1)%nat (seen ++ [entryKey e])
                     (<[index := fst (placed e r a)]> wl) (snd (placed e r a)) w1).
      destruct (analyseFrom _ _ _ _ _ _ _) as [[[wl' a']|msg] w'].
      * destruct IH
          as (Hf & Hs & Hx & Hxw & (answers & Hfst & Hn & Hd & Hall & Hexp') & Hq' & Hlen).
        cbn [List.find List.filter]. rewrite Hk, Hs', Ho, Hm.
        rewrite length_insert in Hlen.
        assert (Hbuckets : scrum (placed e r a).2 = scrum a
                           /\ existing (placed e r a).2 = existing a
                           /\ Service.existingWorkPackages (placed e r a).2
                              = Service.existingWorkPackages a
                           /\ new (placed e r a).2 ++ unanswered answers
                              = new a ++ unanswered ((e, r) :: answers)
                           /\ duplicates (placed e r a).2 ++ duplicatesOf answers
                              = duplicates a ++ duplicatesOf ((e, r) :: answers)).
        { destruct r as [wp|]; cbn; rewrite <- ?app_assoc; by repeat split. }
        destruct Hbuckets as (Hb1 & Hb2 & Hb3 & Hb4 & Hb5).
        rewrite Hb1 in Hs. rewrite Hb2 in Hx. rewrite Hb3 in Hxw.
        rewrite Hb4 in Hn. rewrite Hb5 in Hd.
        split_and!; try done; [|by apply (quietly_trans w w1 w')].
        exists ((e, r) :: answers). split_and!; try done.
        -- cbn [map fst]. by rewrite Hfst.
        -- constructor; [done|].
           eapply Forall_impl; [exact Hall|]. intros x. by apply soundAnswer_quietly.
        -- intros Hquiet. destruct (Hexp Hquiet) as [He Hq1]. constructor; [done|].
           eapply Forall_impl; [exact (Hexp' Hq1)|]. intros x.
           by apply expectedAnswer_quietly.
      * destruct IH as (e0 & Hf & -> & Hq'). exists e0. cbn [List.find]. rewrite Hm.
        split_and!; try done. by apply (quietly_trans w w1 w').
Qed.

Lemma kinds_partition (l : list Entry) :
  (length (List.filter scrumWithId l) + length (List.filter otherWithId l)
   + length (List.filter withoutId l) = length l)%nat.
Proof.
  induction l as [|e l IH]; [done|]. cbn [List.filter length].
  unfold scrumWithId, otherWithId, withoutId in *.
  destruct (is_scrum e), (truthyZ (work_package_id e)); cbn [andb negb length]; lia.
Qed.

(** X13.  [performWorkPackageAnalysis] sorts every unique entry of the work
    log into exactly one bucket, in the order of the work log: a scrum
    entry with a work-package id into [scrum], any other entry with a
    work-package id into [existing]; for every entry without one the
    lookup is made in the project of its mapping, and the entry goes to
    [duplicates], with the identifier and the subject of the work package
    that the lookup answered, or to [new] when it answered none;
    [existingWorkPackages] stays empty.  An answer is a work package of the
    entry's project with its subject, and when no request fails it is the
    first such on the server.  The analysis sends only page requests, so
    the server's tables are as before.  It throws for one reason only, at
    the first unique entry without a work-package id for whose project
    [projectMapping[entry.project]] is falsy; that is not so for a project
    that is an inherited name: its lookup is answered with nothing, and
    the entry goes to [new]. *)
Theorem analysis_sorts_every_unique_entry (workLogEntries : list Entry) (w : World) :
  let unique := getUniqueEntries workLogEntries in
  match performWorkPackageAnalysis cfg workLogEntries w with
  | (Ok (workLogEntries', a), w') =>
      scrum a = List.filter scrumWithId unique
      /\ existing a = List.filter otherWithId unique
      /\ Service.existingWorkPackages a = []
      /\ (exists answers,
            map fst answers = List.filter withoutId unique
            /\ new a = unanswered answers
            /\ duplicates a = duplicatesOf answers
            /\ Forall (soundAnswer mappedProject w) answers
            /\ (quiet w -> Forall (expectedAnswer mappedProject w) answers))
      /\ (length (new a) + length (duplicates a)
          = length (List.filter withoutId unique))%nat
      /\ (length (scrum a) + length (existing a) + length (new a) + length (duplicates a)
          = length unique)%nat
      /\ Forall (duplicateOf w) (duplicates a)
      /\ List.find unmapped unique = None
      /\ length workLogEntries' = length workLogEntries
      /\ work_packages w' = work_packages w /\ time_entries w' = time_entries w
  | (Throw msg, w') =>
      exists e,
        List.find unmapped unique = Some e
        /\ msg = ("Project mapping not found for " ++ project e)%string
        /\ work_packages w' = work_packages w /\ time_entries w' = time_entries w
  end.
Proof.
  cbn zeta. unfold performWorkPackageAnalysis, getUniqueEntries.
  pose proof (analyseFrom_spec workLogEntries 0 [] workLogEntries emptyAnalysis w) as Hspec.
  destruct (analyseFrom _ _ _ _ _ _ _) as [[[wl' a]|msg] w'].
  - destruct Hspec
      as (Hf & Hs & Hx & Hxw & (answers & Hfst & Hn & Hd & Hall & Hexp) & (Hw & Ht & _)
          & Hlen).
    cbn [scrum existing new duplicates Service.existingWorkPackages emptyAnalysis app]
      in Hs, Hx, Hxw, Hn, Hd.
    pose proof (kinds_partition (uniqueFrom workLogEntries [])) as Hpart.
    destruct (answers_lengths answers) as [Hlens _].
    assert (Hla : length answers = length (List.filter withoutId (uniqueFrom workLogEntries [])))
      by (by rewrite <- Hfst, length_map).
    rewrite Hs, Hx, Hn, Hd. split_and!; try done; [by exists answers | lia | lia |].
    by apply duplicatesOf_sound.
  - destruct Hspec as (e & Hf & -> & Hw & Ht & _). by exists e.
Qed.

(** A project that is an inherited name: the analysis does not throw, and
    the entry goes to [new]. *)
Example inherited_project_goes_to_new :
  let e := {| project := "constructor"; project_id := None; subject := "Review";
              activity := "Development"; hours := Some 1%Q; duration_hours := None;
              break_hours := None; is_scrum := false; work_package_id := None;
              existing_work_package_id := None; entry_date := Some "2025-10-23";
              date := None; start_time := None; user_set_start_time := false;
              calculated_start_time := None; calculated_end_time := None;
              comment := None; statusId := None; statusName := None |} in
  match performWorkPackageAnalysis sampleConfig [e] (quietWorld [] []) with
  | (Ok (_, a), _) => new a = [e] /\ duplicates a = []
  | (Throw _, _) => False
  end.
Proof. vm_compute. by split. Qed.

End Analysis.

(** ** What [processEntry] books *)

Section Booking.

Import Service ApiClient.

Context `{JsPlatform}.

Variables (svc : ServiceData) (commentData : gmap string string).

(** The time entry the client sends for a work package, a day and hours. *)
Definition timeEntryFor (id : Z) (day : string) (e : Entry) (w : World) : TimeEntry :=
  {| te_id := next_id w; te_spentOn := day; te_hours := durationOf e;
     te_workPackage := id; te_activity := activityIdOf (config svc) (activity e);
     te_startTime := startOf e; te_comment := tagOf e |}.

Lemma logTime_quiet id e day w :
  isCanonicalDate day = true -> quiet w -> (0 < durationOf e)%Q ->
  exists w',
    logTime svc id e day w = (Ok (timeEntryFor id day e w), w')
    /\ time_entries w' = time_entries w ++ [timeEntryFor id day e w]
    /\ work_packages w' = work_packages w
    /\ next_id w' = next_id w + 1
    /\ requests w'
       = requests w ++ [PostTimeEntry day (durationOf e) id
                          (activityIdOf (config svc) (activity e)) (startOf e) (tagOf e)]
    /\ quiet w'.
Proof.
  intros Hday Hq Hpos. unfold logTime, createTimeEntry.
  destruct (canonical_formats day Hday) as [_ Hfmt]. rewrite Hfmt.
  assert (Hle : Qle_bool (durationOf e) 0 = false).
  { apply not_true_iff_false. intros Hle%Qle_bool_iff.
    apply (Qlt_irrefl 0). by eapply Qlt_le_trans. }
  unfold validateHours. rewrite Hle. rewrite makeRequest_quiet by done.
  eexists. split; [reflexivity|]. by repeat split.
Qed.

(** The work package an entry with an identifier books its time on: the
    one of [work_package_id] for a scrum entry if there is one, otherwise
    the one the analysis found ([existing_work_package_id]) if there is
    one, otherwise the one of [work_package_id]. *)
Definition bookedOn (e : Entry) : Z :=
  if is_scrum e then default 0 (orElse truthyZ (work_package_id e) (existing_work_package_id e))
  else if truthyZ (existing_work_package_id e)
       then default 0 (existing_work_package_id e)
       else default 0 (work_package_id e).

Definition resultType (e : Entry) : string :=
  if is_scrum e then "scrum"
  else if truthyZ (existing_work_package_id e) then "existing" else "duplicate".

Lemma sameTask_fields e e1 :
  sameTask e e1 ->
  is_scrum e1 = is_scrum e /\ work_package_id e1 = work_package_id e
  /\ existing_work_package_id e1 = existing_work_package_id e
  /\ durationOf e1 = durationOf e /\ startOf e1 = startOf e /\ tagOf e1 = tagOf e
  /\ activity e1 = activity e /\ subject e1 = subject e /\ project e1 = project e.
Proof. intros [-> | (id & name & ->)]; by repeat split. Qed.


(** X15.  For an entry without any work-package identifier whose project
    has a mapping, [processEntry] looks the subject up first when nothing
    fails.  If the project holds a work package with the subject, up to
    case and surrounding blanks, the hours are booked on it and nothing is
    created; otherwise one work package with the entry's subject is
    created in the project and the hours are booked on it.  In both cases
    exactly one time entry is added, on the entry's date. *)
Theorem entry_without_id_finds_or_creates (e : Entry) (w : World) (day : string) (p : Z) :
  is_Some (analysisData svc) ->
  orElse truthyS (entry_date e) (date e) = Some day ->
  isCanonicalDate day = true ->
  (0 < durationOf e)%Q ->
  truthyZ (work_package_id e) = false ->
  truthyZ (existing_work_package_id e) = false ->
  getProjectId svc (project e) = Ok p ->
  quiet w ->
  exists e1 r w' te,
    processEntry svc e commentData w = ((e1, Ok r), w')
    /\ time_entries w' = time_entries w ++ [te]
    /\ te_spentOn te = day /\ te_hours te = durationOf e
    /\ match findMatchingWorkPackage (projectWorkPackages p w) (normalize (subject e)) with
       | Some found =>
           r_type r = "found_existing" /\ te_workPackage te = wp_id found
           /\ work_packages w' = work_packages w
       | None =>
           exists created,
             r_type r = "new" /\ r_workPackageId r = Some (wp_id created)
             /\ te_workPackage te = wp_id created
             /\ work_packages w' = work_packages w ++ [created]
             /\ wp_subject created = Some (subject e) /\ wp_project created = p
       end.
Proof.
  intros [a Ha] Hdate Hday Hpos Hw Hx Hp Hq.
  assert (Htruthy : truthyS (Some day) = true).
  { unfold truthyS. apply negb_true_iff, String.eqb_neq. intros ->. discriminate. }
  unfold processEntry. rewrite Hdate, Htruthy. cbn [negb default]. change (id day) with day.
  destruct (enrichEntryMetadata svc e commentData) as [e1|msg] eqn:Hen.
  2: { unfold enrichEntryMetadata in Hen. rewrite Ha in Hen.
       destruct (findIndexFrom e (new a) 0); [|discriminate].
       destruct (negb _); discriminate. }
  pose proof (enrichEntryMetadata_sameTask svc commentData e e1 Hen) as Hsame.
  destruct (sameTask_fields e e1 Hsame)
    as (Hs & Hw1 & Hx1 & Hd & Hst & Htag & Hact & Hsub & Hproj).
  assert (Hno : truthyZ (orElse truthyZ (work_package_id e) (existing_work_package_id e))
                = false).
  { unfold orElse. by rewrite Hw, Hx. }
  rewrite Hno, Hx1, Hx, Hw1, Hw, andb_false_r.
  assert (Hpos1 : (0 < durationOf e1)%Q) by (by rewrite Hd).
  unfold processNewWorkPackage. rewrite Hproj, Hp, Hsub.
  unfold findWorkPackageBySubject, bind.
  destruct (checkExisting_quiet (Some p) (subject e) w Hq) as (w1 & Hrun & [Hwp1 Hte1] & Hq1).
  rewrite Hrun. cbn [lookupResult].
  destruct (findMatchingWorkPackage (projectWorkPackages p w) (normalize (subject e)))
    as [found|] eqn:Hfind.
  - unfold processFoundExistingWorkPackage, bind.
    destruct (logTime_quiet (wp_id found) e1 day w1 Hday Hq1 Hpos1)
      as (w' & Hlog & Ht & Hwp & _ & _ & _).
    rewrite Hlog. eexists _, _, _, _. split; [reflexivity|].
    rewrite Ht, Hte1, Hwp, Hwp1.
    cbn [r_type]. split; [reflexivity|].
    cbn [te_spentOn te_hours te_workPackage timeEntryFor]. by rewrite Hd.
  - unfold createNewWorkPackageWithTime, bind.
    pose proof (createWorkPackage_quiet (Some p) (subject e1) (activity e1)
                  (default "" (orElse truthyS
                     (commentData !! ("comment_"
                        ++ showIndex (findIndexFrom e1 (new a) 0))%string) None))
                  (default 7 (orElse truthyZ (statusId e1) None)) w1 Hq1) as Hcreate.
    rewrite Hsub in Hcreate.
    rewrite (lookupResult_tables (Some p) (subject e) w w1 Hwp1) in Hcreate.
    cbn [lookupResult] in Hcreate. rewrite Hfind in Hcreate.
    destruct Hcreate as (created & w2 & Hc & Hwp2 & Hte2 & Hcs & Hcp & Hq2).
    rewrite Ha. rewrite Hsub. rewrite Hc.
    destruct (logTime_quiet (wp_id created) e1 day w2 Hday Hq2 Hpos1)
      as (w' & Hlog & Ht & Hwp & _ & _ & _).
    rewrite Hlog. eexists _, _, _, _. split; [reflexivity|].
    rewrite Ht, Hte2, Hte1, Hwp, Hwp2, Hwp1.
    cbn [r_type r_workPackageId]. split; [reflexivity|].
    cbn [te_spentOn te_hours te_workPackage timeEntryFor]. rewrite Hd.
    split; [done|]. split; [done|]. exists created. by repeat split.
Qed.

End Booking.

Definition sampleService : Service.ServiceData :=
  {| Service.config := sampleConfig; Service.analysisData := Some Service.emptyAnalysis;
     Service.statusData := [] |}.


Lemma entry_without_id_finds_or_creates_witness :
  exists e1 r w' te,
    @Service.processEntry plainPlatform sampleService (sampleEntry "Fix Login Bug" None) ∅
      (quietWorld [mkWorkPackage 1 7 " fix login bug"] [])
    = ((e1, Ok r), w')
    /\ time_entries w' = [te]
    /\ te_workPackage te = 1
    /\ work_packages w' = [mkWorkPackage 1 7 " fix login bug"].
Proof.
  destruct (@entry_without_id_finds_or_creates plainPlatform sampleService ∅
              (sampleEntry "Fix Login Bug" None)
              (quietWorld [mkWorkPackage 1 7 " fix login bug"] []) "2025-10-23" 7)
    as (e1 & r & w' & te & Hrun & Ht & _ & _ & Hfound); try reflexivity.
  { by eexists. }
  vm_compute in Hfound. destruct Hfound as (_ & Hid & Hw).
  exists e1, r, w', te. by repeat split.
Defined.

(** ** The two computations of an end time, and the clock of twelve hours *)

Section EndTimes.

Import Service.

Context `{JsPlatform}.

(** X16.  The client's [calculateEndTime] and the service's
    [addHoursToTime] give the same end for the same start and hours,
    whenever the start is a string without a [T] and the hours are not
    zero: the end the client writes into the comment of a time entry is the
    end the service calculated for the entry. *)
Theorem end_times_agree (startTime : string) (hours : Q) :
  startTime <> "" -> JsString.includes startTime "T" = false ->
  Qeq_bool hours 0 = false ->
  addHoursToTime (Some startTime) hours
  = Some (ApiClient.calculateEndTime startTime hours).
Proof.
  intros Hne HnoT Hnz. unfold addHoursToTime, ApiClient.calculateEndTime.
  assert (Htruthy : truthyS (Some startTime) = true).
  { unfold truthyS. by apply negb_true_iff, String.eqb_neq. }
  rewrite Htruthy. simpl negb. simpl orb. rewrite Hnz. simpl default. rewrite HnoT.
  cbv zeta. do 4 f_equal.
  - unfold parseIntOr0. do 2 f_equal.
    destruct (JsString.split ":" startTime !! 1%nat) as [m|]; [|done].
    unfold truthyS. destruct (String.eqb_spec m ""); [by subst | done].
  - do 2 f_equal. unfold parseIntOr0. do 2 f_equal.
    destruct (JsString.split ":" startTime !! 1%nat) as [m|]; [|done].
    unfold truthyS. destruct (String.eqb_spec m ""); [by subst | done].
Qed.

(** The time as [formatTime12Hour] writes it for an hour and a minute. *)
Definition twelveHour (h m : Z) : string :=
  let hour12 := if h =? 0 then 12 else if 12 <? h then h - 12 else h in
  let period := if 12 <=? h then " PM" else " AM" in
  (JsString.ofInt hour12 ++ ":" ++ JsString.padStart 2 "0" (JsString.ofInt m) ++ period)%string.

Definition allTimes : list (Z * Z) :=
  h ← zrange 0 24; m ← zrange 0 60; [(h, m)].

Definition writtenAs (hm : Z * Z) : bool :=
  String.eqb (formatTime12Hour (Some (formatClock hm.1 hm.2))) (twelveHour hm.1 hm.2)
  && negb (String.eqb (twelveHour hm.1 hm.2) "Invalid Time").

Lemma twelveHour_all : forallb writtenAs allTimes = true.
Proof. vm_compute. reflexivity. Qed.

Definition twelveHourTable : list (Z * Z * string) :=
  map (fun hm => (hm, twelveHour hm.1 hm.2)) allTimes.

Definition sameTimeIfSameText (a b : Z * Z * string) : bool :=
  implb (String.eqb a.2 b.2) ((a.1.1 =? b.1.1) && (a.1.2 =? b.1.2)).

Lemma twelveHour_distinct :
  forallb (fun a => forallb (sameTimeIfSameText a) twelveHourTable) twelveHourTable = true.
Proof. vm_compute. reflexivity. Qed.

Lemma twelveHourTable_distinct a b :
  In a twelveHourTable -> In b twelveHourTable -> a.2 = b.2 -> a.1 = b.1.
Proof.
  intros Ha Hb Heq. pose proof twelveHour_distinct as Hnd.
  rewrite forallb_forall in Hnd. specialize (Hnd a Ha).
  rewrite forallb_forall in Hnd. specialize (Hnd b Hb).
  unfold sameTimeIfSameText in Hnd. apply String.eqb_eq in Heq. rewrite Heq in Hnd.
  cbn [implb] in Hnd. apply andb_true_iff in Hnd as [H1 H2].
  destruct a as [[a1 a2] a3], b as [[b1 b2] b3]. cbn [fst snd] in *. f_equal; lia.
Qed.

Lemma allTimes_elem h m : 0 <= h < 24 -> 0 <= m < 60 -> (h, m) ∈ allTimes.
Proof.
  intros Hh Hm. unfold allTimes. apply list_elem_of_bind. exists h.
  split; [|by apply zrange_elem]. apply list_elem_of_bind. exists m.
  split; [by left | by apply zrange_elem].
Qed.

Lemma twelveHourTable_elem h m :
  0 <= h < 24 -> 0 <= m < 60 -> In (h, m, twelveHour h m) twelveHourTable.
Proof.
  intros Hh Hm. unfold twelveHourTable. apply in_map_iff. exists (h, m).
  split; [reflexivity|]. apply list_elem_of_In. by apply allTimes_elem.
Qed.

Lemma twelveHour_written h m :
  0 <= h < 24 -> 0 <= m < 60 -> writtenAs (h, m) = true.
Proof.
  intros Hh Hm. pose proof twelveHour_all as Hall. rewrite forallb_forall in Hall.
  apply Hall. apply list_elem_of_In. by apply allTimes_elem.
Qed.

(** X17.  For every time of the day that the chain writes, hour below 24
    and minute below 60, [formatTime12Hour] gives the hour from 1 to 12,
    the minute in two digits and AM or PM, never [Invalid Time]; and two
    different times of the day are never written the same. *)
Theorem twelve_hour_times (h m : Z) :
  0 <= h < 24 -> 0 <= m < 60 ->
  formatTime12Hour (Some (formatClock h m)) = twelveHour h m
  /\ twelveHour h m <> "Invalid Time"
  /\ (forall h' m', 0 <= h' < 24 -> 0 <= m' < 60 ->
        twelveHour h' m' = twelveHour h m -> h' = h /\ m' = m).
Proof.
  intros Hh Hm. pose proof (twelveHour_written h m Hh Hm) as Hhm.
  unfold writtenAs in Hhm. apply andb_true_iff in Hhm as [Heq Hne].
  apply String.eqb_eq in Heq. apply negb_true_iff, String.eqb_neq in Hne.
  split; [exact Heq|]. split; [exact Hne|].
  intros h' m' Hh' Hm' Hsame.
  pose proof (twelveHourTable_distinct _ _ (twelveHourTable_elem h' m' Hh' Hm')
                (twelveHourTable_elem h m Hh Hm) Hsame) as Hinj.
  by injection Hinj.
Qed.

End EndTimes.

Lemma end_times_agree_witness :
  @Service.addHoursToTime plainPlatform (Some "13:30") 0.33
  = Some (@ApiClient.calculateEndTime plainPlatform "13:30" 0.33)
  /\ @ApiClient.calculateEndTime plainPlatform "13:30" 0.33 = "13:50".
Proof.
  split; [|by vm_compute].
  apply (@end_times_agree plainPlatform "13:30" 0.33); [discriminate | reflexivity..].
Defined.

Lemma twelve_hour_times_witness :
  Service.formatTime12Hour (Some (formatClock 0 5)) = twelveHour 0 5
  /\ twelveHour 0 5 = "12:05 AM"
  /\ twelveHour 13 50 = "1:50 PM".
Proof.
  destruct (twelve_hour_times 0 5) as (Hw & _ & _); [lia..|].
  split; [exact Hw|]. split; reflexivity.
Defined.

(** ** The dry run of the client *)

Section DryRunAnalysis.

Import ApiClient.

(** An entry the dry run found on the server: a work package of the
    project [project_id] with its subject. *)
Definition foundOnServer (w : World) (e : Entry) : Prop :=
  exists p wp,
    project_id e = Some p /\ wp ∈ projectWorkPackages p w
    /\ subjectKey wp = normalize (subject e)
    /\ existing_work_package_id e = Some (wp_id wp).

Definition plainTask (e : Entry) : bool :=
  negb (is_scrum e) && negb (truthyZ (work_package_id e)).

Lemma dry_categorize_cases e a w :
  exists e' a' w',
    DryRun.categorizeEntryForAnalysis e a w = (Ok (e', a'), w')
    /\ quietly w w' /\ (quiet w -> quiet w')
    /\ DryRun.scrum a' = DryRun.scrum a ++ (if is_scrum e then [e] else [])
    /\ DryRun.existing a'
       = DryRun.existing a ++ (if otherWithId e then [e] else [])
    /\ ((plainTask e = false
         /\ DryRun.new a' = DryRun.new a
         /\ DryRun.existingWorkPackages a' = DryRun.existingWorkPackages a)
        \/ (plainTask e = true
            /\ exists r,
                 DryRun.new a' = DryRun.new a ++ unanswered [(e, r)]
                 /\ DryRun.existingWorkPackages a'
                    = DryRun.existingWorkPackages a ++ foundEntries [(e, r)]
                 /\ soundAnswer project_id w (e, r)
                 /\ (quiet w -> expectedAnswer project_id w (e, r)))).
Proof.
  unfold DryRun.categorizeEntryForAnalysis, otherWithId, plainTask.
  destruct (is_scrum e) eqn:Es; cbn [andb negb].
  - eexists _, _, _. split; [reflexivity|]. cbn. rewrite !app_nil_r.
    split; [apply quietly_refl|]. split; [done|]. split; [done|]. split; [done|].
    left. by repeat split.
  - destruct (truthyZ (work_package_id e)) eqn:Ew; cbn [negb].
    + eexists _, _, _. split; [reflexivity|]. cbn. rewrite !app_nil_r.
      split; [apply quietly_refl|]. split; [done|]. split; [done|]. split; [done|].
      left. by repeat split.
    + destruct (lookup_answer (project_id e) e w) as (r & w' & Hrun & Hq & Hs & Hexp).
      unfold bind. rewrite Hrun.
      assert (Hsound : soundAnswer project_id w (e, r)).
      { unfold soundAnswer in *. cbn [fst snd] in *. by destruct r. }
      destruct r as [wp|]; eexists _, _, _; (split; [reflexivity|]); cbn;
        rewrite ?app_nil_r; (split; [exact Hq|]); (split; [by intros Hq0; apply Hexp|]);
        (split; [done|]); (split; [done|]); right; (split; [done|]).
      * exists (Some wp). cbn. split; [by rewrite app_nil_r|]. split; [done|].
        split; [done|]. intros Hq0. exact (proj1 (Hexp Hq0)).
      * exists None. cbn. split; [done|]. split; [by rewrite app_nil_r|].
        split; [done|]. intros Hq0. exact (proj1 (Hexp Hq0)).
Qed.

Lemma foundOnServer_quietly w w' e : quietly w w' -> foundOnServer w' e -> foundOnServer w e.
Proof.
  intros (Hw & _ & _) (p & wp & Hp & Hin & Hk & He). exists p, wp.
  unfold projectWorkPackages in *. rewrite Hw in Hin. by repeat split.
Qed.

Lemma foundEntries_sound w answers :
  Forall (soundAnswer project_id w) answers -> Forall (foundOnServer w) (foundEntries answers).
Proof.
  induction 1 as [|[e r] answers Hs _ IH]; [constructor|].
  unfold soundAnswer in Hs. cbn [fst snd] in Hs.
  destruct r as [wp|]; cbn [foundEntries]; [|exact IH].
  constructor; [|exact IH]. destruct Hs as (p & Hp & Hin & Hk).
  exists p, wp. by repeat split.
Qed.

Lemma dry_analyseFrom_spec todo : forall index wl a w,
  exists wl' a' w' answers,
    DryRun.analyseFrom todo index wl a w = (Ok (wl', a'), w')
    /\ quietly w w' /\ length wl' = length wl
    /\ DryRun.scrum a' = DryRun.scrum a ++ List.filter is_scrum todo
    /\ DryRun.existing a' = DryRun.existing a ++ List.filter otherWithId todo
    /\ map fst answers = List.filter plainTask todo
    /\ DryRun.new a' = DryRun.new a ++ unanswered answers
    /\ DryRun.existingWorkPackages a' = DryRun.existingWorkPackages a ++ foundEntries answers
    /\ Forall (soundAnswer project_id w) answers
    /\ (quiet w -> Forall (expectedAnswer project_id w) answers).
Proof.
  induction todo as [|e todo IH]; intros index wl a w.
  - exists wl, a, w, []. cbn. rewrite !app_nil_r.
    split; [done|]. split; [apply quietly_refl|]. by repeat split.
  - cbn [DryRun.analyseFrom]. unfold bind.
    destruct (dry_categorize_cases e a w)
      as (e' & a1 & w1 & Hcat & Hq & Hquiet & Hs & Hx & Hrest).
    rewrite Hcat. cbn [fst snd].
    destruct (IH (index + 1)%nat (<[index := e']> wl) a1 w1)
      as (wl' & a' & w' & answers & Hrun & Hq' & Hlen & Hs' & Hx' & Hfst & Hn' & Hf'
          & Hall & Hexp).
    rewrite length_insert in Hlen.
    assert (Hall' : Forall (soundAnswer project_id w) answers).
    { eapply Forall_impl; [exact Hall|]. intros x. by apply soundAnswer_quietly. }
    assert (Hexp' : quiet w -> Forall (expectedAnswer project_id w) answers).
    { intros Hq0. eapply Forall_impl; [exact (Hexp (Hquiet Hq0))|]. intros x.
      by apply expectedAnswer_quietly. }
    cbn [List.filter].
    destruct Hrest as [(Hp & Hn & Hf) | (Hp & r & Hn & Hf & Hsound & Hexp1)].
    + exists wl', a', w', answers. rewrite Hrun, Hs', Hx', Hn', Hf', Hs, Hx, Hn, Hf, Hp.
      rewrite <- !app_assoc.
      split; [done|]. split; [by apply (quietly_trans w w1 w')|]. split; [done|].
      split; [by destruct (is_scrum e)|]. split; [by destruct (otherWithId e)|].
      by repeat split.
    + exists wl', a', w', ((e, r) :: answers).
      rewrite Hrun, Hs', Hx', Hn', Hf', Hs, Hx, Hn, Hf, Hp. rewrite <- !app_assoc.
      split; [done|]. split; [by apply (quietly_trans w w1 w')|]. split; [done|].
      split; [by destruct (is_scrum e)|]. split; [by destruct (otherWithId e)|].
      split; [cbn [map fst]; by rewrite Hfst|].
      split; [by destruct r|]. split; [by destruct r|].
      split; [by constructor|]. intros Hq0. constructor; [by apply Hexp1 | by apply Hexp'].
Qed.

Lemma dry_kinds_partition (l : list Entry) :
  (length (List.filter is_scrum l) + length (List.filter otherWithId l)
   + length (List.filter plainTask l) = length l)%nat.
Proof.
  induction l as [|e l IH]; [done|]. cbn [List.filter length].
  unfold otherWithId, plainTask in *.
  destruct (is_scrum e), (truthyZ (work_package_id e)); cbn [andb negb length]; lia.
Qed.

(** X18.  The dry run of the client ([dryRunWorkPackageAnalysis]) never
    throws and changes nothing on the server.  It sorts every entry of the
    work log, without leaving any out, into exactly one bucket, in the
    order of the work log: a scrum entry into [scrum], with or without a
    work-package id; any other entry with a work-package id into
    [existing]; for each of the rest the lookup is made in the project of
    [project_id], and the entry goes to [existingWorkPackages], with the
    identifier of the work package that the lookup answered, or to [new]
    when it answered none.  An answer is a work package of the entry's
    project with its subject, and when no request fails it is the first
    such on the server. *)
Theorem dry_run_sorts_every_entry (workLogEntries : list Entry) (w : World) :
  exists workLogEntries' a w',
    DryRun.dryRunWorkPackageAnalysis workLogEntries w = (Ok (workLogEntries', a), w')
    /\ work_packages w' = work_packages w /\ time_entries w' = time_entries w
    /\ length workLogEntries' = length workLogEntries
    /\ DryRun.scrum a = List.filter is_scrum workLogEntries
    /\ DryRun.existing a = List.filter otherWithId workLogEntries
    /\ (exists answers,
          map fst answers = List.filter plainTask workLogEntries
          /\ DryRun.new a = unanswered answers
          /\ DryRun.existingWorkPackages a = foundEntries answers
          /\ Forall (soundAnswer project_id w) answers
          /\ (quiet w -> Forall (expectedAnswer project_id w) answers))
    /\ (length (DryRun.new a) + length (DryRun.existingWorkPackages a)
        = length (List.filter plainTask workLogEntries))%nat
    /\ (length (DryRun.scrum a) + length (DryRun.existing a) + length (DryRun.new a)
        + length (DryRun.existingWorkPackages a) = length workLogEntries)%nat
    /\ Forall (foundOnServer w) (DryRun.existingWorkPackages a).
Proof.
  unfold DryRun.dryRunWorkPackageAnalysis.
  destruct (dry_analyseFrom_spec workLogEntries 0 workLogEntries DryRun.emptyAnalysis w)
    as (wl' & a & w' & answers & Hrun & (Hw & Ht & _) & Hlen & Hs & Hx & Hfst & Hn & Hf
        & Hall & Hexp).
  cbn [DryRun.scrum DryRun.existing DryRun.new DryRun.existingWorkPackages
       DryRun.emptyAnalysis app] in Hs, Hx, Hn, Hf.
  pose proof (dry_kinds_partition workLogEntries) as Hpart.
  destruct (answers_lengths answers) as [Hlens Hfound].
  assert (Hla : length answers = length (List.filter plainTask workLogEntries))
    by (by rewrite <- Hfst, length_map).
  exists wl', a, w'. rewrite Hs, Hx, Hn, Hf.
  split_and!; try done; [by exists answers | lia | lia |].
  by apply foundEntries_sound.
Qed.

(** Two tasks with the subject of a work package of the server, the second
    in another project: the first is found, the second is new. *)
Example dry_run_finds_the_first :
  let e (p : Z) := {| project := "P"; project_id := Some p; subject := "Fix login bug ";
                      activity := "Development"; hours := Some 1%Q;
                      duration_hours := None; break_hours := None; is_scrum := false;
                      work_package_id := None; existing_work_package_id := None;
                      entry_date := Some "2025-10-23"; date := None; start_time := None;
                      user_set_start_time := false; calculated_start_time := None;
                      calculated_end_time := None; comment := None; statusId := None;
                      statusName := None |} in
  match DryRun.dryRunWorkPackageAnalysis [e 7; e 8]
          (quietWorld [mkWorkPackage 1 7 "fix login bug"] []) with
  | (Ok (_, a), _) =>
      DryRun.existingWorkPackages a = [Service.setExistingWorkPackageId 1 (e 7)]
      /\ DryRun.new a = [e 8]
  | (Throw _, _) => False
  end.
Proof. vm_compute. by split. Qed.

End DryRunAnalysis.

(** ** The logs of a file *)

Section LogsOfAFile.

Import Parser.

Context `{LocalZone}.

Variable pm : gmap string Z.

(** [clock i] is the time value of [new Date()] when the log of index [i]
    is processed. *)
Variable clock : nat -> Z.

(** What a log contributes: its date and its tasks, when its date token is
    accepted and the first pass keeps at least one of its records; the
    error of the first pass, when it throws. *)
Definition contribution (logEntry : LogEntry) (now : Z)
  : Result (list (string * list TaskEntry)) :=
  if negb (truthyS (log_date logEntry)) then Ok []
  else
    match parseDateString (default "" (log_date logEntry)) with
    | Throw _ => Ok []
    | Ok parsedDate =>
        match processDateEntries pm (default [] (log_entries logEntry)) parsedDate now with
        | Ok tasks => Ok (if (0 <? length tasks)%nat then [(parsedDate, tasks)] else [])
        | Throw msg => Throw msg
        end
    end.

(** The contributions of the logs from index [logIndex] on, up to the
    first error. *)
Fixpoint contributionsFrom (logs : list LogEntry) (logIndex : nat)
  : Result (list (string * list TaskEntry)) :=
  match logs with
  | [] => Ok []
  | logEntry :: rest =>
      match contribution logEntry (clock logIndex) with
      | Throw msg => Throw msg
      | Ok c =>
          match contributionsFrom rest (logIndex + 1) with
          | Ok cs => Ok (c ++ cs)
          | Throw msg => Throw msg
          end
      end
  end.

Definition contributions (logs : list LogEntry) : Result (list (string * list TaskEntry)) :=
  contributionsFrom logs 0.

Definition setAll (object acc : list (string * list TaskEntry))
  : list (string * list TaskEntry) :=
  foldl (fun o x => setKey x.1 x.2 o) object acc.

Lemma setAll_app object acc acc' :
  setAll object (acc ++ acc') = setAll (setAll object acc) acc'.
Proof. unfold setAll. by rewrite foldl_app. Qed.

Lemma logStep_contribution l logIndex now st :
  match logStep pm l logIndex now st, contribution l now with
  | Ok st', Ok c =>
      allTimeEntries st' = setAll (allTimeEntries st) c
      /\ allEntries st' = allEntries st ++ concat (map snd c)
  | Throw msg, Throw msg' => msg = msg'
  | _, _ => False
  end.
Proof.
  unfold logStep, contribution, processLogEntry.
  destruct (negb (truthyS (log_date l))).
  { cbn. by rewrite app_nil_r. }
  destruct (parseDateString (default "" (log_date l))) as [d|msg].
  2:{ cbn. by rewrite app_nil_r. }
  destruct (processDateEntries pm (default [] (log_entries l)) d now) as [tasks|msg]; [|done].
  destruct (0 <? length tasks)%nat; cbn; by rewrite ?app_nil_r.
Qed.

Lemma logsFrom_contributions logs : forall logIndex st,
  match logsFrom pm clock logs logIndex st, contributionsFrom logs logIndex with
  | Ok r, Ok cs =>
      allTimeEntries r = setAll (allTimeEntries st) cs
      /\ allEntries r = allEntries st ++ concat (map snd cs)
  | Throw msg, Throw msg' => msg = msg'
  | _, _ => False
  end.
Proof.
  induction logs as [|l logs IH]; intros logIndex st.
  - cbn. by rewrite app_nil_r.
  - cbn [logsFrom contributionsFrom].
    pose proof (logStep_contribution l logIndex (clock logIndex) st) as Hstep.
    destruct (logStep pm l logIndex (clock logIndex) st) as [st'|msg],
             (contribution l (clock logIndex)) as [c|msg']; try done.
    destruct Hstep as [Ha He]. specialize (IH (logIndex + 1)%nat st').
    destruct (logsFrom pm clock logs (logIndex + 1) st') as [r|msg],
             (contributionsFrom logs (logIndex + 1)) as [cs|msg']; try done.
    destruct IH as [Ha' He']. rewrite Ha', He', Ha, He.
    by rewrite setAll_app, map_app, concat_app, app_assoc.
Qed.

Lemma getKey_setKey {A} (k k' : string) (v : A) o :
  getKey k' (setKey k v o) = if String.eqb k k' then Some v else getKey k' o.
Proof.
  induction o as [|[k0 v0] o IH]; cbn [setKey getKey]; [done|].
  destruct (String.eqb_spec k0 k) as [->|Hne]; cbn [getKey].
  - by destruct (String.eqb k k').
  - rewrite IH. destruct (String.eqb_spec k0 k') as [->|Hne']; [|done].
    destruct (String.eqb_spec k k'); [congruence | done].
Qed.

Lemma setKey_keys {A} (k : string) (v : A) o x :
  x ∈ map fst (setKey k v o) <-> x = k \/ x ∈ map fst o.
Proof.
  induction o as [|[k0 v0] o IH]; cbn [setKey map fst].
  - rewrite list_elem_of_singleton. split; [by left | intros [|Hx]; [done|]].
    by apply elem_of_nil in Hx.
  - destruct (String.eqb_spec k0 k) as [->|Hne]; cbn [map fst].
    + rewrite elem_of_cons. tauto.
    + rewrite !elem_of_cons, IH. tauto.
Qed.

Lemma setKey_NoDup {A} (k : string) (v : A) o :
  NoDup (map fst o) -> NoDup (map fst (setKey k v o)).
Proof.
  induction o as [|[k0 v0] o IH]; cbn [setKey map fst]; intros Hnd.
  - apply NoDup_singleton.
  - apply NoDup_cons in Hnd as [Hk0 Hnd].
    destruct (String.eqb_spec k0 k) as [->|Hne]; cbn [map fst].
    + by apply NoDup_cons.
    + apply NoDup_cons. split; [|by apply IH].
      rewrite setKey_keys. intros [|]; congruence.
Qed.

Lemma setKey_Forall {A} (P : string * A -> Prop) (k : string) (v : A) o :
  P (k, v) -> Forall P o -> Forall P (setKey k v o).
Proof.
  intros Hkv. induction o as [|[k0 v0] o IH]; cbn [setKey]; intros Hall.
  - by constructor.
  - apply Forall_cons in Hall as [H0 Hall].
    destruct (String.eqb_spec k0 k) as [->|Hne]; constructor; auto.
Qed.

Lemma setKey_fresh {A} (k : string) (v : A) o :
  k ∉ map fst o -> setKey k v o = o ++ [(k, v)].
Proof.
  induction o as [|[k0 v0] o IH]; cbn [setKey map fst app]; [done|].
  intros [Hne Hk]%not_elem_of_cons.
  destruct (String.eqb_spec k0 k); [congruence|]. by rewrite IH.
Qed.

(** The tasks of the last contribution for a date. *)
Fixpoint lastFor (day : string) (acc : list (string * list TaskEntry))
  : option (list TaskEntry) :=
  match acc with
  | [] => None
  | x :: rest =>
      match lastFor day rest with
      | Some tasks => Some tasks
      | None => if String.eqb x.1 day then Some x.2 else None
      end
  end.

Lemma getKey_setAll acc : forall o day,
  getKey day (setAll o acc)
  = match lastFor day acc with Some tasks => Some tasks | None => getKey day o end.
Proof.
  induction acc as [|[k v] acc IH]; intros o day; [done|].
  unfold setAll. cbn [foldl lastFor fst snd]. fold (setAll (setKey k v o) acc).
  rewrite IH, getKey_setKey. destruct (lastFor day acc); [done|].
  by destruct (String.eqb k day).
Qed.

Lemma setAll_fresh acc : forall o,
  NoDup (map fst o ++ map fst acc) -> setAll o acc = o ++ acc.
Proof.
  induction acc as [|[k v] acc IH]; intros o Hnd; [by rewrite app_nil_r|].
  unfold setAll. cbn [foldl fst snd]. fold (setAll (setKey k v o) acc).
  cbn [map fst] in Hnd.
  assert (Hk : k ∉ map fst o).
  { apply NoDup_app in Hnd as (_ & Hdis & _). intros Hin. apply (Hdis k Hin). by left. }
  rewrite (setKey_fresh k v o Hk), IH.
  - by rewrite <- app_assoc.
  - rewrite map_app, <- app_assoc. exact Hnd.
Qed.

Lemma contribution_ok l now c :
  contribution l now = Ok c ->
  Forall (fun kv => ApiClient.isCanonicalDate kv.1 = true /\ kv.2 <> []
                    /\ Forall (wellFormedTask pm kv.1) kv.2) c.
Proof.
  unfold contribution. destruct (negb (truthyS (log_date l))).
  { intros [= <-]. constructor. }
  destruct (parseDateString (default "" (log_date l))) as [d|msg] eqn:Hd.
  2:{ intros [= <-]. constructor. }
  pose proof (processDateEntries_wellFormed pm (default [] (log_entries l)) d now) as Hpass.
  destruct (processDateEntries pm (default [] (log_entries l)) d now) as [tasks|msg];
    [|discriminate].
  intros [= <-]. destruct (0 <? length tasks)%nat eqn:Hlen; [|constructor].
  constructor; [|constructor]. cbn [fst snd].
  split; [by apply (parsed_dates_canonical (default "" (log_date l)))|]. split.
  - intros Hnil. rewrite Hnil in Hlen. discriminate.
  - exact Hpass.
Qed.

Lemma contributionsFrom_ok logs : forall logIndex cs,
  contributionsFrom logs logIndex = Ok cs ->
  Forall (fun kv => ApiClient.isCanonicalDate kv.1 = true /\ kv.2 <> []
                    /\ Forall (wellFormedTask pm kv.1) kv.2) cs.
Proof.
  induction logs as [|l logs IH]; intros logIndex cs; cbn [contributionsFrom].
  { intros [= <-]. constructor. }
  destruct (contribution l (clock logIndex)) as [c|] eqn:Hc; [|discriminate].
  destruct (contributionsFrom logs (logIndex + 1)) as [cs'|] eqn:Hcs; [|discriminate].
  intros [= <-]. apply Forall_app. split; [by eapply contribution_ok | by eapply IH].
Qed.

(** The first pass throws nothing but the error of [toISOString]. *)
Lemma contributionsFrom_error logs : forall logIndex msg,
  contributionsFrom logs logIndex = Throw msg -> msg = JsDate.invalidTimeValue.
Proof.
  induction logs as [|l logs IH]; intros logIndex msg; cbn [contributionsFrom]; [done|].
  destruct (contribution l (clock logIndex)) as [c|msg'] eqn:Hc.
  - destruct (contributionsFrom logs (logIndex + 1)) as [cs'|] eqn:Hcs; [done|].
    intros [= <-]. by eapply IH.
  - intros [= <-]. revert Hc. unfold contribution.
    destruct (negb (truthyS (log_date l))); [done|].
    destruct (parseDateString (default "" (log_date l))) as [d|]; [|done].
    pose proof (processDateEntries_wellFormed pm (default [] (log_entries l)) d
                  (clock logIndex)) as Hpass.
    destruct (processDateEntries pm (default [] (log_entries l)) d (clock logIndex));
      [done|].
    by intros [= <-].
Qed.

Lemma setAll_Forall (P : string * list TaskEntry -> Prop) acc : forall o,
  Forall P o -> Forall P acc -> Forall P (setAll o acc).
Proof.
  induction acc as [|[k v] acc IH]; intros o Ho Hacc; [done|].
  apply Forall_cons in Hacc as [Hkv Hacc].
  unfold setAll. cbn [foldl fst snd]. apply IH; [|done]. by apply setKey_Forall.
Qed.

Lemma setAll_NoDup acc : forall o, NoDup (map fst o) -> NoDup (map fst (setAll o acc)).
Proof.
  induction acc as [|[k v] acc IH]; intros o Ho; [done|].
  unfold setAll. cbn [foldl fst snd]. apply IH. by apply setKey_NoDup.
Qed.

(** X19.  The object that [processLogEntries] builds has one key for every
    date: a key is a date of the form year-month-day, no key is there
    twice, no key has an empty list, and every task under a key carries the
    key as its date and is well formed.  [processLogEntries] throws only
    the error of [toISOString], where a start or an end is no date. *)
Theorem log_dates_are_keys (logs : list LogEntry) :
  match processLogEntries pm clock logs with
  | Ok r =>
      NoDup (map fst (allTimeEntries r))
      /\ Forall (fun kv => ApiClient.isCanonicalDate kv.1 = true /\ kv.2 <> []
                           /\ Forall (wellFormedTask pm kv.1) kv.2)
                (allTimeEntries r)
  | Throw msg => msg = JsDate.invalidTimeValue
  end.
Proof.
  unfold processLogEntries.
  pose proof (logsFrom_contributions logs 0
                {| allTimeEntries := []; allEntries := []; warnings := [] |}) as Hlogs.
  pose proof (contributionsFrom_ok logs 0) as Hok.
  pose proof (contributionsFrom_error logs 0) as Herr.
  destruct (logsFrom pm clock logs 0 _) as [r|msg], (contributionsFrom logs 0) as [cs|msg'];
    try done.
  - destruct Hlogs as [Ha _]. rewrite Ha. cbn [allTimeEntries]. split.
    + apply setAll_NoDup. constructor.
    + apply setAll_Forall; [constructor | by apply Hok].
  - rewrite Hlogs. by apply Herr.
Qed.

(** X20.  [allEntries] gathers the tasks of all the logs, in their order.
    Under a date the object holds the tasks of the last log of that date
    that has tasks: a later log of the same date replaces the earlier one
    there, while [allEntries] keeps both.  When no date comes twice the
    object holds the logs as they came, and [extractWorkLogEntries] gives
    back [allEntries].  [processLogEntries] throws what the first pass of
    a log throws. *)
Theorem later_log_replaces_earlier (logs : list LogEntry) :
  match processLogEntries pm clock logs, contributions logs with
  | Ok r, Ok cs =>
      allEntries r = concat (map snd cs)
      /\ (forall day, getKey day (allTimeEntries r) = lastFor day cs)
      /\ (NoDup (map fst cs) ->
          allTimeEntries r = cs
          /\ Service.extractWorkLogEntries (allTimeEntries r) = allEntries r)
  | Throw msg, Throw msg' => msg = msg'
  | _, _ => False
  end.
Proof.
  unfold processLogEntries, contributions.
  pose proof (logsFrom_contributions logs 0
                {| allTimeEntries := []; allEntries := []; warnings := [] |}) as Hlogs.
  destruct (logsFrom pm clock logs 0 _) as [r|msg], (contributionsFrom logs 0) as [cs|msg'];
    try done.
  destruct Hlogs as [Ha He]. rewrite Ha, He. cbn [allTimeEntries allEntries app].
  split; [done|]. split.
  - intros day. rewrite getKey_setAll. by destruct (lastFor day cs).
  - intros Hnd. rewrite setAll_fresh by done. by split.
Qed.

End LogsOfAFile.

(** ** What the loop of the client books *)

Section ClientBooks.

Import ApiClient.

Context `{JsPlatform}.

(** X21.  When no request fails and the date has the form year-month-day,
    the loop of the client leaves, for every entry whose detail is not an
    error, a work package for the entry (the one of its [work_package_id],
    or the one of its project with its subject) and a time entry on that
    work package for the date; whatever was on the server before is still
    there. *)
Theorem client_books_every_task (cfg : Config) (day : string) (workLogEntries : list Entry)
    (w : World) :
  isCanonicalDate day = true -> quiet w ->
  let r := processWorkLogEntries cfg workLogEntries day w in
  extends w (snd r)
  /\ Forall2 (fun e d =>
                isErrorDetail d = false ->
                exists id te,
                  resolved e (snd r) = Some id
                  /\ te ∈ time_entries (snd r)
                  /\ te_workPackage te = id /\ te_spentOn te = day)
             workLogEntries (details (fst r)).
Proof.
  intros Hday Hq r. subst r. unfold processWorkLogEntries.
  destruct (run_first cfg day Hday workLogEntries 0
              {| successful := 0; failed := 0; details := [] |} w Hq)
    as (ds & Hds & Hext & _ & _ & Hall).
  cbn [details app] in Hds. rewrite Hds. split; [exact Hext|].
  eapply Forall2_impl; [exact Hall|]. intros e d Hbook Hok.
  destruct (Hbook Hok) as (id & Hres & te & Hin & Hm).
  exists id, te. split; [exact Hres|]. split; [exact Hin|].
  unfold matchesPair in Hm. apply andb_true_iff in Hm as [Hd Hi].
  split; [lia | by apply String.eqb_eq].
Qed.

End ClientBooks.

Lemma client_books_every_task_witness :
  let l := [sampleEntry "write report" None; sampleEntry "linked" (Some 5)] in
  let r := @ApiClient.processWorkLogEntries plainPlatform sampleConfig l "2025-10-23"
             (quietWorld [] []) in
  extends (quietWorld [] []) (snd r)
  /\ map (fun te => (te_workPackage te, te_spentOn te)) (time_entries (snd r))
     = [(1000, "2025-10-23"); (5, "2025-10-23")].
Proof.
  intros l r.
  split; [|vm_compute; reflexivity].
  exact (proj1 (@client_books_every_task plainPlatform sampleConfig "2025-10-23" l
                  (quietWorld [] []) eq_refl eq_refl)).
Defined.

(** Two logs of one date: the object keeps the tasks of the later log,
    [allEntries] those of both. *)
Example same_date_twice :
  let log (token subject : string) :=
    {| Parser.log_date := Some token;
       Parser.log_entries := Some [rawTask subject 1 false] |} in
  match @Parser.processLogEntries utcZone {[ "P" := 7 ]} (fun _ => onTheDay 8 30)
          [log "oct-23-2025" "first"; log "October-23-2025" "second"] with
  | Ok r =>
      map Parser.t_subject (Service.extractWorkLogEntries (Parser.allTimeEntries r))
      = ["second"]
      /\ map Parser.t_subject (Parser.allEntries r) = ["first"; "second"]
      /\ map fst (Parser.allTimeEntries r) = ["2025-10-23"]
  | Throw _ => False
  end.
Proof. vm_compute. repeat split; reflexivity. Qed.

(** ** The check of the tasks against the server *)

Section ServerCheck.

Import Parser ApiClient.

(** A task the check looks up: no work-package id, no scrum task, and a
    project identifier. *)
Definition candidate (e : TaskEntry) (projectId : Z) : Prop :=
  shouldCheckForDuplicates e = true /\ t_project_id e = Some projectId /\ projectId <> 0.

Definition inGroup {A} (key : Z) (x : A) (object : list (Z * list A)) : Prop :=
  exists xs, (key, xs) ∈ object /\ x ∈ xs.

Lemma pushUnder_in {A} (key : Z) (x : A) object k' x' :
  inGroup k' x' (pushUnder key x object) <-> (k' = key /\ x' = x) \/ inGroup k' x' object.
Proof.
  unfold inGroup. induction object as [|[k xs] object IH]; cbn [pushUnder].
  - split.
    + intros (ys & Hin & Hx). apply list_elem_of_singleton in Hin as [= -> ->].
      apply list_elem_of_singleton in Hx. by left.
    + intros [[-> ->] | (ys & Hin & _)]; [|by apply elem_of_nil in Hin].
      exists [x]. split; by apply list_elem_of_singleton.
  - destruct (Z.eqb_spec k key) as [->|Hne].
    + split.
      * intros (ys & Hin & Hx). apply elem_of_cons in Hin as [[= -> ->] | Hin].
        -- apply elem_of_app in Hx as [Hx | Hx%list_elem_of_singleton].
           ++ right. exists xs. split; [by left | done].
           ++ by left.
        -- right. exists ys. split; [by right | done].
      * intros [[-> ->] | (ys & Hin & Hx)].
        -- exists (xs ++ [x]). split; [by left|]. apply elem_of_app. right. by left.
        -- apply elem_of_cons in Hin as [[= -> ->] | Hin].
           ++ exists (xs ++ [x]). split; [by left|]. apply elem_of_app. by left.
           ++ exists ys. split; [by right | done].
    + destruct (isArrayIndex key && (negb (isArrayIndex k) || (key <? k))).
      * split.
        -- intros (ys & Hin & Hx). apply elem_of_cons in Hin as [[= -> ->] | Hin].
           ++ apply list_elem_of_singleton in Hx. by left.
           ++ right. by exists ys.
        -- intros [[-> ->] | (ys & Hin & Hx)].
           ++ exists [x]. split; [by left | by apply list_elem_of_singleton].
           ++ exists ys. split; [by right | done].
      * split.
        -- intros (ys & Hin & Hx). apply elem_of_cons in Hin as [[= -> ->] | Hin].
           ++ right. exists xs. split; [by left | done].
           ++ destruct (proj1 IH (ex_intro _ ys (conj Hin Hx))) as [? | (zs & Hz & Hxz)];
                [by left|]. right. exists zs. split; [by right | done].
        -- intros [Heq | (ys & Hin & Hx)].
           ++ destruct (proj2 IH (or_introl Heq)) as (zs & Hz & Hxz).
              exists zs. split; [by right | done].
           ++ apply elem_of_cons in Hin as [[= -> ->] | Hin].
              ** exists xs. split; [by left | done].
              ** destruct (proj2 IH (or_intror (ex_intro _ ys (conj Hin Hx))))
                   as (zs & Hz & Hxz).
                 exists zs. split; [by right | done].
Qed.

Lemma groupFrom_in entries : forall index object k e i,
  inGroup k (e, i) (groupFrom entries index object)
  <-> inGroup k (e, i) object
      \/ exists j, entries !! j = Some e /\ i = (index + j)%nat /\ candidate e k.
Proof.
  induction entries as [|x entries IH]; intros index object k e i; cbn [groupFrom].
  - split; [by left | intros [? | (j & Hj & _)]; [done|]]. by rewrite lookup_nil in Hj.
  - rewrite IH. clear IH.
    assert (Hstep : (exists j, entries !! j = Some e /\ i = (index + 1 + j)%nat /\ candidate e k)
                    <-> exists j, (x :: entries) !! S j = Some e
                                  /\ i = (index + S j)%nat /\ candidate e k).
    { split; intros (j & Hj & -> & Hc); exists j; (split; [exact Hj|]); split; [lia|done|lia|done]. }
    destruct (shouldCheckForDuplicates x && truthyZ (t_project_id x)) eqn:Hx.
    + rewrite pushUnder_in. apply andb_true_iff in Hx as [Hs Hp].
      destruct (t_project_id x) as [pid|] eqn:Hpid; [|discriminate]. cbn [default].
      assert (Hnz : pid <> 0).
      { unfold truthyZ in Hp. apply negb_true_iff in Hp. lia. }
      split.
      * intros [[[-> [= -> ->]] | Hin] | Hlater].
        -- right. exists 0%nat. split; [done|]. split; [lia|]. by repeat split.
        -- by left.
        -- right. apply Hstep in Hlater as (j & Hj & Hi & Hc). by exists (S j).
      * intros [Hin | (j & Hj & Hi & Hc)]; [by left; right|].
        destruct j as [|j].
        -- injection Hj as ->. left. left. destruct Hc as (_ & Hp' & _).
           rewrite Hpid in Hp'. injection Hp' as ->. split; [done|]. f_equal. lia.
        -- right. apply Hstep. by exists j.
    + split.
      * intros [Hin | Hlater]; [by left|].
        right. apply Hstep in Hlater as (j & Hj & Hi & Hc). by exists (S j).
      * intros [Hin | (j & Hj & Hi & Hc)]; [by left|].
        destruct j as [|j].
        -- injection Hj as ->. destruct Hc as (Hs & Hp & Hnz). rewrite Hs, Hp in Hx.
           unfold truthyZ in Hx. cbn in Hx. apply negb_false_iff in Hx. lia.
        -- right. apply Hstep. by exists j.
Qed.

(** The report [d] is about the task [e] at place [i], looked up in the
    project [k]: it names a work package of the project whose subject is
    the task's, up to case and surrounding blanks. *)
Definition reports (w : World) (e : TaskEntry) (i : nat) (k : Z) (d : DuplicateError)
  : Prop :=
  entryIndex d = i /\ dup_projectId d = k
  /\ dup_subject d = t_subject e /\ dup_project d = t_project e
  /\ exists wp,
       wp ∈ projectWorkPackages k w /\ subjectKey wp = normalize (t_subject e)
       /\ existingWorkPackageId d = wp_id wp /\ existingSubject d = wp_subject wp.

Definition matched (w : World) (e : TaskEntry) (k : Z) : Prop :=
  is_Some (findMatchingWorkPackage (projectWorkPackages k w) (normalize (t_subject e))).

Lemma reports_tables w w' e i k d :
  work_packages w' = work_packages w -> reports w' e i k d -> reports w e i k d.
Proof.
  intros Hw (H1 & H2 & H3 & H4 & wp & Hin & Hrest). repeat split; try done.
  exists wp. unfold projectWorkPackages in *. by rewrite <- Hw.
Qed.

Lemma matched_tables w w' e k :
  work_packages w' = work_packages w -> matched w e k -> matched w' e k.
Proof. intros Hw. unfold matched, projectWorkPackages. by rewrite Hw. Qed.

Lemma checkEntryDuplicate_spec e k i w :
  exists r w',
    checkEntryDuplicate e k i w = (Ok r, w')
    /\ sameTables w w'
    /\ (forall d, r = Some d -> reports w e i k d)
    /\ (quiet w -> quiet w' /\ (matched w e k -> is_Some r)).
Proof.
  destruct (checkExisting_total (Some k) (t_subject e) w)
    as (r0 & n & w' & Hrun & _ & _ & Hw & Ht & _).
  unfold checkEntryDuplicate, tryCatch, bind. rewrite Hrun.
  assert (Hquiet : quiet w -> quiet w' /\ (matched w e k -> is_Some r0)).
  { intros Hq. destruct (checkExisting_quiet (Some k) (t_subject e) w Hq)
      as (w2 & Hrun2 & _ & Hq2).
    rewrite Hrun in Hrun2. injection Hrun2 as -> ->. by split. }
  destruct r0 as [wp|].
  - eexists _, _. split; [reflexivity|]. split; [by split|]. split.
    + intros d [= <-]. cbn. repeat split.
      apply checkExisting_sound in Hrun as (Hkey & p & [= <-] & Hin). by exists wp.
    + intros Hq. destruct (Hquiet Hq) as [Hq' _]. split; [done | by eexists].
  - eexists _, _. split; [reflexivity|]. split; [by split|]. split; [discriminate|].
    intros Hq. destruct (Hquiet Hq) as [Hq' Hnone]. split; [done|].
    intros Hm. destruct (Hnone Hm) as [? [=]].
Qed.

(** The place of a report: the project and the index it names. *)
Definition placeOf (d : DuplicateError) : Z * nat := (dup_projectId d, entryIndex d).

(** The places of the tasks of the groups, in the order in which
    [checkProjectDuplicates] goes through them. *)
Fixpoint places (object : list (Z * list (TaskEntry * nat))) : list (Z * nat) :=
  match object with
  | [] => []
  | (k, xs) :: rest => ((fun ei : TaskEntry * nat => (k, ei.2)) <$> xs) ++ places rest
  end.

Lemma checkProjectEntries_spec k projectEntries : forall acc w,
  exists added w',
    checkProjectEntries k projectEntries acc w = (Ok (acc ++ added), w')
    /\ sameTables w w'
    /\ Forall (fun d => exists e i, (e, i) ∈ projectEntries /\ reports w e i k d) added
    /\ (quiet w ->
        quiet w'
        /\ forall e i, (e, i) ∈ projectEntries -> matched w e k ->
                       exists d, d ∈ added /\ entryIndex d = i)
    /\ placeOf <$> added `sublist_of` ((fun ei : TaskEntry * nat => (k, ei.2)) <$> projectEntries).
Proof.
  induction projectEntries as [|[e i] rest IH]; intros acc w.
  - exists [], w. rewrite app_nil_r. split; [done|]. split; [by split|].
    split; [constructor|]. split; [|constructor]. intros Hq. split; [done|].
    intros e i Hin. by apply elem_of_nil in Hin.
  - cbn [checkProjectEntries]. unfold bind.
    destruct (checkEntryDuplicate_spec e k i w) as (r & w1 & Hrun & [Hw1 Ht1] & Hsound & Hq1).
    rewrite Hrun.
    destruct (IH (match r with Some d => acc ++ [d] | None => acc end) w1)
      as (added & w' & Hrest & [Hw Ht] & Hall & Hq' & Hsub).
    rewrite Hrest.
    assert (Hall' : Forall (fun d => exists e0 i0, (e0, i0) ∈ (e, i) :: rest
                                                    /\ reports w e0 i0 k d) added).
    { eapply Forall_impl; [exact Hall|]. intros d (e0 & i0 & Hin & Hr).
      exists e0, i0. split; [by right|]. by apply (reports_tables w w1). }
    exists (match r with Some d => d :: added | None => added end), w'.
    split; [destruct r; by rewrite <- ?app_assoc|].
    split; [split; congruence|]. split; [|split].
    + destruct r as [d|]; [|done]. constructor; [|done].
      exists e, i. split; [by left | by apply Hsound].
    + intros Hq. destruct (Hq1 Hq) as [Hqw1 Hfound]. destruct (Hq' Hqw1) as [Hqw' Hcomp].
      split; [done|]. intros e0 i0 Hin Hm. apply elem_of_cons in Hin as [[= -> ->] | Hin].
      * destruct (Hfound Hm) as [d ->]. exists d. split; [by left|].
        by destruct (Hsound d eq_refl).
      * destruct (Hcomp e0 i0 Hin (matched_tables w w1 e0 k Hw1 Hm)) as (d & Hd & Hi).
        exists d. split; [|done]. destruct r; [by right | done].
    + rewrite fmap_cons. destruct r as [d|].
      * destruct (Hsound d eq_refl) as (Hi & Hk & _). rewrite fmap_cons.
        unfold placeOf at 1. rewrite Hi, Hk. by apply sublist_skip.
      * by apply sublist_cons.
Qed.

Lemma checkProjectsFrom_spec object : forall acc w,
  exists added w',
    checkProjectsFrom object acc w = (Ok (acc ++ added), w')
    /\ sameTables w w'
    /\ Forall (fun d => exists e i k, inGroup k (e, i) object /\ reports w e i k d) added
    /\ (quiet w ->
        forall e i k, inGroup k (e, i) object -> matched w e k ->
                      exists d, d ∈ added /\ entryIndex d = i)
    /\ placeOf <$> added `sublist_of` places object.
Proof.
  induction object as [|[k xs] object IH]; intros acc w.
  - exists [], w. rewrite app_nil_r. split; [done|]. split; [by split|].
    split; [constructor|]. split; [|constructor].
    intros _ e i k (ys & Hin & _). by apply elem_of_nil in Hin.
  - cbn [checkProjectsFrom]. unfold bind.
    destruct (checkProjectEntries_spec k xs acc w)
      as (added1 & w1 & Hrun & [Hw1 Ht1] & Hall1 & Hq1 & Hsub1).
    rewrite Hrun.
    destruct (IH (acc ++ added1) w1) as (added & w' & Hrest & [Hw Ht] & Hall & Hq' & Hsub).
    rewrite Hrest. exists (added1 ++ added), w'. rewrite app_assoc.
    split; [done|]. split; [split; congruence|]. split; [|split].
    + apply Forall_app. split.
      * eapply Forall_impl; [exact Hall1|]. intros d (e & i & Hin & Hr).
        exists e, i, k. split; [|done]. exists xs. split; [by left | done].
      * eapply Forall_impl; [exact Hall|]. intros d (e & i & k' & (ys & Hin & Hx) & Hr).
        exists e, i, k'. split; [|by apply (reports_tables w w1)].
        exists ys. split; [by right | done].
    + intros Hq e i k' (ys & Hin & Hx) Hm. destruct (Hq1 Hq) as [Hqw1 Hcomp1].
      apply elem_of_cons in Hin as [[= -> ->] | Hin].
      * destruct (Hcomp1 e i Hx Hm) as (d & Hd & Hi). exists d.
        split; [|done]. apply elem_of_app. by left.
      * destruct (Hq' Hqw1 e i k' (ex_intro _ ys (conj Hin Hx))
                    (matched_tables w w1 e k' Hw1 Hm)) as (d & Hd & Hi).
        exists d. split; [|done]. apply elem_of_app. by right.
    + rewrite fmap_app. cbn [places]. by apply sublist_app.
Qed.

(** X22.  The check of the parsed tasks against the server
    ([validateAgainstServerDuplicates]) never throws and changes nothing on
    the server.  Every report it returns is about a task of the list, at
    the place the report names, that has no work-package id, is no scrum
    task and has a project identifier, and names a work package of that
    project with the task's subject, up to case and surrounding blanks.
    When the client cannot be set up there is no report; when it can and no
    request fails, every such task with such a work package is reported. *)
Theorem server_check_reports (initializeApiClient : Result unit) (entries : list TaskEntry)
    (w : World) :
  exists duplicateErrors w',
    validateAgainstServerDuplicates initializeApiClient entries w = (Ok duplicateErrors, w')
    /\ work_packages w' = work_packages w /\ time_entries w' = time_entries w
    /\ Forall (fun d => exists e,
                  entries !! entryIndex d = Some e /\ candidate e (dup_projectId d)
                  /\ reports w e (entryIndex d) (dup_projectId d) d)
              duplicateErrors
    /\ (forall msg, initializeApiClient = Throw msg -> duplicateErrors = [])
    /\ (initializeApiClient = Ok tt -> quiet w ->
        forall i e k,
          entries !! i = Some e -> candidate e k -> matched w e k ->
          exists d, d ∈ duplicateErrors /\ entryIndex d = i).
Proof.
  unfold validateAgainstServerDuplicates. cbv zeta.
  destruct entries as [|x entries].
  { exists [], w. cbn. by repeat split. }
  cbn [length Nat.eqb].
  destruct initializeApiClient as [[]|msg].
  - unfold tryCatch, checkProjectDuplicates.
    destruct (checkProjectsFrom_spec (groupEntriesByProject (x :: entries)) [] w)
      as (added & w' & Hrun & [Hw Ht] & Hall & Hcomp & _).
    rewrite Hrun. cbn [app]. exists added, w'. split; [done|]. split; [done|].
    split; [done|]. split; [|split; [discriminate|]].
    + eapply Forall_impl; [exact Hall|]. intros d (e & i & k & Hin & Hr).
      unfold groupEntriesByProject in Hin. apply groupFrom_in in Hin as [Hin | Hin].
      { destruct Hin as (ys & Hy & _). by apply elem_of_nil in Hy. }
      destruct Hin as (j & Hj & -> & Hc). cbn [Nat.add] in Hr.
      destruct Hr as (Hi & Hk & Hr). exists e. rewrite Hi, Hk.
      split; [done|]. split; [done|]. split; [done|]. by split.
    + intros _ Hq i e k Hi Hc Hm. apply (Hcomp Hq e i k); [|done].
      unfold groupEntriesByProject. apply groupFrom_in. right. by exists i.
  - eexists [], _. split; [reflexivity|]. cbn. repeat split; try done.
Qed.

(** *** The order of the reports *)

Lemma StronglySorted_sublist {A} (R : relation A) (l1 l2 : list A) :
  l1 `sublist_of` l2 -> StronglySorted R l2 -> StronglySorted R l1.
Proof.
  induction 1 as [|x l1 l2 Hsub IH|x l1 l2 Hsub IH]; [done| |].
  - rewrite !StronglySorted_cons. intros [Hall Hs]. split; [|by apply IH].
    rewrite Forall_forall in Hall. apply Forall_forall. intros y Hy.
    apply Hall. by apply (sublist_subseteq _ _ Hsub).
  - rewrite StronglySorted_cons. intros [_ Hs]. by apply IH.
Qed.

Lemma StronglySorted_lookup {A} (R : relation A) (l : list A) :
  StronglySorted R l ->
  forall a b x y, (a < b)%nat -> l !! a = Some x -> l !! b = Some y -> R x y.
Proof.
  induction 1 as [|z l Hs IH Hall]; intros a b x y Hab Ha Hb.
  - by rewrite lookup_nil in Ha.
  - destruct b as [|b]; [lia|]. destruct a as [|a].
    + injection Ha as ->. cbn in Hb. exact (Forall_lookup_1 _ _ _ _ Hall Hb).
    + apply (IH a b); [lia | done | done].
Qed.

(** By project, then by index. *)
Definition before (x y : Z * nat) : Prop :=
  x.1 < y.1 \/ (x.1 = y.1 /\ (x.2 < y.2)%nat).

(** The keys of the groups are array indices, in ascending order. *)
Definition keysOk {A} (object : list (Z * list A)) : Prop :=
  StronglySorted Z.lt (fst <$> object) /\ Forall (fun p => isArrayIndex p.1 = true) object.

(** The tasks of every group are in the order of their indices, which are
    below [index]. *)
Definition groupsOk (index : nat) (object : list (Z * list (TaskEntry * nat))) : Prop :=
  Forall (fun p : Z * list (TaskEntry * nat) =>
            StronglySorted (fun a b : TaskEntry * nat => (a.2 < b.2)%nat) p.2
            /\ Forall (fun a : TaskEntry * nat => (a.2 < index)%nat) p.2)
         object.

Lemma pushUnder_keys {A} (key : Z) (x : A) object p :
  p ∈ pushUnder key x object -> p.1 = key \/ p.1 ∈ fst <$> object.
Proof.
  induction object as [|[k xs] object IH]; cbn [pushUnder].
  - intros ->%list_elem_of_singleton. by left.
  - destruct (Z.eqb_spec k key) as [->|Hne].
    + intros [->|Hin]%elem_of_cons; [by left|].
      right. rewrite fmap_cons. right. by apply list_elem_of_fmap_2.
    + destruct (isArrayIndex key && (negb (isArrayIndex k) || (key <? k))).
      * intros [->|Hin]%elem_of_cons; [by left|]. right.
        by apply (list_elem_of_fmap_2 fst) in Hin.
      * intros [->|Hin]%elem_of_cons; [right; by left|].
        destruct (IH Hin) as [? | ?]; [by left|]. right. rewrite fmap_cons. by right.
Qed.

Lemma pushUnder_keysOk {A} (key : Z) (x : A) object :
  isArrayIndex key = true -> keysOk object -> keysOk (pushUnder key x object).
Proof.
  intros Hkey. induction object as [|[k xs] object IH]; cbn [pushUnder].
  - intros _. split; repeat constructor. done.
  - intros [Hsorted Hall]. rewrite fmap_cons in Hsorted.
    apply StronglySorted_cons in Hsorted as [Hlt Hsorted].
    apply Forall_cons in Hall as [Hk Hall]. cbn [fst] in Hk, Hlt.
    destruct (Z.eqb_spec k key) as [->|Hne].
    + split; [rewrite fmap_cons; by apply StronglySorted_cons | by constructor].
    + rewrite Hkey, Hk. cbn [andb negb orb].
      destruct (Z.ltb_spec key k) as [Hkk|Hkk].
      * split; [|by repeat constructor].
        rewrite !fmap_cons. cbn [fst]. apply StronglySorted_cons. split.
        -- constructor; [done|]. eapply Forall_impl; [exact Hlt|]. intros; cbn in *; lia.
        -- by apply StronglySorted_cons.
      * destruct (IH (conj Hsorted Hall)) as [Hsorted' Hall'].
        split; [|by constructor]. rewrite fmap_cons. apply StronglySorted_cons.
        split; [|done]. apply Forall_forall. intros k' Hk'.
        apply list_elem_of_fmap in Hk' as (p & -> & Hp).
        destruct (pushUnder_keys _ _ _ _ Hp) as [-> | Hin]; [cbn; lia|].
        rewrite Forall_forall in Hlt. by apply Hlt.
Qed.

Lemma pushUnder_groupsOk (key : Z) (e : TaskEntry) (index : nat) object :
  groupsOk index object -> groupsOk (index + 1) (pushUnder key (e, index) object).
Proof.
  assert (Hmono : forall xs : list (TaskEntry * nat),
             Forall (fun a => (a.2 < index)%nat) xs ->
             Forall (fun a => (a.2 < index + 1)%nat) xs).
  { intros xs Hxs. eapply Forall_impl; [exact Hxs|]. intros; cbn in *; lia. }
  assert (Hone : StronglySorted (fun a b : TaskEntry * nat => (a.2 < b.2)%nat) [(e, index)]
                 /\ Forall (fun a : TaskEntry * nat => (a.2 < index + 1)%nat) [(e, index)]).
  { split; repeat constructor. cbn. lia. }
  unfold groupsOk. induction object as [|[k xs] object IH]; cbn [pushUnder].
  - intros _. by constructor.
  - intros [[Hs Hb] Hall]%Forall_cons. cbn [snd] in Hs, Hb.
    assert (Hall' : Forall (fun p : Z * list (TaskEntry * nat) =>
                StronglySorted (fun a b : TaskEntry * nat => (a.2 < b.2)%nat) p.2
                /\ Forall (fun a : TaskEntry * nat => (a.2 < index + 1)%nat) p.2) object).
    { eapply Forall_impl; [exact Hall|]. intros p [? ?]. split; [done | by apply Hmono]. }
    destruct (k =? key).
    + constructor; [|done]. cbn [snd]. split.
      * apply StronglySorted_app. split; [|split; [done | by repeat constructor]].
        intros a b Ha ->%list_elem_of_singleton. rewrite Forall_forall in Hb. by apply Hb.
      * apply Forall_app. split; [by apply Hmono | apply Hone].
    + destruct (isArrayIndex key && (negb (isArrayIndex k) || (key <? k))).
      * constructor; [done|]. constructor; [|done]. split; [done | by apply Hmono].
      * constructor; [|by apply IH]. split; [done | by apply Hmono].
Qed.

Lemma groupFrom_ok entries : forall index object,
  Forall (fun e => forall k, t_project_id e = Some k -> 0 <= k <= 4294967294) entries ->
  keysOk object -> groupsOk index object ->
  keysOk (groupFrom entries index object)
  /\ exists n, groupsOk n (groupFrom entries index object).
Proof.
  induction entries as [|x entries IH]; intros index object Hids Hkeys Hgroups;
    cbn [groupFrom].
  - split; [done | by exists index].
  - apply Forall_cons in Hids as [Hid Hids].
    destruct (shouldCheckForDuplicates x && truthyZ (t_project_id x)) eqn:Hx.
    + apply andb_true_iff in Hx as [_ Hp].
      destruct (t_project_id x) as [pid|]; [|discriminate]. cbn [default].
      apply IH; [done | | by apply pushUnder_groupsOk].
      apply pushUnder_keysOk; [|done]. unfold isArrayIndex.
      specialize (Hid pid eq_refl). change (id pid) with pid.
      apply andb_true_iff. split; apply Z.leb_le; lia.
    + apply IH; [done..|]. eapply Forall_impl; [exact Hgroups|].
      intros p [? Hb]. split; [done|]. eapply Forall_impl; [exact Hb|]. intros; cbn in *; lia.
Qed.

Lemma places_keys object x : x ∈ places object -> x.1 ∈ fst <$> object.
Proof.
  induction object as [|[k xs] object IH]; cbn [places]; [by intros ?%elem_of_nil|].
  rewrite fmap_cons. intros [Hin | Hin]%elem_of_app.
  - apply list_elem_of_fmap in Hin as (ei & -> & _). by left.
  - right. by apply IH.
Qed.

Lemma places_sorted index object :
  keysOk object -> groupsOk index object -> StronglySorted before (places object).
Proof.
  unfold keysOk, groupsOk. induction object as [|[k xs] object IH]; cbn [places].
  - intros _ _. constructor.
  - rewrite fmap_cons. intros [[Hlt Hsorted]%StronglySorted_cons [_ Hall]%Forall_cons].
    intros [[Hs _] Hgroups]%Forall_cons. cbn [fst snd] in *.
    apply StronglySorted_app. split; [|split].
    + intros a b Ha Hb. apply list_elem_of_fmap in Ha as (ei & -> & _).
      apply places_keys in Hb. left. cbn [fst].
      rewrite Forall_forall in Hlt. by apply Hlt.
    + eapply StronglySorted_fmap; [|exact Hs]. intros a b Hab. right. by split.
    + by apply IH.
Qed.

(** X23.  When the project identifiers of the tasks are array indices (whole
    numbers from 0 to 2^32 - 2), the reports of
    [validateAgainstServerDuplicates] come by project, in ascending order of
    the project identifier, and within a project in the order of the tasks
    in the list: not in the order of the list as a whole. *)
Theorem server_check_order (initializeApiClient : Result unit) (entries : list TaskEntry)
    (w : World) :
  Forall (fun e => forall k, t_project_id e = Some k -> 0 <= k <= 4294967294) entries ->
  exists duplicateErrors w',
    validateAgainstServerDuplicates initializeApiClient entries w = (Ok duplicateErrors, w')
    /\ forall a b da db,
         (a < b)%nat ->
         duplicateErrors !! a = Some da -> duplicateErrors !! b = Some db ->
         dup_projectId da < dup_projectId db
         \/ (dup_projectId da = dup_projectId db /\ (entryIndex da < entryIndex db)%nat).
Proof.
  intros Hids. unfold validateAgainstServerDuplicates. cbv zeta.
  destruct entries as [|x entries].
  { exists [], w. split; [done|]. intros a b da db _ Ha. by rewrite lookup_nil in Ha. }
  cbn [length Nat.eqb].
  destruct initializeApiClient as [[]|msg].
  - unfold tryCatch, checkProjectDuplicates.
    destruct (checkProjectsFrom_spec (groupEntriesByProject (x :: entries)) [] w)
      as (added & w' & Hrun & _ & _ & _ & Hsub).
    rewrite Hrun. cbn [app]. exists added, w'. split; [done|].
    destruct (groupFrom_ok (x :: entries) 0 [] Hids) as [Hkeys [n Hgroups]].
    { split; constructor. }
    { constructor. }
    pose proof (StronglySorted_sublist before _ _ Hsub
                  (places_sorted n _ Hkeys Hgroups)) as Hsorted.
    intros a b da db Hab Ha Hb.
    apply (StronglySorted_lookup before _ Hsorted a b (placeOf da) (placeOf db) Hab);
      rewrite list_lookup_fmap; [by rewrite Ha | by rewrite Hb].
  - eexists [], _. split; [reflexivity|]. intros a b da db _ Ha. by rewrite lookup_nil in Ha.
Qed.

End ServerCheck.

(** Two tasks of two projects, the later one of the project with the
    smaller identifier, and a server that has a work package for each. *)
Definition projectTask (project : string) (projectId : Z) (subject : string)
  : Parser.TaskEntry :=
  {| Parser.t_project := project; Parser.t_work_package_id := None;
     Parser.t_project_id := Some projectId; Parser.t_subject := subject;
     Parser.t_activity := "Development"; Parser.t_start_time := 0;
     Parser.t_end_time := 0; Parser.t_hours := 1;
     Parser.t_break_minutes := JsNumber.Finite 0;
     Parser.t_break_hours := 0; Parser.t_is_scrum := false;
     Parser.t_entry_date := "2025-10-23" |}.

Definition twoProjects : list Parser.TaskEntry :=
  [projectTask "Alpha" 7 "Fix login"; projectTask "Beta" 3 "Write docs"].

Definition twoProjectsServer : World :=
  quietWorld [mkWorkPackage 41 7 "fix login"; mkWorkPackage 42 3 "Write Docs"] [].

Lemma server_check_order_witness :
  exists duplicateErrors w',
    Parser.validateAgainstServerDuplicates (Ok tt) twoProjects twoProjectsServer
    = (Ok duplicateErrors, w')
    /\ forall a b da db,
         (a < b)%nat ->
         duplicateErrors !! a = Some da -> duplicateErrors !! b = Some db ->
         Parser.dup_projectId da < Parser.dup_projectId db
         \/ (Parser.dup_projectId da = Parser.dup_projectId db
             /\ (Parser.entryIndex da < Parser.entryIndex db)%nat).
Proof.
  apply (server_check_order (Ok tt) twoProjects twoProjectsServer).
  repeat (apply List.Forall_cons; [intros k [= <-]; lia|]). apply List.Forall_nil.
Defined.

(** The second task of the list is reported first. *)
Example reports_by_project :
  match (Parser.validateAgainstServerDuplicates (Ok tt) twoProjects twoProjectsServer).1 with
  | Ok duplicateErrors =>
      map (fun d => (Parser.entryIndex d, Parser.dup_projectId d,
                     Parser.existingWorkPackageId d)) duplicateErrors
      = [(1%nat, 3, 42); (0%nat, 7, 41)]
  | Throw _ => False
  end.
Proof. vm_compute. reflexivity. Qed.
